(* ===== verification/_CoqProject ===== *)
-Q . S2P
Prelude.v
KMonad.v
Bytes.v
Text.v
Steps.v
Resources.v
SimplefsLayout.v
Simplefs.v
SimplefsInv.v
SimplefsAlloc.v
SimplefsLocks.v
SimplefsDir.v
SimplefsCreate.v
SimplefsFile.v
SimplefsMkfs.v
SimplefsImage.v
SimplefsFaults.v
SimplefsTheorems.v
SimplefsErrors.v
SimplefsTree.v
SimplefsRefine.v
SimplefsSim.v
SimplefsTreeTheorems.v
SimplefsPartial.v
SimplefsFailures.v
SimplefsDangle.v
SimplefsSignals.v
SimplefsDisk.v
FtraceHook.v
FtraceTheorems.v
BlockDev.v
BlockDevTheorems.v
MutexDev.v
CharDev.v
CharDevTheorems.v
MmapDev.v
PciDevice.v
PciDriver.v
PciTheorems.v
PciBinding.v
Rcu.v
RcuInv.v
RcuProgress.v
RcuTheorems.v
RcuOrder.v
CodecPci.v
CodecTheorems.v
Deferred.v
Worker.v
HrTimer.v
LrTimer.v
Umh.v
Sysfs.v
Notifier.v
Netlink.v
NetlinkTheorems.v
Registration.v
Idr.v
WakeUp.v
Pernet.v
ProcessList.v
ProcessWalk.v
UdpSend.v
UdpTheorems.v
