(* ===== verification/Prelude.v ===== *)
(** * Verification of the LKM collection of Linux kernel modules

    The repository is a collection of small, independent kernel modules (one
    directory each under src/), with a few user programs that exercise them.
    This library models every module that has code of its own and proves what
    each is for, and, where the code does not do it, what it does instead.

    ** How the code is modelled

    A module is C code that runs against services of the kernel.  Two styles of
    model are used, both executable.

    - Straight-line code with error paths is a program of the monad of [KMonad]:
      the state is the module's static variables, each kernel service is a
      constructor with its arguments, and its answers come from an environment,
      so a theorem for every environment covers every failure of every call.
      The trace of calls is part of the result: what is printed, sent or
      registered is read off it, and [Resources] computes from it what a run
      still holds.
    - Code that interleaves (threads, callbacks, timers, loading and unloading) is a
      function per task, from the shared state and a program counter to the next;
      [Steps] runs a schedule of such steps.

    Undefined behaviour is a result: [fault] says which (NULL or wild pointer, out
    of bounds, use after free, undefined shift, BUG, code of an unloaded
    module, free of what was not allocated).  Memory is lists of bytes ([Bytes]) with accesses that fail outside
    the object; integers are [Z] with the wrap-around of their C type written
    out ([uwrap], [swrap] below).  A kernel service whose behaviour matters is an
    interface with the laws its documentation states, and the module's theorems
    hold for every implementation: [NotifierChain] (Notifier), [IdrMap] (Idr),
    the grace periods of RCU (parameters of Rcu), the device on the other side
    of the PCI driver (PciDriver), [HrtimerForward] and [JiffiesConv] (the two
    timers), [PciCore] (PciBinding).

    ** Parts and files

    Shared: [Prelude] (integers, errno, tactics), [KMonad], [Bytes], [Text]
    (numbers in text), [Steps], [Resources].

    - simplefs/simple.c, simple.h, super.h, mkfs.c: [SimplefsLayout] (structures and
      their bytes), [Simplefs] (one definition per function; the state [fs] is
      the buffer cache, the slab objects and the super block), [SimplefsInv]
      (memory invariant), [SimplefsAlloc] (block bitmap, inode search),
      [SimplefsLocks] (lock discipline), [SimplefsDir], [SimplefsCreate],
      [SimplefsFile] (directories as lists of entries, files as byte strings,
      and the operations on them), [SimplefsMkfs], [SimplefsImage] (the image
      builder and its image through the buffer cache), [SimplefsFaults],
      [SimplefsTheorems]; [SimplefsErrors] (reading, writing and creating in an
      environment where any service may fail); [SimplefsTree] (the abstract
      file tree: numbered files and directories and the open inodes on them,
      one specified step per VFS call, and the relation [rep] to the memory),
      [SimplefsRefine] (how [rep] is kept), [SimplefsSim] (a simulation per
      operation), [SimplefsTreeTheorems]; sequences of calls in which services
      fail, compared call by call with the run in which nothing does:
      [SimplefsPartial] (what each step of an operation that stops half way
      does to the tree), [SimplefsFailures] (memory, disk blocks and user
      buffers), [SimplefsDangle] (one interrupted wait and nothing else),
      [SimplefsSignals] (anything fails and any wait is interrupted);
      [SimplefsDisk] (which bytes are on the device: the blocks each run
      synchronised, remounting, and a power failure at any point).
    - ftrace/ftrace_hook.c: [FtraceHook], [FtraceTheorems] (what ftrace holds,
      recomputed from the calls).
    - block_device/simple.c: [BlockDev], [BlockDevTheorems].
    - mutex/simple.c, mutex/poc.c: [MutexDev] (read and write as byte-by-byte copies
      that interleave); loading in [CharDev.MutexModule].
    - char_device/version1 and version2, misc_device: [CharDev] (modules V1, V2,
      Misc), [CharDevTheorems].
    - ioctl_mmap/simple.c, test.c: [MmapDev]; loading in [CharDev.MmapModule].
    - pci/my_pci_device.c: [PciDevice]; pci/driver_pci.c: [PciDriver], whose
      accesses go to that device; [PciTheorems]; [PciBinding] (the device from
      realization to its end, its type and class as the source fills them in,
      and the match with the drivers' ID tables).
    - pci/unknown/simple.c: [CodecPci], [CodecTheorems].
    - RCU/simple.c: [Rcu], [RcuInv] (who owns which object), [RcuProgress],
      [RcuTheorems], [RcuOrder] (the sequence of values each reader sees).
    - timer/, tasklet, soft_irq, workqueue: [Deferred] (loading, the deferred
      function and unloading, interleaved); worker, with its thread: [Worker];
      the timers in real time: [HrTimer], [LrTimer].  umh: [Umh].
    - udp_send/version1 and version2: [UdpSend], [UdpTheorems].
    - sysfs: [Sysfs].  notifier/: [Notifier].  netlink/: [Netlink] (module Kernel
      for simple.c, User for user.c), [NetlinkTheorems].  idr: [Idr].  wake_up:
      [WakeUp].  pernet: [Pernet].  process_list: [ProcessList], and
      [ProcessWalk] for the walk while processes are created and exit.
    - debugfs, proc_fs, netfilter, LSM, netdev/, EXPORT_SYMBOL, and the
      registrations of pernet and notifier/publisher.c: [Registration], a Module
      each.

    The modules do not interact, with these exceptions, which are modelled: mkfs
    writes the image simplefs mounts; the PCI driver drives the PCI device of
    the repository; poc.c, test.c and user.c use the mutex, mmap and netlink
    modules; subscribers register with the publisher.

    ** What the theorems show

    - Functional behaviour and refinement: simplefs as a whole against a tree of
      files and directories, for every sequence of VFS calls
      ([simplefs_refines_tree] for the sequences the tree specification allows
      when nothing fails, [simplefs_follows_tree] when services fail, and
      [every_session_follows_tree] when waits are interrupted too, both up to
      a call that stops or that the specification leaves open, [outside];
      [image_is_tree] gives a starting point and [lookup_never_dangles] a
      consequence), its directory operations one by one
      against lists of entries ([create_refines], [lookup_spec], [iterate_spec],
      [create_then_lookup]), block requests against the storage
      ([do_request_transfers]), the sysfs files against a map ([sysfs_refines]),
      the driver against the device ([exercise_device_effect]), publishing
      against the set of loaded subscribers ([publish_spec]), a netlink
      exchange end to end ([conversation]), the hooked execve against the
      original ([execve_hook_transparent]), the values RCU readers see against the
      order of the updates ([rcu_reads_in_order]), the walk over the processes
      against a snapshot ([walk_prints_snapshot]), the calls on the mutex device
      against a serial execution ([calls_serialize]), which table the device
      matches and what the driver finds on it ([tables_match],
      [probe_created_device], [hello_lifecycle]).
    - What is on the device: after answered calls a new mount finds what was
      stored ([answered_calls_are_durable]), for any number of mounts
      ([sessions_survive_remount]), and, when nothing fails otherwise, a power
      failure at any point of a call leaves the tree of before it, of after it,
      or a state between that is described ([crash_anywhere];
      [crash_counts_unstored] is the one that breaks the image).
    - Time: one line a second at most ([hr_at_most_one_line_per_second],
      [lr_at_most_one_line_per_second]), on a grid that does not drift for the
      high-resolution timer ([hr_no_drift]) and drifts for the other
      ([lr_drifts]).
    - Round trips: [write_then_read], [write_read_roundtrip], [ints_roundtrip],
      [store_then_show], [mkfs_image_reads_back].
    - Invariants of every reachable state, for every interleaving or environment:
      [reachable_wf], [vfs_ops_balance_locks], [rcu_safe] (which allows for the
      unchecked NULL of a failed allocation, as does [rcu_terminates]),
      [v1_thread_safe], [waiting_unload_safe], [umh_safe], [wake_up_safe],
      [pernet_safe].
    - Progress: [rcu_terminates], [mutex_is_released], [v1_unload_completes],
      [waiting_unload_completes], [umh_signal_stops].
    - Error paths: every way a read, a write or a creation of simplefs can end,
      with the memory it leaves ([read_ends], [write_ends], [create_ends]); what
      each failed step of loading or probing leaves behind
      ([install_hooks_all_or_nothing], [probe_all_or_nothing],
      [init_all_or_nothing], [codec_probe_paths], [codec_load_paths],
      [v1_init_paths], [v2_init_paths], [registrations_unchecked]) and that
      unloading undoes loading ([fh_exit_undoes_init], [load_unload_balanced],
      [registrations]).
    - Defects, as theorems about the code as it is: blocks of the image handed out
      twice ([first_file_overlaps_root]), the bitmap beyond bit 30
      ([allocator_exhausted]), locks after a signal
      ([interrupted_waits_break_locking]), an entry without an inode after one
      ([one_signal_dangles]), directories and names that overflow,
      requests and positions outside their storage ([start_past_end_overruns],
      [positions_overrun_page]), and unloading that races ([rcu_unload_races],
      [v1_unload_races], [unload_races], [umh_unload_races], [wake_up_races]) or
      that cannot succeed ([worker_unload_fails]), allocations that are not
      checked ([rcu_without_memory], [workqueue_without_memory]), pointers of
      an earlier probe unmapped again ([codec_reprobe_unmaps_twice]),
      a walk over processes without a lock ([walk_races]), a device without
      memory or not reset ([hello_without_memory], [hello_reset_incomplete]).

    ** Bounds and fuel

    Two definitions use fuel: [dec_digits], which prints an [int] with fuel 10,
    its largest number of digits ([length_print_d], [scan_print_d]), and
    [hooked_call], which follows calls of a hooked function ([hook_runs_once]
    shows that more than two are never made, whatever the fuel).  Loops
    with a C bound are recursive on the number of iterations left; the loops of
    threads are unbounded schedules of steps.  Where a loop must end, a theorem
    says in how many steps: 60 for the RCU example from any state, 257 for a
    mutex holder, 11 for unloading the UDP sender, 36 for a deferred function.

    ** Not modelled

    - Time, except in the two timers: elsewhere sleeps only order steps; time
      stamps of inodes are left out.
    - Weak memory: interleavings are sequentially consistent.
    - What the kernel does behind a service, beyond the documented effect that a
      model states: the VFS and its caches, seq_file, the block layer's
      queues, netfilter, the network stack, sysfs itself.  [simplefs_mount] and
      [simplefs_kill_superblock] take the kernel function they call as an
      argument.  QEMU's handling of the type the PCI device registers, with the
      assertion pci/tips mentions, is left out: the device is modelled from its
      realization on.  Unloading with a file open does not arise: the kernel counts
      open files of the modules that name an owner.
    - Blocks of simplefs that are marked dirty and not synchronised: the kernel
      may write them back at any moment; [SimplefsDisk] counts only the blocks
      the code synchronises.  Operations of simplefs that interleave: each call
      runs to its end before the next.
    - The text of most debugging output, and module parameters that change while
      the module is loaded.
    - Lines without behaviour: includes, prototypes, MODULE_ macros. *)

From stdpp Require Export base list numbers functions gmap strings.
From Stdlib Require Export ZArith Lia.

#[global] Open Scope Z_scope.

(** ** Automation *)

(** Lemmas that rewrite machine-integer wrap-around and list lengths. *)
Create HintDb lkm.

(** [split_and_solve] closes conjunctions of linear facts. *)
Ltac arith := repeat split; try lia.

(** Case analysis on every [if]/[match] scrutinee of the goal, keeping the
    equation, with linear arithmetic discharging the impossible branches. *)
Ltac split_cases :=
  repeat (case_match; simplify_eq/=; try done).

(** Turn the boolean comparisons of the model into propositions. *)
Ltac bool_hyps :=
  repeat match goal with
  | H : (_ && _) = true |- _ => apply andb_true_iff in H; destruct H
  | H : (_ || _) = false |- _ => apply orb_false_iff in H; destruct H
  | H : (_ =? _) = true |- _ => apply Z.eqb_eq in H
  | H : (_ =? _) = false |- _ => apply Z.eqb_neq in H
  | H : (_ <? _) = true |- _ => apply Z.ltb_lt in H
  | H : (_ <? _) = false |- _ => apply Z.ltb_ge in H
  | H : (_ <=? _) = true |- _ => apply Z.leb_le in H
  | H : (_ <=? _) = false |- _ => apply Z.leb_gt in H
  | H : negb _ = true |- _ => apply negb_true_iff in H
  | H : negb _ = false |- _ => apply negb_false_iff in H
  end.

(** ** Fixed-width C integers *)

(** [uwrap w z] is the value of [z] stored in a [w]-bit unsigned object,
    [swrap w z] the value in a [w]-bit two's-complement one. *)
Definition uwrap (w z : Z) : Z := z mod 2 ^ w.
Definition swrap (w z : Z) : Z := (z + 2 ^ (w - 1)) mod 2 ^ w - 2 ^ (w - 1).

Abbreviation u8 := (uwrap 8).
Abbreviation u16 := (uwrap 16).
Abbreviation u32 := (uwrap 32).
Abbreviation u64 := (uwrap 64).
Abbreviation s32 := (swrap 32).
Abbreviation s64 := (swrap 64).

Lemma uwrap_range w z : 0 <= w -> 0 <= uwrap w z < 2 ^ w.
Proof. intros. apply Z.mod_pos_bound. by apply Z.pow_pos_nonneg. Qed.

Lemma uwrap_id w z : 0 <= z < 2 ^ w -> uwrap w z = z.
Proof. apply Z.mod_small. Qed.

Lemma swrap_range w z : 0 < w -> - 2 ^ (w - 1) <= swrap w z < 2 ^ (w - 1).
Proof.
  intros Hw. unfold swrap.
  assert (2 ^ w = 2 * 2 ^ (w - 1)) as E
    by (rewrite <- Z.pow_succ_r by lia; f_equal; lia).
  assert (0 < 2 ^ (w - 1)) by (apply Z.pow_pos_nonneg; lia).
  pose proof (Z.mod_pos_bound (z + 2 ^ (w - 1)) (2 ^ w)). lia.
Qed.

Lemma swrap_id w z : 0 < w -> - 2 ^ (w - 1) <= z < 2 ^ (w - 1) -> swrap w z = z.
Proof.
  intros Hw Hz. unfold swrap.
  assert (2 ^ w = 2 * 2 ^ (w - 1)) as E
    by (rewrite <- Z.pow_succ_r by lia; f_equal; lia).
  rewrite Z.mod_small; lia.
Qed.

(** Storing a value twice at the same width, whatever the signedness, is
    storing it once. *)
Lemma uwrap_swrap w z : 0 < w -> uwrap w (swrap w z) = uwrap w z.
Proof.
  intros Hw. unfold uwrap, swrap.
  rewrite Zminus_mod_idemp_l. f_equal. lia.
Qed.

Lemma swrap_uwrap w z : 0 < w -> swrap w (uwrap w z) = swrap w z.
Proof.
  intros Hw. unfold uwrap, swrap. by rewrite Zplus_mod_idemp_l.
Qed.

Lemma uwrap_add_l w a b : uwrap w (uwrap w a + b) = uwrap w (a + b).
Proof. apply Zplus_mod_idemp_l. Qed.

(** Linear arithmetic after the powers of two of the common widths have been
    replaced by numerals. *)
Ltac int_lia :=
  change (2 ^ 8) with 256 in *; change (2 ^ 16) with 65536 in *;
  change (2 ^ 31) with 2147483648 in *;
  change (2 ^ 32) with 4294967296 in *;
  change (2 ^ 63) with 9223372036854775808 in *;
  change (2 ^ 64) with 18446744073709551616 in *;
  change (2 ^ (32 - 1)) with 2147483648 in *;
  change (2 ^ (64 - 1)) with 9223372036854775808 in *; lia.

(** The [int]-typed shift [1 << i]: the kernel is compiled with
    wrapping signed arithmetic, so [1 << 31] is [INT_MIN]; a count outside
    [0, 31] is undefined and gives [None]. *)
Definition shl1_int (i : Z) : option Z :=
  if (0 <=? i) && (i <? 32) then Some (s32 (Z.shiftl 1 i)) else None.

(** Converting an [int] operand to [uint64_t] (usual arithmetic conversions). *)
Definition int_to_u64 (z : Z) : Z := u64 z.

(** ** errno values used by the modules *)
Definition EPERM : Z := 1.
Definition ENOENT : Z := 2.
Definition EINTR : Z := 4.
Definition EIO : Z := 5.
Definition ENOMEM : Z := 12.
Definition EFAULT : Z := 14.
Definition ENODEV : Z := 19.
Definition ENOTDIR : Z := 20.
Definition EINVAL : Z := 22.
Definition ENOTTY : Z := 25.
Definition ENOSPC : Z := 28.
