(* ===== verification/KMonad.v ===== *)
(** * The kernel-call monad

    Every module of the repository is C code that runs against kernel services
    it does not define.  A component declares the services it calls as an
    inductive type [C] (one constructor per kernel function, carrying the
    arguments), with the type of each answer given by [KApi].  What the kernel
    answers is a parameter: an [env] maps the history of earlier calls and the
    current call to an answer, so a statement quantified over every [env]
    covers every behaviour of the kernel.  A run threads the module's own state
    [S] and the trace of calls made, newest first, and either returns or stops
    at a [fault] (a behaviour that C leaves undefined, or a BUG). *)

From S2P Require Export Prelude.

Class KApi (C : Type) := resp : C -> Type.

Inductive fault :=
  | NullDeref         (* access through a NULL pointer *)
  | BadPointer        (* access through an error pointer (ERR_PTR) *)
  | OutOfBounds       (* access outside the object a pointer designates *)
  | UseAfterFree      (* access to an object after it was freed *)
  | BugOn             (* BUG_ON(...) or BUG() reached *)
  | UndefinedShift    (* shift count not smaller than the width *)
  | UnloadedCode      (* call of a function of a module that is gone *)
  | BadFree.          (* free of memory that was not allocated *)

#[export] Instance fault_eq_dec : EqDecision fault.
Proof. solve_decision. Defined.

Inductive outcome (A S T : Type) :=
  | Ok (a : A) (s : S) (tr : T)
  | Fault (f : fault) (s : S) (tr : T).
Arguments Ok {A S T} a s tr.
Arguments Fault {A S T} f s tr.

Section kmonad.
Context {C : Type} {api : KApi C} {S : Type}.

Definition event : Type := { c : C & resp c }.
Definition trace : Type := list event.
Definition env : Type := trace -> forall c : C, resp c.

Definition ev (c : C) (r : resp c) : event := existT c r.

Definition M (A : Type) : Type := env -> S -> trace -> outcome A S trace.

#[export] Instance M_ret : MRet M := fun A a e s tr => Ok a s tr.
#[export] Instance M_bind : MBind M := fun A B f m e s tr =>
  match m e s tr with
  | Ok a s' tr' => f a e s' tr'
  | Fault x s' tr' => Fault x s' tr'
  end.

(** Perform a kernel call and record it with its answer. *)
Definition call (c : C) : M (resp c) := fun e s tr =>
  Ok (e tr c) s (existT c (e tr c) :: tr).
Definition fail {A} (x : fault) : M A := fun e s tr => Fault x s tr.
Definition get : M S := fun e s tr => Ok s s tr.
Definition gets {A} (f : S -> A) : M A := fun e s tr => Ok (f s) s tr.
Definition put (s : S) : M unit := fun e _ tr => Ok tt s tr.
Definition modify (f : S -> S) : M unit := fun e s tr => Ok tt (f s) tr.

(** Use a value that may be missing, faulting with [x] when it is. *)
Definition or_fault {A} (x : fault) (o : option A) : M A :=
  match o with Some a => mret a | None => fail x end.

(** ** Weakest preconditions

    [wp m e Q s tr]: from [s] and [tr] the run returns (no fault) and the
    result satisfies [Q].  [wlp] is the variant that allows a fault. *)
Definition wp {A} (m : M A) (e : env) (Q : A -> S -> trace -> Prop)
    (s : S) (tr : trace) : Prop :=
  match m e s tr with Ok a s' tr' => Q a s' tr' | Fault _ _ _ => False end.
Definition wlp {A} (m : M A) (e : env) (Q : A -> S -> trace -> Prop)
    (s : S) (tr : trace) : Prop :=
  match m e s tr with Ok a s' tr' => Q a s' tr' | Fault _ _ _ => True end.

Lemma wp_ret {A} (a : A) e Q s tr : wp (mret a) e Q s tr <-> Q a s tr.
Proof. done. Qed.
Lemma wp_bind {A B} (m : M A) (f : A -> M B) e Q s tr :
  wp (m ≫= f) e Q s tr <-> wp m e (fun a s' tr' => wp (f a) e Q s' tr') s tr.
Proof. unfold wp, mbind, M_bind. by destruct (m e s tr). Qed.
Lemma wp_call c e Q s tr :
  wp (call c) e Q s tr <-> Q (e tr c) s (existT c (e tr c) :: tr).
Proof. done. Qed.
Lemma wp_get e Q s tr : wp get e Q s tr <-> Q s s tr.
Proof. done. Qed.
Lemma wp_gets {A} (f : S -> A) e Q s tr : wp (gets f) e Q s tr <-> Q (f s) s tr.
Proof. done. Qed.
Lemma wp_modify f e Q s tr : wp (modify f) e Q s tr <-> Q tt (f s) tr.
Proof. done. Qed.
Lemma wp_or_fault {A} x (o : option A) e Q s tr :
  wp (or_fault x o) e Q s tr <-> exists a, o = Some a /\ Q a s tr.
Proof. destruct o as [a|]; cbv [or_fault wp mret M_ret fail].
  - split; [intros H; by exists a | by intros (b & [= <-] & H)].
  - split; [done | by intros (b & [=] & _)].
Qed.

Lemma wlp_ret {A} (a : A) e Q s tr : wlp (mret a) e Q s tr <-> Q a s tr.
Proof. done. Qed.
Lemma wlp_bind {A B} (m : M A) (f : A -> M B) e Q s tr :
  wlp (m ≫= f) e Q s tr <-> wlp m e (fun a s' tr' => wlp (f a) e Q s' tr') s tr.
Proof. unfold wlp, mbind, M_bind. by destruct (m e s tr). Qed.
Lemma wlp_call c e Q s tr :
  wlp (call c) e Q s tr <-> Q (e tr c) s (existT c (e tr c) :: tr).
Proof. done. Qed.
Lemma wlp_get e Q s tr : wlp get e Q s tr <-> Q s s tr.
Proof. done. Qed.
Lemma wlp_gets {A} (f : S -> A) e Q s tr : wlp (gets f) e Q s tr <-> Q (f s) s tr.
Proof. done. Qed.
Lemma wlp_modify f e Q s tr : wlp (modify f) e Q s tr <-> Q tt (f s) tr.
Proof. done. Qed.
Lemma wlp_or_fault {A} x (o : option A) e Q s tr :
  wlp (or_fault x o) e Q s tr <-> forall a, o = Some a -> Q a s tr.
Proof. destruct o as [a|]; cbv [or_fault wlp mret M_ret fail].
  - split; [by intros H b [= <-] | eauto].
  - split; [by intros _ b | done].
Qed.
Lemma wlp_fail {A} x e (Q : A -> S -> trace -> Prop) s tr :
  wlp (fail x) e Q s tr <-> True.
Proof. done. Qed.

Lemma wp_mono {A} (m : M A) e (Q R : A -> S -> trace -> Prop) s tr :
  wp m e Q s tr -> (forall a s' tr', Q a s' tr' -> R a s' tr') -> wp m e R s tr.
Proof. unfold wp. destruct (m e s tr); eauto. Qed.
Lemma wlp_mono {A} (m : M A) e (Q R : A -> S -> trace -> Prop) s tr :
  wlp m e Q s tr -> (forall a s' tr', Q a s' tr' -> R a s' tr') -> wlp m e R s tr.
Proof. unfold wlp. destruct (m e s tr); eauto. Qed.
Lemma wp_wlp {A} (m : M A) e (Q : A -> S -> trace -> Prop) s tr :
  wp m e Q s tr -> wlp m e Q s tr.
Proof. unfold wp, wlp. by destruct (m e s tr). Qed.
Lemma wp_and {A} (m : M A) e (Q R : A -> S -> trace -> Prop) s tr :
  wp m e Q s tr -> wlp m e R s tr ->
  wp m e (fun a s' tr' => Q a s' tr' /\ R a s' tr') s tr.
Proof. unfold wp, wlp. by destruct (m e s tr). Qed.

Lemma wlp_any {A} (m : M A) e s tr : wlp m e (fun _ _ _ => True) s tr.
Proof. unfold wlp. by destruct (m e s tr). Qed.
(** The rest of a run, whatever its first part did. *)
Lemma wlp_bind_any {A R} (m : M R) (f : R -> M A) e Q s tr :
  (forall a s' tr', wlp (f a) e Q s' tr') -> wlp (m ≫= f) e Q s tr.
Proof. intros H. apply wlp_bind. eapply wlp_mono; [apply wlp_any|]. intros; apply H. Qed.

(** [obs m e P s tr]: the outcome of the run, a fault included, satisfies
    [P]. *)
Definition obs {A} (m : M A) (e : env) (P : outcome A S trace -> Prop)
    (s : S) (tr : trace) : Prop := P (m e s tr).
Lemma obs_bind {A B} (m : M A) (f : A -> M B) e P s tr :
  wp m e (fun a s' tr' => obs (f a) e P s' tr') s tr -> obs (m ≫= f) e P s tr.
Proof. unfold obs, wp, mbind, M_bind. by destruct (m e s tr). Qed.
Lemma obs_fault_bind {A B} (m : M A) (f : A -> M B) e P x s tr :
  obs m e (fun o => exists s' tr', o = Fault x s' tr' /\ P (Fault x s' tr')) s tr ->
  obs (m ≫= f) e P s tr.
Proof. unfold obs, mbind, M_bind. by intros (s' & tr' & -> & ?). Qed.

(** A run that satisfies a [wp] is an [Ok]. *)
Lemma wp_run {A} (m : M A) e (Q : A -> S -> trace -> Prop) s tr :
  wp m e Q s tr <-> exists a s' tr', m e s tr = Ok a s' tr' /\ Q a s' tr'.
Proof. unfold wp. destruct (m e s tr) as [a s' tr'|x s' tr'].
  - split; [intros; by exists a, s', tr' | by intros (? & ? & ? & [= <- <- <-] & ?)].
  - split; [done | by intros (? & ? & ? & [=] & ?)].
Qed.
End kmonad.

Arguments event C {api}.
Arguments trace C {api}.
Arguments env C {api}.
Arguments M C {api} S A.

(** The answer of a service that answers nothing. *)
Lemma unit_eta (u : unit) : u = tt.
Proof. by destruct u. Qed.

(** The calls of a trace, oldest first. *)
Definition calls {C} {api : KApi C} (tr : trace C) : list C := rev (projT1 <$> tr).

(** Reduce a [wp]/[wlp] goal over the monad's primitives, leaving the
    branches and the calls of named operations. *)
Ltac wp_step :=
  lazymatch goal with
  | |- wp (mbind _ _) _ _ _ _ => apply wp_bind
  | |- wp (mret _) _ _ _ _ => apply wp_ret
  | |- wp (call ?c) ?e ?Q ?s ?tr => refine (proj2 (wp_call c e Q s tr) _)
  | |- wp get _ _ _ _ => apply wp_get
  | |- wp (gets _) _ _ _ _ => apply wp_gets
  | |- wp (modify _) _ _ _ _ => apply wp_modify
  | |- wlp (mbind _ _) _ _ _ _ => apply wlp_bind
  | |- wlp (mret _) _ _ _ _ => apply wlp_ret
  | |- wlp (call ?c) ?e ?Q ?s ?tr => refine (proj2 (wlp_call c e Q s tr) _)
  | |- wlp get _ _ _ _ => apply wlp_get
  | |- wlp (gets _) _ _ _ _ => apply wlp_gets
  | |- wlp (modify _) _ _ _ _ => apply wlp_modify
  | |- wlp (fail _) _ _ _ _ => exact I
  | |- wlp (or_fault _ _) _ _ _ _ => apply wlp_or_fault; intros ? ?
  end; cbn beta.
Ltac wp_go := repeat wp_step.
