(* ===== verification/Bytes.v ===== *)
(** * Byte memory

    Objects in memory are lists of bytes ([Z] in [0, 256)).  [load]/[store]
    access a window of an object and fail outside it; [le_enc]/[le_dec] are the
    little-endian representations of the unsigned C integers. *)

From S2P Require Export Prelude.

Abbreviation bytes := (list Z).

Definition is_byte (b : Z) : Prop := 0 <= b < 256.
Abbreviation wf_bytes := (Forall is_byte).

(** ** Little-endian integers *)

Fixpoint le_enc (n : nat) (z : Z) : bytes :=
  match n with
  | O => []
  | S n' => z mod 256 :: le_enc n' (z / 256)
  end.

Fixpoint le_dec (l : bytes) : Z :=
  match l with
  | [] => 0
  | b :: l' => b + 256 * le_dec l'
  end.

Lemma length_le_enc n z : length (le_enc n z) = n.
Proof. revert z. induction n; intros; simpl; [done | by rewrite IHn]. Qed.

Lemma le_enc_wf n z : wf_bytes (le_enc n z).
Proof.
  revert z. induction n as [|n IH]; intros z; simpl; [done|].
  constructor; [|done]. unfold is_byte. pose proof (Z.mod_pos_bound z 256). lia.
Qed.

Lemma pow256_S n : 256 ^ Z.of_nat (S n) = 256 * 256 ^ Z.of_nat n.
Proof. rewrite Nat2Z.inj_succ, Z.pow_succ_r by lia. done. Qed.

Lemma le_dec_enc n z : le_dec (le_enc n z) = z mod 256 ^ Z.of_nat n.
Proof.
  revert z. induction n as [|n IH]; intros z.
  - simpl. by rewrite Z.mod_1_r.
  - cbn [le_enc le_dec]. rewrite IH, pow256_S.
    assert (0 < 256 ^ Z.of_nat n) by (apply Z.pow_pos_nonneg; lia).
    rewrite Z.rem_mul_r by lia. lia.
Qed.

Lemma le_dec_enc_id n z : 0 <= z < 256 ^ Z.of_nat n -> le_dec (le_enc n z) = z.
Proof. intros. rewrite le_dec_enc. by apply Z.mod_small. Qed.

Lemma le_dec_bound l : wf_bytes l -> 0 <= le_dec l < 256 ^ Z.of_nat (length l).
Proof.
  unfold is_byte. induction 1 as [|b l Hb _ IH]; cbn [le_dec length]; [done|].
  rewrite pow256_S. lia.
Qed.

Lemma le_enc_dec l : wf_bytes l -> le_enc (length l) (le_dec l) = l.
Proof.
  unfold is_byte. induction 1 as [|b l Hb _ IH]; cbn [le_dec le_enc length]; [done|].
  rewrite (Z.mul_comm 256), Z.mod_add, Z.mod_small by lia.
  rewrite Z.div_add, Z.div_small by lia. by rewrite Z.add_0_l, IH.
Qed.

(** ** Windows of an object *)

Definition in_object (off len : Z) (l : bytes) : bool :=
  (0 <=? off) && (0 <=? len) && (off + len <=? Z.of_nat (length l)).

(** [load off len l]: the [len] bytes at offset [off]. *)
Definition load (off len : Z) (l : bytes) : option bytes :=
  if in_object off len l
  then Some (take (Z.to_nat len) (drop (Z.to_nat off) l)) else None.

(** [store off d l]: [l] with the bytes [d] written at offset [off]. *)
Definition store (off : Z) (d : bytes) (l : bytes) : option bytes :=
  if in_object off (Z.of_nat (length d)) l
  then Some (take (Z.to_nat off) l ++ d ++
             drop (Z.to_nat off + length d) l) else None.

Definition load_le (off : Z) (n : nat) (l : bytes) : option Z :=
  le_dec <$> load off (Z.of_nat n) l.
Definition store_le (off : Z) (n : nat) (z : Z) (l : bytes) : option bytes :=
  store off (le_enc n z) l.

Lemma in_object_spec off len l :
  in_object off len l = true <->
  0 <= off /\ 0 <= len /\ off + len <= Z.of_nat (length l).
Proof. unfold in_object. rewrite !andb_true_iff, !Z.leb_le. tauto. Qed.

Lemma load_Some off len l :
  0 <= off -> 0 <= len -> off + len <= Z.of_nat (length l) ->
  load off len l = Some (take (Z.to_nat len) (drop (Z.to_nat off) l)).
Proof.
  intros. unfold load. by rewrite (proj2 (in_object_spec off len l)).
Qed.

Lemma load_None off len l :
  0 <= off -> 0 <= len ->
  load off len l = None <-> Z.of_nat (length l) < off + len.
Proof.
  intros. unfold load. destruct (in_object off len l) eqn:E.
  - apply in_object_spec in E. split; [done | lia].
  - split; [intros _ | done]. apply Z.nle_gt. intros ?.
    apply not_true_iff_false in E. apply E, in_object_spec. lia.
Qed.

Lemma load_length off len l d :
  load off len l = Some d -> Z.of_nat (length d) = len.
Proof.
  unfold load. destruct (in_object off len l) eqn:E; [|done].
  apply in_object_spec in E. intros [= <-].
  rewrite length_take, length_drop. lia.
Qed.

Lemma load_take n l d : load 0 n l = Some d -> take (Z.to_nat n) l = d.
Proof. unfold load. destruct (in_object 0 n l); [|done]. by intros [= <-]. Qed.

Lemma load_wf off len l d : wf_bytes l -> load off len l = Some d -> wf_bytes d.
Proof.
  unfold load. destruct (in_object off len l); [|done]. intros ? [= <-].
  by apply Forall_take, Forall_drop.
Qed.

Lemma store_Some off d l :
  0 <= off -> off + Z.of_nat (length d) <= Z.of_nat (length l) ->
  store off d l = Some (take (Z.to_nat off) l ++ d ++
                        drop (Z.to_nat off + length d) l).
Proof.
  intros. unfold store.
  rewrite (proj2 (in_object_spec off (Z.of_nat (length d)) l)) by lia. done.
Qed.

Lemma store_None off d l :
  0 <= off -> Z.of_nat (length l) < off + Z.of_nat (length d) ->
  store off d l = None.
Proof.
  intros. unfold store.
  destruct (in_object off (Z.of_nat (length d)) l) eqn:E; [|done].
  apply in_object_spec in E. lia.
Qed.

Lemma store_inv off d l l' :
  store off d l = Some l' ->
  0 <= off /\ off + Z.of_nat (length d) <= Z.of_nat (length l) /\
  l' = take (Z.to_nat off) l ++ d ++ drop (Z.to_nat off + length d) l.
Proof.
  unfold store. destruct (in_object _ _ _) eqn:E; [|done].
  apply in_object_spec in E. intros [= <-]. arith.
Qed.

Lemma store_length off d l l' : store off d l = Some l' -> length l' = length l.
Proof.
  intros (? & ? & ->)%store_inv.
  rewrite !length_app, length_take, length_drop. lia.
Qed.

Lemma store_wf off d l l' :
  wf_bytes l -> wf_bytes d -> store off d l = Some l' -> wf_bytes l'.
Proof.
  intros ? ? (? & ? & ->)%store_inv.
  apply Forall_app; split; [by apply Forall_take|].
  apply Forall_app; split; [done | by apply Forall_drop].
Qed.

(** Reading back the window just written. *)
Lemma load_store_same off d l l' :
  store off d l = Some l' -> load off (Z.of_nat (length d)) l' = Some d.
Proof.
  intros Hs. pose proof (store_length _ _ _ _ Hs).
  apply store_inv in Hs as (? & ? & ->).
  rewrite load_Some by (rewrite ?H; lia). f_equal.
  rewrite drop_app_length' by (rewrite length_take; lia).
  rewrite Nat2Z.id. by rewrite take_app_length.
Qed.

(** A window that does not meet the written one is unchanged. *)
Lemma load_store_disjoint off d l l' off' len' :
  store off d l = Some l' ->
  off' + len' <= off \/ off + Z.of_nat (length d) <= off' ->
  load off' len' l' = load off' len' l.
Proof.
  intros Hs Hdis. pose proof (store_length _ _ _ _ Hs) as Hlen.
  unfold load, in_object. rewrite Hlen.
  destruct (_ && _) eqn:E; [|done]. bool_hyps.
  apply store_inv in Hs as (? & ? & ->). f_equal.
  apply list_eq. intros i.
  destruct (decide (i < Z.to_nat len')%nat) as [Hi|Hi];
    [|rewrite !lookup_take_ge by lia; done].
  rewrite !lookup_take_lt, !lookup_drop by done.
  destruct Hdis as [?|?].
  - rewrite lookup_app_l by (rewrite length_take; lia).
    by rewrite lookup_take_lt by lia.
  - rewrite app_assoc, lookup_app_r by (rewrite length_app, length_take; lia).
    rewrite length_app, length_take, lookup_drop. f_equal. lia.
Qed.

Lemma load_le_store_same off n z l l' :
  store_le off n z l = Some l' -> 0 <= z < 256 ^ Z.of_nat n ->
  load_le off n l' = Some z.
Proof.
  unfold store_le, load_le. intros Hs Hz.
  pose proof (load_store_same _ _ _ _ Hs) as Hl.
  rewrite length_le_enc in Hl. rewrite Hl. simpl. by rewrite le_dec_enc_id.
Qed.

(** ** C strings *)

(** [strcmp_eq mem s]: whether the NUL-terminated string at the start of [mem]
    equals the string [s] (given without its terminator), reading [mem] only as
    far as the first difference, as [!strcmp] does; [None] when that read leaves
    the object. *)
Fixpoint strcmp_eq (mem s : bytes) : option bool :=
  match mem, s with
  | [], _ => None
  | b :: _, [] => Some (b =? 0)
  | b :: mem', c :: s' => if b =? c then strcmp_eq mem' s' else Some false
  end.

(** The bytes of a string before its terminator are not NUL. *)
Abbreviation c_string := (Forall (fun b => 0 < b < 256)).

Lemma strcmp_eq_iff s s' rest :
  c_string s -> c_string s' ->
  exists b, strcmp_eq (s ++ 0 :: rest) s' = Some b /\ (b = true <-> s = s').
Proof.
  intros Hs. revert s'. induction Hs as [|b s Hb Hs IH]; intros s' Hs';
    destruct Hs' as [|c s' Hc Hs']; cbn -[Z.eqb].
  - by exists true.
  - exists false. destruct (Z.eqb_spec 0 c); [lia|by repeat split].
  - exists false. destruct (Z.eqb_spec b 0); [lia|by repeat split].
  - destruct (Z.eqb_spec b c) as [->|Hne].
    + destruct (IH s' Hs') as (r & -> & Hr). exists r. split; [done|].
      rewrite Hr. split; congruence.
    + exists false. split; [done|]. split; congruence.
Qed.

Lemma c_string_wf s : c_string s -> wf_bytes s.
Proof. intros H. eapply Forall_impl; [exact H|]. unfold is_byte. lia. Qed.

(** The C string at the start of a buffer. *)
Fixpoint until_nul (l : bytes) : bytes :=
  match l with
  | [] => []
  | b :: l' => if b =? 0 then [] else b :: until_nul l'
  end.

Lemma until_nul_app s rest : c_string s -> until_nul (s ++ 0 :: rest) = s.
Proof.
  induction 1 as [|b s Hb _ IH]; cbn [until_nul app]; [done|].
  destruct (Z.eqb_spec b 0); [lia|]. by rewrite IH.
Qed.

(** A longer window starts with the shorter one. *)
Lemma load_prefix off n m l a b :
  load off n l = Some a -> load off m l = Some b -> 0 <= n <= m ->
  exists rest, b = a ++ rest.
Proof.
  unfold load. destruct (in_object off n l); [|done].
  destruct (in_object off m l); [|done]. intros [= <-] [= <-] Hnm.
  exists (drop (Z.to_nat n) (take (Z.to_nat m) (drop (Z.to_nat off) l))).
  rewrite <- (take_drop (Z.to_nat n) (take (Z.to_nat m) (drop (Z.to_nat off) l))) at 1.
  f_equal. rewrite take_take. f_equal. lia.
Qed.

(** A window inside the bytes just written. *)
Lemma load_store_sub off a n d l l' :
  store off d l = Some l' -> 0 <= a -> 0 <= n -> a + n <= Z.of_nat (length d) ->
  load (off + a) n l' = load a n d.
Proof.
  intros Hs Ha Hn Hd. pose proof (store_length _ _ _ _ Hs).
  apply store_inv in Hs as (? & ? & ->).
  rewrite !load_Some by lia. f_equal.
  replace (Z.to_nat (off + a)) with (Z.to_nat off + Z.to_nat a)%nat by lia.
  rewrite <- drop_drop, drop_app_length' by (rewrite length_take; lia).
  rewrite drop_app_le by lia. rewrite take_app_le by (rewrite length_drop; lia).
  done.
Qed.

(** ** POSIX files

    [pwrite off d f] is the file [f] after the bytes [d] were written at [off]:
    a write past the end extends the file, a hole reads as zeros. *)
Definition pwrite (off : Z) (d f : bytes) : bytes :=
  take (Z.to_nat off) f ++ replicate (Z.to_nat off - length f) 0 ++ d ++
  drop (Z.to_nat off + length d) f.

Lemma pwrite_store off d f :
  0 <= off -> off + Z.of_nat (length d) <= Z.of_nat (length f) ->
  store off d f = Some (pwrite off d f).
Proof.
  intros. rewrite store_Some by lia. unfold pwrite.
  by replace (Z.to_nat off - length f)%nat with 0%nat by lia.
Qed.

(** ** String literals *)
Definition str (s : string) : bytes :=
  (fun a => Z.of_N (Ascii.N_of_ascii a)) <$> String.list_ascii_of_string s.

(** An array of [n] chars initialised from a string: the rest is zero. *)
Definition char_array (n : nat) (s : bytes) : bytes :=
  take n (s ++ replicate (n - length s) 0).

Lemma length_char_array n s : length (char_array n s) = n.
Proof. unfold char_array. rewrite length_take, length_app, length_replicate. lia. Qed.

(** Deciding [wf_bytes] by evaluation. *)
Definition is_byte_b (b : Z) : bool := (0 <=? b) && (b <? 256).
Lemma reflect_wf_bytes l : forallb is_byte_b l = true -> wf_bytes l.
Proof.
  induction l as [|b l IH]; simpl; [done|]. intros [Hb Hl]%andb_true_iff.
  constructor; [|by apply IH]. unfold is_byte_b in Hb. bool_hyps. unfold is_byte. lia.
Qed.

(** Two adjacent windows make one. *)
Lemma load_join off a b l x y :
  load off a l = Some x -> load (off + a) b l = Some y -> 0 <= a -> 0 <= b ->
  load off (a + b) l = Some (x ++ y).
Proof.
  unfold load. intros Hx Hy Ha Hb.
  destruct (in_object off a l) eqn:Ex; [|done].
  destruct (in_object (off + a) b l) eqn:Ey; [|done].
  apply in_object_spec in Ex, Ey. injection Hx as <-. injection Hy as <-.
  rewrite (proj2 (in_object_spec off (a + b) l)) by lia. f_equal.
  rewrite Z2Nat.inj_add by lia. rewrite Z2Nat.inj_add by lia.
  by rewrite <- drop_drop, take_take_drop.
Qed.
