(* ===== verification/Text.v ===== *)
(** * Numbers in text

    [sprintf] of [%d] and the kernel's [sscanf] of [%d] on an [int]. *)

From S2P Require Export Bytes.

(** The decimal digits of [n], most significant first, before [acc]. *)
Fixpoint dec_digits (fuel : nat) (n : Z) (acc : bytes) : bytes :=
  match fuel with
  | O => acc
  | S fuel' =>
      if n <? 10 then 48 + n :: acc else dec_digits fuel' (n / 10) (48 + n mod 10 :: acc)
  end.

(** An [int] has at most 10 digits. *)
Definition print_d (v : Z) : bytes :=
  if v <? 0 then 45 :: dec_digits 10 (- v) [] else dec_digits 10 v [].

Definition isdigit (b : Z) : bool := (48 <=? b) && (b <=? 57).
Definition isspace (b : Z) : bool := (9 <=? b) && (b <=? 13) || (b =? 32) || (b =? 160).

Fixpoint skip_spaces (l : bytes) : bytes :=
  match l with
  | b :: l' => if isspace b then skip_spaces l' else l
  | [] => []
  end.

Fixpoint scan_digits (acc : Z) (l : bytes) : Z :=
  match l with
  | b :: l' => if isdigit b then scan_digits (10 * acc + (b - 48)) l' else acc
  | [] => acc
  end.

Definition starts_with_digit (l : bytes) : bool :=
  match l with b :: _ => isdigit b | [] => false end.

(** What [sscanf(l, "%d", &v)] stores in [v], if it stores anything; a number
    that does not fit is cut to its low 32 bits. *)
Definition scan_d (l : bytes) : option Z :=
  let l := skip_spaces l in
  match l with
  | 45 :: l' => if starts_with_digit l' then Some (s32 (- scan_digits 0 l')) else None
  | _ => if starts_with_digit l then Some (s32 (scan_digits 0 l)) else None
  end.

(** ** Reading back what was printed *)

Lemma isdigit_digit d : 0 <= d < 10 -> isdigit (48 + d) = true.
Proof. intros. unfold isdigit. apply andb_true_iff. split; apply Z.leb_le; lia. Qed.

(** The digits of [n] read from [a] give [a] shifted by their number, plus [n]. *)
Lemma scan_dec_digits fuel n acc a rest :
  0 <= n < 10 ^ Z.of_nat fuel ->
  exists k, scan_digits a (dec_digits fuel n acc ++ rest) = scan_digits (a * k + n) (acc ++ rest).
Proof.
  revert n acc. induction fuel as [|fuel IH]; intros n acc Hn.
  { exists 1. change (10 ^ Z.of_nat 0) with 1 in Hn. simpl. f_equal. lia. }
  simpl. destruct (Z.ltb_spec n 10) as [Hlt|Hge].
  - exists 10. simpl. rewrite isdigit_digit by lia. f_equal. lia.
  - rewrite Nat2Z.inj_succ, Z.pow_succ_r in Hn by lia.
    destruct (IH (n / 10) (48 + n mod 10 :: acc)) as [k ->].
    { split; [apply Z.div_pos; lia|]. apply Z.div_lt_upper_bound; lia. }
    exists (10 * k). simpl. rewrite isdigit_digit by (apply Z.mod_pos_bound; lia).
    f_equal. pose proof (Z.div_mod n 10). lia.
Qed.

Lemma scan_printed fuel n rest :
  0 <= n < 10 ^ Z.of_nat fuel -> starts_with_digit rest = false ->
  scan_digits 0 (dec_digits fuel n [] ++ rest) = n.
Proof.
  intros Hn Hr. destruct (scan_dec_digits fuel n [] 0 rest Hn) as [k ->].
  simpl. destruct rest as [|b rest]; simpl in *; [lia|]. rewrite Hr. lia.
Qed.

Lemma dec_digits_head fuel n acc :
  (0 < fuel)%nat -> 0 <= n -> exists b l, dec_digits fuel n acc = b :: l /\
    (n < 10 ^ Z.of_nat fuel -> isdigit b = true).
Proof.
  revert n acc. induction fuel as [|fuel IH]; intros n acc Hf Hn; [lia|]. simpl.
  destruct (Z.ltb_spec n 10) as [Hlt|Hge].
  - eexists _, _. split; [done|]. intros _. apply isdigit_digit. lia.
  - destruct fuel as [|fuel].
    { eexists _, _. split; [done|]. intros H. simpl in H. lia. }
    destruct (IH (n / 10) (48 + n mod 10 :: acc)) as (b & l & E & Hb); [lia|by apply Z.div_pos|].
    exists b, l. split; [done|]. intros H. apply Hb.
    rewrite (Nat2Z.inj_succ (S fuel)), Z.pow_succ_r in H by lia.
    apply Z.div_lt_upper_bound; lia.
Qed.

Lemma isdigit_not_space b : isdigit b = true -> isspace b = false /\ b <> 45.
Proof.
  unfold isdigit, isspace. intros [H1%Z.leb_le H2%Z.leb_le]%andb_true_iff.
  split; [|lia]. rewrite (proj2 (Z.leb_gt b 13)), andb_false_r by lia.
  rewrite (proj2 (Z.eqb_neq b 32)), (proj2 (Z.eqb_neq b 160)) by lia. done.
Qed.

Lemma scan_d_digits b l :
  isdigit b = true -> scan_d (b :: l) = Some (s32 (scan_digits 0 (b :: l))).
Proof.
  intros Hb. destruct (isdigit_not_space b Hb) as [Hs Hm].
  unfold scan_d. cbn [skip_spaces]. rewrite Hs.
  cbn [starts_with_digit]. rewrite Hb.
  destruct b as [|p|p]; try done. repeat (destruct p as [p|p|]; try done).
Qed.

(** Any [int] is read back, whatever follows it that is not a digit. *)
Lemma scan_print_d v rest :
  - 2 ^ 31 <= v < 2 ^ 31 -> starts_with_digit rest = false ->
  scan_d (print_d v ++ rest) = Some v.
Proof.
  intros Hv Hr. unfold print_d. destruct (Z.ltb_spec v 0) as [Hneg|Hpos].
  - assert (0 <= - v < 10 ^ Z.of_nat 10) as Hb by (simpl; lia).
    destruct (dec_digits_head 10 (- v) [] ltac:(lia) ltac:(lia)) as (b & l & E & Hd).
    unfold scan_d. rewrite <- app_comm_cons. cbn [skip_spaces].
    change (isspace 45) with false. cbn iota.
    rewrite (scan_printed 10 (- v) rest Hb Hr). rewrite E. simpl. rewrite Hd by lia.
    f_equal. rewrite swrap_id by int_lia. lia.
  - assert (0 <= v < 10 ^ Z.of_nat 10) as Hb by (simpl; lia).
    destruct (dec_digits_head 10 v [] ltac:(lia) ltac:(lia)) as (b & l & E & Hd).
    rewrite <- (scan_printed 10 v rest Hb Hr) at 2.
    rewrite E, <- app_comm_cons, scan_d_digits by (apply Hd; lia). f_equal.
    rewrite app_comm_cons, <- E, (scan_printed 10 v rest Hb Hr). apply swrap_id; int_lia.
Qed.

Lemma length_dec_digits fuel n acc : (length (dec_digits fuel n acc) <= fuel + length acc)%nat.
Proof.
  revert n acc. induction fuel as [|fuel IH]; intros n acc; simpl; [lia|].
  destruct (n <? 10); simpl; [lia|]. etrans; [apply IH|]. simpl. lia.
Qed.

Lemma length_print_d v : (length (print_d v) <= 11)%nat.
Proof.
  unfold print_d. pose proof (length_dec_digits 10 v []). pose proof (length_dec_digits 10 (- v) []).
  cbn [length] in *. case_match; cbn [length]; lia.
Qed.
