(* ===== verification/Steps.v ===== *)
(** * Interleaved steps and sequences of operations

    A component whose threads, callbacks, loading and unloading interleave gives
    one step of each of its tasks as a function on the shared state, which goes
    on or stops at a fault.  A schedule is the list of the tasks that step.

    A component with an abstract specification gives both its specification and
    its implementation as a function from an operation and a state to an answer
    and a new state; [runs_simulation] lifts a simulation of one operation to
    sequences of them. *)

From S2P Require Export KMonad.

#[export] Instance fault_ret : MRet (sum fault) := fun A x => inr x.
#[export] Instance fault_bind : MBind (sum fault) := fun A B f x =>
  match x with inl e => inl e | inr y => f y end.

(** What went on did not fault. *)
Lemma fault_bind_inr {A B} (x : fault + A) (f : A -> fault + B) y :
  x ≫= f = inr y -> exists z, x = inr z /\ f z = inr y.
Proof. destruct x; [done|]. eauto. Qed.

Section steps.
Context {T S : Type} (step : T -> S -> fault + S).

Fixpoint steps (sched : list T) (s : S) : fault + S :=
  match sched with
  | [] => inr s
  | t :: sched' => s' ← step t s; steps sched' s'
  end.

Lemma steps_app l1 l2 s : steps (l1 ++ l2) s = (s' ← steps l1 s; steps l2 s').
Proof.
  revert s. induction l1 as [|t l1 IH]; intros s; [done|]. simpl.
  destruct (step t s); [done|]. apply IH.
Qed.

(** What every step of the tasks [P] keeps, every schedule of them keeps, and
    none of them faults. *)
Lemma steps_inv (P : T -> Prop) (I : S -> Prop) :
  (forall t s, P t -> I s -> exists s', step t s = inr s' /\ I s') ->
  forall sched s, Forall P sched -> I s -> exists s', steps sched s = inr s' /\ I s'.
Proof.
  intros Hstep sched. induction sched as [|t sched IH]; intros s HP HI; [by exists s|].
  apply Forall_cons in HP as [Ht HP]. destruct (Hstep t s Ht HI) as (s1 & E & H1).
  simpl. rewrite E. by apply IH.
Qed.
End steps.

Section runs.
Context {O A S : Type} (step : O -> S -> option (A * S)).

(** The answers to a sequence of operations, and the state it leaves. *)
Fixpoint runs (ops : list O) (s : S) : option (list A * S) :=
  match ops with
  | [] => Some ([], s)
  | op :: ops' =>
      '(a, s') ← step op s;
      '(l, s'') ← runs ops' s';
      Some (a :: l, s'')
  end.
End runs.

(** Forward simulation: when every operation the specification allows is
    answered alike by the implementation, from related states to related
    states, so is every sequence of them. *)
Lemma runs_simulation {O A S1 S2 : Type} (spec : O -> S1 -> option (A * S1))
    (impl : O -> S2 -> option (A * S2)) (P : O -> Prop) (R : S1 -> S2 -> Prop) :
  (forall op a s1 s1' s2, P op -> R s1 s2 -> spec op s1 = Some (a, s1') ->
     exists s2', impl op s2 = Some (a, s2') /\ R s1' s2') ->
  forall ops l s1 s1' s2, Forall P ops -> R s1 s2 -> runs spec ops s1 = Some (l, s1') ->
    exists s2', runs impl ops s2 = Some (l, s2') /\ R s1' s2'.
Proof.
  intros Hsim ops. induction ops as [|op ops IH]; intros l s1 s1' s2 HP HR; simpl.
  { intros [= <- <-]. by exists s2. }
  apply Forall_cons in HP as [Hop HP].
  destruct (spec op s1) as [[a s]|] eqn:Es; [|done]. simpl.
  destruct (runs spec ops s) as [[l' s']|] eqn:Er; [|done]. simpl. intros [= <- <-].
  destruct (Hsim op a s1 s s2 Hop HR Es) as (t & -> & HR'). simpl.
  destruct (IH l' s s' t HP HR' Er) as (t' & -> & HR''). by exists t'.
Qed.
