(* ===== verification/Resources.v ===== *)
(** * Resources acquired and released

    Most modules of the collection acquire kernel resources (memory, device
    numbers, registrations) when they are loaded or opened and release them in
    reverse.  A component that wants this accounted for gives an instance of
    [Resources]: which answers of which services hand out a resource, and which
    calls give one back.  [held] reads the balance off the trace: [None] as soon
    as something is released that is not held (a double release). *)

From S2P Require Export KMonad.

(** A pointer from a function that answers NULL or an error pointer. *)
Inductive kptr := PNull | PErr (err : Z) | POk.
Definition IS_ERR (p : kptr) : bool := match p with PErr _ => true | _ => false end.
Definition PTR_ERR (p : kptr) : Z := match p with PErr e => e | _ => 0 end.

Class Resources (C : Type) {api : KApi C} := {
  rsrc : Type;
  rsrc_eq_dec :: EqDecision rsrc;
  acquires : forall c : C, resp c -> list rsrc;
  releases : forall c : C, resp c -> list rsrc;
}.
Arguments rsrc C {api Resources}.

Section held.
Context {C : Type} {api : KApi C} {R : Resources C}.

Fixpoint remove_one (x : rsrc C) (L : list (rsrc C)) : option (list (rsrc C)) :=
  match L with
  | [] => None
  | y :: L' => if decide (x = y) then Some L' else cons y <$> remove_one x L'
  end.

Fixpoint remove_all (xs L : list (rsrc C)) : option (list (rsrc C)) :=
  match xs with
  | [] => Some L
  | x :: xs' => remove_one x L ≫= remove_all xs'
  end.

(** The resources held after a trace, newest first. *)
Fixpoint held (tr : trace C) : option (list (rsrc C)) :=
  match tr with
  | [] => Some []
  | existT c r :: tr' =>
      L ← held tr';
      L' ← remove_all (releases c r) L;
      Some (acquires c r ++ L')
  end.

Lemma held_cons c r tr L :
  held tr = Some L ->
  held (existT c r :: tr) = L' ← remove_all (releases c r) L; Some (acquires c r ++ L').
Proof. intros H. simpl. by rewrite H. Qed.

Lemma remove_one_head x L : remove_one x (x :: L) = Some L.
Proof. simpl. by rewrite decide_True. Qed.

Lemma remove_one_elem x L : x ∈ L -> exists L', remove_one x L = Some L' /\ L ≡ₚ x :: L'.
Proof.
  induction L as [|y L IH]; [by intros ?%not_elem_of_nil|].
  intros Hx. simpl. destruct (decide (x = y)) as [->|Hne]; [by exists L|].
  apply elem_of_cons in Hx as [?|Hx]; [done|].
  destruct (IH Hx) as (L' & -> & HL). exists (y :: L'). split; [done|].
  rewrite HL. constructor.
Qed.

(** A call whose answer is not known, keeping only what is held after it. *)
Lemma wp_call_held {S} c (e : env C) (Q : resp c -> S -> trace C -> Prop) s tr L :
  held tr = Some L ->
  (forall a tr', held tr' = (L' ← remove_all (releases c a) L; Some (acquires c a ++ L')) ->
    Q a s tr') ->
  wp (call c) e Q s tr.
Proof. intros HL HQ. apply HQ. simpl. by rewrite HL. Qed.
Lemma wp_call_held_bind {S A} c (k : resp c -> M C S A) (e : env C) Q s tr L :
  held tr = Some L ->
  (forall a tr', held tr' = (L' ← remove_all (releases c a) L; Some (acquires c a ++ L')) ->
    wp (k a) e Q s tr') ->
  wp (call c ≫= k) e Q s tr.
Proof. intros HL HQ. apply wp_bind. by apply wp_call_held with L. Qed.

(** ** Up to order

    What is held, when the order of acquisition does not matter. *)
Definition holds (tr : trace C) (L : list (rsrc C)) : Prop :=
  exists L', held tr = Some L' /\ L' ≡ₚ L.

#[export] Instance holds_proper tr : Proper ((≡ₚ) ==> iff) (holds tr).
Proof.
  intros L1 L2 HL. unfold holds.
  split; intros (L' & H & HP); exists L'; (split; [done|]); by rewrite HP, HL.
Qed.

Lemma held_holds tr L : held tr = Some L -> holds tr L.
Proof. intros H. by exists L. Qed.

Lemma holds_nil tr : holds tr [] -> held tr = Some [].
Proof. intros (L & H & HP). symmetry in HP. by apply Permutation_nil in HP as ->. Qed.

Lemma holds_acquire (c : C) (a : resp c) (tr : trace C) L :
  releases c a = [] -> holds tr L -> holds (existT c a :: tr) (acquires c a ++ L).
Proof.
  intros Hr (L' & H & HP). exists (acquires c a ++ L'). rewrite (held_cons _ _ _ _ H), Hr. simpl.
  split; [done|]. by rewrite HP.
Qed.

Lemma remove_all_perm xs L L0 :
  L0 ≡ₚ xs ++ L -> exists L', remove_all xs L0 = Some L' /\ L' ≡ₚ L.
Proof.
  revert L0. induction xs as [|x xs IH]; intros L0 HP; simpl; [by exists L0|].
  destruct (remove_one_elem x L0) as (L1 & -> & HP1); [rewrite HP; left|]. simpl.
  apply IH. apply (Permutation_cons_inv (a := x)). by rewrite <- HP1, HP.
Qed.

Lemma holds_release (c : C) (a : resp c) (tr : trace C) L :
  acquires c a = [] -> holds tr (releases c a ++ L) -> holds (existT c a :: tr) L.
Proof.
  intros Ha (L0 & H & HP). destruct (remove_all_perm _ _ _ HP) as (L' & HR & HP').
  exists L'. rewrite (held_cons _ _ _ _ H), HR. simpl. by rewrite Ha.
Qed.

Lemma wp_acquire {S} c (e : env C) (Q : resp c -> S -> trace C -> Prop) s tr L :
  (forall a : resp c, releases c a = []) -> holds tr L ->
  (forall a tr', holds tr' (acquires c a ++ L) -> Q a s tr') -> wp (call c) e Q s tr.
Proof. intros Hr H HQ. apply HQ. by apply holds_acquire. Qed.

(** The same, remembering the answer. *)
Lemma wp_acquire_ans {S} c (e : env C) (Q : resp c -> S -> trace C -> Prop) s tr L :
  (forall a : resp c, releases c a = []) -> holds tr L ->
  (forall a tr', a = e tr c -> holds tr' (acquires c a ++ L) -> Q a s tr') -> wp (call c) e Q s tr.
Proof. intros Hr H HQ. apply HQ; [done|]. by apply holds_acquire. Qed.

Lemma wp_release {S} c (e : env C) (Q : resp c -> S -> trace C -> Prop) s tr xs L :
  (forall a : resp c, acquires c a = []) -> (forall a : resp c, releases c a = xs) -> holds tr (xs ++ L) ->
  (forall a tr', holds tr' L -> Q a s tr') -> wp (call c) e Q s tr.
Proof. intros Ha Hr H HQ. apply HQ. apply holds_release; [done|]. by rewrite Hr. Qed.

(** ** Loading and unloading *)

(** A kernel whose answers do not depend on the history. *)
Definition oblivious (ans : forall c : C, resp c) : env C := fun _ c => ans c.

(** A call whose answer is known. *)
Lemma wp_call_eq {S} (ans : forall c : C, resp c) c r (Q : resp c -> S -> trace C -> Prop) s tr :
  ans c = r -> Q r s (existT c r :: tr) -> wp (call c) (oblivious ans) Q s tr.
Proof. by intros <-. Qed.

(** After [init] the resources [L] are held, and after [exit] those of [L']. *)
Definition load_unload {S} (e : env C) (init : M C S Z) (exit : M C S unit)
    (L L' : list (rsrc C)) : Prop :=
  forall s, exists s1 tr1 s2 tr2,
    init e s [] = Ok 0 s1 tr1 /\ held tr1 = Some L /\
    exit e s1 tr1 = Ok tt s2 tr2 /\ held tr2 = Some L'.

Lemma load_unload_wp {S} e (init : M C S Z) exit L L' :
  (forall s, wp init e (fun r s1 tr1 => r = 0 /\ held tr1 = Some L /\
     wp exit e (fun _ _ tr2 => held tr2 = Some L') s1 tr1) s []) ->
  load_unload e init exit L L'.
Proof.
  intros H s. specialize (H s). apply wp_run in H as (r & s1 & tr1 & Hi & -> & Hh & Hx).
  apply wp_run in Hx as ([] & s2 & tr2 & Hx & Hh2). by exists s1, tr1, s2, tr2.
Qed.
End held.

(** Unloading gives back exactly what loading acquired. *)
Abbreviation balanced e init exit L := (load_unload e init exit L []).

(** Walk through a driver, whatever the kernel answers, keeping track of what
    is held; conditions on answers are left to the caller. *)
Ltac held_step :=
  lazymatch goal with
  | H : held ?tr = Some ?L |- wp (mbind ?k (call ?c)) ?e ?Q ?s ?tr =>
      refine (wp_call_held_bind c k e Q s tr L H _); clear H; intros ? ? H;
      cbn in H
  | H : held ?tr = Some ?L |- wp (call ?c) ?e ?Q ?s ?tr =>
      refine (wp_call_held c e Q s tr _ H _); clear H; intros ? ? H;
      cbn in H
  | H : held ?tr = _ |- wp (call ?c) ?e ?Q ?s ?tr => fail
  | H : held ?tr = _ |- wp (mbind ?k (call ?c)) ?e ?Q ?s ?tr => fail
  | |- _ => wp_step
  end; cbn [negb].
Ltac held_simpl :=
  repeat match goal with
  | H : held _ = _ |- _ => progress (cbn in H)
  end.
Ltac held_if b :=
  let E := fresh "E" in
  destruct b eqn:E;
  try match goal with H : held _ = _ |- _ => rewrite E in H; cbn in H end.
Ltac held_case :=
  cbn [negb];
  lazymatch goal with
  | |- wp (if negb ?b then _ else _) _ _ _ _ => held_if b
  | |- wp (if ?b then _ else _) _ _ _ _ => held_if b
  | |- wp (match ?x with _ => _ end) _ _ _ _ => destruct x; held_simpl
  end; cbn [negb].
Ltac held_go := cbn [negb]; repeat held_step.
Ltac held_run := repeat (held_go; held_simpl; held_case); held_go; held_simpl.
