(* ===== verification/SimplefsLayout.v ===== *)
(** * simplefs: on-disk structures

    The structures of [simplefs/simple.h] as records, and their memory layout
    (x86-64: [mode_t] is 4 bytes, [uint64_t] is 8-byte aligned, little-endian):
    [struct simplefs_inode] is 32 bytes with 4 padding bytes after [mode],
    [struct simplefs_dir_record] 256 bytes, [struct simplefs_super_block] one
    4096-byte block of which the first 32 bytes are used. *)

From S2P Require Export Bytes.

Definition SIMPLEFS_MAGIC : Z := 0x10032013.
Definition SIMPLEFS_DEFAULT_BLOCK_SIZE : Z := 4096.
Definition SIMPLEFS_FILENAME_MAXLEN : Z := 248.
Definition SIMPLEFS_START_INO : Z := 10.
Definition SIMPLEFS_RESERVED_INODES : Z := 3.
Definition SIMPLEFS_SUPERBLOCK_BLOCK_NUMBER : Z := 0.
Definition SIMPLEFS_INODESTORE_BLOCK_NUMBER : Z := 1.
Definition SIMPLEFS_ROOTDIR_INODE_NUMBER : Z := 1.
Definition SIMPLEFS_MAX_FILESYSTEM_OBJECTS_SUPPORTED : Z := 64.

(** File-type bits of [mode_t] (<sys/stat.h>). *)
Definition S_IFMT : Z := 0xF000.
Definition S_IFDIR : Z := 0x4000.
Definition S_IFREG : Z := 0x8000.
Definition S_ISDIR (m : Z) : bool := Z.land m S_IFMT =? S_IFDIR.
Definition S_ISREG (m : Z) : bool := Z.land m S_IFMT =? S_IFREG.

(** ** struct simplefs_inode

    The anonymous union of [file_size] and [dir_children_count] is one 8-byte
    field; [pad] is the padding that [memcpy] of the structure copies. *)
Record simplefs_inode := mk_inode {
  mode : Z;
  pad : Z;
  inode_no : Z;
  data_block_number : Z;
  size_or_children : Z;
}.

#[export] Instance simplefs_inode_eq_dec : EqDecision simplefs_inode.
Proof. solve_decision. Defined.

Definition file_size (i : simplefs_inode) : Z := size_or_children i.
Definition dir_children_count (i : simplefs_inode) : Z := size_or_children i.

Definition set_file_size (z : Z) (i : simplefs_inode) : simplefs_inode :=
  mk_inode (mode i) (pad i) (inode_no i) (data_block_number i) (u64 z).
Definition set_dir_children_count (z : Z) (i : simplefs_inode) : simplefs_inode :=
  set_file_size z i.

Definition sizeof_inode : Z := 32.

Definition encode_inode (i : simplefs_inode) : bytes :=
  le_enc 4 (mode i) ++ le_enc 4 (pad i) ++ le_enc 8 (inode_no i) ++
  le_enc 8 (data_block_number i) ++ le_enc 8 (size_or_children i).

Definition decode_inode (l : bytes) : simplefs_inode :=
  mk_inode (le_dec (take 4 l)) (le_dec (take 4 (drop 4 l)))
    (le_dec (take 8 (drop 8 l))) (le_dec (take 8 (drop 16 l)))
    (le_dec (take 8 (drop 24 l))).

Definition wf_inode (i : simplefs_inode) : Prop :=
  0 <= mode i < 2 ^ 32 /\ 0 <= pad i < 2 ^ 32 /\ 0 <= inode_no i < 2 ^ 64 /\
  0 <= data_block_number i < 2 ^ 64 /\ 0 <= size_or_children i < 2 ^ 64.

(** Slot [k] of an array of inodes at the start of a buffer. *)
Definition load_inode (k : Z) (l : bytes) : option simplefs_inode :=
  decode_inode <$> load (sizeof_inode * k) sizeof_inode l.
Definition store_inode (k : Z) (i : simplefs_inode) (l : bytes) : option bytes :=
  store (sizeof_inode * k) (encode_inode i) l.

(** ** struct simplefs_dir_record *)
Definition sizeof_dir_record : Z := 256.

(** [record->filename], up to the end of the object, for string functions. *)
Definition record_filename (k : Z) (l : bytes) : bytes :=
  drop (Z.to_nat (sizeof_dir_record * k)) l.
Definition record_inode_no (k : Z) (l : bytes) : option Z :=
  load_le (sizeof_dir_record * k + SIMPLEFS_FILENAME_MAXLEN) 8 l.

(** ** struct simplefs_super_block *)
Definition sb_magic (l : bytes) : option Z := load_le 0 8 l.
Definition sb_block_size (l : bytes) : option Z := load_le 8 8 l.
Definition sb_inodes_count (l : bytes) : option Z := load_le 16 8 l.
Definition sb_free_blocks (l : bytes) : option Z := load_le 24 8 l.
Definition set_sb_inodes_count (z : Z) (l : bytes) : option bytes :=
  store_le 16 8 (u64 z) l.
Definition set_sb_free_blocks (z : Z) (l : bytes) : option bytes :=
  store_le 24 8 (u64 z) l.

(** ** Lemmas on the layout *)

Lemma length_encode_inode i : length (encode_inode i) = 32%nat.
Proof. unfold encode_inode. by rewrite !length_app, !length_le_enc. Qed.

Lemma encode_inode_wf i : wf_bytes (encode_inode i).
Proof. unfold encode_inode. repeat (apply Forall_app; split); apply le_enc_wf. Qed.

Lemma take_le_enc_app n z l : take n (le_enc n z ++ l) = le_enc n z.
Proof. rewrite take_app_length' by (by rewrite length_le_enc). done. Qed.
Lemma drop_le_enc_app n m z l :
  drop (n + m) (le_enc n z ++ l) = drop m l.
Proof.
  rewrite <- drop_drop. by rewrite drop_app_length' by (by rewrite length_le_enc).
Qed.

(** Decoding what was encoded gives the inode back. *)
Lemma decode_encode_inode i : wf_inode i -> decode_inode (encode_inode i) = i.
Proof.
  destruct i as [m p n d s]. intros (? & ? & ? & ? & ?). simpl in *.
  unfold decode_inode, encode_inode; simpl mode; simpl pad; simpl inode_no;
    simpl data_block_number; simpl size_or_children.
  change (drop 8) with (@drop Z (4 + (4 + 0))).
  change (drop 16) with (@drop Z (4 + (4 + (8 + 0)))).
  change (drop 24) with (@drop Z (4 + (4 + (8 + (8 + 0))))).
  change (drop 4) with (@drop Z (4 + 0)).
  rewrite !drop_le_enc_app, !drop_0, !take_le_enc_app.
  rewrite <- (app_nil_r (le_enc 8 s)), take_le_enc_app.
  by rewrite !le_dec_enc_id by assumption.
Qed.

(** Encoding what was decoded gives the 32 bytes back: [memcpy] of the
    structure is a copy of the bytes. *)
Lemma encode_decode_inode l :
  wf_bytes l -> length l = 32%nat -> encode_inode (decode_inode l) = l.
Proof.
  intros Hwf Hlen. unfold encode_inode, decode_inode;
    cbn [mode pad inode_no data_block_number size_or_children].
  assert (forall a n, (a + n <= 32)%nat ->
    le_enc n (le_dec (take n (drop a l))) = take n (drop a l)) as E.
  { intros a n ?.
    rewrite <- (le_enc_dec (take n (drop a l))) at 2
      by (by apply Forall_take, Forall_drop).
    rewrite length_take, length_drop, Hlen. f_equal. lia. }
  rewrite (E 4%nat 4%nat), (E 8%nat 8%nat), (E 16%nat 8%nat), (E 24%nat 8%nat) by lia.
  change (take 4 l) with (take 4 (drop 0 l)). rewrite (E 0%nat 4%nat) by lia.
  do 32 (destruct l as [|? l]; [done|]). by destruct l.
Qed.

Lemma decode_inode_wf l : wf_bytes l -> length l = 32%nat -> wf_inode (decode_inode l).
Proof.
  intros Hwf Hlen.
  assert (forall a n, (a + n <= 32)%nat ->
    0 <= le_dec (take n (drop a l)) < 256 ^ Z.of_nat n) as B.
  { intros a n ?.
    pose proof (le_dec_bound (take n (drop a l))) as Hb.
    rewrite length_take, length_drop, Hlen in Hb.
    replace (n `min` (32 - a))%nat with n in Hb by lia.
    apply Hb. by apply Forall_take, Forall_drop. }
  unfold wf_inode, decode_inode; simpl.
  pose proof (B 0%nat 4%nat). pose proof (B 4%nat 4%nat). pose proof (B 8%nat 8%nat).
  pose proof (B 16%nat 8%nat). pose proof (B 24%nat 8%nat).
  change (256 ^ Z.of_nat 4) with (2 ^ 32) in *.
  change (256 ^ Z.of_nat 8) with (2 ^ 64) in *. rewrite drop_0 in *.
  repeat split; lia.
Qed.

Lemma load_store_inode_same k i l l' :
  wf_inode i -> store_inode k i l = Some l' -> load_inode k l' = Some i.
Proof.
  unfold store_inode, load_inode. intros Hwf Hs.
  pose proof (load_store_same _ _ _ _ Hs) as Hl.
  rewrite length_encode_inode in Hl. change (Z.of_nat 32) with sizeof_inode in Hl.
  rewrite Hl. simpl. by rewrite decode_encode_inode.
Qed.

Lemma load_store_inode_ne k k' i l l' :
  k <> k' -> store_inode k i l = Some l' -> load_inode k' l' = load_inode k' l.
Proof.
  unfold store_inode, load_inode. intros Hne Hs.
  rewrite (load_store_disjoint _ _ _ _ _ _ Hs); [done|].
  rewrite length_encode_inode. unfold sizeof_inode. lia.
Qed.

Lemma load_inode_Some k l :
  0 <= k -> 32 * (k + 1) <= Z.of_nat (length l) -> is_Some (load_inode k l).
Proof.
  intros. unfold load_inode, sizeof_inode. rewrite load_Some by lia. by eexists.
Qed.

Lemma load_inode_bound k l i :
  load_inode k l = Some i -> 0 <= k /\ 32 * (k + 1) <= Z.of_nat (length l).
Proof.
  unfold load_inode, sizeof_inode, load. intros (d & Hd & _)%fmap_Some.
  destruct (in_object _ _ _) eqn:E; [|done]. apply in_object_spec in E. lia.
Qed.

Lemma store_inode_Some k i l :
  0 <= k -> 32 * (k + 1) <= Z.of_nat (length l) -> is_Some (store_inode k i l).
Proof.
  intros. unfold store_inode, sizeof_inode.
  rewrite store_Some; [by eexists | lia | rewrite length_encode_inode; lia].
Qed.

Lemma load_inode_wf k l i : wf_bytes l -> load_inode k l = Some i -> wf_inode i.
Proof.
  unfold load_inode. intros Hwf (d & Hd & ->)%fmap_Some.
  apply decode_inode_wf; [by eapply load_wf|].
  apply load_length in Hd. unfold sizeof_inode in Hd. lia.
Qed.

#[export] Hint Resolve encode_inode_wf le_enc_wf : lkm.

