(* ===== verification/Simplefs.v ===== *)
(** * simplefs: the file system ([simplefs/simple.c])

    The kernel services simplefs calls, the module state, and one definition per
    function of the source.  The state is what C memory holds: the contents of
    the buffer-cache blocks ([b_data]), the [sfs_inode_cachep] objects ([slab],
    addresses are opaque numbers), and what [fill_super] stores in the
    [struct super_block].  [s_fs_info] points into the buffer of block 0
    ([simplefs_fill_super] stores [bh->b_data] there), so [SIMPLEFS_SB(sb)->f]
    is a read of that buffer and the assignment [bh->b_data = sb] of
    [simplefs_sb_sync] leaves memory unchanged.  Time stamps are not modelled. *)

From S2P Require Export KMonad Bytes SimplefsLayout.

(** ** Kernel services *)

Inductive sfs_lock :=
  | simplefs_sb_lock
  | simplefs_inodes_mgmt_lock
  | simplefs_directory_children_update_lock.

#[export] Instance sfs_lock_eq_dec : EqDecision sfs_lock.
Proof. solve_decision. Defined.

(** [inode->i_fop]; a new inode has none of ours. *)
Inductive file_ops := simplefs_file_operations | simplefs_dir_operations.

(** [struct inode], as far as simplefs sets it ([i_op] is always
    [simplefs_inode_ops]). *)
Record inode := mk_vfs_inode {
  i_ino : Z;
  i_fop : option file_ops;
  i_private : option nat;
}.

Inductive kcall :=
  | mutex_lock_interruptible (l : sfs_lock)
  | mutex_unlock (l : sfs_lock)
  | sb_bread (n : Z)
  | mark_buffer_dirty (n : Z)
  | sync_dirty_buffer (n : Z) (b_data : bytes)
  | brelse (n : Z)
  | kmem_cache_alloc
  | kmem_cache_free (p : option nat)
  | new_inode
  | copy_to_user (d : bytes)
  | copy_from_user (n : Z)
  | dir_emit (name : bytes) (namelen ino : Z)
  | inode_init_owner (i : inode) (mode : Z)
  | d_add (name : bytes) (i : inode)
  | d_make_root (i : inode)
  | kmem_cache_create
  | kmem_cache_destroy
  | register_filesystem
  | unregister_filesystem
  | printk.

(** What each service answers: 0 or -EINTR from [mutex_lock_interruptible];
    whether a pointer is non-NULL; the (uninitialised) contents of a new slab
    object; the number of bytes not copied. *)
#[export] Instance sfs_api : KApi kcall := fun c =>
  match c with
  | mutex_lock_interruptible _ => Z
  | sb_bread _ | new_inode | dir_emit _ _ _ | d_make_root _ => bool
  | kmem_cache_alloc => option simplefs_inode
  | copy_to_user _ | copy_from_user _ => Z
  | register_filesystem | unregister_filesystem => Z
  | _ => unit
  end.

(** ** Module state *)

Record super_block := mk_super {
  s_magic : Z;
  s_maxbytes : Z;
  s_root : option inode;
}.

Record fs := mk_fs {
  b_data : Z -> bytes;
  slab : gmap nat simplefs_inode;
  slab_next : nat;
  super : option super_block;
}.

Definition set_b_data (n : Z) (d : bytes) (s : fs) : fs :=
  mk_fs (<[n := d]> (b_data s)) (slab s) (slab_next s) (super s).
Definition set_slab (p : nat) (i : simplefs_inode) (s : fs) : fs :=
  mk_fs (b_data s) (<[p := i]> (slab s)) (slab_next s) (super s).

Abbreviation K := (M kcall fs).

(** ** C memory accesses *)

(** Read or write through a pointer into the buffer of block [n]. *)
Definition buf_read {A} (n : Z) (f : bytes -> option A) : K A :=
  s ← get; or_fault OutOfBounds (f (b_data s n)).
Definition buf_write (n : Z) (f : bytes -> option bytes) : K unit :=
  s ← get; d ← or_fault OutOfBounds (f (b_data s n)); modify (set_b_data n d).

(** [*p] and [*p = i] for a [struct simplefs_inode *p] of the slab. *)
Definition deref (p : option nat) : K simplefs_inode :=
  p ← or_fault NullDeref p; s ← get; or_fault UseAfterFree (slab s !! p).
Definition assign (p : option nat) (f : simplefs_inode -> simplefs_inode) : K unit :=
  i ← deref p; q ← or_fault NullDeref p; modify (set_slab q (f i)).

(** [kmem_cache_alloc(sfs_inode_cachep, GFP_KERNEL)]: NULL, or a fresh object
    with the contents the kernel left in it. *)
Definition alloc_inode : K (option nat) :=
  r ← call kmem_cache_alloc;
  match r with
  | None => mret None
  | Some garbage =>
      s ← get;
      put (mk_fs (b_data s) (<[slab_next s := garbage]> (slab s))
             (S (slab_next s)) (super s)) ;;
      mret (Some (slab_next s))
  end.

Definition BUG_ON (b : bool) : K unit := if b then fail BugOn else mret tt.

(** [SIMPLEFS_SB(vsb)->field] *)
Definition SIMPLEFS_SB (field : bytes -> option Z) : K Z :=
  buf_read SIMPLEFS_SUPERBLOCK_BLOCK_NUMBER field.

(** [SIMPLEFS_INODE(inode)] *)
Definition SIMPLEFS_INODE (i : inode) : option nat := i_private i.

(** Synchronise the buffer of block [n] (dirtied just before). *)
Definition sync_buffer (n : Z) : K unit :=
  s ← get; call (sync_dirty_buffer n (b_data s n)).

(** ** Super block and inode store *)

Definition simplefs_sb_sync : K unit :=
  bh ← call (sb_bread SIMPLEFS_SUPERBLOCK_BLOCK_NUMBER);
  BUG_ON (negb bh) ;;
  call (mark_buffer_dirty SIMPLEFS_SUPERBLOCK_BLOCK_NUMBER) ;;
  sync_buffer SIMPLEFS_SUPERBLOCK_BLOCK_NUMBER ;;
  call (brelse SIMPLEFS_SUPERBLOCK_BLOCK_NUMBER).

(** The [while] loop of [simplefs_inode_search]: the slot at which it stops,
    with [n = inodes_count - count] iterations left; [None] when it reads past
    the buffer. *)
Fixpoint inode_search_loop (n : nat) (k : Z) (l : bytes) (no : Z) : option Z :=
  i ← load_inode k l;
  if inode_no i =? no then Some k
  else match n with
       | O => Some k
       | S n' => inode_search_loop n' (k + 1) l no
       end.

Definition simplefs_inode_search (inodes_count : Z) (l : bytes) (no : Z)
    : option (option Z) :=
  k ← inode_search_loop (Z.to_nat inodes_count) 0 l no;
  i ← load_inode k l;
  Some (if inode_no i =? no then Some k else None).

Definition simplefs_inode_add (p : option nat) : K unit :=
  r ← call (mutex_lock_interruptible simplefs_inodes_mgmt_lock);
  if negb (r =? 0) then mret tt else
  bh ← call (sb_bread SIMPLEFS_INODESTORE_BLOCK_NUMBER);
  BUG_ON (negb bh) ;;
  r ← call (mutex_lock_interruptible simplefs_sb_lock);
  if negb (r =? 0) then mret tt else
  count ← SIMPLEFS_SB sb_inodes_count;
  i ← deref p;
  buf_write SIMPLEFS_INODESTORE_BLOCK_NUMBER (store_inode count i) ;;
  count ← SIMPLEFS_SB sb_inodes_count;
  buf_write SIMPLEFS_SUPERBLOCK_BLOCK_NUMBER (set_sb_inodes_count (count + 1)) ;;
  call (mark_buffer_dirty SIMPLEFS_INODESTORE_BLOCK_NUMBER) ;;
  simplefs_sb_sync ;;
  call (brelse SIMPLEFS_INODESTORE_BLOCK_NUMBER) ;;
  call (mutex_unlock simplefs_sb_lock) ;;
  call (mutex_unlock simplefs_inodes_mgmt_lock).

(** The [for] loop of [simplefs_sb_get_a_freeblock] from index [i], [n]
    iterations before the bound; [None] when a shift is undefined. *)
Fixpoint freeblock_loop (n : nat) (i free_blocks : Z) : option Z :=
  match n with
  | O => Some i
  | S n' =>
      b ← shl1_int i;
      if negb (Z.land free_blocks (int_to_u64 b) =? 0) then Some i
      else freeblock_loop n' (i + 1) free_blocks
  end.

(** Returns the return value and what was stored through [out]. *)
Definition simplefs_sb_get_a_freeblock : K (Z * option Z) :=
  r ← call (mutex_lock_interruptible simplefs_sb_lock);
  if negb (r =? 0) then
    call (mutex_unlock simplefs_sb_lock) ;; mret (- EINTR, None)
  else
  fb ← SIMPLEFS_SB sb_free_blocks;
  i ← or_fault UndefinedShift
        (freeblock_loop (Z.to_nat (SIMPLEFS_MAX_FILESYSTEM_OBJECTS_SUPPORTED - 2)) 2 fb);
  if i =? SIMPLEFS_MAX_FILESYSTEM_OBJECTS_SUPPORTED then
    call (mutex_unlock simplefs_sb_lock) ;; mret (- ENOSPC, None)
  else
  b ← or_fault UndefinedShift (shl1_int i);
  buf_write SIMPLEFS_SUPERBLOCK_BLOCK_NUMBER
    (set_sb_free_blocks (Z.land fb (int_to_u64 (Z.lnot b)))) ;;
  simplefs_sb_sync ;;
  call (mutex_unlock simplefs_sb_lock) ;;
  mret (0, Some i).

Definition simplefs_sb_get_objects_count : K (Z * option Z) :=
  r ← call (mutex_lock_interruptible simplefs_inodes_mgmt_lock);
  if negb (r =? 0) then mret (- EINTR, None) else
  count ← SIMPLEFS_SB sb_inodes_count;
  call (mutex_unlock simplefs_inodes_mgmt_lock) ;;
  mret (0, Some count).

(** The [for] loop of [simplefs_get_inode] from slot [k]. *)
Fixpoint get_inode_loop (n : nat) (k no : Z) : K (option nat) :=
  match n with
  | O => mret None
  | S n' =>
      i ← buf_read SIMPLEFS_INODESTORE_BLOCK_NUMBER (load_inode k);
      if inode_no i =? no then
        inode_buffer ← alloc_inode;
        assign inode_buffer (fun _ => i) ;;
        mret inode_buffer
      else get_inode_loop n' (k + 1) no
  end.

Definition simplefs_get_inode (no : Z) : K (option nat) :=
  bh ← call (sb_bread SIMPLEFS_INODESTORE_BLOCK_NUMBER);
  BUG_ON (negb bh) ;;
  count ← SIMPLEFS_SB sb_inodes_count;
  p ← get_inode_loop (Z.to_nat count) 0 no;
  call (brelse SIMPLEFS_INODESTORE_BLOCK_NUMBER) ;;
  mret p.

Definition simplefs_inode_save (p : option nat) : K Z :=
  bh ← call (sb_bread SIMPLEFS_INODESTORE_BLOCK_NUMBER);
  BUG_ON (negb bh) ;;
  r ← call (mutex_lock_interruptible simplefs_sb_lock);
  if negb (r =? 0) then mret (- EINTR) else
  i ← deref p;
  count ← SIMPLEFS_SB sb_inodes_count;
  slot ← buf_read SIMPLEFS_INODESTORE_BLOCK_NUMBER
           (fun l => simplefs_inode_search count l (inode_no i));
  match slot with
  | Some k =>
      buf_write SIMPLEFS_INODESTORE_BLOCK_NUMBER (store_inode k i) ;;
      call (mark_buffer_dirty SIMPLEFS_INODESTORE_BLOCK_NUMBER) ;;
      sync_buffer SIMPLEFS_INODESTORE_BLOCK_NUMBER ;;
      call (brelse SIMPLEFS_INODESTORE_BLOCK_NUMBER) ;;
      call (mutex_unlock simplefs_sb_lock) ;;
      mret 0
  | None =>
      call (mutex_unlock simplefs_sb_lock) ;;
      mret (- EIO)
  end.

(** ** Directory iteration *)

(** The [for] loop of [simplefs_iterate] from record [k]; [pos] is [ctx->pos]. *)
Fixpoint iterate_loop (n : nat) (k blk pos : Z) : K Z :=
  match n with
  | O => mret pos
  | S n' =>
      name ← buf_read blk (load (sizeof_dir_record * k) SIMPLEFS_FILENAME_MAXLEN);
      ino ← buf_read blk (record_inode_no k);
      call (dir_emit name SIMPLEFS_FILENAME_MAXLEN ino) ;;
      iterate_loop n' (k + 1) blk (pos + sizeof_dir_record)
  end.

(** Returns the return value and the final [ctx->pos]. *)
Definition simplefs_iterate (i : inode) (pos : Z) : K (Z * Z) :=
  if negb (pos =? 0) then mret (0, pos) else
  sfs_inode ← deref (SIMPLEFS_INODE i);
  if negb (S_ISDIR (mode sfs_inode)) then mret (- ENOTDIR, pos) else
  bh ← call (sb_bread (data_block_number sfs_inode));
  BUG_ON (negb bh) ;;
  pos ← iterate_loop (Z.to_nat (dir_children_count sfs_inode)) 0
          (data_block_number sfs_inode) pos;
  call (brelse (data_block_number sfs_inode)) ;;
  mret (0, pos).

(** ** File contents

    Both return the return value and the updated [*ppos]. *)

Definition simplefs_read (i : inode) (len ppos : Z) : K (Z * Z) :=
  sfs_inode ← deref (SIMPLEFS_INODE i);
  if file_size sfs_inode <=? u64 ppos then mret (0, ppos) else
  bh ← call (sb_bread (data_block_number sfs_inode));
  if negb bh then mret (0, ppos) else
  let nbytes := s32 (Z.min (file_size sfs_inode) len) in
  buffer ← buf_read (data_block_number sfs_inode) (load 0 (u64 nbytes));
  r ← call (copy_to_user buffer);
  if negb (r =? 0) then
    call (brelse (data_block_number sfs_inode)) ;; mret (- EFAULT, ppos)
  else
  call (brelse (data_block_number sfs_inode)) ;;
  mret (nbytes, s64 (ppos + nbytes)).

(** What [copy_from_user] leaves in the destination when [r] bytes of [buf]
    could not be copied: the tail is zeroed. *)
Definition user_copy (buf : bytes) (r : Z) : bytes :=
  take (length buf - Z.to_nat r) buf ++ replicate (Z.to_nat r `min` length buf) 0.

Definition simplefs_write (i : inode) (buf : bytes) (ppos : Z) : K (Z * Z) :=
  let len := Z.of_nat (length buf) in
  sfs_inode ← deref (SIMPLEFS_INODE i);
  bh ← call (sb_bread (data_block_number sfs_inode));
  if negb bh then mret (0, ppos) else
  r ← call (copy_from_user len);
  buf_write (data_block_number sfs_inode) (store ppos (user_copy buf r)) ;;
  if negb (r =? 0) then
    call (brelse (data_block_number sfs_inode)) ;; mret (- EFAULT, ppos)
  else
  let ppos := s64 (ppos + len) in
  call (mark_buffer_dirty (data_block_number sfs_inode)) ;;
  sync_buffer (data_block_number sfs_inode) ;;
  call (brelse (data_block_number sfs_inode)) ;;
  r ← call (mutex_lock_interruptible simplefs_inodes_mgmt_lock);
  if negb (r =? 0) then mret (- EINTR, ppos) else
  assign (SIMPLEFS_INODE i) (set_file_size ppos) ;;
  retval ← simplefs_inode_save (SIMPLEFS_INODE i);
  call (mutex_unlock simplefs_inodes_mgmt_lock) ;;
  mret (if retval =? 0 then len else retval, ppos).

(** ** Creation and lookup *)

Definition directory_unlock : K unit :=
  call (mutex_unlock simplefs_directory_children_update_lock).

(** Set up the in-core object of a new inode. *)
Definition init_fields (no m : Z) (i : simplefs_inode) : simplefs_inode :=
  let i := mk_inode m (pad i) no (data_block_number i) (size_or_children i) in
  if S_ISDIR m then set_dir_children_count 0 i
  else if S_ISREG m then set_file_size 0 i else i.

Definition set_data_block_number (b : Z) (i : simplefs_inode) : simplefs_inode :=
  mk_inode (mode i) (pad i) (inode_no i) b (size_or_children i).

(** The part of [simplefs_create_fs_object] after [simplefs_inode_add]: write the
    record of the new object and count it. *)
Definition record_fs_object (dir new : inode) (name : bytes) (m : Z) : K Z :=
  parent ← deref (SIMPLEFS_INODE dir);
  bh ← call (sb_bread (data_block_number parent));
  BUG_ON (negb bh) ;;
  sfs_inode ← deref (i_private new);
  buf_write (data_block_number parent)
    (store_le (sizeof_dir_record * dir_children_count parent +
               SIMPLEFS_FILENAME_MAXLEN) 8 (inode_no sfs_inode)) ;;
  buf_write (data_block_number parent)
    (store (sizeof_dir_record * dir_children_count parent) (name ++ [0])) ;;
  call (mark_buffer_dirty (data_block_number parent)) ;;
  sync_buffer (data_block_number parent) ;;
  call (brelse (data_block_number parent)) ;;
  r ← call (mutex_lock_interruptible simplefs_inodes_mgmt_lock);
  if negb (r =? 0) then directory_unlock ;; mret (- EINTR) else
  assign (SIMPLEFS_INODE dir)
    (fun i => set_dir_children_count (dir_children_count i + 1) i) ;;
  ret ← simplefs_inode_save (SIMPLEFS_INODE dir);
  call (mutex_unlock simplefs_inodes_mgmt_lock) ;;
  directory_unlock ;;
  if negb (ret =? 0) then mret ret else
  call (inode_init_owner new m) ;;
  call (d_add name new) ;;
  mret 0.

(** From [simplefs_inode_add] on: add the inode to the store and its record to
    the directory. *)
Definition link_fs_object (dir new : inode) (name : bytes) (m : Z) : K Z :=
  simplefs_inode_add (i_private new) ;;
  record_fs_object dir new name m.

Definition simplefs_create_fs_object (dir : inode) (name : bytes) (m : Z) : K Z :=
  r ← call (mutex_lock_interruptible simplefs_directory_children_update_lock);
  if negb (r =? 0) then mret (- EINTR) else
  '(ret, count) ← simplefs_sb_get_objects_count;
  if ret <? 0 then directory_unlock ;; mret ret else
  let count := default 0 count in
  if SIMPLEFS_MAX_FILESYSTEM_OBJECTS_SUPPORTED <=? count then
    directory_unlock ;; mret (- ENOSPC)
  else if negb (S_ISDIR m) && negb (S_ISREG m) then
    directory_unlock ;; mret (- EINVAL)
  else
  ok ← call new_inode;
  if negb ok then directory_unlock ;; mret (- ENOMEM) else
  let ino := u64 (count + SIMPLEFS_START_INO - SIMPLEFS_RESERVED_INODES + 1) in
  sfs_inode ← alloc_inode;
  assign sfs_inode (init_fields ino m) ;;
  let new := mk_vfs_inode ino
    (Some (if S_ISDIR m then simplefs_dir_operations else simplefs_file_operations))
    sfs_inode in
  '(ret, block) ← simplefs_sb_get_a_freeblock;
  if ret <? 0 then directory_unlock ;; mret ret else
  assign sfs_inode (set_data_block_number (default 0 block)) ;;
  link_fs_object dir new name m.

Definition simplefs_mkdir (dir : inode) (name : bytes) (m : Z) : K Z :=
  simplefs_create_fs_object dir name (u16 (Z.lor S_IFDIR m)).

Definition simplefs_create (dir : inode) (name : bytes) (m : Z) (excl : bool) : K Z :=
  simplefs_create_fs_object dir name m.

(** [ino] has type [int]. *)
Definition simplefs_iget (ino : Z) : K inode :=
  sfs_inode ← simplefs_get_inode (u64 ino);
  ok ← call new_inode;
  if negb ok then fail NullDeref else
  i ← deref sfs_inode;
  fop ← (if S_ISDIR (mode i) then mret (Some simplefs_dir_operations)
         else if S_ISREG (mode i) then mret (Some simplefs_file_operations)
         else call printk ;; mret None);
  mret (mk_vfs_inode (u64 ino) fop sfs_inode).

(** The [for] loop of [simplefs_lookup] from record [k]. *)
Fixpoint lookup_loop (n : nat) (k blk : Z) (name : bytes) : K unit :=
  match n with
  | O => mret tt
  | S n' =>
      eq ← buf_read blk (fun l => strcmp_eq (record_filename k l) name);
      if (eq : bool) then
        no ← buf_read blk (record_inode_no k);
        i ← simplefs_iget (s32 no);
        j ← deref (SIMPLEFS_INODE i);
        call (inode_init_owner i (mode j)) ;;
        call (d_add name i)
      else lookup_loop n' (k + 1) blk name
  end.

(** Always returns NULL; the outcome is whether [d_add] was called. *)
Definition simplefs_lookup (parent_inode : inode) (name : bytes) : K unit :=
  parent ← deref (SIMPLEFS_INODE parent_inode);
  bh ← call (sb_bread (data_block_number parent));
  if negb bh then fail NullDeref else
  lookup_loop (Z.to_nat (dir_children_count parent)) 0
    (data_block_number parent) name.

(** ** Super-block and module operations *)

(** An object that is not allocated, or NULL, must not be given back. *)
Definition simplefs_destory_inode (i : inode) : K unit :=
  _ ← deref (SIMPLEFS_INODE i);
  p ← or_fault NullDeref (SIMPLEFS_INODE i);
  call (kmem_cache_free (Some p)) ;;
  modify (fun s => mk_fs (b_data s) (delete p (slab s)) (slab_next s) (super s)).

Definition simplefs_put_super : K unit := mret tt.

Definition simplefs_fill_super : K Z :=
  bh ← call (sb_bread 0);
  BUG_ON (negb bh) ;;
  ok ← call new_inode;
  if negb ok then fail NullDeref else
  call (inode_init_owner
    (mk_vfs_inode SIMPLEFS_ROOTDIR_INODE_NUMBER None None) S_IFDIR) ;;
  p ← simplefs_get_inode SIMPLEFS_ROOTDIR_INODE_NUMBER;
  let root_inode := mk_vfs_inode SIMPLEFS_ROOTDIR_INODE_NUMBER
    (Some simplefs_dir_operations) p in
  ok ← call (d_make_root root_inode);
  modify (fun s => mk_fs (b_data s) (slab s) (slab_next s)
    (Some (mk_super SIMPLEFS_MAGIC SIMPLEFS_DEFAULT_BLOCK_SIZE
       (if (ok : bool) then Some root_inode else None)))) ;;
  mret 0.

(** [mount_bdev] is the kernel's: it prepares the super block and calls the
    function it is given on it. *)
Definition simplefs_mount (mount_bdev : K Z -> K Z) : K Z :=
  mount_bdev simplefs_fill_super.

Definition simplefs_kill_superblock (kill_block_super : K unit) : K unit :=
  kill_block_super.

Definition simplefs_init : K Z :=
  call kmem_cache_create ;; call register_filesystem.

Definition simplefs_exit : K unit :=
  call unregister_filesystem ;; call kmem_cache_destroy.
