(* ===== verification/SimplefsInv.v ===== *)
(** * simplefs: the memory invariant

    Every buffer is one 4096-byte block, every slab object holds values of the
    C field types, and slab addresses at or above [slab_next] are unused.  All
    operations preserve it, whatever the kernel answers. *)

From S2P Require Export Simplefs.

Record wf_fs (s : fs) : Prop := {
  wf_block_length : forall n, length (b_data s n) = 4096%nat;
  wf_block_bytes : forall n, wf_bytes (b_data s n);
  wf_slab : forall p i, slab s !! p = Some i -> wf_inode i;
  wf_slab_next : forall p, (slab_next s <= p)%nat -> slab s !! p = None;
}.

(** The contents of a fresh slab object are 32 bytes, hence field values in
    range. *)
Definition answer_wf (c : kcall) : resp c -> Prop :=
  match c with
  | kmem_cache_alloc => fun r => forall i, r = Some i -> wf_inode i
  | _ => fun _ => True
  end.
Definition env_wf (e : env kcall) : Prop := forall tr c, answer_wf c (e tr c).

Lemma wf_set_b_data n d s :
  wf_fs s -> length d = 4096%nat -> wf_bytes d -> wf_fs (set_b_data n d s).
Proof.
  intros [H1 H2 H3 H4] Hl Hd. split; simpl; try done.
  - intros m. destruct (decide (n = m)) as [<-|?].
    + by rewrite fn_lookup_insert.
    + by rewrite fn_lookup_insert_ne.
  - intros m. destruct (decide (n = m)) as [<-|?].
    + by rewrite fn_lookup_insert.
    + by rewrite fn_lookup_insert_ne.
Qed.

Lemma wf_set_slab p i s :
  wf_fs s -> wf_inode i -> is_Some (slab s !! p) -> wf_fs (set_slab p i s).
Proof.
  intros [H1 H2 H3 H4] Hi [j Hj]. split; simpl; try done.
  - intros q k. rewrite lookup_insert. case_decide; [congruence | apply H3].
  - intros q Hq. rewrite lookup_insert_ne; [by apply H4|].
    intros ->. by rewrite H4 in Hj.
Qed.

Definition fresh_object (g : simplefs_inode) (s : fs) : fs :=
  mk_fs (b_data s) (<[slab_next s := g]> (slab s)) (S (slab_next s)) (super s).

Lemma wf_fresh_object g s : wf_fs s -> wf_inode g -> wf_fs (fresh_object g s).
Proof.
  intros [H1 H2 H3 H4] Hg. split; simpl; try done.
  - intros q k. rewrite lookup_insert. case_decide; [|by apply H3]. by intros [= <-].
  - intros q Hq. rewrite lookup_insert_ne by lia. apply H4. lia.
Qed.

(** A write to a buffer that keeps its length and writes bytes. *)
Definition keeps_block (f : bytes -> option bytes) : Prop :=
  forall l l', wf_bytes l -> f l = Some l' -> length l' = length l /\ wf_bytes l'.

Lemma keeps_store off d : wf_bytes d -> keeps_block (store off d).
Proof. intros ? l l' ? Hs. split; [by eapply store_length | by eapply (store_wf off d l)]. Qed.
Lemma keeps_store_le off n z : keeps_block (store_le off n z).
Proof. apply keeps_store, le_enc_wf. Qed.
Lemma keeps_store_inode k i : keeps_block (store_inode k i).
Proof. apply keeps_store, encode_inode_wf. Qed.

Lemma set_file_size_wf z i : wf_inode i -> wf_inode (set_file_size z i).
Proof.
  intros (? & ? & ? & ? & ?). pose proof (uwrap_range 64 z ltac:(done)).
  unfold wf_inode, set_file_size.
  cbn [mode pad inode_no data_block_number size_or_children]. split_and!; lia.
Qed.

Section invariant.
Context (e : env kcall) (He : env_wf e).

(** [keeps m P]: [m] preserves the invariant and its result satisfies [P]. *)
Definition keeps {A} (m : K A) (P : A -> Prop) : Prop :=
  forall s tr, wf_fs s -> wlp m e (fun a s' _ => wf_fs s' /\ P a) s tr.

Lemma keeps_ret {A} (a : A) (P : A -> Prop) : P a -> keeps (mret a) P.
Proof. by intros ? s tr ?. Qed.
Lemma keeps_bind {A B} (m : K A) (f : A -> K B) P Q :
  keeps m P -> (forall a, P a -> keeps (f a) Q) -> keeps (m ≫= f) Q.
Proof.
  intros Hm Hf s tr Hs. apply wlp_bind. eapply wlp_mono; [by apply Hm|].
  intros a s' tr' [? ?]. by apply Hf.
Qed.
Lemma keeps_call c (P : resp c -> Prop) :
  (forall tr, answer_wf c (e tr c) -> P (e tr c)) -> keeps (call c) P.
Proof. intros HP s tr Hs. apply wlp_call. split; [done | apply HP, He]. Qed.
Lemma keeps_fail {A} x (P : A -> Prop) : keeps (fail x) P.
Proof. done. Qed.
Lemma keeps_or_fault {A} x (o : option A) :
  keeps (or_fault x o) (fun a => o = Some a).
Proof. intros s tr Hs. by apply wlp_or_fault. Qed.
Lemma keeps_BUG_ON b : keeps (BUG_ON b) (fun _ => True).
Proof. by intros s tr Hs; destruct b. Qed.
Lemma keeps_weaken {A} (m : K A) (P Q : A -> Prop) :
  keeps m P -> (forall a, P a -> Q a) -> keeps m Q.
Proof.
  intros Hm HPQ s tr Hs. eapply wlp_mono; [by apply Hm|].
  intros a s' tr' [? ?]. auto.
Qed.

Lemma keeps_buf_read {A} n (f : bytes -> option A) (P : A -> Prop) :
  (forall l a, wf_bytes l -> length l = 4096%nat -> f l = Some a -> P a) ->
  keeps (buf_read n f) P.
Proof.
  intros HP s tr Hs. unfold buf_read. wp_go.
  split; [done|]. eapply HP; [by apply wf_block_bytes| |done].
  by apply wf_block_length.
Qed.
Lemma keeps_buf_write n f : keeps_block f -> keeps (buf_write n f) (fun _ => True).
Proof.
  intros Hf s tr Hs. unfold buf_write. wp_go.
  edestruct Hf as [Hl Hd]; [by apply wf_block_bytes, Hs|done|].
  split; [|done]. apply wf_set_b_data; [done| |done].
  by rewrite Hl, (wf_block_length _ Hs).
Qed.
Lemma keeps_deref p : keeps (deref p) wf_inode.
Proof.
  intros s tr Hs. unfold deref. wp_go. split; [done|].
  by eapply wf_slab.
Qed.
Lemma keeps_assign p f :
  (forall i, wf_inode i -> wf_inode (f i)) -> keeps (assign p f) (fun _ => True).
Proof.
  intros Hf s tr Hs. unfold assign, deref. wp_go.
  simplify_eq. split; [|done].
  apply wf_set_slab; [done | by eapply Hf, wf_slab | by eexists].
Qed.
Lemma keeps_alloc_inode : keeps alloc_inode (fun _ => True).
Proof.
  intros s tr Hs. unfold alloc_inode. wp_go.
  pose proof (He tr kmem_cache_alloc) as Hg. simpl in Hg.
  destruct (e tr kmem_cache_alloc) as [g|]; [|done]. wp_go.
  split; [|done]. apply wf_fresh_object; [done | by apply Hg].
Qed.
End invariant.

Create HintDb keeps.
#[export] Hint Resolve keeps_BUG_ON keeps_deref keeps_alloc_inode keeps_fail
  keeps_store keeps_store_le keeps_store_inode : keeps.

(** Walk through an operation with the [keeps] rules; leaves the side
    conditions it cannot close. *)
Ltac keeps_step :=
  lazymatch goal with
  | |- keeps _ (mbind _ (if _ then _ else _)) _ =>
      apply keeps_bind with (P := fun _ => True); [|intros ? ?]
  | |- keeps _ (mbind _ _) _ => eapply keeps_bind; [|intros ? ?]
  | |- keeps _ (mret _) _ => apply keeps_ret
  | |- keeps _ (call _) _ => apply keeps_call; [done|intros ? ?]
  | |- keeps _ (or_fault _ _) _ => apply keeps_or_fault
  | |- keeps _ (fail _) _ => apply keeps_fail
  | |- keeps _ (buf_write _ _) _ => apply keeps_buf_write
  | |- keeps _ (if ?b then _ else _) _ => destruct b eqn:?
  | |- keeps _ (match ?b with _ => _ end) _ => destruct b eqn:?
  end.

Section operations.
Context (e : env kcall) (He : env_wf e).
#[local] Hint Resolve He : keeps.

Abbreviation keeps_true m := (keeps e m (fun _ => True)).

Ltac go := repeat keeps_step; eauto with keeps.

Lemma keeps_gets_data n : keeps_true (sync_buffer n).
Proof. by intros s tr Hs. Qed.
#[local] Hint Resolve keeps_gets_data : keeps.

Lemma keeps_sb_sync : keeps_true simplefs_sb_sync.
Proof. unfold simplefs_sb_sync. go. Qed.
#[local] Hint Resolve keeps_sb_sync : keeps.

Lemma keeps_SIMPLEFS_SB f : keeps_true (SIMPLEFS_SB f).
Proof. by apply keeps_buf_read. Qed.
#[local] Hint Resolve keeps_SIMPLEFS_SB : keeps.

Lemma keeps_inode_add p : keeps_true (simplefs_inode_add p).
Proof. unfold simplefs_inode_add. go. Qed.

#[local] Hint Resolve keeps_inode_add : keeps.

Lemma freeblock_loop_range n i fb r :
  freeblock_loop n i fb = Some r -> i <= r <= i + Z.of_nat n.
Proof.
  revert i. induction n as [|n IH]; simpl; intros i Hr; [simplify_eq; lia|].
  destruct (shl1_int i); simplify_eq/=.
  destruct (negb _); simplify_eq; [lia|]. apply IH in Hr. lia.
Qed.

Lemma keeps_get_a_freeblock :
  keeps e simplefs_sb_get_a_freeblock
    (fun r => 0 <= default 0 r.2 < 2 ^ 64).
Proof.
  unfold simplefs_sb_get_a_freeblock. go; simpl; try lia.
  match goal with H : context [freeblock_loop] |- _ =>
    apply freeblock_loop_range in H end.
  unfold SIMPLEFS_MAX_FILESYSTEM_OBJECTS_SUPPORTED in *. lia.
Qed.

Lemma keeps_get_objects_count : keeps_true simplefs_sb_get_objects_count.
Proof. unfold simplefs_sb_get_objects_count. go. Qed.
#[local] Hint Resolve keeps_get_objects_count : keeps.

Lemma keeps_load_inode n k :
  keeps e (buf_read n (load_inode k)) wf_inode.
Proof. apply keeps_buf_read. intros. by eapply load_inode_wf. Qed.
#[local] Hint Resolve keeps_load_inode : keeps.

Lemma keeps_get_inode_loop n k no : keeps_true (get_inode_loop n k no).
Proof.
  revert k. induction n as [|n IH]; intros k; simpl; go.
  apply keeps_assign. eauto.
Qed.
#[local] Hint Resolve keeps_get_inode_loop : keeps.

Lemma keeps_get_inode no : keeps_true (simplefs_get_inode no).
Proof. unfold simplefs_get_inode. go. Qed.
#[local] Hint Resolve keeps_get_inode : keeps.

Lemma keeps_read {A} n (f : bytes -> option A) : keeps_true (buf_read n f).
Proof. by apply keeps_buf_read. Qed.
#[local] Hint Resolve keeps_read : keeps.

Lemma keeps_inode_save p : keeps_true (simplefs_inode_save p).
Proof. unfold simplefs_inode_save. go. Qed.
#[local] Hint Resolve keeps_inode_save : keeps.

Lemma keeps_iterate_loop n k blk pos : keeps_true (iterate_loop n k blk pos).
Proof. revert k pos. induction n as [|n IH]; intros k pos; simpl; go. Qed.
#[local] Hint Resolve keeps_iterate_loop : keeps.

Lemma keeps_iterate i pos : keeps_true (simplefs_iterate i pos).
Proof. unfold simplefs_iterate. go. Qed.

Lemma keeps_fs_read i len ppos : keeps_true (simplefs_read i len ppos).
Proof. unfold simplefs_read. go. Qed.

Lemma user_copy_wf buf r : wf_bytes buf -> wf_bytes (user_copy buf r).
Proof.
  intros. apply Forall_app. split; [by apply Forall_take|].
  apply Forall_replicate. unfold is_byte. lia.
Qed.

Lemma keeps_fs_write i buf ppos :
  wf_bytes buf -> keeps_true (simplefs_write i buf ppos).
Proof.
  intros. unfold simplefs_write. go.
  - by apply keeps_store, user_copy_wf.
  - apply keeps_assign. intros. by apply set_file_size_wf.
Qed.

Lemma init_fields_wf no m i :
  0 <= no < 2 ^ 64 -> 0 <= m < 2 ^ 16 -> wf_inode i -> wf_inode (init_fields no m i).
Proof.
  intros ? ? (? & ? & ? & ? & ?). unfold init_fields.
  destruct (S_ISDIR m); [|destruct (S_ISREG m)];
    try apply set_file_size_wf; repeat split; simpl; lia.
Qed.

Lemma keeps_link dir new name m :
  wf_bytes name -> keeps_true (link_fs_object dir new name m).
Proof.
  intros. unfold link_fs_object, record_fs_object, directory_unlock. go.
  - apply keeps_store, Forall_app. split; [done|]. by repeat constructor.
  - apply keeps_assign. intros. by apply set_file_size_wf.
Qed.
#[local] Hint Resolve keeps_link : keeps.

Lemma keeps_create_fs_object dir name m :
  wf_bytes name -> 0 <= m < 2 ^ 16 ->
  keeps_true (simplefs_create_fs_object dir name m).
Proof.
  intros. unfold simplefs_create_fs_object, directory_unlock.
  go; try apply keeps_assign.
  - intros. apply init_fields_wf; [|done|done]. by apply uwrap_range.
  - apply keeps_get_a_freeblock.
  - intros i (? & ? & ? & ? & ?). by repeat split; simpl in *; try lia.
Qed.

Lemma keeps_iget ino : keeps_true (simplefs_iget ino).
Proof. unfold simplefs_iget. go. Qed.
#[local] Hint Resolve keeps_iget : keeps.

Lemma keeps_lookup_loop n k blk name : keeps_true (lookup_loop n k blk name).
Proof. revert k. induction n as [|n IH]; intros k; simpl; go. Qed.
#[local] Hint Resolve keeps_lookup_loop : keeps.

Lemma keeps_lookup i name : keeps_true (simplefs_lookup i name).
Proof. unfold simplefs_lookup. go. Qed.

Lemma keeps_modify f : (forall s, wf_fs s -> wf_fs (f s)) -> keeps_true (modify f).
Proof. intros Hf s tr Hs. wp_go. eauto. Qed.

Lemma keeps_destory_inode i : keeps_true (simplefs_destory_inode i).
Proof.
  unfold simplefs_destory_inode. go. apply keeps_modify.
  intros s [L1 L2 L3 L4]. split; simpl; [done|done| |].
  - intros q j. rewrite lookup_delete_Some. intros [? ?]. by eapply L3.
  - intros q Hq. apply lookup_delete_None. right. by apply L4.
Qed.

Lemma keeps_fill_super : keeps_true simplefs_fill_super.
Proof.
  unfold simplefs_fill_super. go. apply keeps_modify.
  intros s [L1 L2 L3 L4]. by split.
Qed.
End operations.

(** ** The VFS entry points

    [vfs_op] lists the operations the kernel may invoke, with their arguments;
    [run_op] runs one, dropping its result. *)
Inductive vfs_op :=
  | op_create (dir : inode) (name : bytes) (m : Z) (excl : bool)
  | op_mkdir (dir : inode) (name : bytes) (m : Z)
  | op_lookup (dir : inode) (name : bytes)
  | op_iterate (dir : inode) (pos : Z)
  | op_read (i : inode) (len ppos : Z)
  | op_write (i : inode) (buf : bytes) (ppos : Z)
  | op_destroy_inode (i : inode)
  | op_fill_super.

Definition run_op (op : vfs_op) : K unit :=
  match op with
  | op_create dir name m excl => simplefs_create dir name m excl ;; mret tt
  | op_mkdir dir name m => simplefs_mkdir dir name m ;; mret tt
  | op_lookup dir name => simplefs_lookup dir name
  | op_iterate dir pos => simplefs_iterate dir pos ;; mret tt
  | op_read i len ppos => simplefs_read i len ppos ;; mret tt
  | op_write i buf ppos => simplefs_write i buf ppos ;; mret tt
  | op_destroy_inode i => simplefs_destory_inode i
  | op_fill_super => simplefs_fill_super ;; mret tt
  end.

(** Names and user buffers are bytes, a mode is a [umode_t]. *)
Definition op_wf (op : vfs_op) : Prop :=
  match op with
  | op_create _ name m _ => wf_bytes name /\ 0 <= m < 2 ^ 16
  | op_mkdir _ name _ => wf_bytes name
  | op_write _ buf _ => wf_bytes buf
  | _ => True
  end.

(** One operation that returns, in any environment and after any history. *)
Inductive fs_step : fs -> fs -> Prop :=
  | fs_step_op e op s s' tr tr' :
      env_wf e -> op_wf op -> run_op op e s tr = Ok tt s' tr' -> fs_step s s'.

Lemma keeps_run_op e op :
  env_wf e -> op_wf op -> keeps e (run_op op) (fun _ => True).
Proof.
  intros He Hop. destruct op; simpl in *; try (eapply keeps_bind; [|by intros; apply keeps_ret]).
  - destruct Hop. by apply keeps_create_fs_object.
  - apply keeps_create_fs_object; [done|done|]. by apply uwrap_range.
  - by apply keeps_lookup.
  - by apply keeps_iterate.
  - by apply keeps_fs_read.
  - by apply keeps_fs_write.
  - by apply keeps_destory_inode.
  - by apply keeps_fill_super.
Qed.

Lemma fs_step_wf s s' : fs_step s s' -> wf_fs s -> wf_fs s'.
Proof.
  intros [e op s0 s1 tr tr' He Hop Hr] Hs.
  pose proof (keeps_run_op e op He Hop s0 tr Hs) as H. unfold wlp in H.
  rewrite Hr in H. tauto.
Qed.
