(* ===== verification/SimplefsAlloc.v ===== *)
(** * simplefs: block allocation and inode search

    Behaviour of [simplefs_sb_get_a_freeblock] and [simplefs_inode_search] on
    every branch, with the bitmap arithmetic at its C widths. *)

From S2P Require Export SimplefsInv.

(** ** An environment in which no service fails *)

Definition answer_ok (c : kcall) : resp c -> Prop :=
  match c with
  | mutex_lock_interruptible _ => fun r => r = 0
  | sb_bread _ => fun r => r = true
  | new_inode | d_make_root _ => fun r => r = true
  | kmem_cache_alloc => fun r => is_Some r
  | copy_to_user _ => fun r => r = 0
  | copy_from_user _ => fun r => r = 0
  | _ => fun _ => True
  end.
Definition quiet (e : env kcall) : Prop := forall tr c, answer_ok c (e tr c).

(** A concrete one, for evaluation. *)
Definition quiet_env : env kcall := fun tr c =>
  match c with
  | mutex_lock_interruptible _ => 0
  | sb_bread _ | new_inode | dir_emit _ _ _ | d_make_root _ => true
  | kmem_cache_alloc => Some (mk_inode 0 0 0 0 0)
  | copy_to_user _ | copy_from_user _ => 0
  | register_filesystem | unregister_filesystem => 0
  | mutex_unlock _ | mark_buffer_dirty _ | sync_dirty_buffer _ _ | brelse _
  | kmem_cache_free _ | inode_init_owner _ _ | d_add _ _ | kmem_cache_create
  | kmem_cache_destroy | printk => tt
  end.

Lemma quiet_env_quiet : quiet quiet_env.
Proof. intros tr []; try done. by eexists. Qed.
Lemma quiet_env_wf : env_wf quiet_env.
Proof. intros tr []; try done. by intros i [= <-]. Qed.

Section quiet_calls.
Context (e : env kcall) (Hq : quiet e).
Lemma quiet_lock tr l : e tr (mutex_lock_interruptible l) = 0.
Proof. apply (Hq tr (mutex_lock_interruptible l)). Qed.
Lemma quiet_bread tr n : e tr (sb_bread n) = true.
Proof. apply (Hq tr (sb_bread n)). Qed.
Lemma quiet_new_inode tr : e tr new_inode = true.
Proof. apply (Hq tr new_inode). Qed.
Lemma quiet_make_root tr i : e tr (d_make_root i) = true.
Proof. apply (Hq tr (d_make_root i)). Qed.
Lemma quiet_to_user tr d : e tr (copy_to_user d) = 0.
Proof. apply (Hq tr (copy_to_user d)). Qed.
Lemma quiet_from_user tr n : e tr (copy_from_user n) = 0.
Proof. apply (Hq tr (copy_from_user n)). Qed.
Lemma quiet_alloc tr : exists g, e tr kmem_cache_alloc = Some g.
Proof. apply (Hq tr kmem_cache_alloc). Qed.
End quiet_calls.

(** ** Bitmap arithmetic *)

Lemma shl1_small i : 0 <= i < 31 -> shl1_int i = Some (2 ^ i).
Proof.
  intros Hi. unfold shl1_int.
  rewrite (proj2 (Z.leb_le 0 i)), (proj2 (Z.ltb_lt i 32)) by lia. simpl.
  rewrite Z.shiftl_1_l, swrap_id; [done | done |].
  assert (2 ^ i < 2 ^ 31) by (apply Z.pow_lt_mono_r; lia).
  assert (0 < 2 ^ i) by (apply Z.pow_pos_nonneg; lia). int_lia.
Qed.

Lemma shl1_31 : shl1_int 31 = Some (- 2 ^ 31).
Proof. done. Qed.

Lemma shl1_undef i : 32 <= i -> shl1_int i = None.
Proof.
  intros Hi. unfold shl1_int.
  by rewrite (proj2 (Z.ltb_ge i 32)), andb_false_r by lia.
Qed.

Lemma int_to_u64_pow i : 0 <= i < 31 -> int_to_u64 (2 ^ i) = 2 ^ i.
Proof.
  intros Hi. apply uwrap_id.
  assert (2 ^ i < 2 ^ 31) by (apply Z.pow_lt_mono_r; lia).
  assert (0 < 2 ^ i) by (apply Z.pow_pos_nonneg; lia). int_lia.
Qed.

(** The test [free_blocks & (1 << i)]. *)
Lemma land_pow_eqb fb i :
  0 <= i -> negb (Z.land fb (2 ^ i) =? 0) = Z.testbit fb i.
Proof.
  intros Hi. destruct (Z.testbit fb i) eqn:E.
  - apply negb_true_iff, Z.eqb_neq. intros H.
    assert (Z.testbit (Z.land fb (2 ^ i)) i = true) as Hb
      by (by rewrite Z.land_spec, E, Z.pow2_bits_true).
    by rewrite H, Z.bits_0 in Hb.
  - apply negb_false_iff, Z.eqb_eq. apply Z.bits_inj'. intros j Hj.
    rewrite Z.land_spec, Z.pow2_bits_eqb, Z.bits_0 by lia.
    destruct (Z.eqb_spec i j) as [<-|]; [by rewrite E | apply andb_false_r].
Qed.

Lemma land_u64 fb x : 0 <= fb < 2 ^ 64 -> Z.land fb (int_to_u64 x) = Z.land fb x.
Proof.
  intros Hfb. unfold int_to_u64, uwrap. rewrite <- Z.land_ones by done.
  rewrite (Z.land_comm x), Z.land_assoc, Z.land_ones by done.
  by rewrite Z.mod_small.
Qed.

(** [free_blocks &= ~(1 << i)] clears bit [i]. *)
Lemma land_lnot_clearbit fb i :
  0 <= fb < 2 ^ 64 ->
  Z.land fb (int_to_u64 (Z.lnot (2 ^ i))) = Z.clearbit fb i.
Proof.
  intros Hfb. by rewrite land_u64, Z.clearbit_spec', Z.ldiff_land.
Qed.

Lemma ldiff_mod a b n : 0 <= n -> Z.ldiff a b mod 2 ^ n = Z.ldiff (a mod 2 ^ n) b.
Proof.
  intros Hn. rewrite <- !Z.land_ones by done. apply Z.bits_inj'. intros j _.
  rewrite Z.land_spec, !Z.ldiff_spec, Z.land_spec.
  by destruct (Z.testbit a j), (Z.testbit b j), (Z.testbit (Z.ones n) j).
Qed.

Lemma clearbit_range fb i : 0 <= fb < 2 ^ 64 -> 0 <= Z.clearbit fb i < 2 ^ 64.
Proof.
  intros Hfb. rewrite Z.clearbit_spec'.
  rewrite <- (Z.mod_small fb (2 ^ 64)), <- ldiff_mod by done.
  by apply Z.mod_pos_bound.
Qed.

(** The mask of index 31 is sign-extended: it selects every bit from 31 up. *)
Lemma land_mask31 fb :
  0 <= fb < 2 ^ 64 ->
  Z.land fb (int_to_u64 (- 2 ^ 31)) = Z.shiftl (Z.shiftr fb 31) 31.
Proof.
  intros Hfb. rewrite land_u64 by done. apply Z.bits_inj'. intros j Hj.
  replace (- 2 ^ 31) with (Z.lnot (Z.ones 31)) by done.
  rewrite Z.land_spec, Z.lnot_spec, Z.testbit_ones_nonneg, Z.shiftl_spec by lia.
  destruct (Z.ltb_spec j 31); simpl.
  - rewrite andb_false_r. symmetry. apply Z.testbit_neg_r. lia.
  - rewrite andb_true_r, Z.shiftr_spec by lia. f_equal. lia.
Qed.

Lemma land_lnot_mask31 fb :
  0 <= fb < 2 ^ 64 ->
  Z.land fb (int_to_u64 (Z.lnot (- 2 ^ 31))) = fb mod 2 ^ 31.
Proof. intros. rewrite land_u64 by done. by apply (Z.land_ones fb 31). Qed.

(** ** The search loop *)

(** The index the loop stops at is the lowest set bit at or above the start. *)
Lemma freeblock_loop_found n i j fb :
  0 <= i <= j -> j < 31 -> j < i + Z.of_nat n ->
  (forall k, i <= k < j -> Z.testbit fb k = false) -> Z.testbit fb j = true ->
  freeblock_loop n i fb = Some j.
Proof.
  revert i. induction n as [|n IH]; intros i Hi Hj Hn Hlow Hset; [lia|].
  cbn [freeblock_loop]. rewrite shl1_small by lia. simpl.
  rewrite int_to_u64_pow, land_pow_eqb by lia.
  destruct (decide (i = j)) as [->|]; [by rewrite Hset|].
  rewrite Hlow by lia. apply IH; auto with lia.
Qed.

(** With bits 2 to 30 clear the loop reaches index 31. *)
Lemma freeblock_loop_skip m n i fb :
  0 <= i -> i + Z.of_nat m <= 31 ->
  (forall k, i <= k < i + Z.of_nat m -> Z.testbit fb k = false) ->
  freeblock_loop (m + n) i fb = freeblock_loop n (i + Z.of_nat m) fb.
Proof.
  revert i. induction m as [|m IH]; intros i Hi Hm Hlow.
  - f_equal. lia.
  - cbn [freeblock_loop Nat.add]. rewrite shl1_small by lia. simpl.
    rewrite int_to_u64_pow, land_pow_eqb, Hlow, IH by auto with lia.
    f_equal. lia.
Qed.

(** The search from index 2 over a bitmap with bits 2 to 30 clear: index 31 as
    soon as any bit from 31 up is set, else the undefined shift of index 32. *)
Lemma freeblock_loop_high fb :
  0 <= fb < 2 ^ 64 ->
  (forall k, 2 <= k < 31 -> Z.testbit fb k = false) ->
  freeblock_loop 62 2 fb = if fb <? 2 ^ 31 then None else Some 31.
Proof.
  intros Hfb Hlow.
  rewrite (freeblock_loop_skip 29 33) by (simpl; auto with lia).
  change (2 + Z.of_nat 29) with 31. cbn [freeblock_loop].
  rewrite shl1_31. cbn [mbind option_bind]. rewrite land_mask31 by done.
  rewrite Z.shiftr_div_pow2 by done.
  destruct (Z.ltb_spec fb (2 ^ 31)).
  - rewrite (Z.div_small fb) by lia. done.
  - destruct (Z.eqb_spec (Z.shiftl (fb / 2 ^ 31) 31) 0) as [E|E]; [|done].
    apply Z.shiftl_eq_0_iff, Z.div_small_iff in E; lia.
Qed.

(** ** The allocator *)

(** The state after a write of [fb] to [free_blocks]. *)
Definition with_free_blocks (fb : Z) (s s' : fs) : Prop :=
  exists d, set_sb_free_blocks fb (b_data s 0) = Some d /\ s' = set_b_data 0 d s.

(** One lock and one unlock of the super-block mutex around the update and the
    two calls that write it back; [sb] is the block that was written. *)
Definition allocator_calls (sb : bytes) : list kcall :=
  [ mutex_lock_interruptible simplefs_sb_lock; sb_bread 0; mark_buffer_dirty 0;
    sync_dirty_buffer 0 sb; brelse 0; mutex_unlock simplefs_sb_lock ].

(** What was written to the device: the blocks synchronised, newest first. *)
Fixpoint syncs (tr : trace kcall) : list (Z * bytes) :=
  match tr with
  | [] => []
  | existT (sync_dirty_buffer n d) _ :: tr' => (n, d) :: syncs tr'
  | _ :: tr' => syncs tr'
  end.

Lemma syncs_app tr1 tr2 : syncs (tr1 ++ tr2) = syncs tr1 ++ syncs tr2.
Proof. induction tr1 as [|[[] r] tr1 IH]; cbn; congruence. Qed.

(** Look through the calls that do not write. *)
Ltac by_syncs :=
  cbn [syncs ev];
  repeat (match goal with H : syncs ?t = _ |- context [syncs ?t] => rewrite H end;
          cbn [syncs ev]);
  rewrite ?fn_lookup_insert; done.

Lemma calls_app {C} {api : KApi C} (tr1 tr2 : trace C) :
  calls (tr1 ++ tr2) = calls tr2 ++ calls tr1.
Proof. unfold calls. by rewrite fmap_app, rev_app_distr. Qed.

Lemma set_free_blocks_Some fb s :
  wf_fs s -> is_Some (set_sb_free_blocks fb (b_data s 0)).
Proof.
  intros Hs. unfold set_sb_free_blocks, store_le.
  rewrite store_Some; [by eexists | lia |].
  rewrite length_le_enc, (wf_block_length _ Hs). lia.
Qed.

#[local] Arguments freeblock_loop : simpl never.

Section allocator.
Context (e : env kcall) (Hq : quiet e) (s : fs) (Hs : wf_fs s).

Lemma sb_sync_ok s1 tr :
  simplefs_sb_sync e s1 tr =
  Ok tt s1 (ev (brelse 0) tt :: ev (sync_dirty_buffer 0 (b_data s1 0)) tt ::
            ev (mark_buffer_dirty 0) tt :: ev (sb_bread 0) true :: tr).
Proof.
  unfold simplefs_sb_sync, sync_buffer, call, get, mbind, M_bind, ev.
  unfold SIMPLEFS_SUPERBLOCK_BLOCK_NUMBER.
  rewrite (quiet_bread e Hq). simpl. unfold mret, M_ret. simpl.
  repeat f_equal; by destruct (e _ _).
Qed.

Lemma get_a_freeblock_run fb i b tr :
  sb_free_blocks (b_data s 0) = Some fb ->
  freeblock_loop 62 2 fb = Some i -> i < 64 -> shl1_int i = Some b ->
  exists s' tr',
    simplefs_sb_get_a_freeblock e s tr = Ok (0, Some i) s' (tr' ++ tr) /\
    with_free_blocks (Z.land fb (int_to_u64 (Z.lnot b))) s s' /\
    calls tr' = allocator_calls (b_data s' 0) /\ syncs tr' = [(0, b_data s' 0)].
Proof.
  intros Hfb Hloop Hi Hb.
  destruct (set_free_blocks_Some (Z.land fb (int_to_u64 (Z.lnot b))) s Hs) as [d Hd].
  unfold simplefs_sb_get_a_freeblock.
  unfold SIMPLEFS_SB, buf_read, buf_write, call, get, modify, mbind, M_bind.
  rewrite (quiet_lock e Hq). simpl.
  unfold SIMPLEFS_SUPERBLOCK_BLOCK_NUMBER. rewrite Hfb. simpl.
  unfold mret, M_ret.
  change (Z.to_nat (SIMPLEFS_MAX_FILESYSTEM_OBJECTS_SUPPORTED - 2)) with 62%nat.
  rewrite Hloop. cbn [or_fault]. unfold mret, M_ret.
  replace (i =? SIMPLEFS_MAX_FILESYSTEM_OBJECTS_SUPPORTED) with false
    by (symmetry; apply Z.eqb_neq;
        unfold SIMPLEFS_MAX_FILESYSTEM_OBJECTS_SUPPORTED; lia).
  rewrite Hb. cbn [or_fault]. unfold mret, M_ret. rewrite Hd. cbn [or_fault].
  unfold mret, M_ret. rewrite sb_sync_ok.
  eexists _, [_; _; _; _; _; _]. split; [reflexivity|].
  split; [by exists d | done].
Qed.
End allocator.

Lemma sb_free_blocks_range s fb :
  wf_fs s -> sb_free_blocks (b_data s 0) = Some fb -> 0 <= fb < 2 ^ 64.
Proof.
  unfold sb_free_blocks, load_le. intros Hs (d & Hd & ->)%fmap_Some.
  pose proof (load_length _ _ _ _ Hd).
  pose proof (le_dec_bound d (load_wf _ _ _ _ (wf_block_bytes _ Hs 0) Hd)) as Hb.
  replace (length d) with 8%nat in Hb by lia. exact Hb.
Qed.

(** The allocator's run when it takes block [i] (index 2 to 31). *)
Lemma get_a_freeblock_takes e s tr fb j :
  quiet e -> wf_fs s -> sb_free_blocks (b_data s 0) = Some fb ->
  2 <= j < 31 -> (forall k, 2 <= k < j -> Z.testbit fb k = false) ->
  Z.testbit fb j = true ->
  exists s' tr',
    simplefs_sb_get_a_freeblock e s tr = Ok (0, Some j) s' (tr' ++ tr) /\
    with_free_blocks (Z.clearbit fb j) s s' /\
    calls tr' = allocator_calls (b_data s' 0) /\ syncs tr' = [(0, b_data s' 0)].
Proof.
  intros Hq Hs Hfb Hj Hlow Hset.
  pose proof (sb_free_blocks_range _ _ Hs Hfb).
  rewrite <- land_lnot_clearbit by done.
  apply get_a_freeblock_run; [done|done|done| |lia|by apply shl1_small; lia].
  apply freeblock_loop_found; auto with lia.
Qed.

(** Reading the bitmap after the allocator stored it. *)
Lemma with_free_blocks_read fb s s' :
  0 <= fb < 2 ^ 64 -> with_free_blocks fb s s' ->
  sb_free_blocks (b_data s' 0) = Some fb.
Proof.
  intros Hfb (d & Hd & ->). simpl. rewrite fn_lookup_insert.
  unfold set_sb_free_blocks in Hd. rewrite uwrap_id in Hd by done.
  by eapply load_le_store_same.
Qed.

Lemma with_free_blocks_frame fb s s' :
  with_free_blocks fb s s' ->
  slab s' = slab s /\ (forall n, n <> 0 -> b_data s' n = b_data s n) /\
  sb_inodes_count (b_data s' 0) = sb_inodes_count (b_data s 0).
Proof.
  intros (d & Hd & ->). simpl. split_and!; [done| |].
  - intros n Hn. by rewrite fn_lookup_insert_ne.
  - rewrite fn_lookup_insert. unfold sb_inodes_count, load_le.
    unfold set_sb_free_blocks, store_le in Hd.
    rewrite (load_store_disjoint _ _ _ _ _ _ Hd); [done|]. simpl. lia.
Qed.

(** ** Inode search *)

Definition slot_no (l : bytes) (k : Z) : option Z := inode_no <$> load_inode k l.

Lemma inode_search_loop_spec n k l no r :
  inode_search_loop n k l no = Some r ->
  k <= r <= k + Z.of_nat n /\
  (forall j, k <= j < r -> slot_no l j <> Some no) /\
  (r < k + Z.of_nat n -> slot_no l r = Some no).
Proof.
  revert k. induction n as [|n IH]; intros k; cbn [inode_search_loop];
    destruct (load_inode k l) as [i|] eqn:Ei; simpl; try done;
    destruct (Z.eqb_spec (inode_no i) no) as [Hno|Hno].
  - intros [= <-]. split_and!; [lia|lia|intros; lia|intros; lia].
  - intros [= <-]. split_and!; [lia|lia|intros; lia|intros; lia].
  - intros [= <-]. split_and!; [lia|lia|intros; lia|].
    intros _. unfold slot_no. rewrite Ei. simpl. by rewrite Hno.
  - intros (? & Hne & Heq)%IH. split_and!; [lia|lia| |intros; apply Heq; lia].
    intros j ?. destruct (decide (j = k)) as [->|]; [|apply Hne; lia].
    unfold slot_no. rewrite Ei. simpl. congruence.
Qed.

Lemma inode_search_loop_total n k l no :
  0 <= k -> 32 * (k + Z.of_nat n + 1) <= Z.of_nat (length l) ->
  is_Some (inode_search_loop n k l no).
Proof.
  revert k. induction n as [|n IH]; intros k Hk Hlen; cbn [inode_search_loop];
    (destruct (load_inode_Some k l) as [i ->]; [lia|lia|]); simpl;
    destruct (inode_no i =? no); try by eexists.
  apply IH; lia.
Qed.

(** The search returns the first matching slot among [0 .. inodes_count],
    the slot [inodes_count] past the last inode included. *)
Lemma inode_search_cases count l no :
  0 <= count -> 32 * (count + 1) <= Z.of_nat (length l) ->
  match simplefs_inode_search count l no with
  | None => False
  | Some (Some k) =>
      0 <= k <= count /\ slot_no l k = Some no /\
      forall j, 0 <= j < k -> slot_no l j <> Some no
  | Some None => forall j, 0 <= j <= count -> slot_no l j <> Some no
  end.
Proof.
  intros Hc Hlen. unfold simplefs_inode_search.
  destruct (inode_search_loop_total (Z.to_nat count) 0 l no) as [k Hk]; [lia|lia|].
  rewrite Hk. simpl. apply inode_search_loop_spec in Hk as (Hr & Hne & Hm).
  destruct (load_inode_Some k l) as [i Hi]; [lia|lia|]. rewrite Hi. simpl.
  assert (slot_no l k = Some (inode_no i)) as Hs by (unfold slot_no; by rewrite Hi).
  destruct (Z.eqb_spec (inode_no i) no) as [<-|Hno].
  - split_and!; [lia|lia|done|done].
  - assert (k = count) as -> by
      (destruct (decide (k < count)); [rewrite Hm in Hs by lia; congruence | lia]).
    intros j Hj. destruct (decide (j = count)) as [->|]; [congruence|].
    apply Hne. lia.
Qed.
