(* ===== verification/SimplefsLocks.v ===== *)
(** * simplefs: locking

    [lock_stack] reads the trace of calls and computes the mutexes held, newest
    first, or [None] as soon as a call breaks the discipline: mutexes are taken
    in the order directory children, inode management, super block, and each is
    released by the holder, last taken first. *)

From S2P Require Export SimplefsAlloc.

Definition rank (l : sfs_lock) : Z :=
  match l with
  | simplefs_directory_children_update_lock => 0
  | simplefs_inodes_mgmt_lock => 1
  | simplefs_sb_lock => 2
  end.

(** Whether [l] may be taken while the mutexes [L] are held. *)
Definition may_take (l : sfs_lock) (L : list sfs_lock) : bool :=
  match L with
  | [] => true
  | h :: _ => rank h <? rank l
  end.

Definition lock_event (c : kcall) : resp c -> list sfs_lock -> option (list sfs_lock) :=
  match c with
  | mutex_lock_interruptible l => fun r L =>
      if r =? 0 then if may_take l L then Some (l :: L) else None else Some L
  | mutex_unlock l => fun _ L =>
      match L with
      | h :: L' => if decide (h = l) then Some L' else None
      | [] => None
      end
  | _ => fun _ L => Some L
  end.

Fixpoint lock_stack (tr : trace kcall) : option (list sfs_lock) :=
  match tr with
  | [] => Some []
  | existT c r :: tr' => lock_stack tr' ≫= lock_event c r
  end.

Definition is_lock_call (c : kcall) : bool :=
  match c with
  | mutex_lock_interruptible _ | mutex_unlock _ => true
  | _ => false
  end.

(** No signal arrives while a task waits for a mutex. *)
Definition uninterrupted (e : env kcall) : Prop :=
  forall tr l, e tr (mutex_lock_interruptible l) = 0.

Section discipline.
Context (e : env kcall) (Hu : uninterrupted e).

(** A run that starts with the mutexes [L] held returns with [L'] held and
    obeys the discipline throughout. *)
Definition locks {A} (m : K A) (L L' : list sfs_lock) : Prop :=
  forall s tr, lock_stack tr = Some L ->
  wlp m e (fun _ _ tr' => lock_stack tr' = Some L') s tr.

Lemma locks_ret {A} (a : A) L : locks (mret a) L L.
Proof. by intros s tr ?. Qed.
Lemma locks_fail {A} x L L' : locks (A := A) (fail x) L L'.
Proof. done. Qed.
Lemma locks_bind {A B} (m : K A) (f : A -> K B) L L1 L' :
  locks m L L1 -> (forall a, locks (f a) L1 L') -> locks (m ≫= f) L L'.
Proof.
  intros Hm Hf s tr Htr. apply wlp_bind. eapply wlp_mono; [by apply Hm|].
  intros. by apply Hf.
Qed.
Lemma locks_take {A} l (f : Z -> K A) L L' :
  may_take l L = true -> locks (f 0) (l :: L) L' ->
  locks (call (mutex_lock_interruptible l) ≫= f) L L'.
Proof.
  intros Hl Hf s tr Htr. wp_go. rewrite Hu. apply Hf.
  simpl. rewrite Htr. simpl. by rewrite Hl.
Qed.
Lemma locks_release l L : locks (call (mutex_unlock l)) (l :: L) L.
Proof.
  intros s tr Htr. wp_go. simpl. rewrite Htr. simpl. by rewrite decide_True.
Qed.
Lemma locks_call c L : is_lock_call c = false -> locks (call c) L L.
Proof.
  intros Hc s tr Htr. wp_go. simpl. rewrite Htr. simpl.
  by destruct c.
Qed.
Lemma locks_or_fault {A} x (o : option A) L : locks (or_fault x o) L L.
Proof. intros s tr Htr. by apply wlp_or_fault. Qed.
Lemma locks_get L : locks get L L.
Proof. by intros s tr ?. Qed.
Lemma locks_put s' L : locks (put s') L L.
Proof. by intros s tr ?. Qed.
Lemma locks_modify f L : locks (modify f) L L.
Proof. by intros s tr ?. Qed.
End discipline.

Create HintDb locks.
#[export] Hint Resolve locks_ret locks_fail locks_release locks_or_fault
  locks_get locks_put locks_modify : locks.

(** Walk through an operation with the rules above. *)
Ltac locks_go :=
  lazymatch goal with
  | |- locks _ (mbind _ (call (mutex_lock_interruptible _))) _ _ =>
      apply locks_take; [assumption | reflexivity | cbn [Z.eqb negb]; locks_go]
  | |- locks _ (mbind _ _) _ _ =>
      eapply locks_bind; [locks_go | intros ?; locks_go]
  | |- locks _ (call (mutex_unlock _)) _ _ => apply locks_release
  | |- locks _ (call _) _ _ => apply locks_call; reflexivity
  | |- locks _ (mret _) _ _ => apply locks_ret
  | |- locks _ (if ?b then _ else _) _ _ => destruct b; locks_go
  | |- locks _ (match ?b with _ => _ end) _ _ => destruct b; locks_go
  | |- _ => solve [eauto with locks]
  end.

Section operations.
Context (e : env kcall) (Hu : uninterrupted e).

(** Operations that touch no mutex. *)
Lemma locks_BUG_ON b L : locks e (BUG_ON b) L L.
Proof. unfold BUG_ON. locks_go. Qed.
Lemma locks_buf_read {A} n (f : bytes -> option A) L : locks e (buf_read n f) L L.
Proof. unfold buf_read. locks_go. Qed.
Lemma locks_buf_write n f L : locks e (buf_write n f) L L.
Proof. unfold buf_write. locks_go. Qed.
Lemma locks_deref p L : locks e (deref p) L L.
Proof. unfold deref. locks_go. Qed.
#[local] Hint Resolve locks_BUG_ON locks_buf_read locks_buf_write locks_deref : locks.
Lemma locks_assign p f L : locks e (assign p f) L L.
Proof. unfold assign. locks_go. Qed.
Lemma locks_alloc_inode L : locks e alloc_inode L L.
Proof. unfold alloc_inode. locks_go. Qed.
Lemma locks_sync_buffer n L : locks e (sync_buffer n) L L.
Proof. unfold sync_buffer. locks_go. Qed.
Lemma locks_SB f L : locks e (SIMPLEFS_SB f) L L.
Proof. apply locks_buf_read. Qed.
#[local] Hint Resolve locks_assign locks_alloc_inode locks_sync_buffer locks_SB : locks.
Lemma locks_sb_sync L : locks e simplefs_sb_sync L L.
Proof. unfold simplefs_sb_sync. locks_go. Qed.
Lemma locks_get_inode_loop n k no L : locks e (get_inode_loop n k no) L L.
Proof. revert k. induction n; intros; cbn; locks_go. Qed.
Lemma locks_iterate_loop n k blk pos L : locks e (iterate_loop n k blk pos) L L.
Proof. revert k pos. induction n; intros; cbn; locks_go. Qed.
#[local] Hint Resolve locks_sb_sync locks_get_inode_loop locks_iterate_loop : locks.
Lemma locks_get_inode no L : locks e (simplefs_get_inode no) L L.
Proof. unfold simplefs_get_inode. locks_go. Qed.
#[local] Hint Resolve locks_get_inode : locks.
Lemma locks_iget no L : locks e (simplefs_iget no) L L.
Proof. unfold simplefs_iget. locks_go. Qed.
#[local] Hint Resolve locks_iget : locks.
Lemma locks_lookup_loop n k blk name L : locks e (lookup_loop n k blk name) L L.
Proof. revert k. induction n; intros; cbn; locks_go. Qed.
#[local] Hint Resolve locks_lookup_loop : locks.

(** Operations that take mutexes: balanced from the listed states. *)
Lemma locks_inode_add p :
  locks e (simplefs_inode_add p) [simplefs_directory_children_update_lock]
    [simplefs_directory_children_update_lock].
Proof. unfold simplefs_inode_add. locks_go. Qed.
Lemma locks_get_a_freeblock :
  locks e simplefs_sb_get_a_freeblock [simplefs_directory_children_update_lock]
    [simplefs_directory_children_update_lock].
Proof. unfold simplefs_sb_get_a_freeblock. locks_go. Qed.
Lemma locks_get_objects_count :
  locks e simplefs_sb_get_objects_count [simplefs_directory_children_update_lock]
    [simplefs_directory_children_update_lock].
Proof. unfold simplefs_sb_get_objects_count. locks_go. Qed.
Lemma locks_inode_save p L :
  locks e (simplefs_inode_save p) (simplefs_inodes_mgmt_lock :: L)
    (simplefs_inodes_mgmt_lock :: L).
Proof. unfold simplefs_inode_save. locks_go. Qed.
#[local] Hint Resolve locks_inode_add locks_get_a_freeblock
  locks_get_objects_count locks_inode_save : locks.

Lemma locks_create_fs_object dir name m :
  locks e (simplefs_create_fs_object dir name m) [] [].
Proof. unfold simplefs_create_fs_object, link_fs_object, record_fs_object, directory_unlock. locks_go. Qed.
Lemma locks_write i buf ppos : locks e (simplefs_write i buf ppos) [] [].
Proof. unfold simplefs_write. locks_go. Qed.
Lemma locks_read i len ppos : locks e (simplefs_read i len ppos) [] [].
Proof. unfold simplefs_read. locks_go. Qed.
Lemma locks_iterate i pos : locks e (simplefs_iterate i pos) [] [].
Proof. unfold simplefs_iterate. locks_go. Qed.
Lemma locks_lookup i name : locks e (simplefs_lookup i name) [] [].
Proof. unfold simplefs_lookup. locks_go. Qed.
Lemma locks_fill_super : locks e simplefs_fill_super [] [].
Proof. unfold simplefs_fill_super. locks_go. Qed.
Lemma locks_destory_inode i : locks e (simplefs_destory_inode i) [] [].
Proof. unfold simplefs_destory_inode. locks_go. Qed.
#[local] Hint Resolve locks_create_fs_object locks_write locks_read
  locks_iterate locks_lookup locks_fill_super locks_destory_inode : locks.

Lemma locks_run_op op : locks e (run_op op) [] [].
Proof.
  destruct op; unfold run_op, simplefs_create, simplefs_mkdir; locks_go.
Qed.
End operations.
