(* ===== verification/SimplefsDir.v ===== *)
(** * simplefs: directories

    The abstract directory is the list of its entries (name, inode number) in
    creation order.  [is_dir l ents] relates it to the bytes of the directory's
    data block; creation appends an entry, lookup finds the first entry with
    the name, iteration emits the entries in order. *)

From S2P Require Export SimplefsAlloc.

(** ** Representation *)

Abbreviation entry := (bytes * Z)%type.

(** Names that fit the [filename] field with their terminator. *)
Definition name_ok (name : bytes) : Prop :=
  c_string name /\ Z.of_nat (length name) < SIMPLEFS_FILENAME_MAXLEN.

Definition is_entry (l : bytes) (k : Z) (ent : entry) : Prop :=
  load (sizeof_dir_record * k) (Z.of_nat (length ent.1) + 1) l = Some (ent.1 ++ [0]) /\
  record_inode_no k l = Some ent.2.

Definition is_dir (l : bytes) (ents : list entry) : Prop :=
  forall (k : nat) ent, ents !! k = Some ent ->
  name_ok ent.1 /\ is_entry l (Z.of_nat k) ent.

(** Abstract lookup: the inode number of the first entry with the name. *)
Definition dir_find (name : bytes) (ents : list entry) : option Z :=
  snd <$> List.find (fun ent => bool_decide (ent.1 = name)) ents.

Lemma entry_strcmp l k name name' ino :
  0 <= k -> is_entry l k (name, ino) -> c_string name -> c_string name' ->
  exists b, strcmp_eq (record_filename k l) name' = Some b /\ (b = true <-> name = name').
Proof.
  intros Hk [Hl _] Hn Hn'. unfold load in Hl. simpl in Hl.
  destruct (in_object _ _ _); [|done]. injection Hl as Hl.
  unfold record_filename.
  rewrite <- (take_drop (length name + 1) (drop (Z.to_nat (sizeof_dir_record * k)) l)).
  replace (Z.to_nat (Z.of_nat (length name) + 1)) with (length name + 1)%nat in Hl by lia.
  rewrite Hl, <- app_assoc. by apply strcmp_eq_iff.
Qed.

(** Bytes of record [k] lie in [256 k, 256 (k + 1)); writes elsewhere keep it. *)
Lemma is_entry_store_ne l l' off d k ent :
  store off d l = Some l' -> name_ok ent.1 -> is_entry l k ent ->
  off + Z.of_nat (length d) <= sizeof_dir_record * k \/
  sizeof_dir_record * (k + 1) <= off ->
  is_entry l' k ent.
Proof.
  unfold name_ok, SIMPLEFS_FILENAME_MAXLEN, is_entry, record_inode_no, load_le.
  intros Hs [_ Hlen] [H1 H2] Hdis.
  unfold SIMPLEFS_FILENAME_MAXLEN, sizeof_dir_record in *.
  rewrite !(load_store_disjoint _ _ _ _ _ _ Hs); [done| |]; simpl; lia.
Qed.

(** The two writes of [simplefs_create_fs_object] into record [k] make it the
    entry, for a name that fits. *)
Lemma is_entry_store l l1 l2 k name ino :
  name_ok name -> 0 <= ino < 2 ^ 64 ->
  store_le (sizeof_dir_record * k + SIMPLEFS_FILENAME_MAXLEN) 8 ino l = Some l1 ->
  store (sizeof_dir_record * k) (name ++ [0]) l1 = Some l2 ->
  is_entry l2 k (name, ino).
Proof.
  intros [_ Hlen] Hino H1 H2.
  unfold is_entry, record_inode_no, load_le, SIMPLEFS_FILENAME_MAXLEN in *; simpl.
  split.
  - pose proof (load_store_same _ _ _ _ H2) as E. rewrite length_app in E.
    simpl in E. by rewrite Nat2Z.inj_add in E.
  - rewrite (load_store_disjoint _ _ _ _ _ _ H2)
      by (right; rewrite length_app; simpl; lia).
    exact (load_le_store_same _ _ _ _ _ H1 Hino).
Qed.

(** Appending an entry through the two writes. *)
Lemma is_dir_append l l1 l2 ents name ino :
  is_dir l ents -> name_ok name -> 0 <= ino < 2 ^ 64 ->
  store_le (sizeof_dir_record * Z.of_nat (length ents) + SIMPLEFS_FILENAME_MAXLEN)
    8 ino l = Some l1 ->
  store (sizeof_dir_record * Z.of_nat (length ents)) (name ++ [0]) l1 = Some l2 ->
  is_dir l2 (ents ++ [(name, ino)]).
Proof.
  intros Hd Hn Hino H1 H2 k ent.
  rewrite lookup_app. destruct (ents !! k) as [ent'|] eqn:Ek.
  - intros [= <-]. destruct (Hd _ _ Ek) as [Hok Hent]. split; [done|].
    apply lookup_lt_Some in Ek.
    unfold sizeof_dir_record, SIMPLEFS_FILENAME_MAXLEN, store_le in *.
    eapply is_entry_store_ne; [exact H2|done| |unfold sizeof_dir_record; lia].
    eapply is_entry_store_ne; [exact H1|done|done|unfold sizeof_dir_record; lia].
  - apply lookup_ge_None in Ek. intros Hk.
    assert (k = length ents) as ->
      by (apply lookup_lt_Some in Hk; simpl in Hk; lia).
    rewrite Nat.sub_diag in Hk. injection Hk as <-. split; [done|].
    by eapply is_entry_store.
Qed.

(** ** Running the primitives when no service fails *)

Section quiet_rules.
Context (e : env kcall) (Hq : quiet e).
Implicit Types (s : fs) (tr : trace kcall).

Lemma wp_buf_read {A} n (f : bytes -> option A) a (Q : A -> fs -> trace kcall -> Prop) s tr :
  f (b_data s n) = Some a -> Q a s tr -> wp (buf_read n f) e Q s tr.
Proof.
  intros Hf HQ. unfold buf_read. wp_go. apply wp_or_fault. by exists a.
Qed.
Lemma wp_buf_write n f d (Q : unit -> fs -> trace kcall -> Prop) s tr :
  f (b_data s n) = Some d -> Q tt (set_b_data n d s) tr -> wp (buf_write n f) e Q s tr.
Proof.
  intros Hf HQ. unfold buf_write. wp_go. apply wp_or_fault. by exists d.
Qed.
Lemma wp_deref p i (Q : simplefs_inode -> fs -> trace kcall -> Prop) s tr :
  slab s !! p = Some i -> Q i s tr -> wp (deref (Some p)) e Q s tr.
Proof.
  intros Hp HQ. unfold deref. wp_go. apply wp_or_fault. eexists. split; [done|].
  wp_go. apply wp_or_fault. by exists i.
Qed.
Lemma wp_assign p f i (Q : unit -> fs -> trace kcall -> Prop) s tr :
  slab s !! p = Some i -> Q tt (set_slab p (f i) s) tr -> wp (assign (Some p) f) e Q s tr.
Proof.
  intros Hp HQ. unfold assign. wp_go. eapply wp_deref; [done|].
  apply wp_bind, wp_or_fault. eexists. split; [done|]. by wp_go.
Qed.
Lemma wp_sync_buffer n (Q : unit -> fs -> trace kcall -> Prop) s tr :
  (forall tr', syncs tr' = (n, b_data s n) :: syncs tr -> Q tt s tr') ->
  wp (sync_buffer n) e Q s tr.
Proof. intros HQ. unfold sync_buffer. wp_go. destruct (e _ _). by apply HQ. Qed.
Lemma wp_sb_sync (Q : unit -> fs -> trace kcall -> Prop) s tr :
  (forall tr', syncs tr' = (0, b_data s 0) :: syncs tr -> Q tt s tr') ->
  wp simplefs_sb_sync e Q s tr.
Proof. intros HQ. unfold wp. rewrite sb_sync_ok by done. by apply HQ. Qed.

Lemma wp_alloc_inode (Q : option nat -> fs -> trace kcall -> Prop) s tr :
  (forall g tr', e tr kmem_cache_alloc = Some g -> syncs tr' = syncs tr ->
    Q (Some (slab_next s)) (fresh_object g s) tr') ->
  wp alloc_inode e Q s tr.
Proof.
  intros HQ. unfold alloc_inode. wp_go.
  destruct (quiet_alloc e Hq tr) as [g Hg]. specialize (HQ g).
  rewrite Hg. wp_go. by apply HQ.
Qed.

(** The allocator, keeping only the state it leaves. *)
Lemma wp_get_a_freeblock fb j (Q : Z * option Z -> fs -> trace kcall -> Prop) s tr :
  wf_fs s -> sb_free_blocks (b_data s 0) = Some fb -> 2 <= j < 31 ->
  (forall k, 2 <= k < j -> Z.testbit fb k = false) -> Z.testbit fb j = true ->
  (forall s' tr', with_free_blocks (Z.clearbit fb j) s s' ->
    syncs tr' = (0, b_data s' 0) :: syncs tr -> Q (0, Some j) s' tr') ->
  wp simplefs_sb_get_a_freeblock e Q s tr.
Proof.
  intros Hs Hfb Hj Hlow Hset HQ.
  destruct (get_a_freeblock_takes e s tr fb j) as (s' & tr' & Hr & Hw & _ & Hsync);
    [done..|].
  unfold wp. rewrite Hr. apply HQ; [done|]. by rewrite syncs_app, Hsync.
Qed.
End quiet_rules.

(** Symbolic execution of one call whose answer the environment fixes. *)
Ltac quiet_step :=
  lazymatch goal with
  | Hq : quiet ?e |- wp (mbind _ _) ?e _ _ _ => apply wp_bind
  | Hq : quiet ?e |- obs (mbind _ _) ?e _ _ _ => apply obs_bind
  | Hq : quiet ?e |- wp (mret _) ?e _ _ _ => apply wp_ret
  | Hq : quiet ?e |- wp (call ?c) ?e ?Q ?s ?tr =>
      refine (proj2 (wp_call c e Q s tr) _);
      rewrite ?(quiet_lock e Hq), ?(quiet_bread e Hq), ?(quiet_new_inode e Hq),
        ?(quiet_make_root e Hq), ?(quiet_to_user e Hq), ?(quiet_from_user e Hq)
  | |- wp (BUG_ON false) _ _ _ _ => apply wp_ret
  | |- wp (sync_buffer _) _ _ _ _ => 
      apply wp_sync_buffer; let tr := fresh "tr" in let H := fresh "Hsync" in intros tr H
  | Hq : quiet ?e |- wp simplefs_sb_sync ?e _ _ _ => 
      apply (wp_sb_sync e Hq); let tr := fresh "tr" in let H := fresh "Hsync" in intros tr H
  end; cbn [negb Z.eqb Z.ltb Z.compare Z.opp].
Ltac quiet_go :=
  cbn [negb Z.eqb Z.ltb Z.compare Z.opp]; repeat quiet_step.

(** ** Reading an inode from the store *)

(** The first of the [n] slots from [k] on with the number [no]. *)
Fixpoint find_inode (n : nat) (k : Z) (l : bytes) (no : Z) : option simplefs_inode :=
  match n with
  | O => None
  | S n' =>
      i ← load_inode k l;
      if inode_no i =? no then Some i else find_inode n' (k + 1) l no
  end.

(** The inode numbered [no] in the store of [s]. *)
Definition stored_inode (s : fs) (no : Z) : option simplefs_inode :=
  count ← sb_inodes_count (b_data s SIMPLEFS_SUPERBLOCK_BLOCK_NUMBER);
  find_inode (Z.to_nat count) 0 (b_data s SIMPLEFS_INODESTORE_BLOCK_NUMBER) no.

Lemma find_inode_slot n k l no j :
  0 <= k -> k <= j < k + Z.of_nat n ->
  (forall x, k <= x < j -> exists i, load_inode x l = Some i /\ inode_no i <> no) ->
  slot_no l j = Some no -> find_inode n k l no = load_inode j l.
Proof.
  revert k. induction n as [|n IH]; intros k Hk Hj Hne Hj'; [lia|].
  cbn [find_inode]. destruct (decide (k = j)) as [->|Hkj].
  - unfold slot_no in Hj'. destruct (load_inode j l) as [i|]; [|done].
    simpl in *. injection Hj' as ->. by rewrite Z.eqb_refl.
  - destruct (Hne k ltac:(lia)) as (i & -> & Hi). simpl.
    destruct (Z.eqb_spec (inode_no i) no); [done|].
    apply IH; [lia|lia| |done]. intros. apply Hne. lia.
Qed.

Section quiet_inodes.
Context (e : env kcall) (Hq : quiet e).

Lemma wp_get_inode_loop n k no (Q : option nat -> fs -> trace kcall -> Prop) s tr :
  0 <= k -> 32 * (k + Z.of_nat n) <= Z.of_nat (length (b_data s 1)) ->
  (forall tr', match find_inode n k (b_data s 1) no with
   | Some i => Q (Some (slab_next s)) (fresh_object i s) tr'
   | None => Q None s tr'
   end) ->
  wp (get_inode_loop n k no) e Q s tr.
Proof.
  revert k tr. induction n as [|n IH]; intros k tr Hk Hlen HQ.
  { apply wp_ret, HQ. }
  cbn [get_inode_loop find_inode] in *.
  destruct (load_inode_Some k (b_data s 1)) as [i Hi]; [done|lia|].
  rewrite Hi in HQ. simpl in HQ. apply wp_bind.
  eapply wp_buf_read; [exact Hi|]. destruct (inode_no i =? no); [|apply IH; auto with lia].
  quiet_go. apply (wp_alloc_inode e Hq). intros g tr' _ _. quiet_go.
  eapply wp_assign; [simpl; apply lookup_insert_eq|]. quiet_go.
  unfold set_slab, fresh_object in *. simpl. rewrite insert_insert_eq. apply HQ.
Qed.

Lemma wp_get_inode no (Q : option nat -> fs -> trace kcall -> Prop) s tr c :
  wf_fs s -> sb_inodes_count (b_data s 0) = Some c -> 0 <= c <= 128 ->
  (forall tr', match stored_inode s no with
   | Some i => Q (Some (slab_next s)) (fresh_object i s) tr'
   | None => Q None s tr'
   end) ->
  wp (simplefs_get_inode no) e Q s tr.
Proof.
  intros Hs Hc Hr HQ. unfold simplefs_get_inode. quiet_go.
  unfold SIMPLEFS_SB. eapply wp_buf_read; [exact Hc|]. quiet_go.
  unfold stored_inode in HQ.
  unfold SIMPLEFS_SUPERBLOCK_BLOCK_NUMBER, SIMPLEFS_INODESTORE_BLOCK_NUMBER in HQ.
  rewrite Hc in HQ. simpl in HQ.
  apply wp_get_inode_loop; [done|rewrite (wf_block_length _ Hs); lia|].
  intros tr'. destruct (find_inode _ _ _ _); quiet_go; apply HQ.
Qed.
End quiet_inodes.

(** ** Lookup *)

Definition fop_of_mode (m : Z) : option file_ops :=
  if S_ISDIR m then Some simplefs_dir_operations
  else if S_ISREG m then Some simplefs_file_operations else None.

(** What [simplefs_lookup] does with the record it found. *)
Definition lookup_found (ino : Z) (name : bytes) : K unit :=
  i ← simplefs_iget (s32 ino);
  j ← deref (SIMPLEFS_INODE i);
  call (inode_init_owner i (mode j)) ;;
  call (d_add name i).

(** The inode the dentry is bound to by a successful lookup. *)
Definition looked_up (s : fs) (ino : Z) (i : simplefs_inode) : inode :=
  mk_vfs_inode ino (fop_of_mode (mode i)) (Some (slab_next s)).

Lemma run_buf_read {A} n (f : bytes -> option A) a e s (tr : trace kcall) :
  f (b_data s n) = Some a -> buf_read n f e s tr = Ok a s tr.
Proof.
  intros Hf. unfold buf_read, get, mbind, M_bind. by rewrite Hf.
Qed.

Lemma lookup_loop_run e s tr blk name ents n k :
  is_dir (b_data s blk) ents -> c_string name -> (k + n = length ents)%nat ->
  lookup_loop n (Z.of_nat k) blk name e s tr =
  match dir_find name (drop k ents) with
  | None => Ok tt s tr
  | Some ino => lookup_found ino name e s tr
  end.
Proof.
  intros Hd Hn. revert k. induction n as [|n IH]; intros k Hk.
  { rewrite drop_ge by lia. done. }
  destruct (lookup_lt_is_Some_2 ents k ltac:(lia)) as [[name' ino] Hent].
  rewrite (drop_S _ _ _ Hent). destruct (Hd k _ Hent) as [[Hs _] Hie].
  cbn [lookup_loop]. unfold mbind at 1, M_bind at 1.
  destruct (entry_strcmp _ (Z.of_nat k) name' name ino ltac:(lia) Hie Hs Hn) as (b & Hb & Hiff).
  rewrite (run_buf_read _ _ b) by done. unfold dir_find. cbn [List.find fst].
  destruct b.
  - rewrite bool_decide_true by (by apply Hiff). simpl.
    destruct Hie as [_ Hino]. unfold mbind at 1, M_bind at 1.
    by rewrite (run_buf_read _ _ ino).
  - rewrite bool_decide_false by (intros E; by apply Hiff in E).
    replace (Z.of_nat k + 1) with (Z.of_nat (S k)) by lia. apply IH. lia.
Qed.

Lemma lookup_found_run e s tr name ino c :
  quiet e -> wf_fs s -> sb_inodes_count (b_data s 0) = Some c -> 0 <= c <= 128 ->
  0 <= ino < 2 ^ 31 ->
  match stored_inode s ino with
  | Some i => exists tr',
      lookup_found ino name e s tr =
      Ok tt (fresh_object i s) (ev (d_add name (looked_up s ino i)) tt :: tr')
  | None => exists s' tr', lookup_found ino name e s tr = Fault NullDeref s' tr'
  end.
Proof.
  intros Hq Hs Hc Hr Hino.
  assert (s32 ino = ino) as E32 by (apply swrap_id; [done|int_lia]).
  assert (u64 ino = ino) as E64 by (apply uwrap_id; int_lia).
  pose proof (wp_get_inode e Hq ino (fun r s' _ => match stored_inode s ino with
    | Some i => r = Some (slab_next s) /\ s' = fresh_object i s
    | None => r = None /\ s' = s end) s tr c Hs Hc Hr) as Hget.
  apply wp_run in Hget as (r & s' & tr' & Hget & Hpost);
    [|intros; by destruct (stored_inode s ino)].
  unfold lookup_found, simplefs_iget. rewrite E32, E64.
  unfold mbind, M_bind, mret, M_ret, call. rewrite Hget, (quiet_new_inode e Hq).
  unfold deref, SIMPLEFS_INODE, mbind, M_bind, get.
  destruct (stored_inode s ino) as [i|]; destruct Hpost as [-> ->]; simpl.
  - rewrite lookup_insert_eq. simpl. unfold looked_up, fop_of_mode.
    destruct (S_ISDIR (mode i)); [|destruct (S_ISREG (mode i))];
      simpl; rewrite lookup_insert_eq; simpl; unfold ev;
      destruct (e _ (d_add _ _)); by eexists.
  - by eexists _, _.
Qed.

(** Lookup in a well-formed directory, on every branch. *)
Lemma lookup_run e s tr dir p d ents name c :
  quiet e -> wf_fs s -> sb_inodes_count (b_data s 0) = Some c -> 0 <= c <= 128 ->
  i_private dir = Some p -> slab s !! p = Some d ->
  is_dir (b_data s (data_block_number d)) ents ->
  dir_children_count d = Z.of_nat (length ents) ->
  (forall name' ino, (name', ino) ∈ ents -> 0 <= ino < 2 ^ 31) -> c_string name ->
  let tr1 := ev (sb_bread (data_block_number d)) true :: tr in
  match dir_find name ents with
  | None => simplefs_lookup dir name e s tr = Ok tt s tr1
  | Some ino =>
      match stored_inode s ino with
      | Some i => exists tr',
          simplefs_lookup dir name e s tr =
          Ok tt (fresh_object i s) (ev (d_add name (looked_up s ino i)) tt :: tr')
      | None => exists s' tr', simplefs_lookup dir name e s tr = Fault NullDeref s' tr'
      end
  end.
Proof.
  intros Hq Hs Hc Hr Hp Hd Hdir Hlen Hino Hn tr1.
  assert (simplefs_lookup dir name e s tr =
    match dir_find name ents with
    | None => Ok tt s tr1
    | Some ino => lookup_found ino name e s tr1
    end) as ->.
  { unfold simplefs_lookup, SIMPLEFS_INODE, deref, mbind, M_bind, get, call.
    rewrite Hp. simpl. rewrite Hd. simpl. rewrite (quiet_bread e Hq). simpl.
    rewrite Hlen, Nat2Z.id.
    pose proof (lookup_loop_run e s tr1 (data_block_number d) name ents
      (length ents) 0 Hdir Hn eq_refl) as H.
    rewrite drop_0 in H. exact H. }
  destruct (dir_find name ents) as [ino|] eqn:Ef; [|done].
  apply lookup_found_run with (c := c); try done.
  unfold dir_find in Ef. apply fmap_Some in Ef as ([name' ino'] & Hf & ->).
  apply find_some in Hf as [Hin _]. apply list_elem_of_In in Hin. by eapply Hino.
Qed.

(** ** Iteration *)

(** The entries emitted in a trace, oldest first, names up to their NUL. *)
Fixpoint emitted (tr : trace kcall) : list entry :=
  match tr with
  | [] => []
  | existT c _ :: tr' =>
      emitted tr' ++
      match c with
      | dir_emit name _ ino => [(until_nul name, ino)]
      | _ => []
      end
  end.

Lemma is_entry_filename l k ent :
  0 <= k -> name_ok ent.1 -> is_entry l k ent ->
  exists d, load (sizeof_dir_record * k) SIMPLEFS_FILENAME_MAXLEN l = Some d /\
    until_nul d = ent.1.
Proof.
  intros Hk [Hs Hlen] [Hl Hi].
  unfold record_inode_no, load_le, sizeof_dir_record, SIMPLEFS_FILENAME_MAXLEN in *.
  apply fmap_Some in Hi as (x & Hx & _).
  unfold load in Hx. destruct (in_object _ _ _) eqn:E; [|done].
  apply in_object_spec in E.
  destruct (load (256 * k) 248 l) as [d|] eqn:Ed;
    [|apply load_None in Ed; lia].
  exists d. split; [done|].
  destruct (load_prefix _ _ _ _ _ _ Hl Ed) as [rest ->]; [lia|].
  rewrite <- app_assoc. by apply until_nul_app.
Qed.

Lemma iterate_loop_run e s blk ents n k pos tr :
  is_dir (b_data s blk) ents -> (k + n = length ents)%nat ->
  exists tr', iterate_loop n (Z.of_nat k) blk pos e s tr =
    Ok (pos + sizeof_dir_record * Z.of_nat n) s tr' /\
    emitted tr' = emitted tr ++ drop k ents.
Proof.
  intros Hd. revert k pos tr. induction n as [|n IH]; intros k pos tr Hk.
  { exists tr. rewrite drop_ge, app_nil_r by lia. cbn. by rewrite Z.add_0_r. }
  destruct (lookup_lt_is_Some_2 ents k ltac:(lia)) as [ent Hent].
  destruct (Hd k _ Hent) as [Hok Hie].
  destruct (is_entry_filename _ (Z.of_nat k) _ ltac:(lia) Hok Hie) as (d & Hl & Hd').
  cbn [iterate_loop]. unfold mbind, M_bind, call.
  rewrite (run_buf_read _ _ d) by done.
  rewrite (run_buf_read _ _ ent.2) by apply Hie.
  replace (Z.of_nat k + 1) with (Z.of_nat (S k)) by lia.
  edestruct (IH (S k)) as (tr' & Hr & He); [lia|].
  exists tr'. rewrite Hr. split; [f_equal; unfold sizeof_dir_record; lia|].
  rewrite He, (drop_S _ _ _ Hent). simpl. rewrite <- app_assoc, Hd'.
  by destruct ent.
Qed.

Lemma iterate_run e s tr dir p d ents :
  quiet e -> i_private dir = Some p -> slab s !! p = Some d ->
  S_ISDIR (mode d) = true -> is_dir (b_data s (data_block_number d)) ents ->
  dir_children_count d = Z.of_nat (length ents) ->
  exists tr', simplefs_iterate dir 0 e s tr =
    Ok (0, sizeof_dir_record * Z.of_nat (length ents)) s tr' /\
    emitted tr' = emitted tr ++ ents.
Proof.
  intros Hq Hp Hd Hm Hdir Hlen.
  unfold simplefs_iterate, SIMPLEFS_INODE, deref, mbind, M_bind, get, call.
  rewrite Hp. cbn. rewrite Hd. cbn. rewrite Hm. cbn.
  rewrite (quiet_bread e Hq). cbn. rewrite Hlen, Nat2Z.id.
  edestruct (iterate_loop_run e s (data_block_number d) ents (length ents) 0 0)
    as (tr' & Hr & He); [done|done|].
  change (Z.of_nat 0) with 0 in Hr. rewrite Hr, Z.add_0_l.
  eexists. split; [reflexivity|]. simpl. rewrite app_nil_r.
  rewrite He. simpl. by rewrite app_nil_r, drop_0.
Qed.
