(* ===== verification/SimplefsCreate.v ===== *)
(** * simplefs: creation

    [simplefs_create_fs_object] refines the abstract step "append the entry
    (name, new inode number) to the directory and add the inode to the store",
    under the preconditions it does not check itself. *)

From S2P Require Export SimplefsDir.

Lemma inode_search_first count l no k :
  0 <= k <= count -> 32 * (count + 1) <= Z.of_nat (length l) ->
  slot_no l k = Some no -> (forall j, 0 <= j < k -> slot_no l j <> Some no) ->
  simplefs_inode_search count l no = Some (Some k).
Proof.
  intros Hk Hlen Hs Hne. pose proof (inode_search_cases count l no) as H.
  destruct (simplefs_inode_search count l no) as [[k'|]|].
  - destruct H as (? & Hs' & Hne'); [lia|lia|]. do 2 f_equal.
    destruct (Z.lt_trichotomy k k') as [?|[?|?]]; [|done|].
    + exfalso. by apply (Hne' k); [lia|].
    + exfalso. by apply (Hne k'); [lia|].
  - exfalso. by apply (H ltac:(lia) ltac:(lia) k).
  - exfalso. apply H; lia.
Qed.

Lemma slot_no_store_ne k k' i l l' :
  k <> k' -> store_inode k i l = Some l' -> slot_no l' k' = slot_no l k'.
Proof. intros. unfold slot_no. by rewrite (load_store_inode_ne k k' i l l'). Qed.

Lemma set_inodes_count_read c l l' :
  0 <= c < 2 ^ 64 -> set_sb_inodes_count c l = Some l' -> sb_inodes_count l' = Some c.
Proof.
  unfold set_sb_inodes_count. intros Hc. rewrite uwrap_id by done.
  intros Hs. by eapply load_le_store_same.
Qed.

Lemma set_inodes_count_free_blocks c l l' :
  set_sb_inodes_count c l = Some l' -> sb_free_blocks l' = sb_free_blocks l.
Proof.
  unfold set_sb_inodes_count, store_le, sb_free_blocks, load_le. intros Hs.
  rewrite (load_store_disjoint _ _ _ _ _ _ Hs); [done|]. simpl. lia.
Qed.

(** Rewrite reads of updated buffers. *)
Ltac bd :=
  cbn [b_data slab slab_next super set_b_data set_slab fresh_object] in *;
  repeat first
    [ rewrite fn_lookup_insert
    | rewrite fn_lookup_insert_ne by (done || lia || congruence) ].

Section quiet_store.
Context (e : env kcall) (Hq : quiet e).

Lemma wp_get_objects_count c (Q : Z * option Z -> fs -> trace kcall -> Prop) s tr :
  sb_inodes_count (b_data s 0) = Some c ->
  (forall tr', syncs tr' = syncs tr -> Q (0, Some c) s tr') ->
  wp simplefs_sb_get_objects_count e Q s tr.
Proof.
  intros Hc HQ. unfold simplefs_sb_get_objects_count. quiet_go.
  unfold SIMPLEFS_SB. eapply wp_buf_read; [exact Hc|]. quiet_go. by apply HQ.
Qed.

Lemma wp_inode_add p i c d1 d0 (Q : unit -> fs -> trace kcall -> Prop) s tr :
  slab s !! p = Some i -> sb_inodes_count (b_data s 0) = Some c ->
  store_inode c i (b_data s 1) = Some d1 ->
  set_sb_inodes_count (c + 1) (b_data s 0) = Some d0 ->
  (forall tr', syncs tr' = (0, d0) :: syncs tr ->
    Q tt (set_b_data 0 d0 (set_b_data 1 d1 s)) tr') ->
  wp (simplefs_inode_add (Some p)) e Q s tr.
Proof.
  intros Hp Hc H1 H0 HQ. unfold simplefs_inode_add. quiet_go.
  unfold SIMPLEFS_SB. eapply wp_buf_read; [exact Hc|]. quiet_go.
  eapply wp_deref; [exact Hp|]. quiet_go.
  eapply wp_buf_write; [exact H1|]. quiet_go.
  eapply wp_buf_read; [bd; exact Hc|]. quiet_go.
  eapply wp_buf_write; [bd; exact H0|]. quiet_go.
  match goal with |- Q ?x _ _ => destruct x end.
  apply HQ. bd. by_syncs.
Qed.

Lemma wp_inode_save p i c k d1 (Q : Z -> fs -> trace kcall -> Prop) s tr :
  slab s !! p = Some i -> sb_inodes_count (b_data s 0) = Some c ->
  simplefs_inode_search c (b_data s 1) (inode_no i) = Some (Some k) ->
  store_inode k i (b_data s 1) = Some d1 ->
  (forall tr', syncs tr' = (1, d1) :: syncs tr -> Q 0 (set_b_data 1 d1 s) tr') ->
  wp (simplefs_inode_save (Some p)) e Q s tr.
Proof.
  intros Hp Hc Hk H1 HQ. unfold simplefs_inode_save. quiet_go.
  eapply wp_deref; [exact Hp|]. quiet_go.
  unfold SIMPLEFS_SB. eapply wp_buf_read; [exact Hc|]. quiet_go.
  eapply wp_buf_read; [exact Hk|]. quiet_go.
  eapply wp_buf_write; [exact H1|]. quiet_go. apply HQ. bd. by_syncs.
Qed.
End quiet_store.

(** [link_fs_object] when no service fails: the inode [i] goes to slot [c] of
    the store, its record to the end of the directory [d], and the parent's new
    child count to its slot [kp]. *)
Lemma wp_link e dir new name m p q i d c kp dB dC dD dE dF
    (Q : Z -> fs -> trace kcall -> Prop) s tr :
  quiet e -> i_private dir = Some p -> i_private new = Some q -> p <> q ->
  slab s !! p = Some d -> slab s !! q = Some i ->
  data_block_number d <> 0 -> data_block_number d <> 1 ->
  0 <= c < 2 ^ 64 - 1 -> sb_inodes_count (b_data s 0) = Some c ->
  set_sb_inodes_count (c + 1) (b_data s 0) = Some dB ->
  store_inode c i (b_data s 1) = Some dC ->
  store_le (sizeof_dir_record * dir_children_count d + SIMPLEFS_FILENAME_MAXLEN) 8
    (inode_no i) (b_data s (data_block_number d)) = Some dD ->
  store (sizeof_dir_record * dir_children_count d) (name ++ [0]) dD = Some dE ->
  simplefs_inode_search (c + 1) dC (inode_no d) = Some (Some kp) ->
  let d' := set_dir_children_count (dir_children_count d + 1) d in
  store_inode kp d' dC = Some dF ->
  (forall tr',
    syncs tr' = (1, dF) :: (data_block_number d, dE) :: (0, dB) :: syncs tr ->
    Q 0 (set_b_data 1 dF (set_slab p d' (set_b_data (data_block_number d) dE
          (set_b_data (data_block_number d) dD
             (set_b_data 0 dB (set_b_data 1 dC s))))))
      (ev (d_add name new) tt :: tr')) ->
  wp (link_fs_object dir new name m) e Q s tr.
Proof.
  intros Hq Hp Hnew Hpq Hd Hi H0 H1 Hc Hcount HB HC HD HE Hsearch d' HF HQ.
  unfold link_fs_object, record_fs_object, SIMPLEFS_INODE, directory_unlock. rewrite Hp, Hnew.
  quiet_go. eapply (wp_inode_add e Hq); [done..|]. intros tr1 Hs1.
  quiet_go. eapply wp_deref; [bd; exact Hd|]. quiet_go.
  eapply wp_deref; [bd; exact Hi|]. quiet_go.
  eapply wp_buf_write; [bd; exact HD|]. quiet_go.
  eapply wp_buf_write; [bd; exact HE|]. quiet_go.
  eapply wp_assign; [bd; exact Hd|]. fold d'. quiet_go.
  eapply (wp_inode_save e Hq); [bd; apply lookup_insert_eq| | | |].
  - bd. apply (set_inodes_count_read (c + 1) _ _ ltac:(lia) HB).
  - bd. exact Hsearch.
  - bd. exact HF.
  - intros tr2 Hs2. quiet_go. destruct (e _ (d_add name new)). apply HQ. bd. by_syncs.
Qed.

(** ** Up to the point where the new inode is linked

    [c] inodes are stored, block [j] is the lowest free one and below 31, and
    the mode is that of a directory or a regular file. *)
Record alloc_pre (s : fs) (c fb j m : Z) : Prop := {
  ap_wf : wf_fs s;
  ap_count : sb_inodes_count (b_data s 0) = Some c;
  ap_count_range : 0 <= c < 64;
  ap_free : sb_free_blocks (b_data s 0) = Some fb;
  ap_block : 2 <= j < 31 /\ Z.testbit fb j = true;
  ap_block_lowest : forall k, 2 <= k < j -> Z.testbit fb k = false;
  ap_mode : 0 <= m < 2 ^ 16 /\ S_ISDIR m || S_ISREG m = true;
}.

(** The in-core inode of the new object; [g] is what the slab held before. *)
Definition created_inode (c j m : Z) (g : simplefs_inode) : simplefs_inode :=
  mk_inode m (pad g) (c + 8) j 0.

Definition pre_link_state (s : fs) (c j m : Z) (g : simplefs_inode) (dA : bytes) : fs :=
  set_slab (slab_next s) (created_inode c j m g)
    (set_b_data 0 dA (set_slab (slab_next s) (init_fields (c + 8) m g) (fresh_object g s))).

Lemma new_ino_u64 c :
  0 <= c < 64 ->
  u64 (c + SIMPLEFS_START_INO - SIMPLEFS_RESERVED_INODES + 1) = c + 8.
Proof.
  intros. unfold SIMPLEFS_START_INO, SIMPLEFS_RESERVED_INODES.
  rewrite uwrap_id; [lia|int_lia].
Qed.

Lemma created_inode_fields c j m g :
  S_ISDIR m || S_ISREG m = true ->
  set_data_block_number j (init_fields (c + 8) m g) = created_inode c j m g.
Proof.
  intros Hm. unfold init_fields.
  destruct (S_ISDIR m); [done|]. simpl in Hm. by rewrite Hm.
Qed.

Lemma created_inode_wf c j m g :
  0 <= c < 64 -> 2 <= j < 31 -> 0 <= m < 2 ^ 16 -> wf_inode g ->
  wf_inode (created_inode c j m g).
Proof.
  intros ? ? ? (? & ? & ? & ? & ?). unfold wf_inode, created_inode.
  cbn [mode pad inode_no data_block_number size_or_children].
  split_and!; int_lia.
Qed.

(** The file operations a new inode gets. *)
Definition created_fop (m : Z) : option file_ops :=
  Some (if S_ISDIR m then simplefs_dir_operations else simplefs_file_operations).

(** When no service fails, creation reaches [link_fs_object] with a fresh
    inode numbered [c + 8] on block [j], whatever the directory and the name. *)
Lemma create_reaches_link e s tr dir name m c fb j :
  quiet e -> env_wf e -> alloc_pre s c fb j m ->
  exists g dA tr',
    wf_inode g /\ set_sb_free_blocks (Z.clearbit fb j) (b_data s 0) = Some dA /\
    syncs tr' = (0, dA) :: syncs tr /\
    simplefs_create_fs_object dir name m e s tr =
    link_fs_object dir (mk_vfs_inode (c + 8) (created_fop m) (Some (slab_next s))) name m e
      (pre_link_state s c j m g dA) tr'.
Proof.
  intros Hq He [].
  enough (obs (simplefs_create_fs_object dir name m) e (fun o =>
    exists g dA tr', wf_inode g /\
      set_sb_free_blocks (Z.clearbit fb j) (b_data s 0) = Some dA /\
      syncs tr' = (0, dA) :: syncs tr /\
      o = link_fs_object dir (mk_vfs_inode (c + 8) (created_fop m) (Some (slab_next s))) name m e
        (pre_link_state s c j m g dA) tr') s tr) as H by exact H.
  unfold simplefs_create_fs_object.
  quiet_go. apply (wp_get_objects_count e Hq c); [done|]. intros tr1 Hs1.
  cbn [from_option id]. unfold SIMPLEFS_MAX_FILESYSTEM_OBJECTS_SUPPORTED. cbv zeta.
  rewrite (proj2 (Z.leb_gt 64 c)) by lia.
  destruct ap_mode0 as [Hm Hdr]. rewrite <- negb_orb, Hdr. quiet_go.
  apply (wp_alloc_inode e Hq). intros g tr2 Hg Hs2.
  pose proof (fun tr => He tr kmem_cache_alloc) as Hgw. simpl in Hgw.
  apply Hgw in Hg. clear Hgw. rewrite new_ino_u64 by done. quiet_go.
  eapply wp_assign; [bd; apply lookup_insert_eq|]. quiet_go.
  destruct ap_block0 as [Hj Hbit].
  eapply (wp_get_a_freeblock e Hq fb j); bd; try done.
  { apply wf_set_slab; [by apply wf_fresh_object|by apply init_fields_wf; [int_lia|..]|].
    by eexists; apply lookup_insert_eq. }
  intros s3 tr3 (dA & HA & ->) Hs3. bd. quiet_go.
  eapply wp_assign; [bd; apply lookup_insert_eq|]. cbn [from_option id].
  rewrite created_inode_fields by done. unfold obs. do 3 eexists.
  split; [exact Hg|]. split; [exact HA|]. split; [|reflexivity]. by_syncs.
Qed.

(** ** Creation in a directory *)

(** In addition: [d] is the in-core inode of the directory, its block is
    neither the super block nor the inode store, it holds [ents], it is stored
    in slot [kp]; the directory has room and the name fits. *)
Record create_pre (s : fs) (dir : inode) (p : nat) (d : simplefs_inode)
    (ents : list entry) (c fb j kp : Z) (name : bytes) (m : Z) : Prop := {
  cp_alloc : alloc_pre s c fb j m;
  cp_private : i_private dir = Some p;
  cp_parent : slab s !! p = Some d;
  cp_parent_block : data_block_number d <> 0 /\ data_block_number d <> 1;
  cp_is_dir : is_dir (b_data s (data_block_number d)) ents;
  cp_children : dir_children_count d = Z.of_nat (length ents);
  cp_slot : 0 <= kp < c /\ slot_no (b_data s 1) kp = Some (inode_no d);
  cp_slot_first : forall x, 0 <= x < kp -> slot_no (b_data s 1) x <> Some (inode_no d);
  cp_room : Z.of_nat (length ents) < 16;
  cp_name : Z.of_nat (length name) < 256;
}.

(** What it establishes; [new] is the in-core inode created.  The entry is
    described in [post_dir] for names that fit the [filename] field. *)
Record create_post (s s' : fs) (p : nat) (d : simplefs_inode) (ents : list entry)
    (c fb j kp : Z) (name : bytes) (m : Z) (new : simplefs_inode) : Prop := {
  post_mode : mode new = m /\ inode_no new = c + 8 /\
    data_block_number new = j /\ size_or_children new = 0;
  post_dir : name_ok name ->
    is_dir (b_data s' (data_block_number d)) (ents ++ [(name, c + 8)]);
  post_parent : slab s' !! p =
    Some (set_dir_children_count (Z.of_nat (length ents) + 1) d);
  post_new : slab s' !! slab_next s = Some new;
  post_count : sb_inodes_count (b_data s' 0) = Some (c + 1);
  post_free : sb_free_blocks (b_data s' 0) = Some (Z.clearbit fb j);
  post_slot : load_inode c (b_data s' 1) = Some new;
  post_parent_slot : load_inode kp (b_data s' 1) =
    Some (set_dir_children_count (Z.of_nat (length ents) + 1) d);
  post_other_slots : forall x, 0 <= x < c -> x <> kp ->
    load_inode x (b_data s' 1) = load_inode x (b_data s 1);
  post_other_blocks : forall n, n <> 0 -> n <> 1 -> n <> data_block_number d ->
    b_data s' n = b_data s n;
}.

Section create.
Context (e : env kcall) (Hq : quiet e) (He : env_wf e).
Context (s : fs) (dir : inode) (p : nat) (d : simplefs_inode).
Context (ents : list entry) (c fb j kp : Z) (name : bytes) (m : Z).
Context (Hpre : create_pre s dir p d ents c fb j kp name m).

Let d' := set_dir_children_count (Z.of_nat (length ents) + 1) d.
Let blk := data_block_number d.
Let n := Z.of_nat (length ents).

Lemma parent_not_fresh : p <> slab_next s.
Proof.
  destruct Hpre as [[]]. intros ->.
  by rewrite (wf_slab_next _ ap_wf0) in cp_parent0 by done.
Qed.

(** The contents of the buffers after each write of [link_fs_object]. *)
Record create_writes (g : simplefs_inode) (dA dB dC dD dE dF : bytes) : Prop := {
  w_A : set_sb_free_blocks (Z.clearbit fb j) (b_data s 0) = Some dA;
  w_B : set_sb_inodes_count (c + 1) dA = Some dB;
  w_C : store_inode c (created_inode c j m g) (b_data s 1) = Some dC;
  w_D : store_le (sizeof_dir_record * n + SIMPLEFS_FILENAME_MAXLEN) 8 (c + 8)
          (b_data s blk) = Some dD;
  w_E : store (sizeof_dir_record * n) (name ++ [0]) dD = Some dE;
  w_F : store_inode kp d' dC = Some dF;
}.

Lemma create_writes_exist g dA :
  set_sb_free_blocks (Z.clearbit fb j) (b_data s 0) = Some dA ->
  exists dB dC dD dE dF, create_writes g dA dB dC dD dE dF.
Proof.
  intros HA. destruct Hpre as [[] ? ? ? ? ? ? ? ? ?].
  pose proof (wf_block_length _ ap_wf0) as Hlen.
  assert (length dA = 4096%nat) as LA by (by rewrite (store_length _ _ _ _ HA)).
  assert (is_Some (set_sb_inodes_count (c + 1) dA)) as [dB HB].
  { unfold set_sb_inodes_count, store_le.
    rewrite store_Some; [by eexists|lia|rewrite length_le_enc; lia]. }
  destruct (store_inode_Some c (created_inode c j m g) (b_data s 1)) as [dC HC];
    [lia|rewrite Hlen; lia|].
  assert (is_Some (store_le (sizeof_dir_record * n +
    SIMPLEFS_FILENAME_MAXLEN) 8 (c + 8) (b_data s blk))) as [dD HD].
  { unfold store_le, sizeof_dir_record, SIMPLEFS_FILENAME_MAXLEN, n.
    rewrite store_Some; [by eexists|lia|rewrite length_le_enc, Hlen; lia]. }
  assert (is_Some (store (sizeof_dir_record * n) (name ++ [0]) dD)) as [dE HE].
  { unfold sizeof_dir_record, n.
    rewrite store_Some; [by eexists|lia|].
    rewrite (store_length _ _ _ _ HD), Hlen, length_app. simpl. lia. }
  destruct (store_inode_Some kp d' dC) as [dF HF];
    [lia|rewrite (store_length _ _ _ _ HC), Hlen; lia|].
  by exists dB, dC, dD, dE, dF.
Qed.

Definition create_result (g : simplefs_inode) (dA dB dC dD dE dF : bytes) : fs :=
  set_b_data 1 dF (set_slab p d' (set_b_data blk dE (set_b_data blk dD
    (set_b_data 0 dB (set_b_data 1 dC (pre_link_state s c j m g dA)))))).

(** The inode store after the new inode was added: the parent's slot is still
    the first with its number. *)
Lemma search_after_add g dA dB dC dD dE dF :
  create_writes g dA dB dC dD dE dF ->
  simplefs_inode_search (c + 1) dC (inode_no d) = Some (Some kp).
Proof.
  intros [_ _ HC _ _ _]. destruct Hpre as [[] ? ? ? ? ? [? Hs] ? ? ?].
  apply inode_search_first; [lia| | |].
  - rewrite (store_length _ _ _ _ HC), (wf_block_length _ ap_wf0). lia.
  - rewrite (slot_no_store_ne c kp _ _ _ ltac:(lia) HC). exact Hs.
  - intros x Hx. rewrite (slot_no_store_ne c x _ _ _ ltac:(lia) HC).
    by apply cp_slot_first0.
Qed.

Lemma create_run tr :
  exists g dA dB dC dD dE dF tr1,
    create_writes g dA dB dC dD dE dF /\ wf_inode g /\
    syncs tr1 = [(1, dF); (blk, dE); (0, dB); (0, dA)] ++ syncs tr /\
    simplefs_create_fs_object dir name m e s tr =
    Ok 0 (create_result g dA dB dC dD dE dF)
      (ev (d_add name (mk_vfs_inode (c + 8) (created_fop m) (Some (slab_next s)))) tt :: tr1).
Proof.
  pose proof create_writes_exist as HW. pose proof search_after_add as Hsearch.
  pose proof parent_not_fresh as Hpq.
  pose proof Hpre as [Ha ? ? [Hb0 Hb1] ? ? ? ? ? ?]. fold blk in Hb0, Hb1.
  destruct (create_reaches_link e s tr dir name m c fb j Hq He Ha)
    as (g & dA & tr1 & Hg & HA & Hs1 & ->).
  destruct (HW g dA HA) as (dB & dC & dD & dE & dF & W).
  exists g, dA, dB, dC, dD, dE, dF. pose proof W as [_ WB WC WD WE WF].
  enough (wp (link_fs_object dir (mk_vfs_inode (c + 8) (created_fop m) (Some (slab_next s)))
      name m) e (fun r s' tr' => r = 0 /\ s' = create_result g dA dB dC dD dE dF /\
      exists tr2, syncs tr2 = [(1, dF); (blk, dE); (0, dB)] ++ syncs tr1 /\
        tr' = ev (d_add name
          (mk_vfs_inode (c + 8) (created_fop m) (Some (slab_next s)))) tt :: tr2)
      (pre_link_state s c j m g dA) tr1) as H.
  { apply wp_run in H as (? & ? & ? & -> & -> & -> & tr2 & Hs2 & ->). exists tr2.
    split; [done|]. split; [done|]. split; [by rewrite Hs2, Hs1|done]. }
  destruct Ha.
  eapply (wp_link e dir _ name m p (slab_next s) (created_inode c j m g) d c kp
    dB dC dD dE dF); unfold pre_link_state; fold blk; bd; try done.
  - by rewrite !lookup_insert_ne by congruence.
  - apply lookup_insert_eq.
  - int_lia.
  - destruct (with_free_blocks_frame (Z.clearbit fb j) s (set_b_data 0 dA s))
      as (_ & _ & Hcnt); [by exists dA|].
    cbn [b_data set_b_data] in Hcnt. rewrite fn_lookup_insert in Hcnt.
    by rewrite Hcnt.
  - by rewrite cp_children0.
  - by rewrite cp_children0.
  - by eapply Hsearch.
  - by rewrite cp_children0.
  - intros tr4 Hs4. split; [done|]. rewrite cp_children0. eauto.
Qed.

Lemma create_result_post g dA dB dC dD dE dF :
  create_writes g dA dB dC dD dE dF -> wf_inode g ->
  create_post s (create_result g dA dB dC dD dE dF) p d ents c fb j kp name m
    (created_inode c j m g).
Proof.
  intros [WA WB WC WD WE WF] Hg. pose proof parent_not_fresh as Hpq.
  pose proof Hpre as [[] ? ? [Hb0 Hb1] ? ? [Hkp _] ? ? ?].
  destruct ap_block0 as [Hj _]. destruct ap_mode0 as [Hm _].
  pose proof (sb_free_blocks_range _ _ ap_wf0 ap_free0) as Hfb.
  pose proof (wf_slab _ ap_wf0 _ _ cp_parent0) as Hd.
  pose proof (created_inode_wf c j m g ap_count_range0 Hj Hm Hg) as Hwi.
  split; try done; unfold create_result, pre_link_state;
    fold d'; fold blk in Hb0, Hb1 |- *; bd.
  - intros Hn. eapply is_dir_append; [exact cp_is_dir0|done|int_lia|exact WD|exact WE].
  - by rewrite lookup_insert_eq.
  - rewrite lookup_insert_ne by done. by rewrite lookup_insert_eq.
  - eapply set_inodes_count_read; [int_lia|exact WB].
  - rewrite (set_inodes_count_free_blocks _ _ _ WB).
    unfold set_sb_free_blocks in WA.
    rewrite uwrap_id in WA by (by apply clearbit_range).
    by eapply load_le_store_same; [exact WA|apply clearbit_range].
  - rewrite (load_store_inode_ne kp c _ _ _ ltac:(lia) WF).
    by eapply load_store_inode_same.
  - eapply load_store_inode_same; [|exact WF]. by apply set_file_size_wf.
  - intros x Hx Hxk.
    rewrite (load_store_inode_ne kp x _ _ _ ltac:(congruence) WF).
    apply (load_store_inode_ne c x _ _ _ ltac:(lia) WC).
  - intros b ? ? ?. by bd.
Qed.
End create.
