(* ===== verification/SimplefsFile.v ===== *)
(** * simplefs: file contents and mounting

    The contents of a file are the first [file_size] bytes of its data block
    ([file_content]).  [simplefs_write] at position [ppos] makes the contents
    the old bytes up to [ppos] followed by the buffer (the size becomes the end
    of the write, so a write in the middle truncates); [simplefs_read] copies
    the start of the block whatever the position. *)

From S2P Require Export SimplefsCreate.

(** The contents of the file with inode [i], as the block [l] holds them. *)
Definition file_content (i : simplefs_inode) (l : bytes) : bytes :=
  take (Z.to_nat (file_size i)) l.

(** What one write makes of some contents, when the position is inside them. *)
Definition content_write (ppos : Z) (buf old : bytes) : bytes :=
  take (Z.to_nat ppos) old ++ buf.

Lemma file_content_store i i' ppos buf l l' :
  0 <= ppos <= file_size i -> store ppos buf l = Some l' ->
  file_size i' = ppos + Z.of_nat (length buf) ->
  file_content i' l' = content_write ppos buf (file_content i l).
Proof.
  intros Hp (? & ? & ->)%store_inv Hs. unfold file_content, content_write.
  rewrite Hs, take_take. replace (Z.to_nat ppos `min` Z.to_nat (file_size i))%nat
    with (Z.to_nat ppos) by lia.
  rewrite app_assoc, take_app_length'; [done|].
  rewrite length_app, length_take. lia.
Qed.

Lemma length_user_copy buf r : length (user_copy buf r) = length buf.
Proof. unfold user_copy. rewrite length_app, length_take, length_replicate. lia. Qed.
Lemma user_copy_all buf : user_copy buf 0 = buf.
Proof.
  unfold user_copy. simpl. rewrite Nat.sub_0_r, app_nil_r. by apply take_ge.
Qed.

Section file.
Context (e : env kcall) (Hq : quiet e).
Context (s : fs) (Hs : wf_fs s).
Context (f : inode) (p : nat) (i : simplefs_inode).
Context (Hf : i_private f = Some p) (Hi : slab s !! p = Some i).

(** The bytes a read hands to [copy_to_user]: the start of the block. *)
Definition read_bytes (len : Z) : bytes :=
  take (Z.to_nat (Z.min (file_size i) len)) (b_data s (data_block_number i)).

Lemma read_run len ppos tr :
  0 <= len -> 0 <= ppos < 2 ^ 31 -> file_size i <= 4096 ->
  simplefs_read f len ppos e s tr =
  if file_size i <=? ppos then Ok (0, ppos) s tr
  else
    let n := Z.min (file_size i) len in
    Ok (n, ppos + n) s
      (ev (brelse (data_block_number i)) tt :: ev (copy_to_user (read_bytes len)) 0 ::
       ev (sb_bread (data_block_number i)) true :: tr).
Proof.
  intros Hlen Hpos Hsz.
  destruct (wf_slab _ Hs _ _ Hi) as (_ & _ & _ & _ & Hsr).
  unfold file_size in *. unfold simplefs_read, SIMPLEFS_INODE. rewrite Hf.
  unfold deref, mbind, M_bind, get, call. simpl. rewrite Hi. simpl.
  rewrite uwrap_id by int_lia. unfold file_size.
  destruct (size_or_children i <=? ppos); [done|].
  rewrite (quiet_bread e Hq). simpl. unfold buf_read, get, mbind, M_bind.
  rewrite swrap_id by int_lia. rewrite uwrap_id by int_lia.
  rewrite load_Some by (rewrite ?(wf_block_length _ Hs); lia). simpl.
  rewrite (quiet_to_user e Hq). simpl. unfold mret, M_ret, ev, read_bytes, file_size.
  rewrite swrap_id by int_lia. rewrite drop_0.
  by match goal with |- context [e ?t (brelse ?n)] => destruct (e t (brelse n)) end.
Qed.

Context (count kp : Z).
Context (Hcount : sb_inodes_count (b_data s 0) = Some count) (Hc : 0 <= count < 128).
Context (Hkp : 0 <= kp < count /\ slot_no (b_data s 1) kp = Some (inode_no i)).
Context (Hfirst : forall x, 0 <= x < kp -> slot_no (b_data s 1) x <> Some (inode_no i)).
Context (Hb0 : data_block_number i <> 0) (Hb1 : data_block_number i <> 1).

(** The inode after a write that ends at [pos]. *)
Definition sized (pos : Z) : simplefs_inode := set_file_size pos i.

Lemma write_run buf ppos tr :
  0 <= ppos -> ppos + Z.of_nat (length buf) <= 4096 ->
  let pos := ppos + Z.of_nat (length buf) in
  exists dB dI tr',
    store ppos buf (b_data s (data_block_number i)) = Some dB /\
    store_inode kp (sized pos) (b_data s 1) = Some dI /\
    syncs tr' = [(1, dI); (data_block_number i, dB)] ++ syncs tr /\
    simplefs_write f buf ppos e s tr =
    Ok (Z.of_nat (length buf), pos)
      (set_b_data 1 dI (set_slab p (sized pos)
        (set_b_data (data_block_number i) dB s))) tr'.
Proof.
  intros Hpos Hfit pos. pose proof (wf_block_length _ Hs) as Hl.
  destruct Hkp as [Hkr Hkn].
  assert (is_Some (store ppos buf (b_data s (data_block_number i)))) as [dB HB].
  { rewrite store_Some; [by eexists|lia|rewrite Hl; lia]. }
  destruct (store_inode_Some kp (sized pos) (b_data s 1)) as [dI HI];
    [lia|rewrite Hl; lia|].
  exists dB, dI.
  enough (wp (simplefs_write f buf ppos) e (fun r s' tr' =>
    r = (Z.of_nat (length buf), pos) /\
    syncs tr' = [(1, dI); (data_block_number i, dB)] ++ syncs tr /\
    s' = set_b_data 1 dI (set_slab p (sized pos)
        (set_b_data (data_block_number i) dB s))) s tr) as H.
  { apply wp_run in H as (? & ? & tr' & -> & -> & ? & ->). by exists tr'. }
  assert (s64 (ppos + Z.of_nat (length buf)) = pos) as E64
    by (apply swrap_id; int_lia).
  unfold simplefs_write, SIMPLEFS_INODE. rewrite Hf. quiet_go.
  eapply wp_deref; [exact Hi|]. quiet_go.
  eapply wp_buf_write; [rewrite user_copy_all; exact HB|]. rewrite E64. quiet_go.
  eapply wp_assign; [bd; exact Hi|]. fold (sized pos). quiet_go.
  eapply (wp_inode_save e Hq); [bd; apply lookup_insert_eq|bd; exact Hcount| | |].
  - bd. apply (inode_search_first count _ _ kp); [lia|rewrite Hl; lia|exact Hkn|exact Hfirst].
  - bd. exact HI.
  - intros tr2 Hs2. quiet_go. split; [done|]. split; [|done]. bd. by_syncs.
Qed.
End file.

(** ** Mounting *)

(** The state after [simplefs_fill_super] found the inode [r]. *)
Definition mounted (s : fs) (r : simplefs_inode) : fs :=
  let s := fresh_object r s in
  mk_fs (b_data s) (slab s) (slab_next s)
    (Some (mk_super SIMPLEFS_MAGIC SIMPLEFS_DEFAULT_BLOCK_SIZE
      (Some (mk_vfs_inode SIMPLEFS_ROOTDIR_INODE_NUMBER (Some simplefs_dir_operations)
         (Some (Nat.pred (slab_next s))))))).

Lemma fill_super_run e s tr c r :
  quiet e -> wf_fs s -> sb_inodes_count (b_data s 0) = Some c -> 0 <= c <= 128 ->
  stored_inode s SIMPLEFS_ROOTDIR_INODE_NUMBER = Some r ->
  exists tr', simplefs_fill_super e s tr = Ok 0 (mounted s r) tr'.
Proof.
  intros Hq Hs Hc Hr Hroot.
  enough (wp simplefs_fill_super e (fun v s' _ => v = 0 /\ s' = mounted s r) s tr) as H.
  { apply wp_run in H as (? & ? & tr' & -> & -> & ->). by exists tr'. }
  unfold simplefs_fill_super. quiet_go.
  eapply (wp_get_inode e Hq); [done..|]. intros tr1. rewrite Hroot. quiet_go.
  by wp_go.
Qed.
