(* ===== verification/SimplefsMkfs.v ===== *)
(** * simplefs: the image builder ([simplefs/mkfs.c])

    [mkfs] is [main] on a device whose contents are the byte list, in a run in
    which every [write] is complete ([main] ignores the results of [write] and
    [lseek]).  [padding] is the unspecified padding of the inode structures. *)

From S2P Require Export SimplefsFile.

Inductive block_id := B_SUPER_BLOCK | B_INODE | B_ROOT | B_DATA1 | B_DATA2 | NR_BLOCK.
Definition block_no (b : block_id) : Z :=
  match b with
  | B_SUPER_BLOCK => 0 | B_INODE => 1 | B_ROOT => 2
  | B_DATA1 => 3 | B_DATA2 => 4 | NR_BLOCK => 5
  end.

Inductive inode_id := I_ROOT | I_DATA1 | I_DATA2 | NR_INODE.
Definition ino_of (i : inode_id) : Z :=
  match i with I_ROOT => 1 | I_DATA1 => 2 | I_DATA2 => 3 | NR_INODE => 4 end.

(** [.free_blocks = (~0) & ~(1 << NR_BLOCK)], an [int] converted to [uint64_t]. *)
Definition mkfs_free_blocks : Z :=
  int_to_u64 (Z.land (Z.lnot 0) (Z.lnot (default 0 (shl1_int (block_no NR_BLOCK))))).

Definition encode_super (magic block_size inodes_count free_blocks : Z) : bytes :=
  le_enc 8 magic ++ le_enc 8 block_size ++ le_enc 8 inodes_count ++
  le_enc 8 free_blocks ++ replicate (Z.to_nat 4064) 0.

Definition mkfs_super : bytes :=
  encode_super SIMPLEFS_MAGIC SIMPLEFS_DEFAULT_BLOCK_SIZE (ino_of NR_INODE - 1)
    mkfs_free_blocks.

(** The device is at its start when the super block is written. *)
Definition write_superblock (fd : bytes) : bytes := pwrite 0 mkfs_super fd.

Definition write_inode (ino : simplefs_inode) (b_id : block_id) (fd : bytes) : bytes :=
  pwrite (block_no b_id * SIMPLEFS_DEFAULT_BLOCK_SIZE +
          (inode_no ino - 1) * sizeof_inode) (encode_inode ino) fd.

Definition write_block (block : bytes) (b_id : block_id) (fd : bytes) : bytes :=
  pwrite (block_no b_id * SIMPLEFS_DEFAULT_BLOCK_SIZE) block fd.

Definition encode_record (ent : entry) : bytes :=
  char_array (Z.to_nat SIMPLEFS_FILENAME_MAXLEN) ent.1 ++ le_enc 8 ent.2.

(** ** Sequences of complete writes *)

Definition pwrites (ws : list (Z * bytes)) (f : bytes) : bytes :=
  fold_left (fun f w => pwrite w.1 w.2 f) ws f.
Definition fits (f : bytes) (w : Z * bytes) : Prop :=
  0 <= w.1 /\ w.1 + Z.of_nat (length w.2) <= Z.of_nat (length f).
Definition apart (off : Z) (d : bytes) (w : Z * bytes) : Prop :=
  off + Z.of_nat (length d) <= w.1 \/ w.1 + Z.of_nat (length w.2) <= off.

Lemma fits_store f w : fits f w -> store w.1 w.2 f = Some (pwrite w.1 w.2 f).
Proof. intros [? ?]. by apply pwrite_store. Qed.

Lemma length_pwrite f w : fits f w -> length (pwrite w.1 w.2 f) = length f.
Proof. intros Hw. eapply store_length. by apply fits_store. Qed.

Lemma fits_length f f' w : length f' = length f -> fits f w -> fits f' w.
Proof. unfold fits. by intros ->. Qed.

Lemma length_pwrites ws f : Forall (fits f) ws -> length (pwrites ws f) = length f.
Proof.
  revert f. induction ws as [|w ws IH]; intros f Hws; [done|].
  apply Forall_cons in Hws as [Hw Hws]. cbn [pwrites fold_left].
  pose proof (length_pwrite f w Hw) as E. rewrite <- E. apply IH.
  eapply Forall_impl; [exact Hws|]. intros x. by apply fits_length.
Qed.

(** A write that no later one touches can be read back. *)
Lemma pwrites_keep off d ws f :
  Forall (fits f) ws -> Forall (apart off d) ws ->
  load off (Z.of_nat (length d)) f = Some d ->
  load off (Z.of_nat (length d)) (pwrites ws f) = Some d.
Proof.
  revert f. induction ws as [|w ws IH]; intros f Hws Hap Hl; [done|].
  apply Forall_cons in Hws as [Hw Hws]. apply Forall_cons in Hap as [Ha Hap].
  cbn [pwrites fold_left]. apply IH; [|done|].
  - pose proof (length_pwrite f w Hw).
    eapply Forall_impl; [exact Hws|]. intros x. by apply fits_length.
  - rewrite (load_store_disjoint _ _ _ _ _ _ (fits_store f w Hw)); [done|exact Ha].
Qed.

Lemma pwrites_holds ws1 ws2 off d f :
  Forall (fits f) (ws1 ++ (off, d) :: ws2) -> Forall (apart off d) ws2 ->
  load off (Z.of_nat (length d)) (pwrites (ws1 ++ (off, d) :: ws2) f) = Some d.
Proof.
  intros HF Hap. unfold pwrites. rewrite fold_left_app. cbn [fold_left].
  apply Forall_app in HF as [H1 H2]. apply Forall_cons in H2 as [H2 H3].
  pose proof (length_pwrites _ _ H1) as E. unfold pwrites in E.
  apply (fits_length _ _ _ E) in H2.
  apply pwrites_keep; [|done|].
  - pose proof (length_pwrite _ _ H2) as E'.
    eapply Forall_impl; [exact H3|]. intros x. apply fits_length. congruence.
  - exact (load_store_same _ _ _ _ (fits_store _ _ H2)).
Qed.

Section mkfs.
Context (padding : Z).

Definition root_inode : simplefs_inode :=
  mk_inode S_IFDIR padding (ino_of I_ROOT) (block_no B_ROOT) 2.
Definition record1 : entry := (str "Data1", ino_of I_DATA1).
Definition record2 : entry := (str "Data2", ino_of I_DATA2).
Definition block_size_nat : nat := Z.to_nat SIMPLEFS_DEFAULT_BLOCK_SIZE.
Definition root_block : bytes :=
  char_array block_size_nat (encode_record record1 ++ encode_record record2).
Definition D1_text : bytes := str "I am Data 1" ++ [10].
Definition D2_text : bytes := str "I am Data 2" ++ [10].
Definition D1_block : bytes := char_array block_size_nat D1_text.
Definition D2_block : bytes := char_array block_size_nat D2_text.
Definition D1_inode : simplefs_inode :=
  mk_inode S_IFREG padding (ino_of I_DATA1) (block_no B_DATA1)
    (Z.of_nat (length (until_nul D1_block)) + 1).
Definition D2_inode : simplefs_inode :=
  mk_inode S_IFREG padding (ino_of I_DATA2) (block_no B_DATA2)
    (Z.of_nat (length (until_nul D2_block)) + 1).

Definition mkfs (fd : bytes) : bytes :=
  let fd := write_superblock fd in
  let fd := write_inode root_inode B_INODE fd in
  let fd := write_inode D1_inode B_INODE fd in
  let fd := write_inode D2_inode B_INODE fd in
  let fd := write_block root_block B_ROOT fd in
  let fd := write_block D1_block B_DATA1 fd in
  write_block D2_block B_DATA2 fd.

(** ** What the image holds *)

Lemma length_mkfs_super : length mkfs_super = Z.to_nat 4096.
Proof.
  unfold mkfs_super, encode_super.
  rewrite !length_app, !length_le_enc, length_replicate. lia.
Qed.
Lemma length_root_block : length root_block = Z.to_nat 4096.
Proof. apply length_char_array. Qed.
Lemma length_D1_block : length D1_block = Z.to_nat 4096.
Proof. apply length_char_array. Qed.
Lemma length_D2_block : length D2_block = Z.to_nat 4096.
Proof. apply length_char_array. Qed.

#[local] Opaque D1_block D2_block root_block mkfs_super pwrite.

Definition write_inode_at (i : simplefs_inode) : Z * bytes :=
  (block_no B_INODE * SIMPLEFS_DEFAULT_BLOCK_SIZE + (inode_no i - 1) * sizeof_inode,
   encode_inode i).
Definition write_block_at (b : block_id) (d : bytes) : Z * bytes :=
  (block_no b * SIMPLEFS_DEFAULT_BLOCK_SIZE, d).

(** The seven writes, in order. *)
Definition mkfs_writes : list (Z * bytes) :=
  [ (0, mkfs_super); write_inode_at root_inode; write_inode_at D1_inode;
    write_inode_at D2_inode; write_block_at B_ROOT root_block;
    write_block_at B_DATA1 D1_block; write_block_at B_DATA2 D2_block ].

Lemma mkfs_offsets :
  mkfs_writes =
  [ (0, mkfs_super); (4096, encode_inode root_inode);
    (4128, encode_inode D1_inode); (4160, encode_inode D2_inode);
    (8192, root_block); (12288, D1_block); (16384, D2_block) ].
Proof.
  unfold mkfs_writes, write_inode_at, write_block_at.
  repeat (f_equal; []); reflexivity.
Qed.

Context (fd : bytes) (Hfd : 5 * 4096 <= Z.of_nat (length fd)).

Lemma mkfs_is_writes : mkfs fd = pwrites mkfs_writes fd.
Proof.
  unfold mkfs, write_inode, write_block, write_superblock, pwrites, mkfs_writes.
  cbn [fold_left fst snd write_inode_at write_block_at]. reflexivity.
Qed.

Lemma mkfs_writes_fit : Forall (fits fd) mkfs_writes.
Proof.
  rewrite mkfs_offsets. unfold fits. rewrite !Forall_cons. cbn [fst snd].
  rewrite length_mkfs_super, !length_encode_inode, length_root_block,
    length_D1_block, length_D2_block. split_and!; try lia. constructor.
Qed.

(** Every write of [mkfs] is still there at the end. *)
Lemma mkfs_holds off d :
  (off, d) ∈ mkfs_writes -> load off (Z.of_nat (length d)) (mkfs fd) = Some d.
Proof.
  pose proof mkfs_writes_fit as HF. rewrite mkfs_is_writes.
  intros (ws1 & ws2 & E)%list_elem_of_split. rewrite E.
  apply pwrites_holds; [by rewrite <- E|].
  rewrite mkfs_offsets in E. pose proof length_mkfs_super as L0.
  pose proof length_root_block as L1. pose proof length_D1_block as L2.
  pose proof length_D2_block as L3.
  do 7 (destruct ws1 as [|? ws1];
    [injection E as <- <- <-;
     repeat (apply Forall_cons; split); try apply Forall_nil;
     unfold apart; cbn [fst snd]; rewrite ?length_encode_inode, ?L0, ?L1, ?L2, ?L3; lia
    |injection E as <- E]).
  destruct ws1; discriminate E.
Qed.

Lemma length_mkfs : length (mkfs fd) = length fd.
Proof. rewrite mkfs_is_writes. apply length_pwrites, mkfs_writes_fit. Qed.
End mkfs.
