(* ===== verification/SimplefsImage.v ===== *)
(** * simplefs: the image read back through the buffer cache

    [image_fs img] is the memory of the module when the device holds the bytes
    [img] and nothing was read or written yet: block [n] is the [n]-th 4096-byte
    slice.  On the image of [mkfs] the structures the module reads are the ones
    [mkfs] meant to write, and mounting finds the root directory. *)

From S2P Require Export SimplefsMkfs.

Definition image_block (img : bytes) (n : Z) : bytes :=
  char_array block_size_nat
    (if 0 <=? n then drop (Z.to_nat (SIMPLEFS_DEFAULT_BLOCK_SIZE * n)) img else []).

Definition image_fs (img : bytes) : fs := mk_fs (image_block img) ∅ 0 None.

Lemma char_array_wf n l : wf_bytes l -> wf_bytes (char_array n l).
Proof.
  intros. apply Forall_take, Forall_app. split; [done|].
  apply Forall_replicate. unfold is_byte. lia.
Qed.

Lemma image_fs_wf img : wf_bytes img -> wf_fs (image_fs img).
Proof.
  intros Hi. split; simpl; try done.
  - intros n. unfold image_block. by rewrite length_char_array.
  - intros n. apply char_array_wf. case_match; [by apply Forall_drop|constructor].
Qed.

(** A window of a block is the same window of the device. *)
Lemma load_image_block img n off len d :
  0 <= n -> 0 <= off -> 0 <= len -> off + len <= SIMPLEFS_DEFAULT_BLOCK_SIZE ->
  load (SIMPLEFS_DEFAULT_BLOCK_SIZE * n + off) len img = Some d ->
  load off len (image_block img n) = Some d.
Proof.
  unfold SIMPLEFS_DEFAULT_BLOCK_SIZE. intros Hn Ho Hl Hfit Hd.
  unfold load in Hd. destruct (in_object _ _ _) eqn:E; [|done].
  apply in_object_spec in E as (_ & _ & E). injection Hd as <-.
  unfold image_block, block_size_nat, SIMPLEFS_DEFAULT_BLOCK_SIZE.
  rewrite (proj2 (Z.leb_le 0 n)) by done.
  rewrite load_Some by (rewrite ?length_char_array; lia). f_equal.
  unfold char_array.
  rewrite skipn_firstn_comm, take_take, drop_app_le by (rewrite length_drop; lia).
  rewrite drop_drop, take_app_le by (rewrite length_drop; lia).
  f_equal; [lia|]. f_equal. lia.
Qed.

Lemma load_le_image_block img n off k v :
  0 <= n -> 0 <= off -> off + Z.of_nat k <= SIMPLEFS_DEFAULT_BLOCK_SIZE ->
  load_le (SIMPLEFS_DEFAULT_BLOCK_SIZE * n + off) k img = Some v ->
  load_le off k (image_block img n) = Some v.
Proof.
  intros ? ? ?. unfold load_le. intros (d & Hd & ->)%fmap_Some.
  by rewrite (load_image_block _ _ _ _ d) by (done || lia).
Qed.

(** Reading inside a window that holds known bytes. *)
Lemma load_sub off a n d l :
  load off (Z.of_nat (length d)) l = Some d -> 0 <= a -> 0 <= n ->
  a + n <= Z.of_nat (length d) -> load (off + a) n l = load a n d.
Proof.
  intros Hd Ha Hn Hfit. unfold load in Hd.
  destruct (in_object off (Z.of_nat (length d)) l) eqn:E; [|done].
  apply in_object_spec in E as (? & _ & E). injection Hd as Hd. rewrite Nat2Z.id in Hd.
  rewrite !load_Some by lia. f_equal. rewrite <- Hd.
  rewrite skipn_firstn_comm, take_take, drop_drop. f_equal; [lia|]. f_equal. lia.
Qed.

(** Deciding [name_ok] by evaluation. *)
Lemma name_ok_bool name :
  forallb (fun b => (0 <? b) && (b <? 256)) name = true ->
  (length name <? 248)%nat = true -> name_ok name.
Proof.
  intros H1 H2. split.
  - apply Forall_forall. intros x Hx.
    assert (forallb (fun b => (0 <? b) && (b <? 256)) name = true) as H by done.
    rewrite forallb_forall in H. specialize (H x).
    rewrite <- list_elem_of_In in H. specialize (H Hx). bool_hyps. lia.
  - apply Nat.ltb_lt in H2. unfold SIMPLEFS_FILENAME_MAXLEN. lia.
Qed.

(** ** The image of [mkfs] *)

Lemma mkfs_inodes_wf padding :
  0 <= padding < 2 ^ 32 ->
  wf_inode (root_inode padding) /\ wf_inode (D1_inode padding) /\
  wf_inode (D2_inode padding).
Proof.
  intros Hpad.
  assert (length (until_nul D1_block) = 12%nat /\ length (until_nul D2_block) = 12%nat)
    as [E1 E2] by done.
  unfold wf_inode, root_inode, D1_inode, D2_inode.
  cbn [mode pad inode_no data_block_number size_or_children].
  rewrite E1, E2. split_and!; try done; int_lia.
Qed.

Section image.
Context (padding : Z) (Hpad : 0 <= padding < 2 ^ 32).
Context (fd : bytes) (Hfd : 5 * 4096 <= Z.of_nat (length fd)).

Abbreviation img := (mkfs padding fd).

Lemma image_holds n off a k d v :
  (SIMPLEFS_DEFAULT_BLOCK_SIZE * n + off, d) ∈ mkfs_writes padding ->
  0 <= n -> 0 <= off -> 0 <= a -> 0 <= k -> a + k <= Z.of_nat (length d) ->
  off + Z.of_nat (length d) <= SIMPLEFS_DEFAULT_BLOCK_SIZE ->
  load a k d = Some v ->
  load (off + a) k (image_block img n) = Some v.
Proof.
  intros Hd Hn Ho Ha Hk Hak Hfit Hv.
  pose proof (mkfs_holds padding fd Hfd _ _ Hd) as Hl.
  apply load_image_block; [lia..|].
  by rewrite Z.add_assoc, (load_sub _ _ _ d).
Qed.

(** The super block. *)
Lemma image_sb_field o v :
  0 <= o -> o + 8 <= 32 -> load_le o 8 mkfs_super = Some v ->
  load_le o 8 (image_block img SIMPLEFS_SUPERBLOCK_BLOCK_NUMBER) = Some v.
Proof.
  unfold load_le. intros Ho Hfit (d & Hd & ->)%fmap_Some.
  assert (load (0 + o) (Z.of_nat 8) (image_block img 0) = Some d) as E.
  { apply (image_holds 0 0 o _ mkfs_super); try done.
    - rewrite mkfs_offsets. apply list_elem_of_here.
    - rewrite length_mkfs_super. lia. }
  unfold SIMPLEFS_SUPERBLOCK_BLOCK_NUMBER. by rewrite Z.add_0_l in E; rewrite E.
Qed.

Lemma mkfs_super_field o k v :
  0 <= o -> o + Z.of_nat k <= 4096 ->
  le_dec (take k (drop (Z.to_nat o) mkfs_super)) = v -> load_le o k mkfs_super = Some v.
Proof.
  intros ? ? <-. unfold load_le.
  rewrite load_Some by (rewrite ?length_mkfs_super; lia).
  by rewrite Nat2Z.id.
Qed.

Lemma image_super :
  let sb := image_block img SIMPLEFS_SUPERBLOCK_BLOCK_NUMBER in
  sb_magic sb = Some SIMPLEFS_MAGIC /\
  sb_block_size sb = Some SIMPLEFS_DEFAULT_BLOCK_SIZE /\
  sb_inodes_count sb = Some 3 /\ sb_free_blocks sb = Some mkfs_free_blocks.
Proof.
  split_and!; (apply image_sb_field; [lia|lia|]); apply mkfs_super_field;
    solve [lia | reflexivity].
Qed.

(** The inode store. *)
Lemma image_slot k i :
  0 <= k < 3 -> (4096 + 32 * k, encode_inode i) ∈ mkfs_writes padding -> wf_inode i ->
  load_inode k (image_block img SIMPLEFS_INODESTORE_BLOCK_NUMBER) = Some i.
Proof.
  intros Hk Hin Hwf. unfold load_inode, sizeof_inode, SIMPLEFS_INODESTORE_BLOCK_NUMBER.
  assert (load (32 * k + 0) 32 (image_block img 1) = Some (encode_inode i)) as E.
  { apply (image_holds 1 (32 * k) 0 32 (encode_inode i)); try lia.
    - exact Hin.
    - by rewrite length_encode_inode.
    - rewrite length_encode_inode. unfold SIMPLEFS_DEFAULT_BLOCK_SIZE. lia.
    - rewrite load_Some by (rewrite ?length_encode_inode; lia). f_equal. }
  rewrite Z.add_0_r in E. rewrite E. simpl. by rewrite decode_encode_inode.
Qed.

#[local] Transparent D1_block D2_block root_block.


#[local] Opaque D1_inode D2_inode root_inode.

Lemma image_inodes :
  let l := image_block img SIMPLEFS_INODESTORE_BLOCK_NUMBER in
  load_inode 0 l = Some (root_inode padding) /\
  load_inode 1 l = Some (D1_inode padding) /\ load_inode 2 l = Some (D2_inode padding).
Proof.
  destruct (mkfs_inodes_wf padding Hpad) as (H1 & H2 & H3). pose proof (mkfs_offsets padding) as E.
  split_and!.
  - apply image_slot; [lia| |exact H1]. rewrite E.
    apply (list_elem_of_lookup_2 _ 1%nat); reflexivity.
  - apply image_slot; [lia| |exact H2]. rewrite E.
    apply (list_elem_of_lookup_2 _ 2%nat); reflexivity.
  - apply image_slot; [lia| |exact H3]. rewrite E.
    apply (list_elem_of_lookup_2 _ 3%nat); reflexivity.
Qed.

#[local] Transparent D1_inode D2_inode root_inode.

(** The blocks of the root directory and of the two files. *)
Lemma image_data n d a k v :
  0 <= n -> (SIMPLEFS_DEFAULT_BLOCK_SIZE * n, d) ∈ mkfs_writes padding ->
  length d = block_size_nat -> 0 <= a -> 0 <= k -> a + k <= 4096 ->
  take (Z.to_nat k) (drop (Z.to_nat a) d) = v ->
  load a k (image_block img n) = Some v.
Proof.
  intros Hn Hin Hlen Ha Hk Hfit <-.
  assert (Z.of_nat (length d) = 4096) as Hl by (by rewrite Hlen).
  rewrite <- (Z.add_0_l a) at 1. apply (image_holds n 0 a k d); try lia.
  - by rewrite Z.add_0_r.
  - unfold SIMPLEFS_DEFAULT_BLOCK_SIZE. lia.
  - apply load_Some; lia.
Qed.

Lemma image_root_dir : is_dir (image_block img (block_no B_ROOT)) [record1; record2].
Proof.
  assert ((SIMPLEFS_DEFAULT_BLOCK_SIZE * block_no B_ROOT, root_block)
    ∈ mkfs_writes padding) as Hin by (rewrite mkfs_offsets; by apply (list_elem_of_lookup_2 _ 4%nat)).
  pose proof (fun a k v => image_data (block_no B_ROOT) root_block a k v
    ltac:(done) Hin length_root_block) as L.
  assert (forall a b, 0 <= a -> a + 8 <= 4096 ->
    le_dec (take 8 (drop (Z.to_nat a) root_block)) = b ->
    load_le a 8 (image_block img (block_no B_ROOT)) = Some b) as LE.
  { intros a b ? ? <-. unfold load_le. by erewrite L by (done || lia). }
  intros k ent Hk.
  assert (k = 0%nat /\ ent = record1 \/ k = 1%nat /\ ent = record2) as
    [[-> ->] | [-> ->]] by (destruct k as [|[|k]]; simplify_eq/=; auto);
    (split; [by apply name_ok_bool|]); split; solve [by apply LE | by apply L].
Qed.

Lemma image_files :
  load 0 13 (image_block img (block_no B_DATA1)) = Some (D1_text ++ [0]) /\
  load 0 13 (image_block img (block_no B_DATA2)) = Some (D2_text ++ [0]).
Proof.
  split; [apply (image_data (block_no B_DATA1) D1_block)
         |apply (image_data (block_no B_DATA2) D2_block)];
    try done; try apply length_char_array; rewrite mkfs_offsets;
    [by apply (list_elem_of_lookup_2 _ 5%nat)|by apply (list_elem_of_lookup_2 _ 6%nat)].
Qed.
End image.

(** ** The mounted image *)

Section mounted_image.
Context (padding : Z) (Hpad : 0 <= padding < 2 ^ 32).
Context (fd : bytes) (Hfd : 5 * 4096 <= Z.of_nat (length fd)) (Hwf : wf_bytes fd).

Lemma encode_record_wf ent : wf_bytes ent.1 -> wf_bytes (encode_record ent).
Proof.
  intros. apply Forall_app. split; [by apply char_array_wf|apply le_enc_wf].
Qed.

Lemma mkfs_super_wf : wf_bytes mkfs_super.
Proof.
  unfold mkfs_super, encode_super.
  repeat (apply Forall_app; split; [apply le_enc_wf|]).
  apply Forall_replicate. unfold is_byte. lia.
Qed.

Lemma root_block_wf : wf_bytes root_block.
Proof.
  apply char_array_wf, Forall_app.
  split; apply encode_record_wf, reflect_wf_bytes; reflexivity.
Qed.

Lemma mkfs_writes_wf : Forall (fun w => wf_bytes w.2) (mkfs_writes padding).
Proof.
  rewrite mkfs_offsets.
  apply Forall_cons; split; [exact mkfs_super_wf|].
  do 3 (apply Forall_cons; split; [apply encode_inode_wf|]).
  apply Forall_cons; split; [exact root_block_wf|].
  apply Forall_cons; split; [apply char_array_wf, reflect_wf_bytes; reflexivity|].
  apply Forall_cons; split; [apply char_array_wf, reflect_wf_bytes; reflexivity|].
  apply Forall_nil_2.
Qed.

Lemma pwrites_wf ws f :
  Forall (fun w => wf_bytes w.2) ws -> wf_bytes f -> wf_bytes (pwrites ws f).
Proof.
  revert f. induction ws as [|w ws IH]; intros f Hws Hf; [done|].
  apply Forall_cons in Hws as [Hw Hws]. cbn [pwrites fold_left]. apply IH; [done|].
  unfold pwrite. repeat (apply Forall_app; split); try done.
  - by apply Forall_take.
  - apply Forall_replicate. unfold is_byte. lia.
  - by apply Forall_drop.
Qed.

Lemma image_wf : wf_fs (image_fs (mkfs padding fd)).
Proof.
  apply image_fs_wf. rewrite mkfs_is_writes. apply pwrites_wf; [apply mkfs_writes_wf|done].
Qed.

Lemma stored_inode_3 s no :
  sb_inodes_count (b_data s SIMPLEFS_SUPERBLOCK_BLOCK_NUMBER) = Some 3 ->
  stored_inode s no = find_inode 3 0 (b_data s SIMPLEFS_INODESTORE_BLOCK_NUMBER) no.
Proof. intros Hc. unfold stored_inode. by rewrite Hc. Qed.

Lemma find_inode_hit n k l i :
  load_inode k l = Some i -> find_inode (S n) k l (inode_no i) = Some i.
Proof. intros Hl. cbn [find_inode]. rewrite Hl. simpl. by rewrite Z.eqb_refl. Qed.

Lemma find_inode_miss n k l no i :
  load_inode k l = Some i -> inode_no i <> no ->
  find_inode (S n) k l no = find_inode n (k + 1) l no.
Proof.
  intros Hl Hn. cbn [find_inode]. rewrite Hl. simpl.
  by rewrite (proj2 (Z.eqb_neq _ _) Hn).
Qed.

Lemma image_stored_root : stored_inode (image_fs (mkfs padding fd)) 1 = Some (root_inode padding).
Proof.
  destruct (image_super padding fd Hfd) as (_ & _ & Hc & _).
  destruct (image_inodes padding Hpad fd Hfd) as (H0 & _ & _).
  rewrite stored_inode_3 by exact Hc.
  exact (find_inode_hit 2 0 _ _ H0).
Qed.

Lemma image_stored_D1 : stored_inode (image_fs (mkfs padding fd)) 2 = Some (D1_inode padding).
Proof.
  destruct (image_super padding fd Hfd) as (_ & _ & Hc & _).
  destruct (image_inodes padding Hpad fd Hfd) as (H0 & H1 & _).
  rewrite stored_inode_3 by exact Hc.
  etransitivity; [apply (find_inode_miss 2 0 _ 2 _ H0); discriminate|].
  exact (find_inode_hit 1 1 _ _ H1).
Qed.

(** The state after mounting, and the in-core root directory. *)
Definition mounted_image : fs := mounted (image_fs (mkfs padding fd)) (root_inode padding).
Definition root_dir : inode :=
  mk_vfs_inode SIMPLEFS_ROOTDIR_INODE_NUMBER (Some simplefs_dir_operations) (Some 0%nat).

Lemma mounted_image_wf : wf_fs mounted_image.
Proof.
  destruct (wf_fresh_object (root_inode padding) _ image_wf) as [W1 W2 W3 W4];
    [by apply mkfs_inodes_wf|]. by split.
Qed.

Lemma mounted_image_alloc m :
  0 <= m < 2 ^ 16 /\ S_ISDIR m || S_ISREG m = true ->
  alloc_pre mounted_image 3 mkfs_free_blocks 2 m.
Proof.
  intros Hm. destruct (image_super padding fd Hfd) as (_ & _ & Hc & Hfb).
  split.
  - apply mounted_image_wf.
  - exact Hc.
  - lia.
  - exact Hfb.
  - split; [lia|reflexivity].
  - lia.
  - exact Hm.
Qed.

(** The preconditions of creation hold in the root directory. *)
Lemma mounted_image_create name m :
  0 <= m < 2 ^ 16 /\ S_ISDIR m || S_ISREG m = true ->
  Z.of_nat (length name) < 256 ->
  create_pre mounted_image root_dir 0 (root_inode padding) [record1; record2]
    3 mkfs_free_blocks 2 0 name m.
Proof.
  intros Hm Hn. destruct (image_inodes padding Hpad fd Hfd) as (H0 & _ & _).
  split.
  - by apply mounted_image_alloc.
  - reflexivity.
  - apply lookup_insert_eq.
  - split; discriminate.
  - apply (image_root_dir padding fd Hfd).
  - reflexivity.
  - split; [lia|]. unfold slot_no. exact (f_equal (fmap inode_no) H0).
  - lia.
  - reflexivity.
  - exact Hn.
Qed.
End mounted_image.
