(* ===== verification/SimplefsFaults.v ===== *)
(** * simplefs: lemmas on the error paths

    What the code does where its own checks do not protect it: interrupted
    mutexes, a full directory, names longer than the [filename] field. *)

From S2P Require Export SimplefsLocks SimplefsImage.

(** ** Interrupted mutexes *)

Lemma inode_add_interrupted (e : env kcall) s tr p L :
  e tr (mutex_lock_interruptible simplefs_inodes_mgmt_lock) = 0 ->
  (forall tr', e tr' (sb_bread SIMPLEFS_INODESTORE_BLOCK_NUMBER) = true) ->
  (forall tr', e tr' (mutex_lock_interruptible simplefs_sb_lock) <> 0) ->
  lock_stack tr = Some L -> may_take simplefs_inodes_mgmt_lock L = true ->
  exists tr', simplefs_inode_add p e s tr = Ok tt s tr' /\
    lock_stack tr' = Some (simplefs_inodes_mgmt_lock :: L).
Proof.
  intros H1 Hb H2 Htr Hm. unfold simplefs_inode_add, mbind, M_bind, call.
  rewrite H1. cbn. rewrite Hb. cbn.
  rewrite (proj2 (Z.eqb_neq _ 0)) by apply H2. cbn.
  eexists. split; [reflexivity|]. cbn. rewrite Htr. cbn. rewrite Hm. cbn.
  by rewrite (proj2 (Z.eqb_neq _ 0)) by apply H2.
Qed.

Lemma get_a_freeblock_interrupted (e : env kcall) s tr L :
  e tr (mutex_lock_interruptible simplefs_sb_lock) <> 0 ->
  lock_stack tr = Some L -> simplefs_sb_lock ∉ L ->
  exists tr', simplefs_sb_get_a_freeblock e s tr = Ok (- EINTR, None) s tr' /\
    calls tr' = calls tr ++ [mutex_lock_interruptible simplefs_sb_lock;
                             mutex_unlock simplefs_sb_lock] /\
    lock_stack tr' = None.
Proof.
  intros H1 Htr HL. unfold simplefs_sb_get_a_freeblock, mbind, M_bind, call.
  rewrite (proj2 (Z.eqb_neq _ 0)) by apply H1. cbn.
  eexists. split; [reflexivity|]. split.
  - unfold calls. cbn. by rewrite <- app_assoc.
  - cbn. rewrite Htr. cbn. rewrite (proj2 (Z.eqb_neq _ 0)) by apply H1. cbn.
    destruct L as [|h L]; [done|]. rewrite decide_False; [done|].
    intros ->. apply HL. left.
Qed.

(** ** A full directory *)

Lemma obs_buf_write_oob {B} n f (k : unit -> K B) e P s tr :
  f (b_data s n) = None -> P (Fault OutOfBounds s tr) -> obs (buf_write n f ≫= k) e P s tr.
Proof.
  intros Hf HP. unfold obs, buf_write, mbind, M_bind, get. by rewrite Hf.
Qed.

Lemma store_le_oob off n z l :
  0 <= off -> Z.of_nat (length l) < off + Z.of_nat n -> store_le off n z l = None.
Proof. intros. apply store_None; [done|]. by rewrite length_le_enc. Qed.

(** With 16 or more entries, creation runs past the directory block, after the
    inode was added to the store and with the directory mutex held. *)
Lemma create_full_dir e s tr dir p d name m c fb j :
  quiet e -> env_wf e -> alloc_pre s c fb j m ->
  i_private dir = Some p -> slab s !! p = Some d ->
  data_block_number d <> 0 -> data_block_number d <> 1 ->
  16 <= dir_children_count d ->
  exists s' tr',
    simplefs_create_fs_object dir name m e s tr = Fault OutOfBounds s' tr' /\
    sb_inodes_count (b_data s' 0) = Some (c + 1).
Proof.
  intros Hq He Ha Hp Hd Hb0 Hb1 Hfull.
  destruct (create_reaches_link e s tr dir name m c fb j Hq He Ha)
    as (g & dA & tr1 & Hg & HA & _ & ->).
  pose proof Ha as [Hw Hcount Hc Hfb [Hj _] _ [Hm _]].
  pose proof (wf_block_length _ Hw) as Hl.
  assert (p <> slab_next s) as Hpq.
  { intros ->. by rewrite (wf_slab_next _ Hw) in Hd. }
  assert (length dA = 4096%nat) as LA by (by rewrite (store_length _ _ _ _ HA)).
  assert (is_Some (set_sb_inodes_count (c + 1) dA)) as [dB HB].
  { unfold set_sb_inodes_count, store_le.
    rewrite store_Some; [by eexists|lia|rewrite length_le_enc; lia]. }
  destruct (store_inode_Some c (created_inode c j m g) (b_data s 1)) as [dC HC];
    [lia|rewrite Hl; lia|].
  assert (sb_inodes_count dA = Some c) as HcA.
  { destruct (with_free_blocks_frame (Z.clearbit fb j) s (set_b_data 0 dA s))
      as (_ & _ & Hcnt); [by exists dA|].
    cbn [b_data set_b_data] in Hcnt. rewrite fn_lookup_insert in Hcnt. by rewrite Hcnt. }
  enough (obs (link_fs_object dir (mk_vfs_inode (c + 8) (created_fop m)
      (Some (slab_next s))) name m) e (fun o => exists s' tr',
        o = Fault OutOfBounds s' tr' /\ sb_inodes_count (b_data s' 0) = Some (c + 1))
      (pre_link_state s c j m g dA) tr1) as H by exact H.
  unfold link_fs_object, record_fs_object, SIMPLEFS_INODE, pre_link_state. rewrite Hp. cbn [i_private].
  quiet_go. eapply (wp_inode_add e Hq); bd; [apply lookup_insert_eq|done|done|done|].
  intros tr2 _. quiet_go.
  eapply wp_deref; [bd; rewrite !lookup_insert_ne by congruence; exact Hd|].
  quiet_go. eapply wp_deref; [bd; apply lookup_insert_eq|]. cbn beta.
  apply obs_buf_write_oob.
  - bd. unfold sizeof_dir_record, SIMPLEFS_FILENAME_MAXLEN.
    apply store_le_oob; [lia|rewrite Hl; lia].
  - eexists _, _. split; [reflexivity|]. bd.
    eapply set_inodes_count_read; [int_lia|exact HB].
Qed.

(** ** Names longer than the field *)

Lemma le_dec_app a b : le_dec (a ++ b) = le_dec a + 256 ^ Z.of_nat (length a) * le_dec b.
Proof.
  induction a as [|x a IH]; cbn [app le_dec length].
  - change (256 ^ Z.of_nat 0) with 1. lia.
  - rewrite IH, pow256_S. lia.
Qed.

Lemma le_dec_zeros n : le_dec (replicate n 0) = 0.
Proof. induction n as [|n IH]; cbn [replicate le_dec]; lia. Qed.

Lemma le_enc_small n z : 0 <= z < 256 -> le_enc (S n) z = z :: replicate n 0.
Proof.
  intros Hz. cbn [le_enc]. rewrite Z.mod_small, Z.div_small by lia. f_equal.
  induction n as [|n IH]; [done|]. cbn [le_enc replicate].
  rewrite Z.mod_0_l, Z.div_0_l by lia. by rewrite IH.
Qed.

(** The [inode_no] of record [k] after its two writes, for a name of 248 to 255
    characters: the end of the name and its terminator lie over it. *)
Lemma long_name_inode_no l l1 l2 k name ino :
  0 <= k -> 248 <= Z.of_nat (length name) < 256 -> 0 <= ino < 256 ->
  store_le (sizeof_dir_record * k + SIMPLEFS_FILENAME_MAXLEN) 8 ino l = Some l1 ->
  store (sizeof_dir_record * k) (name ++ [0]) l1 = Some l2 ->
  record_inode_no k l2 = Some (le_dec (drop 248 name)).
Proof.
  intros Hk Hlen Hino H1 H2.
  unfold record_inode_no, load_le, sizeof_dir_record, SIMPLEFS_FILENAME_MAXLEN in *.
  set (n := Z.of_nat (length name)) in *. set (off := 256 * k) in *.
  assert (load (off + 248) (n - 247) l2 = Some (drop 248 name ++ [0])) as E1.
  { rewrite (load_store_sub _ _ _ _ _ _ H2) by (rewrite ?length_app; cbn; lia).
    rewrite load_Some by (rewrite ?length_app; cbn; lia). f_equal.
    rewrite drop_app_le by lia. apply take_ge.
    rewrite length_app, length_drop. cbn. lia. }
  assert (load (off + 248 + (n - 247)) (255 - n) l2 =
    Some (replicate (Z.to_nat (255 - n)) 0)) as E2.
  { rewrite (load_store_disjoint _ _ _ _ _ _ H2)
      by (right; rewrite length_app; cbn; lia).
    unfold store_le in H1.
    rewrite (load_store_sub _ _ _ _ _ _ H1) by (rewrite ?length_le_enc; lia).
    rewrite load_Some by (rewrite ?length_le_enc; lia). f_equal.
    rewrite le_enc_small by done.
    replace (Z.to_nat (n - 247)) with (S (Z.to_nat (n - 248))) by lia.
    cbn [drop]. rewrite drop_replicate, take_replicate. f_equal. lia. }
  pose proof (load_join _ _ _ _ _ _ E1 E2 ltac:(lia) ltac:(lia)) as E.
  replace (n - 247 + (255 - n)) with (Z.of_nat 8) in E by lia.
  rewrite E. cbn [fmap option_fmap option_map]. f_equal.
  rewrite !le_dec_app, le_dec_zeros. cbn [le_dec]. lia.
Qed.
