(* ===== verification/SimplefsTheorems.v ===== *)
(** * simplefs: the theorems

    The properties of the file system, each with a witness on the mounted image
    of [mkfs] ([world]). *)

From S2P Require Export SimplefsFaults.

(** ** The state the witnesses run from *)

Definition blank : bytes := replicate (Z.to_nat 20480) 0.
Definition world : fs := mounted_image 0 blank.

Lemma blank_size : 5 * 4096 <= Z.of_nat (length blank).
Proof. unfold blank. rewrite length_replicate. lia. Qed.
Lemma blank_wf : wf_bytes blank.
Proof. apply Forall_replicate. unfold is_byte. lia. Qed.
Lemma pad0 : 0 <= 0 < 2 ^ 32.
Proof. lia. Qed.
Lemma world_wf : wf_fs world.
Proof. apply mounted_image_wf; [exact pad0|exact blank_wf]. Qed.
Lemma world_super :
  sb_inodes_count (b_data world 0) = Some 3 /\
  sb_free_blocks (b_data world 0) = Some mkfs_free_blocks.
Proof. destruct (image_super 0 blank blank_size) as (_ & _ & Hc & Hf). by split. Qed.

(** A new regular file [f] in the root directory. *)
Definition f_mode : Z := Z.lor S_IFREG 0x1A4.
Lemma f_mode_ok : 0 <= f_mode < 2 ^ 16 /\ S_ISDIR f_mode || S_ISREG f_mode = true.
Proof. done. Qed.
Lemma world_create name :
  Z.of_nat (length name) < 256 ->
  create_pre world root_dir 0 (root_inode 0) [record1; record2]
    3 mkfs_free_blocks 2 0 name f_mode.
Proof.
  apply mounted_image_create; [exact pad0|exact blank_size|exact blank_wf|exact f_mode_ok].
Qed.

(** ** Creation *)

(** C5: Creation refines "append the entry and add the inode" on every well-formed
    directory with room: the new inode gets number [c + 8] and the lowest free
    block, and nothing else changes. *)
Theorem create_refines e s tr dir p d ents c fb j kp name m excl :
  quiet e -> env_wf e -> create_pre s dir p d ents c fb j kp name m ->
  exists s' tr' new,
    simplefs_create dir name m excl e s tr =
    Ok 0 s' (ev (d_add name
      (mk_vfs_inode (c + 8) (created_fop m) (Some (slab_next s)))) tt :: tr') /\
    create_post s s' p d ents c fb j kp name m new.
Proof.
  intros Hq He Hp.
  destruct (create_run e Hq He s dir p d ents c fb j kp name m Hp tr)
    as (g & dA & dB & dC & dD & dE & dF & tr1 & W & Hg & _ & Hr).
  eexists _, tr1, (created_inode c j m g). split; [exact Hr|].
  by eapply create_result_post.
Qed.

Lemma create_refines_witness :
  exists s' tr' new,
    simplefs_create root_dir (str "f") f_mode true quiet_env world [] =
    Ok 0 s' (ev (d_add (str "f")
      (mk_vfs_inode 11 (created_fop f_mode) (Some (slab_next world)))) tt :: tr') /\
    create_post world s' 0 (root_inode 0) [record1; record2] 3 mkfs_free_blocks 2 0
      (str "f") f_mode new.
Proof.
  apply (create_refines quiet_env world [] root_dir 0%nat (root_inode 0)
    [record1; record2] 3 mkfs_free_blocks 2 0 (str "f") f_mode true).
  - exact quiet_env_quiet.
  - exact quiet_env_wf.
  - apply world_create. reflexivity.
Defined.

Lemma slot_no_load l x no i :
  slot_no l x <> Some no -> load_inode x l = Some i -> inode_no i <> no.
Proof. unfold slot_no. intros H Hl E. rewrite Hl in H. by subst. Qed.

(** The new inode is the first in the store with its number. *)
Lemma created_stored s s' dir p d ents c fb j kp name m new :
  create_pre s dir p d ents c fb j kp name m ->
  create_post s s' p d ents c fb j kp name m new -> wf_fs s' ->
  (forall x, 0 <= x < c -> slot_no (b_data s 1) x <> Some (c + 8)) ->
  stored_inode s' (c + 8) = Some new.
Proof.
  intros Hpre Hpost Hwf Huniq.
  pose proof Hpre as [[Hw0 ? ? ? ? ? ?] ? ? ? ? ? [Hkp Hslot] ? ? ?].
  destruct Hpost as [(? & Hno & ? & ?) ? ? ? Hcount ? Hc Hk Hother ?].
  unfold stored_inode, SIMPLEFS_SUPERBLOCK_BLOCK_NUMBER, SIMPLEFS_INODESTORE_BLOCK_NUMBER.
  rewrite Hcount. cbn [mbind option_bind].
  rewrite (find_inode_slot _ 0 _ _ c); [done|lia|lia| |].
  - intros x Hx. destruct (decide (x = kp)) as [->|Hne].
    + rewrite Hk. eexists. split; [done|]. intros E.
      apply (Huniq kp Hx). by rewrite Hslot, <- E.
    + rewrite Hother by lia.
      destruct (load_inode_Some x (b_data s 1)) as [i Hi];
        [lia|rewrite (wf_block_length _ Hw0); lia|].
      exists i. split; [done|]. by apply (slot_no_load _ _ _ _ (Huniq x Hx)).
  - unfold slot_no. rewrite Hc. simpl. by rewrite Hno.
Qed.

Lemma dir_find_append ents name ino :
  dir_find name ents = None -> dir_find name (ents ++ [(name, ino)]) = Some ino.
Proof.
  unfold dir_find. induction ents as [|ent ents IH]; cbn [List.find app].
  - intros _. by rewrite bool_decide_true.
  - by case_bool_decide.
Qed.

(** A file just created is found under its name, as the inode just created. *)
Theorem create_then_lookup e s tr dir p d ents c fb j kp name m excl :
  quiet e -> env_wf e -> create_pre s dir p d ents c fb j kp name m ->
  name_ok name -> dir_find name ents = None ->
  (forall name' ino, (name', ino) ∈ ents -> 0 <= ino < 2 ^ 31) ->
  (forall x, 0 <= x < c -> slot_no (b_data s 1) x <> Some (c + 8)) ->
  exists s' tr' new,
    (simplefs_create dir name m excl ;; simplefs_lookup dir name) e s tr =
    Ok tt s' (ev (d_add name (mk_vfs_inode (c + 8) (fop_of_mode m) (Some (S (slab_next s))))) tt
      :: tr') /\
    slab s' !! S (slab_next s) = Some new /\ mode new = m /\ inode_no new = c + 8.
Proof.
  intros Hq He Hpre Hname Hfresh Hinos Huniq.
  destruct (create_run e Hq He s dir p d ents c fb j kp name m Hpre tr)
    as (g & dA & dB & dC & dD & dE & dF & tr1 & W & Hg & _ & Hr).
  pose proof (create_result_post s dir p d ents c fb j kp name m Hpre
    g dA dB dC dD dE dF W Hg) as Hpost.
  assert (slab_next (create_result s p d ents c j m g dA dB dC dD dE dF) = S (slab_next s))
    as Hnext by done.
  set (s1 := create_result s p d ents c j m g dA dB dC dD dE dF) in *.
  assert (wf_fs s1) as Hwf1.
  { destruct Hpre as [[Hw ? ? ? ? ? [Hm ?]] ? ? ? ? ? ? ? ? ?].
    pose proof (keeps_create_fs_object e He dir name m
      (c_string_wf _ (proj1 Hname)) Hm s tr Hw) as Hk.
    unfold wlp in Hk. rewrite Hr in Hk. apply Hk. }
  pose proof (created_stored _ _ _ _ _ _ _ _ _ _ _ _ _ Hpre Hpost Hwf1 Huniq) as Hst.
  clearbody s1. unfold simplefs_create, mbind, M_bind. rewrite Hr.
  destruct Hpre as [[? ? Hcr ? ? ? ?] Hp ? [Hb0 Hb1] ? Hch ? ? Hroom ?].
  destruct Hpost as [(Hm1 & Hn1 & _) Hdir Hpar _ Hcount _ _ _ _ _].
  match type of Hpar with _ = Some ?d' =>
    pose proof (lookup_run e s1 (ev (d_add name (mk_vfs_inode (c + 8) (created_fop m)
      (Some (slab_next s)))) tt :: tr1) dir p d' (ents ++ [(name, c + 8)]) name (c + 1)
      Hq Hwf1 Hcount ltac:(lia) Hp Hpar (Hdir Hname)) as HL end.
  rewrite dir_find_append in HL by done.
  assert (forall name' ino, (name', ino) ∈ ents ++ [(name, c + 8)] -> 0 <= ino < 2 ^ 31)
    as Hinos'.
  { intros name' ino [Hin|Hin]%elem_of_app; [by eapply Hinos|].
    apply list_elem_of_singleton in Hin as [= -> ->]. lia. }
  assert (dir_children_count (set_dir_children_count (Z.of_nat (length ents) + 1) d) =
    Z.of_nat (length (ents ++ [(name, c + 8)]))) as Hlen.
  { unfold dir_children_count. cbn. rewrite uwrap_id by int_lia.
    rewrite length_app. cbn. lia. }
  specialize (HL Hlen Hinos' (proj1 Hname)). cbv zeta in HL.
  rewrite Hst in HL. destruct HL as [tr' HL]. rewrite HL.
  exists (fresh_object (created_inode c j m g) s1), tr', (created_inode c j m g).
  unfold looked_up. rewrite Hnext. split; [done|]. cbn. rewrite Hnext.
  by rewrite lookup_insert_eq.
Qed.

Lemma world_slots x : 0 <= x < 3 -> slot_no (b_data world 1) x = Some (x + 1).
Proof.
  intros Hx. destruct (image_inodes 0 pad0 blank blank_size) as (H0 & H1 & H2).
  assert (x = 0 \/ x = 1 \/ x = 2) as [-> | [-> | ->]] by lia.
  - exact (f_equal (fmap inode_no) H0).
  - exact (f_equal (fmap inode_no) H1).
  - exact (f_equal (fmap inode_no) H2).
Qed.

Lemma world_inos name ino : (name, ino) ∈ [record1; record2] -> 0 <= ino < 2 ^ 31.
Proof.
  intros H. apply elem_of_cons in H as [E|H];
    [|apply list_elem_of_singleton in H as E]; injection E as _ ->; cbn; lia.
Qed.

Lemma create_then_lookup_witness :
  exists s' tr' new,
    (simplefs_create root_dir (str "f") f_mode true ;;
     simplefs_lookup root_dir (str "f")) quiet_env world [] =
    Ok tt s' (ev (d_add (str "f") (mk_vfs_inode 11 (fop_of_mode f_mode) (Some 2%nat)))
      tt :: tr') /\
    slab s' !! 2%nat = Some new /\ mode new = f_mode /\ inode_no new = 11.
Proof.
  apply (create_then_lookup quiet_env world [] root_dir 0%nat (root_inode 0)
    [record1; record2] 3 mkfs_free_blocks 2 0 (str "f") f_mode true).
  - exact quiet_env_quiet.
  - exact quiet_env_wf.
  - apply world_create. reflexivity.
  - by apply name_ok_bool.
  - reflexivity.
  - exact world_inos.
  - intros x Hx. rewrite world_slots by done. intros [= H]. lia.
Defined.

(** ** Lookup and iteration *)

(** C13: While no service fails, lookup binds the dentry to the inode of the first
    entry with the name, makes no [d_add] when there is none, and dereferences
    NULL when the entry's inode is not in the store. *)
Theorem lookup_spec e s tr dir p d ents name c :
  quiet e -> wf_fs s -> sb_inodes_count (b_data s 0) = Some c -> 0 <= c <= 128 ->
  i_private dir = Some p -> slab s !! p = Some d ->
  is_dir (b_data s (data_block_number d)) ents ->
  dir_children_count d = Z.of_nat (length ents) ->
  (forall name' ino, (name', ino) ∈ ents -> 0 <= ino < 2 ^ 31) -> c_string name ->
  match dir_find name ents with
  | None =>
      simplefs_lookup dir name e s tr =
      Ok tt s (ev (sb_bread (data_block_number d)) true :: tr)
  | Some ino =>
      match stored_inode s ino with
      | Some i => exists tr',
          simplefs_lookup dir name e s tr =
          Ok tt (fresh_object i s) (ev (d_add name (looked_up s ino i)) tt :: tr')
      | None => exists s' tr', simplefs_lookup dir name e s tr = Fault NullDeref s' tr'
      end
  end.
Proof. intros. by apply (lookup_run e s tr dir p d ents name c). Qed.

Lemma world_root_dir : is_dir (b_data world 2) [record1; record2].
Proof. exact (image_root_dir 0 blank blank_size). Qed.

Lemma lookup_spec_witness :
  exists tr',
    simplefs_lookup root_dir (str "Data1") quiet_env world [] =
    Ok tt (fresh_object (D1_inode 0) world)
      (ev (d_add (str "Data1") (looked_up world 2 (D1_inode 0))) tt :: tr').
Proof.
  pose proof (lookup_spec quiet_env world [] root_dir 0%nat (root_inode 0)
    [record1; record2] (str "Data1") 3 quiet_env_quiet world_wf (proj1 world_super)
    ltac:(lia) eq_refl (lookup_insert_eq _ _ _) world_root_dir eq_refl) as H.
  assert (stored_inode world 2 = Some (D1_inode 0)) as Hd
    by exact (image_stored_D1 0 pad0 blank blank_size).
  change (dir_find (str "Data1") [record1; record2]) with (Some 2) in H.
  cbv iota in H. rewrite Hd in H. apply H.
  - exact world_inos.
  - by apply name_ok_bool.
Defined.

(** Reading a directory from its start emits its entries, each once, in the
    order of creation, and leaves the position after the last record. *)
Theorem iterate_spec e s tr dir p d ents :
  quiet e -> i_private dir = Some p -> slab s !! p = Some d ->
  S_ISDIR (mode d) = true -> is_dir (b_data s (data_block_number d)) ents ->
  dir_children_count d = Z.of_nat (length ents) ->
  exists tr', simplefs_iterate dir 0 e s tr =
    Ok (0, sizeof_dir_record * Z.of_nat (length ents)) s tr' /\
    emitted tr' = emitted tr ++ ents.
Proof. apply iterate_run. Qed.

Lemma iterate_spec_witness :
  exists tr', simplefs_iterate root_dir 0 quiet_env world [] = Ok (0, 512) world tr' /\
    emitted tr' = [record1; record2].
Proof.
  apply (iterate_spec quiet_env world [] root_dir 0%nat (root_inode 0) [record1; record2]);
    [exact quiet_env_quiet|reflexivity|apply lookup_insert_eq|reflexivity
    |exact world_root_dir|reflexivity].
Defined.

(** ** Safety of every operation *)

(** C9: Whatever the kernel answers, every operation keeps the memory invariant:
    the buffers stay 4096 bytes long and the slab objects in range. *)
Theorem reachable_wf s s' : rtc fs_step s s' -> wf_fs s -> wf_fs s'.
Proof. induction 1; [done|]. intros. eauto using fs_step_wf. Qed.

Lemma reachable_wf_witness : wf_fs (fresh_object (D1_inode 0) world).
Proof.
  apply (reachable_wf world); [|exact world_wf].
  destruct lookup_spec_witness as [tr' H].
  eapply rtc_once, (fs_step_op quiet_env (op_lookup root_dir (str "Data1")) _ _ []);
    [exact quiet_env_wf|exact I|exact H].
Defined.

(** C16: Every operation that no signal interrupts takes the mutexes in the order
    directory, inode management, super block, and returns with none held. *)
Theorem vfs_ops_balance_locks e op s tr :
  uninterrupted e -> lock_stack tr = Some [] ->
  wlp (run_op op) e (fun _ _ tr' => lock_stack tr' = Some []) s tr.
Proof. intros Hu. by apply locks_run_op. Qed.

Lemma vfs_ops_balance_locks_witness :
  wlp (run_op (op_create root_dir (str "f") f_mode true)) quiet_env
    (fun _ _ tr' => lock_stack tr' = Some []) world [].
Proof. by apply vfs_ops_balance_locks. Defined.

(** ** Block allocation and inode search *)

(** The allocator returns the lowest free block from 2 up, clears its bit and
    no other byte of memory, under the super-block mutex. *)
Theorem allocator_takes_lowest e s tr fb j :
  quiet e -> wf_fs s -> sb_free_blocks (b_data s 0) = Some fb ->
  2 <= j < 31 -> (forall k, 2 <= k < j -> Z.testbit fb k = false) ->
  Z.testbit fb j = true ->
  exists s' tr',
    simplefs_sb_get_a_freeblock e s tr = Ok (0, Some j) s' (tr' ++ tr) /\
    with_free_blocks (Z.clearbit fb j) s s' /\
    sb_free_blocks (b_data s' 0) = Some (Z.clearbit fb j) /\
    calls tr' = allocator_calls (b_data s' 0).
Proof.
  intros Hq Hs Hfb Hj Hlow Hset.
  destruct (get_a_freeblock_takes e s tr fb j) as (s' & tr' & Hr & Hw & Hc & _); [done..|].
  exists s', tr'. split_and!; [done|done| |done].
  apply (with_free_blocks_read _ s); [|done].
  by eapply clearbit_range, sb_free_blocks_range.
Qed.

Lemma allocator_takes_lowest_witness :
  exists s' tr',
    simplefs_sb_get_a_freeblock quiet_env world [] = Ok (0, Some 2) s' (tr' ++ []) /\
    with_free_blocks (Z.clearbit mkfs_free_blocks 2) world s' /\
    sb_free_blocks (b_data s' 0) = Some (Z.clearbit mkfs_free_blocks 2) /\
    calls tr' = allocator_calls (b_data s' 0).
Proof.
  apply (allocator_takes_lowest quiet_env world [] mkfs_free_blocks 2);
    [exact quiet_env_quiet|exact world_wf|exact (proj2 world_super)|lia|lia|reflexivity].
Defined.

(** A bitmap word in the super block. *)
Lemma with_free_blocks_exists fb s :
  wf_fs s -> exists s', with_free_blocks fb s s' /\ wf_fs s'.
Proof.
  intros Hs. destruct (set_free_blocks_Some fb s Hs) as [d Hd].
  exists (set_b_data 0 d s). split; [by exists d|]. apply wf_set_b_data; [done| |].
  - rewrite (store_length _ _ _ _ Hd). apply (wf_block_length _ Hs).
  - eapply store_wf; [apply (wf_block_bytes _ Hs)|apply le_enc_wf|exact Hd].
Qed.

(** C37: With blocks 2 to 30 taken, the allocator never answers [-ENOSPC]: it hands
    out block 31 and marks every block from 31 up as taken (the mask is
    sign-extended), and with those taken too it shifts by 32. *)
Theorem allocator_exhausted e s tr fb :
  quiet e -> wf_fs s -> sb_free_blocks (b_data s 0) = Some fb ->
  (forall k, 2 <= k < 31 -> Z.testbit fb k = false) ->
  if fb <? 2 ^ 31 then
    exists tr', simplefs_sb_get_a_freeblock e s tr = Fault UndefinedShift s tr'
  else
    exists s' tr',
      simplefs_sb_get_a_freeblock e s tr = Ok (0, Some 31) s' tr' /\
      with_free_blocks (fb mod 2 ^ 31) s s'.
Proof.
  intros Hq Hs Hfb Hlow. pose proof (sb_free_blocks_range _ _ Hs Hfb) as Hr.
  pose proof (freeblock_loop_high fb Hr Hlow) as Hloop.
  destruct (fb <? 2 ^ 31) eqn:E.
  - unfold simplefs_sb_get_a_freeblock, SIMPLEFS_SB, buf_read, call, get, mbind, M_bind.
    rewrite (quiet_lock e Hq). cbn [negb Z.eqb].
    unfold SIMPLEFS_SUPERBLOCK_BLOCK_NUMBER. rewrite Hfb. cbn [or_fault mret M_ret].
    change (Z.to_nat (SIMPLEFS_MAX_FILESYSTEM_OBJECTS_SUPPORTED - 2)) with 62%nat.
    rewrite Hloop. by eexists.
  - destruct (get_a_freeblock_run e Hq s Hs fb 31 (- 2 ^ 31) tr) as (s' & tr' & H & Hw & _);
      [done|done|lia|exact shl1_31|].
    rewrite land_lnot_mask31 in Hw by done. by exists s', (tr' ++ tr).
Qed.

Lemma allocator_exhausted_witness :
  exists s, wf_fs s /\ exists s' tr',
    simplefs_sb_get_a_freeblock quiet_env s [] = Ok (0, Some 31) s' tr' /\
    with_free_blocks (2 ^ 40 mod 2 ^ 31) s s'.
Proof.
  destruct (with_free_blocks_exists (2 ^ 40) world world_wf) as (s & Hw & Hs).
  exists s. split; [exact Hs|].
  apply (allocator_exhausted quiet_env s [] (2 ^ 40)); [exact quiet_env_quiet|exact Hs| |].
  - eapply with_free_blocks_read; [|exact Hw]. lia.
  - intros k Hk. rewrite Z.pow2_bits_eqb by lia. apply Z.eqb_neq. lia.
Defined.

(** The search over the inode store returns the first slot with the number,
    but looks at one slot more than there are inodes: slot [count], past the
    last one, can be returned too. *)
Theorem inode_search_spec count l no :
  0 <= count -> 32 * (count + 1) <= Z.of_nat (length l) ->
  match simplefs_inode_search count l no with
  | None => False
  | Some (Some k) =>
      0 <= k <= count /\ slot_no l k = Some no /\
      forall j, 0 <= j < k -> slot_no l j <> Some no
  | Some None => forall j, 0 <= j <= count -> slot_no l j <> Some no
  end.
Proof. apply inode_search_cases. Qed.

Lemma inode_search_spec_witness :
  match simplefs_inode_search 1 (encode_inode (mk_inode 0 0 1 0 0) ++
          encode_inode (mk_inode 0 0 7 0 0)) 7 with
  | Some (Some k) => k = 1
  | _ => False
  end.
Proof.
  pose proof (inode_search_spec 1 (encode_inode (mk_inode 0 0 1 0 0) ++
    encode_inode (mk_inode 0 0 7 0 0)) 7 ltac:(lia) ltac:(cbn; lia)) as H.
  destruct (simplefs_inode_search _ _ _) as [[k|]|].
  - destruct H as (Hk & Hs & _). destruct (decide (k = 0)) as [->|]; [|lia].
    vm_compute in Hs. discriminate Hs.
  - apply (H 1); [lia|]. vm_compute. reflexivity.
  - exact H.
Defined.

(** ** On-disk formats *)

(** The 32-byte format of an inode is lossless in both directions. *)
Theorem inode_codec_roundtrip i l :
  wf_inode i -> wf_bytes l -> length l = 32%nat ->
  decode_inode (encode_inode i) = i /\ encode_inode (decode_inode l) = l.
Proof. split; [by apply decode_encode_inode|by apply encode_decode_inode]. Qed.

Lemma inode_codec_roundtrip_witness :
  decode_inode (encode_inode (root_inode 0)) = root_inode 0 /\
  encode_inode (decode_inode (replicate 32 255)) = replicate 32 255.
Proof.
  apply inode_codec_roundtrip; [apply (mkfs_inodes_wf 0 pad0)| |reflexivity].
  apply reflect_wf_bytes. reflexivity.
Defined.

(** On the image of [mkfs] the module reads the super block, the three inodes,
    the root directory with its two entries and both files as [mkfs] wrote them. *)
Theorem mkfs_image_reads_back padding fd :
  0 <= padding < 2 ^ 32 -> 5 * 4096 <= Z.of_nat (length fd) ->
  let s := image_fs (mkfs padding fd) in
  (sb_magic (b_data s 0) = Some SIMPLEFS_MAGIC /\
   sb_block_size (b_data s 0) = Some SIMPLEFS_DEFAULT_BLOCK_SIZE /\
   sb_inodes_count (b_data s 0) = Some 3 /\
   sb_free_blocks (b_data s 0) = Some mkfs_free_blocks) /\
  (load_inode 0 (b_data s 1) = Some (root_inode padding) /\
   load_inode 1 (b_data s 1) = Some (D1_inode padding) /\
   load_inode 2 (b_data s 1) = Some (D2_inode padding)) /\
  is_dir (b_data s 2) [(str "Data1", 2); (str "Data2", 3)] /\
  file_content (D1_inode padding) (b_data s 3) = D1_text ++ [0] /\
  file_content (D2_inode padding) (b_data s 4) = D2_text ++ [0].
Proof.
  intros Hp Hfd s. destruct (image_files padding fd Hfd) as [F1 F2].
  split; [exact (image_super padding fd Hfd)|].
  split; [exact (image_inodes padding Hp fd Hfd)|].
  split; [exact (image_root_dir padding fd Hfd)|].
  split; [exact (load_take 13 _ _ F1)|exact (load_take 13 _ _ F2)].
Qed.

Lemma mkfs_image_reads_back_witness :
  is_dir (b_data (image_fs (mkfs 0 blank)) 2) [(str "Data1", 2); (str "Data2", 3)].
Proof. apply (mkfs_image_reads_back 0 blank pad0 blank_size). Defined.

(** ** File contents *)

(** C6: Writing at a position inside a file and reading it back from the start
    gives the old bytes up to the position followed by the written ones: the
    end of a write becomes the end of the file. *)
Theorem write_then_read e s tr f p i count kp buf ppos len :
  quiet e -> env_wf e -> wf_fs s -> i_private f = Some p -> slab s !! p = Some i ->
  sb_inodes_count (b_data s 0) = Some count -> 0 <= count < 128 ->
  0 <= kp < count /\ slot_no (b_data s 1) kp = Some (inode_no i) ->
  (forall x, 0 <= x < kp -> slot_no (b_data s 1) x <> Some (inode_no i)) ->
  data_block_number i <> 0 -> data_block_number i <> 1 -> wf_bytes buf ->
  0 <= ppos <= file_size i -> file_size i <= 4096 ->
  0 < ppos + Z.of_nat (length buf) <= 4096 -> ppos + Z.of_nat (length buf) <= len ->
  let content := content_write ppos buf
    (file_content i (b_data s (data_block_number i))) in
  exists s' tr',
    (simplefs_write f buf ppos ;; simplefs_read f len 0) e s tr =
    Ok (Z.of_nat (length content), Z.of_nat (length content)) s'
      (ev (brelse (data_block_number i)) tt :: ev (copy_to_user content) 0 :: tr').
Proof.
  intros Hq He Hs Hf Hi Hcount Hc Hkp Hfirst Hb0 Hb1 Hbuf Hpos Hsz Hend Hlen content.
  destruct (write_run e Hq s Hs f p i Hf Hi count kp Hcount Hc Hkp Hfirst Hb0 Hb1 buf
    ppos tr ltac:(lia) ltac:(lia)) as (dB & dI & tr1 & HB & HI & _ & Hr).
  pose proof (keeps_fs_write e He f buf ppos Hbuf s tr Hs) as Hk.
  unfold wlp in Hk. rewrite Hr in Hk. destruct Hk as [Hs1 _].
  unfold mbind, M_bind. rewrite Hr.
  set (pos := ppos + Z.of_nat (length buf)) in *.
  set (s1 := set_b_data 1 dI (set_slab p (sized i pos)
    (set_b_data (data_block_number i) dB s))) in *.
  assert (slab s1 !! p = Some (sized i pos)) as Hi1 by apply lookup_insert_eq.
  assert (file_size (sized i pos) = pos) as Hfs by (apply uwrap_id; int_lia).
  assert (b_data s1 (data_block_number (sized i pos)) = dB) as Hd by (subst s1; by bd).
  rewrite (read_run e Hq s1 Hs1 f p (sized i pos) Hf Hi1) by lia.
  rewrite Hfs, (proj2 (Z.leb_gt pos 0)) by lia.
  rewrite Z.min_l by lia.
  assert (read_bytes s1 (sized i pos) len = content) as ->.
  { unfold read_bytes. rewrite Hfs, Z.min_l, Hd, <- Hfs by lia.
    exact (file_content_store i (sized i pos) ppos buf _ dB Hpos HB Hfs). }
  assert (Z.of_nat (length content) = pos) as ->.
  { unfold content, content_write, file_content.
    rewrite length_app, length_take, length_take, (wf_block_length _ Hs). lia. }
  eexists _, _. reflexivity.
Qed.

(** The file Data1 of the image, opened. *)
Definition data1 : inode :=
  mk_vfs_inode 2 (Some simplefs_file_operations) (Some 1%nat).
Definition world1 : fs := fresh_object (D1_inode 0) world.
Lemma world1_block n : b_data world1 n = b_data world n.
Proof. unfold world1, fresh_object. cbn [b_data]. reflexivity. Qed.
Lemma D1_inode_wf : wf_inode (D1_inode 0).
Proof. destruct (mkfs_inodes_wf 0 pad0) as (_ & H & _). exact H. Qed.
Lemma world1_wf : wf_fs world1.
Proof. exact (wf_fresh_object _ _ world_wf D1_inode_wf). Qed.
Lemma world1_slot_first x :
  0 <= x < 1 -> slot_no (b_data world1 1) x <> Some (inode_no (D1_inode 0)).
Proof.
  intros Hx. rewrite world1_block, world_slots by lia. intros [= E]. lia.
Qed.
Lemma D1_size : file_size (D1_inode 0) = 13.
Proof. reflexivity. Qed.

Lemma world_data1 :
  file_content (D1_inode 0) (b_data world (data_block_number (D1_inode 0))) =
  D1_text ++ [0].
Proof.
  destruct (image_files 0 blank blank_size) as [F _].
  exact (load_take 13 _ _ F).
Qed.

Lemma write_then_read_witness :
  exists s' tr',
    (simplefs_write data1 (str "HELLO") 2 ;; simplefs_read data1 100 0)
      quiet_env world1 [] =
    Ok (7, 7) s' (ev (brelse 3) tt :: ev (copy_to_user (str "I HELLO")) 0 :: tr').
Proof.
  assert (content_write 2 (str "HELLO") (file_content (D1_inode 0) (b_data world1
    (data_block_number (D1_inode 0)))) = str "I HELLO") as E.
  { rewrite world1_block, world_data1. reflexivity. }
  rewrite <- E.
  apply (write_then_read quiet_env world1 [] data1 1%nat (D1_inode 0) 3 1
    (str "HELLO") 2 100).
  - exact quiet_env_quiet.
  - exact quiet_env_wf.
  - exact world1_wf.
  - reflexivity.
  - apply lookup_insert_eq.
  - rewrite world1_block. exact (proj1 world_super).
  - lia.
  - rewrite world1_block. split; [lia|]. exact (world_slots 1 ltac:(lia)).
  - exact world1_slot_first.
  - discriminate.
  - discriminate.
  - apply reflect_wf_bytes. reflexivity.
  - rewrite D1_size. lia.
  - rewrite D1_size. lia.
  - cbn; lia.
  - cbn; lia.
Defined.

(** ** Where the checks of the source do not protect it *)

(** C38: [mkfs] marks the root directory's block free, so the first file created in
    the root of a fresh image gets that block as its data block: file and
    directory share it. *)
Theorem first_file_overlaps_root e tr padding fd name m excl :
  quiet e -> env_wf e -> 0 <= padding < 2 ^ 32 ->
  5 * 4096 <= Z.of_nat (length fd) -> wf_bytes fd ->
  0 <= m < 2 ^ 16 /\ S_ISDIR m || S_ISREG m = true -> name_ok name ->
  let s0 := image_fs (mkfs padding fd) in
  exists s s' tr1 tr2 new,
    simplefs_fill_super e s0 tr = Ok 0 s tr1 /\
    simplefs_create root_dir name m excl e s tr1 = Ok 0 s' tr2 /\
    slab s' !! slab_next s = Some new /\
    data_block_number new = data_block_number (root_inode padding) /\
    is_dir (b_data s' (data_block_number new))
      [(str "Data1", 2); (str "Data2", 3); (name, 11)].
Proof.
  intros Hq He Hp Hfd Hw Hm Hname s0.
  destruct (image_super padding fd Hfd) as (_ & _ & Hc & _).
  destruct (fill_super_run e s0 tr 3 (root_inode padding) Hq
    (image_wf padding fd Hw) Hc ltac:(lia)
    (image_stored_root padding Hp fd Hfd)) as [tr1 H1].
  assert (Z.of_nat (length name) < 256) as Hlen.
  { destruct Hname as [_ Hl]. unfold SIMPLEFS_FILENAME_MAXLEN in Hl. lia. }
  pose proof (mounted_image_create padding Hp fd Hfd Hw name m Hm Hlen) as Hpre.
  destruct (create_run e Hq He _ _ _ _ _ _ _ _ _ _ _ Hpre tr1)
    as (g & dA & dB & dC & dD & dE & dF & tr2 & W & Hg & _ & Hr).
  pose proof (create_result_post _ _ _ _ _ _ _ _ _ _ _ Hpre _ _ _ _ _ _ _ W Hg)
    as [(_ & _ & Hblk & _) Hdir _ Hnew _ _ _ _ _ _].
  eexists _, _, tr1, _, _. split; [exact H1|]. split; [exact Hr|].
  split; [exact Hnew|]. split; [exact Hblk|]. rewrite Hblk. exact (Hdir Hname).
Qed.

Lemma first_file_overlaps_root_witness :
  exists s s' tr1 tr2 new,
    simplefs_fill_super quiet_env (image_fs (mkfs 0 blank)) [] = Ok 0 s tr1 /\
    simplefs_create root_dir (str "f") f_mode true quiet_env s tr1 = Ok 0 s' tr2 /\
    slab s' !! slab_next s = Some new /\
    data_block_number new = 2 /\
    is_dir (b_data s' (data_block_number new))
      [(str "Data1", 2); (str "Data2", 3); (str "f", 11)].
Proof.
  apply (first_file_overlaps_root quiet_env [] 0 blank (str "f") f_mode true
    quiet_env_quiet quiet_env_wf pad0 blank_size blank_wf f_mode_ok).
  by apply name_ok_bool.
Defined.

(** The directory block has room for 16 records and creation does not check:
    the 17th entry is written outside the block, after the new inode was added
    to the store. *)
Theorem seventeenth_entry_overflows e s tr dir p d name m excl c fb j :
  quiet e -> env_wf e -> alloc_pre s c fb j m ->
  i_private dir = Some p -> slab s !! p = Some d ->
  data_block_number d <> 0 -> data_block_number d <> 1 ->
  16 <= dir_children_count d ->
  exists s' tr',
    simplefs_create dir name m excl e s tr = Fault OutOfBounds s' tr' /\
    sb_inodes_count (b_data s' 0) = Some (c + 1).
Proof. intros. by eapply create_full_dir. Qed.

(** The root directory of [world] with the count of a full directory. *)
Definition full_root : simplefs_inode := set_dir_children_count 16 (root_inode 0).
Definition full_world : fs := set_slab 0 full_root world.

Lemma full_world_alloc : alloc_pre full_world 3 mkfs_free_blocks 2 f_mode.
Proof.
  split.
  - apply wf_set_slab; [exact world_wf| |eexists; apply lookup_insert_eq].
    apply set_file_size_wf. destruct (mkfs_inodes_wf 0 pad0) as (H & _). exact H.
  - exact (proj1 world_super).
  - lia.
  - exact (proj2 world_super).
  - split; [lia|reflexivity].
  - lia.
  - exact f_mode_ok.
Qed.

Lemma seventeenth_entry_overflows_witness :
  exists s' tr',
    simplefs_create root_dir (str "f") f_mode true quiet_env full_world [] =
    Fault OutOfBounds s' tr' /\ sb_inodes_count (b_data s' 0) = Some 4.
Proof.
  apply (seventeenth_entry_overflows quiet_env full_world [] root_dir 0%nat full_root
    (str "f") f_mode true 3 mkfs_free_blocks 2 quiet_env_quiet quiet_env_wf
    full_world_alloc).
  - reflexivity.
  - apply lookup_insert_eq.
  - discriminate.
  - discriminate.
  - apply Z.leb_le. reflexivity.
Defined.

(** A name of 248 to 255 characters (Linux allows 255) overruns the [filename]
    field: the entry's inode number becomes the end of the name, read as a
    little-endian number. *)
Theorem long_name_corrupts_inode_no e s tr dir p d ents c fb j kp name m excl :
  quiet e -> env_wf e -> create_pre s dir p d ents c fb j kp name m ->
  248 <= Z.of_nat (length name) ->
  exists s' tr',
    simplefs_create dir name m excl e s tr = Ok 0 s' tr' /\
    record_inode_no (Z.of_nat (length ents)) (b_data s' (data_block_number d)) =
    Some (le_dec (drop 248 name)).
Proof.
  intros Hq He Hpre Hlong.
  destruct (create_run e Hq He s dir p d ents c fb j kp name m Hpre tr)
    as (g & dA & dB & dC & dD & dE & dF & tr1 & [_ _ _ WD WE _] & Hg & _ & Hr).
  eexists _, _. split; [exact Hr|].
  destruct Hpre as [[? ? Hc ? ? ? ?] ? ? [Hb0 Hb1] ? ? ? ? ? Hn].
  unfold create_result, pre_link_state. bd.
  apply (long_name_inode_no (b_data s (data_block_number d)) dD dE _ name (c + 8));
    [lia|lia|lia|exact WD|exact WE].
Qed.

Definition long_name : bytes := replicate 248 97.

Lemma long_name_corrupts_inode_no_witness :
  exists s' tr',
    simplefs_create root_dir long_name f_mode true quiet_env world [] = Ok 0 s' tr' /\
    record_inode_no 2 (b_data s' (data_block_number (root_inode 0))) = Some 0.
Proof.
  apply (long_name_corrupts_inode_no quiet_env world [] root_dir 0%nat (root_inode 0)
    [record1; record2] 3 mkfs_free_blocks 2 0 long_name f_mode true
    quiet_env_quiet quiet_env_wf).
  - apply world_create. reflexivity.
  - discriminate.
Defined.

(** C39: A signal while [simplefs_inode_add] waits for the super-block mutex makes
    it return, without a word to its caller, with the inode-management mutex
    still held; one while the allocator waits makes it release a mutex it does
    not hold. *)
Theorem interrupted_waits_break_locking (e : env kcall) s tr p L :
  lock_stack tr = Some L -> simplefs_sb_lock ∉ L ->
  may_take simplefs_inodes_mgmt_lock L = true ->
  (forall tr', e tr' (mutex_lock_interruptible simplefs_inodes_mgmt_lock) = 0) ->
  (forall tr', e tr' (sb_bread SIMPLEFS_INODESTORE_BLOCK_NUMBER) = true) ->
  (forall tr', e tr' (mutex_lock_interruptible simplefs_sb_lock) <> 0) ->
  (exists tr', simplefs_inode_add p e s tr = Ok tt s tr' /\
     lock_stack tr' = Some (simplefs_inodes_mgmt_lock :: L)) /\
  (exists tr', simplefs_sb_get_a_freeblock e s tr = Ok (- EINTR, None) s tr' /\
     lock_stack tr' = None).
Proof.
  intros Htr HL Hm H1 Hb H2. split; [by apply inode_add_interrupted|].
  destruct (get_a_freeblock_interrupted e s tr L) as (tr' & ? & _ & ?); [done..|].
  by exists tr'.
Qed.

Definition sb_interrupted_env : env kcall := fun tr c =>
  match c as c0 return resp c0 -> resp c0 with
  | mutex_lock_interruptible l => fun r =>
      if decide (l = simplefs_sb_lock) then - EINTR else r
  | _ => fun r => r
  end (quiet_env tr c).

Lemma interrupted_waits_break_locking_witness :
  (exists tr', simplefs_inode_add (Some 0%nat) sb_interrupted_env world [] =
     Ok tt world tr' /\ lock_stack tr' = Some [simplefs_inodes_mgmt_lock]) /\
  (exists tr', simplefs_sb_get_a_freeblock sb_interrupted_env world [] =
     Ok (- EINTR, None) world tr' /\ lock_stack tr' = None).
Proof.
  apply (interrupted_waits_break_locking sb_interrupted_env world [] (Some 0%nat) []).
  - reflexivity.
  - apply not_elem_of_nil.
  - reflexivity.
  - reflexivity.
  - reflexivity.
  - discriminate.
Defined.
