(* ===== verification/SimplefsErrors.v ===== *)
(** * simplefs: every way an operation can end

    The operations in an arbitrary environment: any service may fail at any
    point.  [ends m s P F] says that, whatever the kernel answers and whatever
    happened before, [m] from [s] returns as [P] says or stops as [F] says.  The
    outcomes of reading, writing and creating are enumerated as inductive types
    with one constructor per path of the code, which say what each failure
    leaves behind. *)

From S2P Require Export SimplefsTheorems.

Definition ends {A} (m : K A) (s : fs) (P : A -> fs -> Prop) (F : fault -> fs -> Prop)
    : Prop :=
  forall e tr,
  match m e s tr with Ok a s' _ => P a s' | Fault x s' _ => F x s' end.

Section ends_rules.
Context (F : fault -> fs -> Prop).

Lemma ends_ret {A} (a : A) s (P : A -> fs -> Prop) : P a s -> ends (mret a) s P F.
Proof. by intros HP e tr. Qed.
Lemma ends_fail {A} x s (P : A -> fs -> Prop) : F x s -> ends (fail x) s P F.
Proof. by intros HF e tr. Qed.
Lemma ends_bind {A B} (m : K A) (f : A -> K B) s P :
  ends m s (fun a s' => ends (f a) s' P F) F -> ends (m ≫= f) s P F.
Proof.
  intros H e tr. specialize (H e tr). unfold mbind, M_bind.
  destruct (m e s tr); [apply H|exact H].
Qed.
Lemma ends_call c s (P : resp c -> fs -> Prop) : (forall r, P r s) -> ends (call c) s P F.
Proof. intros H e tr. apply H. Qed.
Lemma ends_buf_read {A} n (f : bytes -> option A) a s (P : A -> fs -> Prop) :
  f (b_data s n) = Some a -> P a s -> ends (buf_read n f) s P F.
Proof.
  intros Hf HP e tr. unfold buf_read, get, mbind, M_bind. by rewrite Hf.
Qed.
Lemma ends_buf_write n f d s (P : unit -> fs -> Prop) :
  f (b_data s n) = Some d -> P tt (set_b_data n d s) -> ends (buf_write n f) s P F.
Proof.
  intros Hf HP e tr. unfold buf_write, get, modify, mbind, M_bind. by rewrite Hf.
Qed.
Lemma ends_deref p i s (P : simplefs_inode -> fs -> Prop) :
  slab s !! p = Some i -> P i s -> ends (deref (Some p)) s P F.
Proof.
  intros Hp HP e tr. unfold deref, get, mbind, M_bind. cbn. by rewrite Hp.
Qed.
Lemma ends_assign p f i s (P : unit -> fs -> Prop) :
  slab s !! p = Some i -> P tt (set_slab p (f i) s) -> ends (assign (Some p) f) s P F.
Proof.
  intros Hp HP. unfold assign. apply ends_bind. eapply ends_deref; [exact Hp|].
  by intros e tr.
Qed.
Lemma ends_sync_buffer n s (P : unit -> fs -> Prop) :
  P tt s -> ends (sync_buffer n) s P F.
Proof.
  intros HP e tr. unfold sync_buffer, get, call, mbind, M_bind. by destruct (e _ _).
Qed.
Lemma ends_BUG_ON b s (P : unit -> fs -> Prop) :
  (b = true -> F BugOn s) -> (b = false -> P tt s) -> ends (BUG_ON b) s P F.
Proof. intros H1 H2 e tr. destruct b; [by apply H1|by apply H2]. Qed.
Lemma ends_mono {A} (m : K A) s (P Q : A -> fs -> Prop) :
  ends m s P F -> (forall a s', P a s' -> Q a s') -> ends m s Q F.
Proof.
  intros H HPQ e tr. specialize (H e tr). destruct (m e s tr); [by apply HPQ|exact H].
Qed.
End ends_rules.

(** One step of a program in every environment; a wait that may be interrupted
    leaves two goals, the first for the signal. *)
Ltac ends_step :=
  lazymatch goal with
  | |- ends (mbind _ _) _ _ _ => apply ends_bind
  | |- ends (mret _) _ _ _ => apply ends_ret
  | |- ends (fail _) _ _ _ => apply ends_fail
  | |- ends (call ?c) ?s ?P ?F => refine (ends_call F c s P _); intros ?
  | |- ends (sync_buffer _) _ _ _ => apply ends_sync_buffer
  | |- ends (BUG_ON _) _ _ _ => apply ends_BUG_ON; intros ?
  | |- ends (if ?b then _ else _) _ _ _ => destruct b eqn:?
  end; cbn beta.
Ltac ends_go := cbv beta iota; repeat ends_step.

(** ** Parts *)

(** Storing an inode that is in slot [k]: saved, or interrupted, or stopped for
    want of the inode store's block. *)
Lemma ends_inode_save p i c k dI s (P : Z -> fs -> Prop) (F : fault -> fs -> Prop) :
  slab s !! p = Some i -> sb_inodes_count (b_data s 0) = Some c ->
  simplefs_inode_search c (b_data s 1) (inode_no i) = Some (Some k) ->
  store_inode k i (b_data s 1) = Some dI ->
  F BugOn s -> P (- EINTR) s -> P 0 (set_b_data 1 dI s) ->
  ends (simplefs_inode_save (Some p)) s P F.
Proof.
  intros Hp Hc Hk HI HB HS HP. unfold simplefs_inode_save. ends_go; [done|done|].
  eapply ends_deref; [exact Hp|]. ends_go. unfold SIMPLEFS_SB.
  eapply ends_buf_read; [exact Hc|]. ends_go.
  eapply ends_buf_read; [exact Hk|]. ends_go.
  eapply ends_buf_write; [exact HI|]. by ends_go.
Qed.

Lemma ends_sb_sync s (P : unit -> fs -> Prop) (F : fault -> fs -> Prop) :
  F BugOn s -> P tt s -> ends simplefs_sb_sync s P F.
Proof. intros HF HP. unfold simplefs_sb_sync. ends_go; [done|].
  match goal with |- P ?u _ => by destruct u end.
Qed.

(** ** Reading and writing *)

Section file_ends.
Context (s : fs) (Hs : wf_fs s) (f : inode) (p : nat) (i : simplefs_inode).
Context (Hf : i_private f = Some p) (Hi : slab s !! p = Some i).

Let blk := data_block_number i.

(** A read: nothing (past the end, or the block cannot be read), nothing but an
    error (the caller's buffer is bad), or the requested bytes. *)
Inductive read_end (len ppos : Z) : Z * Z -> fs -> Prop :=
  | R_nothing : read_end len ppos (0, ppos) s
  | R_bad_buffer : read_end len ppos (- EFAULT, ppos) s
  | R_read : ppos < file_size i ->
      read_end len ppos (Z.min (file_size i) len, ppos + Z.min (file_size i) len) s.

Lemma read_ends_lemma len ppos :
  0 <= len -> 0 <= ppos < 2 ^ 31 -> file_size i <= 4096 ->
  ends (simplefs_read f len ppos) s (read_end len ppos) (fun _ _ => False).
Proof using Hs Hf Hi.
  intros Hlen Hpos Hsz. destruct (wf_slab _ Hs _ _ Hi) as (_ & _ & _ & _ & Hsr).
  fold (file_size i) in Hsr. unfold simplefs_read, SIMPLEFS_INODE. rewrite Hf.
  ends_go. eapply ends_deref; [exact Hi|]. rewrite uwrap_id by int_lia.
  ends_go; [constructor|constructor|]. bool_hyps.
  rewrite swrap_id by int_lia. rewrite uwrap_id by int_lia.
  eapply ends_buf_read; [apply load_Some; rewrite ?(wf_block_length _ Hs); lia|].
  ends_go; [constructor|]. rewrite swrap_id by int_lia. by constructor.
Qed.

(** A write of [buf] at [ppos], which ends at [pos].  A bad user buffer leaves
    what could be copied, and zeros, in the block; a signal before the size is
    updated leaves the new bytes with the old size; one before the inode is
    saved leaves the new size in core only; without the inode store's block the
    code stops at BUG_ON. *)
Inductive write_end (kp : Z) (buf : bytes) (ppos : Z) : Z * Z -> fs -> Prop :=
  | W_unreadable : write_end kp buf ppos (0, ppos) s
  | W_bad_buffer r d : r <> 0 -> store ppos (user_copy buf r) (b_data s blk) = Some d ->
      write_end kp buf ppos (- EFAULT, ppos) (set_b_data blk d s)
  | W_signal d : store ppos buf (b_data s blk) = Some d ->
      write_end kp buf ppos (- EINTR, ppos + Z.of_nat (length buf)) (set_b_data blk d s)
  | W_unsaved d : store ppos buf (b_data s blk) = Some d ->
      write_end kp buf ppos (- EINTR, ppos + Z.of_nat (length buf))
        (set_slab p (sized i (ppos + Z.of_nat (length buf))) (set_b_data blk d s))
  | W_written d dI : store ppos buf (b_data s blk) = Some d ->
      store_inode kp (sized i (ppos + Z.of_nat (length buf))) (b_data s 1) = Some dI ->
      write_end kp buf ppos (Z.of_nat (length buf), ppos + Z.of_nat (length buf))
        (set_b_data 1 dI
          (set_slab p (sized i (ppos + Z.of_nat (length buf))) (set_b_data blk d s))).

Definition write_stop (buf : bytes) (ppos : Z) (x : fault) (s' : fs) : Prop :=
  x = BugOn /\ exists d, store ppos buf (b_data s blk) = Some d /\
  s' = set_slab p (sized i (ppos + Z.of_nat (length buf))) (set_b_data blk d s).

Lemma write_ends_lemma count kp buf ppos :
  sb_inodes_count (b_data s 0) = Some count -> 0 <= count < 128 ->
  0 <= kp < count /\ slot_no (b_data s 1) kp = Some (inode_no i) ->
  (forall x, 0 <= x < kp -> slot_no (b_data s 1) x <> Some (inode_no i)) ->
  blk <> 0 -> blk <> 1 ->
  0 <= ppos -> ppos + Z.of_nat (length buf) <= 4096 ->
  ends (simplefs_write f buf ppos) s (write_end kp buf ppos) (write_stop buf ppos).
Proof using Hs Hf Hi.
  intros Hcount Hc [Hkr Hkn] Hfirst Hb0 Hb1 Hpos Hfit.
  pose proof (wf_block_length _ Hs) as Hl.
  set (pos := ppos + Z.of_nat (length buf)) in *.
  destruct (store_inode_Some kp (sized i pos) (b_data s 1)) as [dI HI];
    [lia|rewrite Hl; lia|].
  unfold simplefs_write, SIMPLEFS_INODE. rewrite Hf. ends_go.
  eapply ends_deref; [exact Hi|]. fold blk. ends_go; [constructor|].
  match goal with |- context [user_copy buf ?r] =>
    assert (is_Some (store ppos (user_copy buf r) (b_data s blk))) as [d Hd]
      by (rewrite store_Some; [by eexists|lia|rewrite length_user_copy, Hl; lia]);
    destruct (Z.eqb_spec r 0) as [->|Hr] end.
  - rewrite user_copy_all in Hd |- *. eapply ends_buf_write; [exact Hd|].
    assert (s64 pos = pos) as E64 by (apply swrap_id; int_lia).
    fold pos. rewrite E64. cbn [negb].
    ends_go; [by constructor|].
    eapply ends_assign; [bd; exact Hi|]. fold (sized i pos). ends_go.
    eapply ends_inode_save; [bd; apply lookup_insert_eq|bd; exact Hcount| | | | |].
    + bd. apply (inode_search_first count _ _ kp); [lia|rewrite Hl; lia|exact Hkn|exact Hfirst].
    + bd. exact HI.
    + split; [done|]. by exists d.
    + ends_go. by constructor.
    + ends_go. by constructor.
  - eapply ends_buf_write; [exact Hd|]. cbn [negb]. ends_go. by eapply W_bad_buffer.
Qed.
End file_ends.

(** ** Creation *)

Section parts.
Context (F : fault -> fs -> Prop).

Lemma ends_get_objects_count c s (P : Z * option Z -> fs -> Prop) :
  sb_inodes_count (b_data s 0) = Some c ->
  P (- EINTR, None) s -> P (0, Some c) s -> ends simplefs_sb_get_objects_count s P F.
Proof.
  intros Hc HS HP. unfold simplefs_sb_get_objects_count. ends_go; [done|].
  unfold SIMPLEFS_SB. eapply ends_buf_read; [exact Hc|]. by ends_go.
Qed.

Lemma ends_alloc_inode s (P : option nat -> fs -> Prop) :
  P None s -> (forall g, P (Some (slab_next s)) (fresh_object g s)) ->
  ends alloc_inode s P F.
Proof.
  intros HN HS. unfold alloc_inode. ends_go.
  match goal with |- ends (match ?r with _ => _ end) _ _ _ => destruct r as [g|] end.
  - intros e tr. apply HS.
  - by ends_go.
Qed.

Lemma ends_get_a_freeblock fb j dA s (P : Z * option Z -> fs -> Prop) :
  0 <= fb < 2 ^ 64 -> sb_free_blocks (b_data s 0) = Some fb -> 2 <= j < 31 ->
  (forall k, 2 <= k < j -> Z.testbit fb k = false) -> Z.testbit fb j = true ->
  set_sb_free_blocks (Z.clearbit fb j) (b_data s 0) = Some dA ->
  P (- EINTR, None) s -> F BugOn (set_b_data 0 dA s) -> P (0, Some j) (set_b_data 0 dA s) ->
  ends simplefs_sb_get_a_freeblock s P F.
Proof.
  intros Hr Hfb Hj Hlow Hset HA HS HB HP.
  unfold simplefs_sb_get_a_freeblock. ends_go; [done|].
  unfold SIMPLEFS_SB. eapply ends_buf_read; [exact Hfb|].
  change (Z.to_nat (SIMPLEFS_MAX_FILESYSTEM_OBJECTS_SUPPORTED - 2)) with 62%nat.
  rewrite (freeblock_loop_found 62 2 j fb) by auto with lia. cbn [or_fault]. ends_go.
  { bool_hyps. unfold SIMPLEFS_MAX_FILESYSTEM_OBJECTS_SUPPORTED in *. lia. }
  rewrite shl1_small by lia. cbn [or_fault]. ends_go.
  rewrite land_lnot_clearbit by done. eapply ends_buf_write; [exact HA|]. ends_go.
  apply ends_sb_sync; [done|]. by ends_go.
Qed.

(** [simplefs_inode_add] returns nothing: the caller cannot tell the first
    outcome, in which a signal kept it from storing the inode, from the last. *)
Lemma ends_inode_add p i c d1 d0 s (P : unit -> fs -> Prop) :
  slab s !! p = Some i -> sb_inodes_count (b_data s 0) = Some c ->
  store_inode c i (b_data s 1) = Some d1 ->
  set_sb_inodes_count (c + 1) (b_data s 0) = Some d0 ->
  P tt s -> F BugOn s -> F BugOn (set_b_data 0 d0 (set_b_data 1 d1 s)) ->
  P tt (set_b_data 0 d0 (set_b_data 1 d1 s)) ->
  ends (simplefs_inode_add (Some p)) s P F.
Proof.
  intros Hp Hc H1 H0 HS HB HB' HP. unfold simplefs_inode_add. ends_go; [done..|].
  unfold SIMPLEFS_SB. eapply ends_buf_read; [exact Hc|]. ends_go.
  eapply ends_deref; [exact Hp|]. ends_go.
  eapply ends_buf_write; [exact H1|]. ends_go.
  eapply ends_buf_read; [bd; exact Hc|]. ends_go.
  eapply ends_buf_write; [bd; exact H0|]. ends_go.
  apply ends_sb_sync; [done|]. ends_go.
  match goal with |- P ?u _ => by destruct u end.
Qed.
End parts.

Section create_ends.
Context (s : fs) (dir : inode) (p : nat) (d : simplefs_inode).
Context (ents : list entry) (c fb j kp : Z) (name : bytes) (m : Z).
Context (Hpre : create_pre s dir p d ents c fb j kp name m).

Let d' := set_dir_children_count (Z.of_nat (length ents) + 1) d.
Let blk := data_block_number d.
Let n := Z.of_nat (length ents).

(** The slab object of the new inode, before a block is found for it. *)
Definition object_state (g : simplefs_inode) : fs :=
  set_slab (slab_next s) (init_fields (c + 8) m g) (fresh_object g s).

(** The state when [simplefs_inode_add] has returned: the block is taken, and
    the inode is stored and counted, or not. *)
Inductive added : bool -> fs -> Prop :=
  | added_skipped g dA :
      set_sb_free_blocks (Z.clearbit fb j) (b_data s 0) = Some dA ->
      added false (pre_link_state s c j m g dA)
  | added_stored g dA dB dC :
      set_sb_free_blocks (Z.clearbit fb j) (b_data s 0) = Some dA ->
      set_sb_inodes_count (c + 1) dA = Some dB ->
      store_inode c (created_inode c j m g) (b_data s 1) = Some dC ->
      added true (set_b_data 0 dB (set_b_data 1 dC (pre_link_state s c j m g dA))).

(** The record of the new object is in the directory's block. *)
Definition recorded (sl s' : fs) : Prop :=
  exists dD dE,
    store_le (sizeof_dir_record * n + SIMPLEFS_FILENAME_MAXLEN) 8 (c + 8) (b_data s blk)
      = Some dD /\
    store (sizeof_dir_record * n) (name ++ [0]) dD = Some dE /\
    s' = set_b_data blk dE (set_b_data blk dD sl).

(** How creation returns: before anything changed; with a slab object that
    nobody frees; with a block taken and perhaps a stored inode that no entry
    names, the record written but not counted; with the entry counted in core
    only; or with success, whether the inode was stored or not. *)
Inductive create_end : Z -> fs -> Prop :=
  | C_early r : r = - EINTR \/ r = - ENOMEM -> create_end r s
  | C_leaked_object g : create_end (- EINTR) (object_state g)
  | C_uncounted b sl s1 : added b sl -> recorded sl s1 -> create_end (- EINTR) s1
  | C_unsaved b sl s1 : added b sl -> recorded sl s1 ->
      create_end (- EINTR) (set_slab p d' s1)
  | C_created b sl s1 dF : added b sl -> recorded sl s1 ->
      store_inode kp d' (b_data sl 1) = Some dF ->
      create_end 0 (set_b_data 1 dF (set_slab p d' s1)).

(** How it stops: NULL from the slab allocator, or a block that cannot be read
    at one of the five places that want one. *)
Inductive create_stop : fault -> fs -> Prop :=
  | C_no_object : create_stop NullDeref s
  | C_bug_taken g dA : set_sb_free_blocks (Z.clearbit fb j) (b_data s 0) = Some dA ->
      create_stop BugOn (set_b_data 0 dA (object_state g))
  | C_bug_added b sl : added b sl -> create_stop BugOn sl
  | C_bug_saving b sl s1 : added b sl -> recorded sl s1 ->
      create_stop BugOn (set_slab p d' s1).

Lemma added_facts b sl :
  added b sl ->
  slab sl !! p = Some d /\
  (exists g, slab sl !! slab_next s = Some (created_inode c j m g)) /\
  b_data sl blk = b_data s blk /\
  sb_inodes_count (b_data sl 0) = Some (if b then c + 1 else c) /\
  simplefs_inode_search (if b then c + 1 else c) (b_data sl 1) (inode_no d) = Some (Some kp) /\
  length (b_data sl 1) = 4096%nat.
Proof using Hpre.
  pose proof (parent_not_fresh _ _ _ _ _ _ _ _ _ _ _ Hpre) as Hne.
  pose proof Hpre as [[Hw Hc Hcr ? ? ? ?] _ Hd [Hb0 Hb1] _ _ [Hkp Hs] Hfirst _ _].
  fold blk in Hb0, Hb1. pose proof (wf_block_length _ Hw 1) as L1.
  intros [g dA HA|g dA dB dC HA HB HC]; unfold pre_link_state; bd.
  - destruct (with_free_blocks_frame (Z.clearbit fb j) s (set_b_data 0 dA s))
      as (_ & _ & Hcnt); [by exists dA|].
    cbn [b_data set_b_data] in Hcnt. rewrite fn_lookup_insert in Hcnt.
    rewrite !lookup_insert_ne by congruence. rewrite lookup_insert_eq, Hcnt.
    split_and!; [done|by eexists|done|done| |done].
    apply inode_search_first; [lia|rewrite L1; lia|done|done].
  - rewrite !lookup_insert_ne by congruence. rewrite lookup_insert_eq.
    pose proof (store_length _ _ _ _ HC) as LC.
    split_and!; [done|by eexists|done| | |congruence].
    + apply (set_inodes_count_read (c + 1) _ _ ltac:(int_lia) HB).
    + apply inode_search_first; [lia|rewrite LC, L1; lia| |].
      * by rewrite (slot_no_store_ne c kp _ _ _ ltac:(lia) HC).
      * intros x Hx. rewrite (slot_no_store_ne c x _ _ _ ltac:(lia) HC). by apply Hfirst.
Qed.

(** The two writes of the record, from any state with the directory's block as
    it was. *)
Lemma record_writes :
  exists dD dE,
    store_le (sizeof_dir_record * n + SIMPLEFS_FILENAME_MAXLEN) 8 (c + 8) (b_data s blk)
      = Some dD /\
    store (sizeof_dir_record * n) (name ++ [0]) dD = Some dE.
Proof using Hpre.
  pose proof Hpre as [[Hw _ _ _ _ _ _] _ _ _ _ _ _ _ Hroom Hname].
  pose proof (wf_block_length _ Hw) as Hlen.
  assert (is_Some (store_le (sizeof_dir_record * n + SIMPLEFS_FILENAME_MAXLEN) 8 (c + 8)
    (b_data s blk))) as [dD HD].
  { unfold store_le, sizeof_dir_record, SIMPLEFS_FILENAME_MAXLEN, n.
    rewrite store_Some; [by eexists|lia|rewrite length_le_enc, Hlen; lia]. }
  assert (is_Some (store (sizeof_dir_record * n) (name ++ [0]) dD)) as [dE HE].
  { unfold sizeof_dir_record, n. rewrite store_Some; [by eexists|lia|].
    rewrite (store_length _ _ _ _ HD), Hlen, length_app. cbn. lia. }
  by exists dD, dE.
Qed.

(** The rest of creation after [simplefs_inode_add]. *)
Lemma ends_record b sl new :
  added b sl -> i_private new = Some (slab_next s) ->
  ends (record_fs_object dir new name m) sl create_end create_stop.
Proof using Hpre.
  intros Ha Hnew.
  destruct (added_facts b sl Ha) as (Hp & (g & Hg) & Hblk & Hcount & Hsearch & Hlen).
  pose proof Hpre as [_ Hdir _ [Hb0 Hb1] _ Hch [Hkp _] _ _ _]. fold blk in Hb0, Hb1.
  destruct record_writes as (dD & dE & HD & HE).
  set (s1 := set_b_data blk dE (set_b_data blk dD sl)).
  assert (recorded sl s1) as Hrec by (by exists dD, dE).
  pose proof Hpre as [[_ _ Hcr _ _ _ _] _ _ _ _ _ _ _ _ _].
  destruct (store_inode_Some kp d' (b_data sl 1)) as [dF HF]; [lia|rewrite Hlen; lia|].
  unfold record_fs_object, SIMPLEFS_INODE, directory_unlock. rewrite Hdir, Hnew. ends_go.
  eapply ends_deref; [exact Hp|]. fold blk. rewrite Hch. fold n.
  ends_go; [by apply C_bug_added with b|].
  eapply ends_deref; [exact Hg|]. ends_go.
  eapply ends_buf_write; [rewrite Hblk; exact HD|]. ends_go.
  eapply ends_buf_write; [bd; exact HE|]. fold s1. ends_go; [by eapply C_uncounted|].
  eapply ends_assign; [exact Hp|]. rewrite Hch. fold d'. ends_go.
  eapply (ends_inode_save p d' _ kp dF);
    [apply lookup_insert_eq|unfold s1; bd; exact Hcount|unfold s1; bd; exact Hsearch
    |unfold s1; bd; exact HF|by eapply C_bug_saving| |].
  - ends_go; try by eapply C_unsaved. discriminate.
  - ends_go; try discriminate. by eapply C_created.
Qed.

Lemma create_ends_lemma :
  ends (simplefs_create_fs_object dir name m) s create_end create_stop.
Proof using Hpre.
  pose proof Hpre as [[Hw Hc Hcr Hfb [Hj Hbit] Hlow [Hm Hmode]] _ _ _ _ _ _ _ _ _].
  pose proof (sb_free_blocks_range _ _ Hw Hfb) as Hfbr.
  assert (is_Some (set_sb_free_blocks (Z.clearbit fb j) (b_data s 0))) as [dA HA]
    by (by apply set_free_blocks_Some).
  unfold simplefs_create_fs_object, directory_unlock. ends_go; [apply C_early; auto|].
  apply (ends_get_objects_count _ c); [done| |];
    (change (- EINTR <? 0) with true || change (0 <? 0) with false); ends_go.
  { apply C_early. auto. }
  { cbn [from_option id] in *. bool_hyps.
    unfold SIMPLEFS_MAX_FILESYSTEM_OBJECTS_SUPPORTED in *. lia. }
  { rewrite <- negb_orb, Hmode in *. discriminate. }
  { apply C_early. auto. }
  cbn [from_option id]. rewrite new_ino_u64 by done.
  apply ends_alloc_inode; [intros e tr; apply C_no_object|]. intros g. ends_go.
  eapply ends_assign; [cbn; apply lookup_insert_eq|]. fold (object_state g). ends_go.
  eapply (ends_get_a_freeblock _ fb j dA); try done.
  - change (- EINTR <? 0) with true. ends_go. apply C_leaked_object.
  - by eapply C_bug_taken.
  - change (0 <? 0) with false. ends_go.
    eapply ends_assign; [bd; apply lookup_insert_eq|].
    cbn [from_option id]. rewrite created_inode_fields by done.
    fold (created_fop m).
    match goal with |- ends _ ?x _ _ => change x with (pre_link_state s c j m g dA) end.
    pose proof (ends_record false _ (mk_vfs_inode (c + 8) (created_fop m)
      (Some (slab_next s))) (added_skipped g dA HA) eq_refl) as Hskip.
    unfold link_fs_object. ends_go. cbn [i_private].
    destruct (create_writes_exist s dir p d ents c fb j kp name m Hpre g dA HA)
      as (dB & dC & dD & dE & dF & [_ HB HC _ _ _]).
    pose proof (added_stored g dA dB dC HA HB HC) as Hstored.
    eapply (ends_inode_add _ _ (created_inode c j m g) c dC dB).
    + unfold pre_link_state. bd. apply lookup_insert_eq.
    + apply (added_facts false _ (added_skipped g dA HA)).
    + unfold pre_link_state. by bd.
    + unfold pre_link_state. by bd.
    + exact Hskip.
    + by eapply C_bug_added, added_skipped.
    + by eapply C_bug_added.
    + by apply (ends_record true).
Qed.
End create_ends.

(** ** The theorems *)

(** Whatever the kernel answers, a read of an open file returns, changes
    nothing, and ends in one of the ways of [read_end]. *)
Theorem read_ends s f p i len ppos :
  wf_fs s -> i_private f = Some p -> slab s !! p = Some i ->
  0 <= len -> 0 <= ppos < 2 ^ 31 -> file_size i <= 4096 ->
  ends (simplefs_read f len ppos) s (read_end s i len ppos) (fun _ _ => False).
Proof. intros. by apply read_ends_lemma with p. Qed.

Lemma read_ends_witness :
  ends (simplefs_read data1 100 0) world1 (read_end world1 (D1_inode 0) 100 0)
    (fun _ _ => False).
Proof.
  apply (read_ends world1 data1 1%nat (D1_inode 0) 100 0 world1_wf eq_refl).
  - apply lookup_insert_eq.
  - lia.
  - lia.
  - rewrite D1_size. lia.
Defined.

(** C25: Whatever the kernel answers, a write inside the block of an open file ends
    in one of the ways of [write_end], which say what a bad user buffer and a
    signal leave behind, or stops at BUG_ON with the new size in core only. *)
Theorem write_ends s f p i count kp buf ppos :
  wf_fs s -> i_private f = Some p -> slab s !! p = Some i ->
  sb_inodes_count (b_data s 0) = Some count -> 0 <= count < 128 ->
  0 <= kp < count /\ slot_no (b_data s 1) kp = Some (inode_no i) ->
  (forall x, 0 <= x < kp -> slot_no (b_data s 1) x <> Some (inode_no i)) ->
  data_block_number i <> 0 -> data_block_number i <> 1 ->
  0 <= ppos -> ppos + Z.of_nat (length buf) <= 4096 ->
  ends (simplefs_write f buf ppos) s (write_end s p i kp buf ppos)
    (write_stop s p i buf ppos).
Proof. intros. by apply write_ends_lemma with count. Qed.

Lemma write_ends_witness :
  ends (simplefs_write data1 (str "HELLO") 2) world1
    (write_end world1 1 (D1_inode 0) 1 (str "HELLO") 2)
    (write_stop world1 1 (D1_inode 0) (str "HELLO") 2).
Proof.
  apply (write_ends world1 data1 1%nat (D1_inode 0) 3 1 (str "HELLO") 2 world1_wf eq_refl).
  - apply lookup_insert_eq.
  - rewrite world1_block. exact (proj1 world_super).
  - lia.
  - rewrite world1_block. split; [lia|]. exact (world_slots 1 ltac:(lia)).
  - exact world1_slot_first.
  - discriminate.
  - discriminate.
  - lia.
  - cbn; lia.
Defined.

(** C24: Whatever the kernel answers, creation in a directory with room ends in one
    of the ways of [create_end] or stops in one of those of [create_stop]: a
    failure after the allocator has run leaves the block taken, and a signal
    while the inode is added is not noticed. *)
Theorem create_ends s dir p d ents c fb j kp name m excl :
  create_pre s dir p d ents c fb j kp name m ->
  ends (simplefs_create dir name m excl) s
    (create_end s p d ents c fb j kp name m)
    (create_stop s p d ents c fb j name m).
Proof. intros Hpre. by apply (create_ends_lemma s dir). Qed.

Lemma create_ends_witness :
  ends (simplefs_create root_dir (str "f") f_mode true) world
    (create_end world 0 (root_inode 0) [record1; record2] 3 mkfs_free_blocks 2 0
       (str "f") f_mode)
    (create_stop world 0 (root_inode 0) [record1; record2] 3 mkfs_free_blocks 2
       (str "f") f_mode).
Proof. apply create_ends, world_create. reflexivity. Defined.
