(* ===== verification/SimplefsTree.v ===== *)
(** * simplefs: the abstract file tree

    What the file system promises to its callers, with no blocks, slots or
    bitmap: a list of numbered objects in order of creation, each a regular file
    with its contents or a directory with its entries, and the in-core inodes
    ("handles") the kernel holds on them.  [spec_op] answers one call of the VFS
    ([vfs_op]) on a tree; it is [None] where the code relies on the caller or on
    the image; [outside] lists those calls: a stale handle, a full directory, no
    free block, a write past the end, an entry without an inode.  [invoke] runs the code of the same call and collects what the caller
    sees.  [rep t s] says that the memory [s] holds the tree [t]. *)

From S2P Require Export Steps SimplefsImage.

(** ** Trees *)

Inductive body :=
  | Reg (content : bytes)
  | Dir (ents : list entry).

Record node := mk_node { n_ino : Z; n_mode : Z; n_body : body }.

(** A handle is an object (by its place in [t_nodes]) and the size or child
    count the in-core inode holds; [t_next] is the next handle and [t_room] the
    number of blocks that can still be given out. *)
Record tree := mk_tree {
  t_nodes : list node;
  t_handles : gmap nat (nat * Z);
  t_next : nat;
  t_room : nat;
}.

Definition body_size (b : body) : Z :=
  match b with
  | Reg content => Z.of_nat (length content)
  | Dir ents => Z.of_nat (length ents)
  end.

Definition dir_ents (nd : node) : option (list entry) :=
  match n_body nd with Dir ents => Some ents | Reg _ => None end.
Definition reg_content (nd : node) : option bytes :=
  match n_body nd with Reg content => Some content | Dir _ => None end.

(** The handle, place and object of an open inode, when the size it holds is
    the object's current one. *)
Definition opened (t : tree) (i : inode) : option (nat * nat * node) :=
  h ← i_private i;
  '(k, v) ← t_handles t !! h;
  nd ← t_nodes t !! k;
  if v =? body_size (n_body nd) then Some (h, k, nd) else None.

(** The object numbered [no]. *)
Definition find_node (t : tree) (no : Z) : option (nat * node) :=
  list_find (fun nd => n_ino nd = no) (t_nodes t).

Definition open_node (k : nat) (nd : node) (t : tree) : tree :=
  mk_tree (t_nodes t) (<[t_next t := (k, body_size (n_body nd))]> (t_handles t))
    (S (t_next t)) (t_room t).
Definition set_body (h k : nat) (nd : node) (b : body) (t : tree) : tree :=
  mk_tree (<[k := mk_node (n_ino nd) (n_mode nd) b]> (t_nodes t))
    (<[h := (k, body_size b)]> (t_handles t)) (t_next t) (t_room t).
Definition add_node (nd : node) (t : tree) : tree :=
  open_node (length (t_nodes t)) nd
    (mk_tree (t_nodes t ++ [nd]) (t_handles t) (t_next t) (pred (t_room t))).

(** ** Answers *)

(** What the caller of an operation sees: the return value and the inode the
    dentry is bound to; the entries emitted; the bytes copied out. *)
Inductive answer :=
  | bound (r : Z) (i : option inode)
  | listed (r pos : Z) (ents : list entry)
  | copied (r pos : Z) (d : bytes)
  | wrote (r pos : Z)
  | freed.

(** ** The specification *)

Definition spec_create (dir : inode) (name : bytes) (m : Z) (t : tree)
    : option (answer * tree) :=
  if 64 <=? Z.of_nat (length (t_nodes t)) then Some (bound (- ENOSPC) None, t)
  else if negb (S_ISDIR m || S_ISREG m) then Some (bound (- EINVAL) None, t)
  else
    '(h, k, nd) ← opened t dir;
    ents ← dir_ents nd;
    if (0 <? t_room t)%nat && (length ents <? 16)%nat then
      let no := Z.of_nat (length (t_nodes t)) + 8 in
      let new := mk_node no m (if S_ISDIR m then Dir [] else Reg []) in
      Some (bound 0 (Some (mk_vfs_inode no (created_fop m) (Some (t_next t)))),
            add_node new (set_body h k nd (Dir (ents ++ [(name, no)])) t))
    else None.

Definition spec_op (op : vfs_op) (t : tree) : option (answer * tree) :=
  match op with
  | op_create dir name m _ => spec_create dir name m t
  | op_mkdir dir name m => spec_create dir name (u16 (Z.lor S_IFDIR m)) t
  | op_lookup dir name =>
      '(_, _, nd) ← opened t dir;
      ents ← dir_ents nd;
      match dir_find name ents with
      | None => Some (bound 0 None, t)
      | Some no =>
          '(k, nd') ← find_node t no;
          Some (bound 0 (Some (mk_vfs_inode no (fop_of_mode (n_mode nd')) (Some (t_next t)))),
                open_node k nd' t)
      end
  | op_iterate dir pos =>
      if negb (pos =? 0) then Some (listed 0 pos [], t) else
      '(_, _, nd) ← opened t dir;
      match n_body nd with
      | Dir ents => Some (listed 0 (256 * Z.of_nat (length ents)) ents, t)
      | Reg _ => Some (listed (- ENOTDIR) 0 [], t)
      end
  | op_read i len ppos =>
      '(_, _, nd) ← opened t i;
      content ← reg_content nd;
      if Z.of_nat (length content) <=? ppos then Some (copied 0 ppos [], t)
      else
        let d := take (Z.to_nat len) content in
        Some (copied (Z.of_nat (length d)) (ppos + Z.of_nat (length d)) d, t)
  | op_write i buf ppos =>
      '(h, k, nd) ← opened t i;
      content ← reg_content nd;
      if (0 <=? ppos) && (ppos <=? Z.of_nat (length content)) &&
         (ppos + Z.of_nat (length buf) <=? 4096) then
        Some (wrote (Z.of_nat (length buf)) (ppos + Z.of_nat (length buf)),
              set_body h k nd (Reg (content_write ppos buf content)) t)
      else None
  | op_destroy_inode i =>
      h ← i_private i;
      _ ← t_handles t !! h;
      Some (freed, mk_tree (t_nodes t) (delete h (t_handles t)) (t_next t) (t_room t))
  | op_fill_super =>
      '(k, nd) ← find_node t SIMPLEFS_ROOTDIR_INODE_NUMBER;
      Some (bound 0 (Some (mk_vfs_inode SIMPLEFS_ROOTDIR_INODE_NUMBER
              (Some simplefs_dir_operations) (Some (t_next t)))),
            open_node k nd t)
  end.

(** The inode an operation is called on. *)
Definition op_inode (op : vfs_op) : option inode :=
  match op with
  | op_create dir _ _ _ | op_mkdir dir _ _ | op_lookup dir _ | op_iterate dir _ => Some dir
  | op_read i _ _ | op_write i _ _ | op_destroy_inode i => Some i
  | op_fill_super => None
  end.

(** Directory, name and mode of an operation that creates an object. *)
Definition creates (op : vfs_op) : option (inode * bytes * Z) :=
  match op with
  | op_create dir name m _ => Some (dir, name, m)
  | op_mkdir dir name m => Some (dir, name, u16 (Z.lor S_IFDIR m))
  | _ => None
  end.

(** The calls the specification leaves open, one constructor per reason: an
    inode that is not open or whose in-core size is not that of the object (an
    earlier write or creation through another inode, or one interrupted); an
    operation on the wrong kind of object; a 17th entry; no block left to give
    out; a write that starts past the end, before the start, or goes past the
    block; an entry whose inode is not stored; a root that is not stored. *)
Inductive outside : vfs_op -> tree -> Prop :=
  | out_stale op i t :
      op_inode op = Some i -> (forall j, op <> op_destroy_inode j) -> opened t i = None ->
      outside op t
  | out_not_dir op i t h k nd :
      op_inode op = Some i -> (is_Some (creates op) \/ exists name, op = op_lookup i name) ->
      opened t i = Some (h, k, nd) -> dir_ents nd = None -> outside op t
  | out_not_file op i t h k nd :
      op_inode op = Some i ->
      (exists len ppos, op = op_read i len ppos) \/ (exists buf ppos, op = op_write i buf ppos) ->
      opened t i = Some (h, k, nd) -> reg_content nd = None -> outside op t
  | out_full op dir name m t h k nd ents :
      creates op = Some (dir, name, m) -> opened t dir = Some (h, k, nd) ->
      dir_ents nd = Some ents -> (16 <= length ents)%nat -> outside op t
  | out_no_block op x t : creates op = Some x -> t_room t = 0%nat -> outside op t
  | out_range i buf ppos t h k nd content :
      opened t i = Some (h, k, nd) -> reg_content nd = Some content ->
      ppos < 0 \/ Z.of_nat (length content) < ppos \/ 4096 < ppos + Z.of_nat (length buf) ->
      outside (op_write i buf ppos) t
  | out_dangling dir name t h k nd ents no :
      opened t dir = Some (h, k, nd) -> dir_ents nd = Some ents ->
      dir_find name ents = Some no -> find_node t no = None -> outside (op_lookup dir name) t
  | out_not_open i t :
      (forall h, i_private i = Some h -> t_handles t !! h = None) -> outside (op_destroy_inode i) t
  | out_no_root t :
      find_node t SIMPLEFS_ROOTDIR_INODE_NUMBER = None -> outside op_fill_super t.

Lemma spec_create_outside op dir name m t :
  creates op = Some (dir, name, m) -> op_inode op = Some dir -> spec_create dir name m t = None ->
  outside op t.
Proof.
  intros Hc Hi Hs. unfold spec_create in Hs. destruct (64 <=? _); [done|].
  destruct (negb _); [done|]. destruct (opened t dir) as [[[h k] nd]|] eqn:Ho.
  2: { eapply out_stale; [done| |done]. by intros j ->. }
  cbn [mbind option_bind] in Hs. destruct (dir_ents nd) as [ents|] eqn:He.
  2: { eapply out_not_dir; [done|left; by eexists|done|done]. }
  cbn [mbind option_bind] in Hs.
  destruct (Nat.ltb_spec 0 (t_room t)); [|eapply out_no_block; [done|lia]].
  destruct (Nat.ltb_spec (length ents) 16); [done|]. by eapply out_full.
Qed.

(** Nothing else is left open. *)
Lemma spec_op_outside op t : spec_op op t = None -> outside op t.
Proof.
  destruct op as [dir name m excl|dir name m|dir name|dir pos|i len ppos|i buf ppos|i|];
    cbn [spec_op]; intros Hs.
  1-2: by eapply spec_create_outside.
  - destruct (opened t dir) as [[[h k] nd]|] eqn:Ho; [|by eapply out_stale].
    cbn [mbind option_bind] in Hs. destruct (dir_ents nd) as [ents|] eqn:He;
      [|eapply out_not_dir; [done|right; by eexists|done|done]].
    cbn [mbind option_bind] in Hs. destruct (dir_find name ents) as [no|] eqn:Ef; [|done].
    destruct (find_node t no) as [[k' nd']|] eqn:En; [done|]. by eapply out_dangling.
  - destruct (negb _); [done|].
    destruct (opened t dir) as [[[h k] nd]|] eqn:Ho; [|by eapply out_stale].
    cbn [mbind option_bind] in Hs. by destruct (n_body nd).
  - destruct (opened t i) as [[[h k] nd]|] eqn:Ho; [|by eapply out_stale].
    cbn [mbind option_bind] in Hs. destruct (reg_content nd) as [content|] eqn:Hc;
      [|eapply out_not_file; [done|left; by eexists _, _|done|done]].
    cbn [mbind option_bind] in Hs. by destruct (_ <=? _).
  - destruct (opened t i) as [[[h k] nd]|] eqn:Ho; [|by eapply out_stale].
    cbn [mbind option_bind] in Hs. destruct (reg_content nd) as [content|] eqn:Hc;
      [|eapply out_not_file; [done|right; by eexists _, _|done|done]].
    cbn [mbind option_bind] in Hs. eapply out_range; [done|done|].
    destruct (Z.leb_spec 0 ppos); [|lia].
    destruct (Z.leb_spec ppos (Z.of_nat (length content))); [|lia].
    destruct (Z.leb_spec (ppos + Z.of_nat (length buf)) 4096); [done|lia].
  - apply out_not_open. intros h Hh. rewrite Hh in Hs. cbn [mbind option_bind] in Hs.
    by destruct (t_handles t !! h).
  - destruct (find_node t _) as [[k nd]|] eqn:En; [done|]. by apply out_no_root.
Qed.

(** What the VFS guarantees of the arguments: names are C strings that fit a
    record, buffers are bytes, modes and offsets are in range. *)
Definition op_ok (op : vfs_op) : Prop :=
  match op with
  | op_create _ name m _ => name_ok name /\ 0 <= m < 2 ^ 16
  | op_mkdir _ name _ => name_ok name
  | op_lookup _ name => c_string name
  | op_read _ len ppos => 0 <= len /\ 0 <= ppos < 2 ^ 31
  | op_write _ buf _ => wf_bytes buf
  | _ => True
  end.

(** ** The implementation, as its caller sees it *)

(** The inode of the dentry when the last call of the operation was [d_add]. *)
Definition last_bound (tr : trace kcall) : option inode :=
  match tr with
  | existT (d_add _ i) _ :: _ => Some i
  | _ => None
  end.

(** The bytes of the [copy_to_user] that precedes the final [brelse]. *)
Definition last_copied (tr : trace kcall) : bytes :=
  match tr with
  | _ :: existT (copy_to_user d) _ :: _ => d
  | _ => []
  end.

Definition answered {A} (o : outcome A fs (trace kcall))
    (f : A -> fs -> trace kcall -> answer) : fault + (answer * (fs * trace kcall)) :=
  match o with
  | Ok a s tr => inr (f a s tr, (s, tr))
  | Fault x _ _ => inl x
  end.

Definition call_vfs (e : env kcall) (op : vfs_op) (c : fs * trace kcall)
    : fault + (answer * (fs * trace kcall)) :=
  let '(s, tr) := c in
  match op with
  | op_create dir name m excl =>
      answered (simplefs_create dir name m excl e s tr)
        (fun r _ tr' => bound r (last_bound tr'))
  | op_mkdir dir name m =>
      answered (simplefs_mkdir dir name m e s tr)
        (fun r _ tr' => bound r (last_bound tr'))
  | op_lookup dir name =>
      answered (simplefs_lookup dir name e s tr)
        (fun _ _ tr' => bound 0 (last_bound tr'))
  | op_iterate dir pos =>
      answered (simplefs_iterate dir pos e s tr)
        (fun '(r, pos') _ tr' =>
           listed r pos' (drop (length (emitted tr)) (emitted tr')))
  | op_read i len ppos =>
      answered (simplefs_read i len ppos e s tr)
        (fun '(r, pos') _ tr' =>
           copied r pos' (if 0 <? r then last_copied tr' else []))
  | op_write i buf ppos =>
      answered (simplefs_write i buf ppos e s tr) (fun '(r, pos') _ _ => wrote r pos')
  | op_destroy_inode i =>
      answered (simplefs_destory_inode i e s tr) (fun _ _ _ => freed)
  | op_fill_super =>
      answered (simplefs_fill_super e s tr)
        (fun r s' _ => bound r (super s' ≫= s_root))
  end.

Definition invoke (e : env kcall) (op : vfs_op) (c : fs * trace kcall)
    : option (answer * (fs * trace kcall)) :=
  match call_vfs e op c with inr x => Some x | inl _ => None end.

(** ** The representation *)

(** The blocks the allocator can still give out, lowest first: index 31 and
    above are left out (the mask of index 31 covers all the higher ones). *)
Definition free_list (fb : Z) : list Z :=
  filter (fun b => Z.testbit fb b = true) (seqZ 2 29).

(** The inode [i] describes the object [nd] with data block [b]. *)
Definition describes (b : Z) (nd : node) (i : simplefs_inode) : Prop :=
  inode_no i = n_ino nd /\ mode i = n_mode nd /\ data_block_number i = b /\
  size_or_children i = body_size (n_body nd).

(** The data block [l] holds what the object contains. *)
Definition holds_body (l : bytes) (nd : node) : Prop :=
  match n_body nd with
  | Reg content =>
      S_ISDIR (n_mode nd) = false /\ (length content <= 4096)%nat /\
      take (length content) l = content
  | Dir ents =>
      S_ISDIR (n_mode nd) = true /\ (length ents <= 16)%nat /\ is_dir l ents /\
      Forall (fun ent => 0 <= ent.2 < 2 ^ 31) ents
  end.

(** [blks] are the data blocks of the objects and [fb] the bitmap. *)
Record rep_with (blks : list Z) (fb : Z) (t : tree) (s : fs) : Prop := {
  rw_wf : wf_fs s;
  rw_count : sb_inodes_count (b_data s 0) = Some (Z.of_nat (length (t_nodes t)));
  rw_small : (length (t_nodes t) < 128)%nat;
  rw_next : slab_next s = t_next t;
  rw_free : sb_free_blocks (b_data s 0) = Some fb;
  rw_room : length (free_list fb) = t_room t;
  rw_blks : length blks = length (t_nodes t);
  rw_distinct : NoDup blks;
  rw_used : Forall (fun b => b <> 0 /\ b <> 1 /\ b ∉ free_list fb) blks;
  rw_inos : NoDup (n_ino <$> t_nodes t);
  rw_ino_range : Forall (fun nd =>
    0 <= n_ino nd < Z.of_nat (length (t_nodes t)) + 8) (t_nodes t);
  rw_nodes : forall k nd b, t_nodes t !! k = Some nd -> blks !! k = Some b ->
    exists i, load_inode (Z.of_nat k) (b_data s 1) = Some i /\
      describes b nd i /\ holds_body (b_data s b) nd;
  rw_handles : forall h k v, t_handles t !! h = Some (k, v) ->
    (k < length (t_nodes t))%nat /\ 0 <= v < 2 ^ 64 /\
    exists i, load_inode (Z.of_nat k) (b_data s 1) = Some i /\
      slab s !! h = Some (set_file_size v i);
}.

Definition rep (t : tree) (s : fs) : Prop := exists blks fb, rep_with blks fb t s.

(** The relation between a tree and a run of the module. *)
Definition rep_run (t : tree) (c : fs * trace kcall) : Prop := rep t c.1.
