(* ===== verification/SimplefsRefine.v ===== *)
(** * simplefs: every operation implements the tree

    Helper lemmas for the refinement of [spec_op] by the code: what [rep] says
    of one object and one handle, how it is kept when an object's contents
    change, when a handle is opened or closed and when an object is added. *)

From S2P Require Export SimplefsTree.

(** ** The bitmap *)

Lemma free_list_lowest fb j rest :
  free_list fb = j :: rest ->
  2 <= j < 31 /\ Z.testbit fb j = true /\
  forall k, 2 <= k < j -> Z.testbit fb k = false.
Proof.
  unfold free_list. change (seqZ 2 29) with (seqZ 2 (Z.of_nat 29)).
  change 31 with (2 + Z.of_nat 29).
  generalize 29%nat as n. intros n. generalize 2 as a. induction n as [|n IH]; intros a.
  - rewrite seqZ_nil by lia. done.
  - rewrite seqZ_cons by lia. rewrite filter_cons.
    replace (Z.pred (Z.of_nat (S n))) with (Z.of_nat n) by lia.
    case_decide as Hb.
    + intros [= <- _]. split_and!; [lia|lia|done|lia].
    + intros H. destruct (IH _ H) as (? & ? & Hlow). split_and!; [lia|lia|done|].
      intros k Hk. destruct (decide (k = a)) as [->|]; [|apply Hlow; lia].
      by destruct (Z.testbit fb a).
Qed.

Lemma filter_split_head {A} (P Q : A -> Prop) `{!forall x, Decision (P x)}
    `{!forall x, Decision (Q x)} (l : list A) x rest :
  NoDup l -> (forall y, Q y <-> P y /\ y <> x) ->
  filter P l = x :: rest -> filter Q l = rest.
Proof.
  intros Hnd HQ. induction Hnd as [|y l Hy Hnd IH]; [done|].
  rewrite !filter_cons. case_decide as HP.
  - intros [= -> <-]. rewrite decide_False by naive_solver.
    clear IH Hnd HP. induction l as [|z l IH]; [done|].
    rewrite !filter_cons. apply not_elem_of_cons in Hy as [Hne Hy].
    do 2 case_decide; rewrite ?IH by done; naive_solver.
  - rewrite decide_False by naive_solver. done.
Qed.

(** Taking the lowest block leaves the others. *)
Lemma free_list_clearbit fb j rest :
  free_list fb = j :: rest -> free_list (Z.clearbit fb j) = rest.
Proof.
  intros H. destruct (free_list_lowest _ _ _ H) as ([Hj _] & _).
  eapply filter_split_head; [apply NoDup_seqZ| |exact H].
  intros y. rewrite Z.clearbit_eqb, andb_true_iff, negb_true_iff, Z.eqb_neq by lia.
  intuition.
Qed.

(** ** What the representation says of one object *)

Lemma set_file_size_same i :
  wf_inode i -> set_file_size (size_or_children i) i = i.
Proof.
  destruct i as [m p n b z]. intros (_ & _ & _ & _ & Hz). cbn in Hz.
  unfold set_file_size. cbn [mode pad inode_no data_block_number size_or_children].
  by rewrite uwrap_id.
Qed.

Lemma set_file_size_twice v w i : set_file_size v (set_file_size w i) = set_file_size v i.
Proof. done. Qed.

Section objects.
Context (blks : list Z) (fb : Z) (t : tree) (s : fs) (R : rep_with blks fb t s).

Lemma rep_block k nd :
  t_nodes t !! k = Some nd ->
  exists b i, blks !! k = Some b /\ b <> 0 /\ b <> 1 /\ b ∉ free_list fb /\
    load_inode (Z.of_nat k) (b_data s 1) = Some i /\ describes b nd i /\
    holds_body (b_data s b) nd.
Proof using R.
  intros Hk. pose proof (lookup_lt_Some _ _ _ Hk) as Hlt.
  rewrite <- (rw_blks _ _ _ _ R) in Hlt.
  destruct (lookup_lt_is_Some_2 _ _ Hlt) as [b Hb].
  destruct (rw_nodes _ _ _ _ R _ _ _ Hk Hb) as (i & Hi & Hd & Hh).
  destruct (proj1 (Forall_lookup _ _) (rw_used _ _ _ _ R) _ _ Hb) as (? & ? & ?).
  by exists b, i.
Qed.

Lemma rep_slot_no k nd :
  t_nodes t !! k = Some nd -> slot_no (b_data s 1) (Z.of_nat k) = Some (n_ino nd).
Proof using R.
  intros (b & i & _ & _ & _ & _ & Hi & (Hn & _) & _)%rep_block.
  unfold slot_no. rewrite Hi. simpl. by rewrite Hn.
Qed.

(** Numbers are unique, so slot [k] is the first one with its number. *)
Lemma rep_slot_first k nd x :
  t_nodes t !! k = Some nd -> 0 <= x < Z.of_nat k ->
  slot_no (b_data s 1) x <> Some (n_ino nd).
Proof using R.
  intros Hk Hx Hno. pose proof (lookup_lt_Some _ _ _ Hk) as Hlt.
  destruct (lookup_lt_is_Some_2 (t_nodes t) (Z.to_nat x)) as [nd' Hk']; [lia|].
  pose proof (rep_slot_no _ _ Hk') as Hs. rewrite Z2Nat.id in Hs by lia.
  rewrite Hs in Hno. injection Hno as Hno.
  assert (Z.to_nat x = k) as E; [|lia].
  eapply NoDup_lookup; [apply (rw_inos _ _ _ _ R)| |];
    rewrite list_lookup_fmap; [by rewrite Hk'|by rewrite Hk; simpl; rewrite Hno].
Qed.

Lemma rep_stored k nd :
  t_nodes t !! k = Some nd ->
  stored_inode s (n_ino nd) = load_inode (Z.of_nat k) (b_data s 1).
Proof using R.
  intros Hk. pose proof (lookup_lt_Some _ _ _ Hk) as Hlt.
  unfold stored_inode, SIMPLEFS_SUPERBLOCK_BLOCK_NUMBER, SIMPLEFS_INODESTORE_BLOCK_NUMBER.
  rewrite (rw_count _ _ _ _ R). cbn [mbind option_bind].
  apply find_inode_slot; [lia|lia| |by apply rep_slot_no].
  intros x Hx. pose proof (rep_slot_first k nd x Hk ltac:(lia)) as Hne.
  destruct (lookup_lt_is_Some_2 (t_nodes t) (Z.to_nat x)) as [nd' Hk']; [lia|].
  apply rep_block in Hk' as (b & i & _ & _ & _ & _ & Hi & _).
  rewrite Z2Nat.id in Hi by lia. exists i. split; [done|].
  intros E. apply Hne. unfold slot_no. rewrite Hi. simpl. by rewrite E.
Qed.

Lemma find_node_Some no k nd :
  find_node t no = Some (k, nd) -> t_nodes t !! k = Some nd /\ n_ino nd = no.
Proof. unfold find_node. intros (? & ? & _)%list_find_Some. by split. Qed.

(** An inode opened and not stale: the in-core object is the stored one. *)
Lemma rep_opened i h k nd :
  opened t i = Some (h, k, nd) ->
  i_private i = Some h /\ t_nodes t !! k = Some nd /\
  exists b d, blks !! k = Some b /\ b <> 0 /\ b <> 1 /\ b ∉ free_list fb /\
    slab s !! h = Some d /\ load_inode (Z.of_nat k) (b_data s 1) = Some d /\
    describes b nd d /\ holds_body (b_data s b) nd.
Proof using R.
  unfold opened. intros Ho.
  destruct (i_private i) as [h'|]; [|done]. simpl in Ho.
  destruct (t_handles t !! h') as [[k' v]|] eqn:Eh; [|done]. simpl in Ho.
  destruct (t_nodes t !! k') as [nd'|] eqn:Ek; [|done]. simpl in Ho.
  destruct (Z.eqb_spec v (body_size (n_body nd'))) as [->|]; [|done].
  injection Ho as -> -> ->. split; [done|]. split; [done|].
  destruct (rep_block _ _ Ek) as (b & d & Hb & H0 & H1 & Hf & Hd & Hdesc & Hh).
  destruct (rw_handles _ _ _ _ R _ _ _ Eh) as (_ & _ & d' & Hd' & Hs).
  rewrite Hd in Hd'. injection Hd' as <-.
  exists b, d. split_and!; try done.
  destruct Hdesc as (_ & _ & _ & Hsz). rewrite Hs, <- Hsz. f_equal.
  apply set_file_size_same. eapply load_inode_wf; [|exact Hd].
  apply (wf_block_bytes _ (rw_wf _ _ _ _ R)).
Qed.

(** Two objects have different blocks. *)
Lemma rep_block_ne k k' b b' :
  blks !! k = Some b -> blks !! k' = Some b' -> k <> k' -> b <> b'.
Proof using R.
  intros H1 H2 Hne ->. apply Hne. by eapply NoDup_lookup; [apply (rw_distinct _ _ _ _ R)|..].
Qed.

Lemma rep_handle_lt h kv : t_handles t !! h = Some kv -> (h < t_next t)%nat.
Proof using R.
  destruct kv as [k v]. intros Hh.
  destruct (rw_handles _ _ _ _ R _ _ _ Hh) as (_ & _ & i & _ & Hs).
  destruct (decide (h < t_next t)%nat); [done|].
  rewrite (wf_slab_next _ (rw_wf _ _ _ _ R)) in Hs; [done|].
  rewrite (rw_next _ _ _ _ R). lia.
Qed.
End objects.

(** ** Keeping the representation *)

Section keeping.
Context (blks : list Z) (fb : Z) (t : tree) (s : fs) (R : rep_with blks fb t s).

Lemma rep_super sp : rep_with blks fb t (mk_fs (b_data s) (slab s) (slab_next s) sp).
Proof using R. destruct R as [[] ? ? ? ? ? ? ? ? ? ? ? ?]. by split. Qed.

(** A fresh in-core copy of a stored inode. *)
Lemma rep_open k nd i :
  t_nodes t !! k = Some nd -> load_inode (Z.of_nat k) (b_data s 1) = Some i ->
  rep_with blks fb (open_node k nd t) (fresh_object i s).
Proof using R.
  intros Hk Hi. destruct (rep_block _ _ _ _ R _ _ Hk) as (b & i' & _ & _ & _ & _ & Hi' & Hd & _).
  rewrite Hi in Hi'. injection Hi' as <-.
  assert (wf_inode i) as Hwi
    by (eapply load_inode_wf; [apply (wf_block_bytes _ (rw_wf _ _ _ _ R))|exact Hi]).
  destruct Hd as (_ & _ & _ & Hsz).
  pose proof R as [Hw ? ? Hn ? ? ? ? ? ? ? ? Hh].
  split; cbn [open_node t_nodes t_handles t_next t_room b_data slab slab_next fresh_object];
    try done.
  - by apply wf_fresh_object.
  - by rewrite Hn.
  - intros h k' v. rewrite Hn. rewrite lookup_insert. case_decide as E.
    + intros [= <- <-]. rewrite <- Hsz. split; [by eapply lookup_lt_Some|].
      split; [apply Hwi|]. exists i. split; [done|].
      rewrite E, lookup_insert_eq. by rewrite set_file_size_same.
    + intros Hl. destruct (Hh _ _ _ Hl) as (? & ? & i' & ? & Hs).
      split; [done|]. split; [done|]. exists i'.
      by rewrite lookup_insert_ne by done.
Qed.

(** A handle given back. *)
Lemma rep_close h :
  rep_with blks fb
    (mk_tree (t_nodes t) (delete h (t_handles t)) (t_next t) (t_room t))
    (mk_fs (b_data s) (delete h (slab s)) (slab_next s) (super s)).
Proof using R.
  pose proof R as [[W1 W2 W3 W4] ? ? ? ? ? ? ? ? ? ? ? Hh].
  split; cbn [t_nodes t_handles t_next t_room b_data slab slab_next]; try done.
  - split; cbn [b_data slab slab_next]; try done.
    + intros p i [_ Hp]%lookup_delete_Some. by eapply W3.
    + intros p Hp. apply lookup_delete_None. right. by apply W4.
  - intros h' k v [Hne Hl]%lookup_delete_Some.
    rewrite lookup_delete_ne by done. by apply Hh.
Qed.

(** New contents of one object, written through the handle [h]. *)
Lemma rep_set_body h k nd b d bd s' :
  t_nodes t !! k = Some nd -> blks !! k = Some b ->
  load_inode (Z.of_nat k) (b_data s 1) = Some d -> describes b nd d ->
  0 <= body_size bd < 2 ^ 64 -> wf_fs s' ->
  sb_inodes_count (b_data s' 0) = sb_inodes_count (b_data s 0) ->
  sb_free_blocks (b_data s' 0) = sb_free_blocks (b_data s 0) ->
  slab_next s' = slab_next s ->
  slab s' = <[h := set_file_size (body_size bd) d]> (slab s) ->
  load_inode (Z.of_nat k) (b_data s' 1) = Some (set_file_size (body_size bd) d) ->
  (forall x, (x < length (t_nodes t))%nat -> x <> k ->
    load_inode (Z.of_nat x) (b_data s' 1) = load_inode (Z.of_nat x) (b_data s 1)) ->
  (forall x, x ∈ blks -> x <> b -> b_data s' x = b_data s x) ->
  holds_body (b_data s' b) (mk_node (n_ino nd) (n_mode nd) bd) ->
  rep_with blks fb (set_body h k nd bd t) s'.
Proof using R.
  intros Hk Hb Hd Hdesc Hsz Hw Hc Hf Hnx Hsl Hk' Hother Hblk Hbd.
  pose proof (lookup_lt_Some _ _ _ Hk) as Hlt.
  pose proof R as [? ? ? ? ? ? ? ? ? ? Hir Hn Hh].
  split; cbn [set_body t_nodes t_handles t_next t_room];
    rewrite ?length_insert; try congruence; try done.
  - rewrite list_fmap_insert. cbn [n_ino].
    by rewrite list_insert_id by (by rewrite list_lookup_fmap, Hk).
  - apply Forall_insert; [done|]. cbn [n_ino].
    by apply (proj1 (Forall_lookup _ _) Hir _ _ Hk).
  - intros x nd' b' Hx Hb'. destruct (decide (x = k)) as [->|Hxk].
    + rewrite list_lookup_insert_eq in Hx by done. injection Hx as <-.
      rewrite Hb in Hb'. injection Hb' as <-.
      destruct Hdesc as (? & ? & ? & _). exists (set_file_size (body_size bd) d).
      split; [done|]. split; [|done]. split_and!; try done.
      cbn [n_body]. by apply uwrap_id.
    + rewrite list_lookup_insert_ne in Hx by done.
      destruct (Hn _ _ _ Hx Hb') as (i & Hi & Hdi & Hbi). exists i.
      rewrite Hother by (done || by eapply lookup_lt_Some).
      split; [done|]. split; [done|]. rewrite Hblk; [done|by eapply list_elem_of_lookup_2|].
      by apply (rep_block_ne _ _ _ _ R x k).
  - intros h' k' v. rewrite Hsl, lookup_insert. case_decide as E.
    + intros [= <- <-]. split; [done|]. split; [done|].
      exists (set_file_size (body_size bd) d). split; [done|].
      by rewrite E, lookup_insert_eq.
    + intros Hl. destruct (Hh _ _ _ Hl) as (? & ? & i' & Hi' & Hs).
      split; [done|]. split; [done|]. rewrite lookup_insert_ne by done.
      destruct (decide (k' = k)) as [->|Hne].
      * rewrite Hd in Hi'. injection Hi' as <-. eexists. by split.
      * exists i'. by rewrite Hother.
Qed.
End keeping.

(** ** Adding an object *)

Section creating.
Context (blks : list Z) (fb : Z) (t : tree) (s : fs) (R : rep_with blks fb t s).
Context (dir : inode) (h k : nat) (nd : node) (ents : list entry).
Context (Ho : opened t dir = Some (h, k, nd)) (Hents : n_body nd = Dir ents).
Context (name : bytes) (m : Z) (Hname : name_ok name).
Context (Hm : 0 <= m < 2 ^ 16 /\ S_ISDIR m || S_ISREG m = true).
Context (Hsmall : (length (t_nodes t) < 64)%nat) (Hroom : (length ents < 16)%nat).
Context (j : Z) (rest : list Z) (Hfree : free_list fb = j :: rest).

Let c := Z.of_nat (length (t_nodes t)).

Lemma rep_create_pre :
  exists b d, create_pre s dir h d ents c fb j (Z.of_nat k) name m /\
    blks !! k = Some b /\ data_block_number d = b /\ b <> j /\
    load_inode (Z.of_nat k) (b_data s 1) = Some d /\ describes b nd d /\
    S_ISDIR (n_mode nd) = true /\ Forall (fun ent => 0 <= ent.2 < 2 ^ 31) ents.
Proof using All.
  destruct (rep_opened _ _ _ _ R _ _ _ _ Ho)
    as (Hp & Hk & b & d & Hb & H0 & H1 & Hbf & Hs & Hl & Hd & Hh).
  pose proof Hd as (Hno & _ & Hblk & Hsz). unfold holds_body in Hh. rewrite Hents in Hh.
  destruct Hh as (Hdir & _ & Hisdir & Hrange).
  destruct (free_list_lowest _ _ _ Hfree) as (Hj & Hbit & Hlow).
  pose proof (lookup_lt_Some _ _ _ Hk).
  exists b, d. split; [|split_and!; try done].
  - split; try done.
    + split; try done.
      * apply (rw_wf _ _ _ _ R).
      * apply (rw_count _ _ _ _ R).
      * lia.
      * apply (rw_free _ _ _ _ R).
    + by rewrite Hblk.
    + by rewrite Hblk.
    + unfold dir_children_count. by rewrite Hsz, Hents.
    + split; [lia|]. rewrite Hno. by apply (rep_slot_no _ _ _ _ R).
    + intros x Hx. rewrite Hno. by apply (rep_slot_first _ _ _ _ R k).
    + lia.
    + destruct Hname as [_ Hlen]. unfold SIMPLEFS_FILENAME_MAXLEN in Hlen. lia.
  - intros ->. apply Hbf. rewrite Hfree. apply list_elem_of_here.
Qed.

Lemma create_result_slab p d g dA dB dC dD dE dF :
  slab (create_result s p d ents c j m g dA dB dC dD dE dF) =
  <[p := set_dir_children_count (Z.of_nat (length ents) + 1) d]>
    (<[slab_next s := created_inode c j m g]> (slab s)).
Proof using.
  unfold create_result, pre_link_state. bd. by rewrite !insert_insert_eq.
Qed.

(** The objects after the creation, and the blocks they use. *)
Let nd' := mk_node (n_ino nd) (n_mode nd) (Dir (ents ++ [(name, c + 8)])).
Let new := mk_node (c + 8) m (if S_ISDIR m then Dir [] else Reg []).

Lemma created_blocks :
  NoDup (blks ++ [j]) /\
  Forall (fun b => b <> 0 /\ b <> 1 /\ b ∉ free_list (Z.clearbit fb j)) (blks ++ [j]).
Proof using R Hfree.
  clear Hsmall Hroom. destruct (free_list_lowest _ _ _ Hfree) as (Hj & _).
  assert (j ∉ rest) as Hjr.
  { assert (NoDup (free_list fb)) as Hnd by (apply NoDup_filter, NoDup_seqZ).
    rewrite Hfree in Hnd. by apply NoDup_cons in Hnd as []. }
  rewrite (free_list_clearbit _ _ _ Hfree).
  pose proof (rw_used _ _ _ _ R) as Hu. rewrite Hfree in Hu. split.
  - apply NoDup_app. split; [apply (rw_distinct _ _ _ _ R)|].
    split; [|apply NoDup_singleton].
    intros x Hx ->%list_elem_of_singleton.
    destruct (proj1 (Forall_forall _ _) Hu _ Hx) as (_ & _ & Hn). by apply Hn; left.
  - apply Forall_app. split.
    + eapply Forall_impl; [exact Hu|]. intros x (? & ? & Hn). split_and!; [done|done|].
      intros ?. apply Hn. by right.
    + apply Forall_singleton. split_and!; [lia|lia|done].
Qed.

Lemma created_numbers :
  let nodes := <[k := nd']> (t_nodes t) ++ [new] in
  t_nodes t !! k = Some nd ->
  NoDup (n_ino <$> nodes) /\
  Forall (fun nd => 0 <= n_ino nd < Z.of_nat (length nodes) + 8) nodes.
Proof using R.
  clear Hsmall Hroom Hm. intros nodes Hk. pose proof (rw_ino_range _ _ _ _ R) as Hr.
  assert (n_ino <$> <[k := nd']> (t_nodes t) = n_ino <$> t_nodes t) as E.
  { rewrite list_fmap_insert. apply list_insert_id. by rewrite list_lookup_fmap, Hk. }
  unfold nodes. split.
  - rewrite fmap_app, E. apply NoDup_app. split; [apply (rw_inos _ _ _ _ R)|].
    split; [|apply NoDup_singleton]. intros x (nd0 & -> & Hx)%list_elem_of_fmap.
    pose proof (proj1 (Forall_forall _ _) Hr _ Hx) as Hlt. simpl in Hlt.
    intros Hin%list_elem_of_singleton. cbn [new n_ino] in Hin. subst c. lia.
  - rewrite length_app, length_insert. cbn [length].
    apply Forall_app. split; [apply Forall_insert|apply Forall_singleton].
    + eapply Forall_impl; [exact Hr|]. cbn beta. intros. lia.
    + pose proof (proj1 (Forall_lookup _ _) Hr _ _ Hk) as Hlt. cbn beta in Hlt.
      cbn [nd' n_ino]. lia.
    + cbn [new n_ino]. subst c. lia.
Qed.

Section created.
Context (b : Z) (d : simplefs_inode).
Context (Hpre : create_pre s dir h d ents c fb j (Z.of_nat k) name m).
Context (Hb : blks !! k = Some b) (Hblk : data_block_number d = b) (Hbj : b <> j).
Context (Hd : load_inode (Z.of_nat k) (b_data s 1) = Some d) (Hdesc : describes b nd d).
Context (Hdir : S_ISDIR (n_mode nd) = true).
Context (Hrange : Forall (fun ent => 0 <= ent.2 < 2 ^ 31) ents).
Context (g : simplefs_inode) (dA dB dC dD dE dF : bytes).
Context (W : create_writes s d ents c fb j (Z.of_nat k) name m g dA dB dC dD dE dF).
Context (Hg : wf_inode g).

Let s' := create_result s h d ents c j m g dA dB dC dD dE dF.
Let d' := set_dir_children_count (Z.of_nat (length ents) + 1) d.

Lemma created_post :
  create_post s s' h d ents c fb j (Z.of_nat k) name m (created_inode c j m g).
Proof using Hpre W Hg. by apply (create_result_post s dir). Qed.

Lemma created_size : size_or_children d' = Z.of_nat (length ents) + 1.
Proof using Hroom. clear - Hroom. apply uwrap_id. int_lia. Qed.

(** Every object of the new tree is in its slot and its block. *)
Lemma created_nodes x nd0 b0 :
  (<[k := nd']> (t_nodes t) ++ [new]) !! x = Some nd0 -> (blks ++ [j]) !! x = Some b0 ->
  exists i, load_inode (Z.of_nat x) (b_data s' 1) = Some i /\
    describes b0 nd0 i /\ holds_body (b_data s' b0) nd0.
Proof using All.
  destruct created_post as [(Pm & Pn & Pb & Ps) Pdir _ _ _ _ Pslot Ppar Poth Pblk].
  pose proof (rw_blks _ _ _ _ R) as Hlen. pose proof created_size as Hsize.
  pose proof (lookup_lt_Some _ _ _ Hb) as Hkl. rewrite Hlen in Hkl.
  intros Hx Hb0. apply lookup_app_Some in Hx as [Hx|[Hx1 Hx]].
  - pose proof (lookup_lt_Some _ _ _ Hx) as Hlt. rewrite length_insert in Hlt.
    rewrite lookup_app_l in Hb0 by lia.
    destruct (decide (x = k)) as [->|Hxk].
    + rewrite list_lookup_insert_eq in Hx by done. injection Hx as <-.
      rewrite Hb in Hb0. injection Hb0 as <-. exists d'. split; [exact Ppar|].
      destruct Hdesc as (E1 & E2 & E3 & _). split.
      * split_and!; [done|done|done|]. rewrite Hsize. cbn. rewrite length_app. cbn. lia.
      * split; [done|]. cbn [nd' n_body]. rewrite length_app. cbn [length].
        split; [lia|]. split; [rewrite <- Hblk; by apply Pdir|].
        apply Forall_app. split; [done|]. apply Forall_singleton. cbn. subst c. lia.
    + rewrite list_lookup_insert_ne in Hx by done.
      destruct (rw_nodes _ _ _ _ R _ _ _ Hx Hb0) as (i & Hi & Hdi & Hbi). exists i.
      rewrite Poth by (subst c; lia). split; [done|]. split; [done|].
      destruct (proj1 (Forall_lookup _ _) (rw_used _ _ _ _ R) _ _ Hb0) as (? & ? & _).
      rewrite Pblk; [done|done|done|]. rewrite Hblk.
      by apply (rep_block_ne _ _ _ _ R x k).
  - rewrite length_insert in Hx1, Hx. rewrite lookup_app_r in Hb0 by lia.
    apply list_lookup_singleton_Some in Hx as [Hx <-].
    apply list_lookup_singleton_Some in Hb0 as [_ <-].
    assert (x = length (t_nodes t)) as -> by lia. exists (created_inode c j m g).
    split; [exact Pslot|]. unfold new. split.
    + split_and!; try done. cbn. by destruct (S_ISDIR m).
    + unfold holds_body. cbn [n_body n_mode]. destruct (S_ISDIR m) eqn:Em.
      * split; [done|]. split; [cbn; lia|]. split; [by intros ? ? [=]|done].
      * split; [done|]. split; [cbn; lia|done].
Qed.

(** The open handles, the new one and the parent's included. *)
Lemma created_handles x y v :
  t_handles (add_node new (set_body h k nd (Dir (ents ++ [(name, c + 8)])) t)) !! x
    = Some (y, v) ->
  (y < length (<[k := nd']> (t_nodes t) ++ [new]))%nat /\ 0 <= v < 2 ^ 64 /\
  exists i, load_inode (Z.of_nat y) (b_data s' 1) = Some i /\
    slab s' !! x = Some (set_file_size v i).
Proof using All.
  destruct created_post as [_ _ _ _ _ _ Pslot Ppar Poth _].
  pose proof (rw_blks _ _ _ _ R) as Hlen. pose proof created_size as Hsize.
  pose proof (lookup_lt_Some _ _ _ Hb) as Hkl. rewrite Hlen in Hkl.
  pose proof (parent_not_fresh _ _ _ _ _ _ _ _ _ _ _ Hpre) as Hfresh.
  pose proof (rw_next _ _ _ _ R) as Hnx.
  unfold s'. rewrite create_result_slab. fold s'.
  rewrite length_app, length_insert. cbn [length add_node open_node set_body t_handles t_next t_nodes].
  rewrite length_insert, Hnx, lookup_insert. case_decide as E1.
  { intros [= <- <-]. split; [lia|]. cbn [new n_body].
    split; [destruct (S_ISDIR m); cbn; lia|]. exists (created_inode c j m g).
    split; [exact Pslot|]. rewrite lookup_insert_ne by congruence.
    rewrite E1, lookup_insert_eq. by destruct (S_ISDIR m). }
  rewrite lookup_insert. case_decide as E2.
  { intros [= <- <-]. cbn [body_size]. rewrite length_app. cbn [length].
    split; [lia|]. split; [int_lia|]. exists d'. split; [exact Ppar|].
    rewrite E2, lookup_insert_eq. unfold d', set_dir_children_count.
    rewrite set_file_size_twice. do 2 f_equal. lia. }
  intros Hl. destruct (rw_handles _ _ _ _ R _ _ _ Hl) as (Hy & Hv & i & Hi & Hs).
  split; [lia|]. split; [done|]. rewrite !lookup_insert_ne by congruence.
  destruct (decide (y = k)) as [->|Hyk].
  - rewrite Hd in Hi. injection Hi as <-. exists d'. split; [exact Ppar|]. exact Hs.
  - exists i. split; [|done]. rewrite Poth; [done|subst c; lia|lia].
Qed.

Lemma rep_created :
  wf_fs s' ->
  rep_with (blks ++ [j]) (Z.clearbit fb j)
    (add_node new (set_body h k nd (Dir (ents ++ [(name, c + 8)])) t)) s'.
Proof using All.
  intros Hw. destruct created_post as [_ _ _ _ Pcount Pfree _ _ _ _].
  destruct created_blocks as [Bd Bu]. destruct created_numbers as [Nd Nr].
  { by eapply rep_opened in Ho as (_ & ? & _). }
  split; try done.
  - rewrite Pcount. f_equal. cbn. rewrite length_app, length_insert. cbn. lia.
  - cbn. rewrite length_app, length_insert. cbn. lia.
  - cbn. f_equal. apply (rw_next _ _ _ _ R).
  - rewrite (free_list_clearbit _ _ _ Hfree). cbn.
    rewrite <- (rw_room _ _ _ _ R), Hfree. done.
  - cbn. rewrite !length_app, length_insert, (rw_blks _ _ _ _ R). done.
  - exact created_nodes.
  - exact created_handles.
Qed.
End created.
End creating.
