(* ===== verification/SimplefsSim.v ===== *)
(** * simplefs: one simulation per operation

    Each operation of the VFS, on related states and as far as the
    specification defines it, returns the specified answer and leaves related
    states ([sim_op]). *)

From S2P Require Export SimplefsRefine.

Lemma dir_ents_Some nd ents : dir_ents nd = Some ents -> n_body nd = Dir ents.
Proof. unfold dir_ents. destruct (n_body nd); congruence. Qed.
Lemma reg_content_Some nd content : reg_content nd = Some content -> n_body nd = Reg content.
Proof. unfold reg_content. destruct (n_body nd); congruence. Qed.

Section simulation.
Context (e : env kcall) (Hq : quiet e) (He : env_wf e).

(** ** Creation *)

(** The two errors reported before anything is touched. *)
Lemma create_rejected s tr dir name m c r :
  sb_inodes_count (b_data s 0) = Some c ->
  (if 64 <=? c then Some (- ENOSPC)
   else if negb (S_ISDIR m || S_ISREG m) then Some (- EINVAL) else None) = Some r ->
  exists tr', simplefs_create_fs_object dir name m e s tr = Ok r s tr' /\
    last_bound tr' = None /\ syncs tr' = syncs tr.
Proof using Hq.
  intros Hc Hr.
  enough (wp (simplefs_create_fs_object dir name m) e
    (fun v s' tr' => v = r /\ s' = s /\ last_bound tr' = None /\ syncs tr' = syncs tr) s tr) as H.
  { apply wp_run in H as (? & ? & tr' & -> & -> & -> & ?). by exists tr'. }
  unfold simplefs_create_fs_object, directory_unlock. quiet_go.
  apply (wp_get_objects_count e Hq c); [done|]. intros tr1 Hs1. cbn [from_option id].
  quiet_go. unfold SIMPLEFS_MAX_FILESYSTEM_OBJECTS_SUPPORTED.
  destruct (64 <=? c).
  - injection Hr as <-. quiet_go. split_and!; first [done|by_syncs].
  - rewrite negb_orb in Hr. destruct (negb (S_ISDIR m) && negb (S_ISREG m)); [|done].
    injection Hr as <-. quiet_go. split_and!; first [done|by_syncs].
Qed.

Lemma sim_create dir name m t s tr a t' :
  name_ok name -> 0 <= m < 2 ^ 16 -> rep t s ->
  spec_create dir name m t = Some (a, t') ->
  exists r s' tr', simplefs_create_fs_object dir name m e s tr = Ok r s' tr' /\
    a = bound r (last_bound tr') /\ rep t' s'.
Proof using Hq He.
  intros Hname Hm (blks & fb & R) Hspec. pose proof (rw_count _ _ _ _ R) as Hcount.
  pose proof (fun r => create_rejected s tr dir name m _ r Hcount) as Hrej.
  unfold spec_create in Hspec.
  destruct (Z.leb_spec 64 (Z.of_nat (length (t_nodes t)))) as [|Hsmall].
  { injection Hspec as <- <-. destruct (Hrej _ eq_refl) as (tr' & Hr & Hlb & _).
    eexists _, s, tr'. split; [exact Hr|]. rewrite Hlb. split; [done|]. by exists blks, fb. }
  destruct (S_ISDIR m || S_ISREG m) eqn:Emode; cbn [negb] in Hspec, Hrej;
    [clear Hrej|].
  2: { injection Hspec as <- <-. destruct (Hrej _ eq_refl) as (tr' & Hr & Hlb & _).
    eexists _, s, tr'. split; [exact Hr|]. rewrite Hlb. split; [done|]. by exists blks, fb. }
  apply bind_Some in Hspec as ([[h k] nd] & Eo & Hspec).
  apply bind_Some in Hspec as (ents & Hbody%dir_ents_Some & Hspec).
  destruct ((0 <? t_room t)%nat && (length ents <? 16)%nat) eqn:Eg; [|done].
  apply andb_true_iff in Eg as [Hroom%Nat.ltb_lt Hlen%Nat.ltb_lt].
  injection Hspec as <- <-.
  destruct (free_list fb) as [|j rest] eqn:Ef.
  { pose proof (rw_room _ _ _ _ R) as Hr. rewrite Ef in Hr. cbn in Hr. lia. }
  destruct (rep_create_pre blks fb t s R dir h k nd ents Eo Hbody name m Hname
    (conj Hm Emode) ltac:(lia) Hlen j rest Ef) as
    (b & d & Hpre & Hb & Hblk & Hbj & Hd & Hdesc & Hdir & Hrange).
  destruct (create_run e Hq He _ _ _ _ _ _ _ _ _ _ _ Hpre tr)
    as (g & dA & dB & dC & dD & dE & dF & tr1 & W & Hg & _ & Hr).
  eexists _, _, _. split; [exact Hr|]. split; [by rewrite (rw_next _ _ _ _ R)|].
  eexists _, _. eapply rep_created; try done; try lia.
  pose proof (keeps_create_fs_object e He dir name m (c_string_wf _ (proj1 Hname)) Hm
    s tr (rw_wf _ _ _ _ R)) as Hk.
  unfold wlp in Hk. rewrite Hr in Hk. apply Hk.
Qed.

(** ** Lookup and iteration *)

Lemma dir_find_in name ents no :
  dir_find name ents = Some no -> exists name', (name', no) ∈ ents.
Proof using.
  unfold dir_find. intros ([name' no'] & Hf & ->)%fmap_Some.
  apply find_some in Hf as [Hin _]. exists name'. by apply list_elem_of_In.
Qed.

Lemma rep_small_Z t s blks fb :
  rep_with blks fb t s -> 0 <= Z.of_nat (length (t_nodes t)) <= 128.
Proof using. intros R. pose proof (rw_small _ _ _ _ R). lia. Qed.

Lemma sim_lookup dir name t s tr a t' :
  c_string name -> rep t s -> spec_op (op_lookup dir name) t = Some (a, t') ->
  exists s' tr', simplefs_lookup dir name e s tr = Ok tt s' tr' /\
    a = bound 0 (last_bound tr') /\ rep t' s'.
Proof using Hq.
  intros Hname (blks & fb & R) Hspec. cbn [spec_op] in Hspec.
  apply bind_Some in Hspec as ([[h k] nd] & Eo & Hspec).
  apply bind_Some in Hspec as (ents & Hbody%dir_ents_Some & Hspec).
  destruct (rep_opened _ _ _ _ R _ _ _ _ Eo)
    as (Hp & Hk & b & d & Hb & _ & _ & _ & Hs & _ & (_ & _ & Hblk & Hsz) & Hh).
  unfold holds_body in Hh. rewrite Hbody in Hh, Hsz.
  destruct Hh as (_ & _ & Hisdir & Hrange). rewrite <- Hblk in Hisdir.
  pose proof (lookup_run e s tr dir h d ents name _ Hq (rw_wf _ _ _ _ R)
    (rw_count _ _ _ _ R) (rep_small_Z _ _ _ _ R) Hp Hs Hisdir Hsz) as HL.
  specialize (HL ltac:(intros ? ? Hin; exact (proj1 (Forall_forall _ _) Hrange _ Hin)) Hname).
  cbv zeta in HL. destruct (dir_find name ents) as [no|].
  2: { injection Hspec as <- <-. eexists _, _. split; [exact HL|]. split; [done|].
       by exists blks, fb. }
  apply bind_Some in Hspec as ([k' nd'] & [Hk' <-]%find_node_Some & Hspec).
  injection Hspec as <- <-. rewrite (rep_stored _ _ _ _ R _ _ Hk') in HL.
  destruct (rep_block _ _ _ _ R _ _ Hk') as (b' & i & _ & _ & _ & _ & Hi & Hd' & _).
  rewrite Hi in HL. destruct HL as [tr' HL].
  eexists _, _. split; [exact HL|]. destruct Hd' as (_ & Hmode & _). split.
  - cbn. unfold looked_up. by rewrite Hmode, (rw_next _ _ _ _ R).
  - eexists _, _. by eapply rep_open.
Qed.

Lemma sim_iterate dir pos t s tr a t' :
  rep t s -> spec_op (op_iterate dir pos) t = Some (a, t') ->
  exists r pos' s' tr', simplefs_iterate dir pos e s tr = Ok (r, pos') s' tr' /\
    a = listed r pos' (drop (length (emitted tr)) (emitted tr')) /\ rep t' s'.
Proof using Hq.
  intros HR Hspec. cbn [spec_op] in Hspec.
  destruct (Z.eqb_spec pos 0) as [->|Hpos]; cbn [negb] in Hspec.
  2: { injection Hspec as <- <-. exists 0, pos, s, tr. unfold simplefs_iterate.
       rewrite (proj2 (Z.eqb_neq _ _) Hpos), drop_all. done. }
  destruct HR as (blks & fb & R).
  apply bind_Some in Hspec as ([[h k] nd] & Eo & Hspec).
  destruct (rep_opened _ _ _ _ R _ _ _ _ Eo)
    as (Hp & Hk & b & d & Hb & _ & _ & _ & Hs & _ & (_ & Hm & Hblk & Hsz) & Hh).
  unfold holds_body in Hh. destruct (n_body nd) as [content|ents].
  - destruct Hh as (Hdir & _). injection Hspec as <- <-.
    exists (- ENOTDIR), 0, s, tr. rewrite drop_all. split; [|split; [done|by exists blks, fb]].
    unfold simplefs_iterate, SIMPLEFS_INODE, deref, mbind, M_bind, get.
    rewrite Hp. cbn. rewrite Hs. cbn. by rewrite Hm, Hdir.
  - destruct Hh as (Hdir & _ & Hisdir & _). injection Hspec as <- <-.
    rewrite <- Hblk in Hisdir. rewrite <- Hm in Hdir.
    destruct (iterate_run e s tr dir h d ents Hq Hp Hs Hdir Hisdir Hsz) as (tr' & Hr & Hem).
    eexists _, _, _, _. split; [exact Hr|]. rewrite Hem, drop_app_length.
    split; [done|by exists blks, fb].
Qed.

(** ** Contents *)

Lemma sim_read i len ppos t s tr a t' :
  0 <= len -> 0 <= ppos < 2 ^ 31 -> rep t s ->
  spec_op (op_read i len ppos) t = Some (a, t') ->
  exists r pos' s' tr', simplefs_read i len ppos e s tr = Ok (r, pos') s' tr' /\
    a = copied r pos' (if 0 <? r then last_copied tr' else []) /\ rep t' s'.
Proof using Hq.
  intros Hlen Hpos (blks & fb & R) Hspec. cbn [spec_op] in Hspec.
  apply bind_Some in Hspec as ([[h k] nd] & Eo & Hspec).
  apply bind_Some in Hspec as (content & Hbody%reg_content_Some & Hspec).
  destruct (rep_opened _ _ _ _ R _ _ _ _ Eo)
    as (Hp & Hk & b & d & Hb & _ & _ & _ & Hs & _ & (_ & _ & Hblk & Hsz) & Hh).
  unfold holds_body in Hh. rewrite Hbody in Hh, Hsz. destruct Hh as (_ & Hmax & Htake).
  cbn [body_size] in Hsz.
  pose proof (read_run e Hq s (rw_wf _ _ _ _ R) i h d Hp Hs len ppos tr Hlen Hpos) as Hr.
  unfold file_size in Hr. rewrite Hsz in Hr. specialize (Hr ltac:(lia)). cbv zeta in Hr.
  exists (if Z.of_nat (length content) <=? ppos then 0
          else Z.min (Z.of_nat (length content)) len).
  destruct (Z.leb_spec (Z.of_nat (length content)) ppos) as [Hend|Hin];
    injection Hspec as <- <-; eexists _, _, _; (split; [exact Hr|]).
  { split; [done|by exists blks, fb]. }
  split; [|by exists blks, fb].
  assert (Z.of_nat (length (take (Z.to_nat len) content)) =
    Z.min (Z.of_nat (length content)) len) as -> by (rewrite length_take; lia).
  f_equal. unfold last_copied, ev, read_bytes, file_size. rewrite Hsz, Hblk.
  rewrite <- Htake at 1. rewrite take_take.
  destruct (Z.ltb_spec 0 (Z.min (Z.of_nat (length content)) len)).
  - f_equal. lia.
  - by replace (Z.to_nat len `min` length content)%nat with 0%nat by lia.
Qed.

(** The memory after a write that goes through. *)
Lemma rep_written blks fb t s i h k nd content buf ppos d dB dI :
  rep_with blks fb t s -> opened t i = Some (h, k, nd) -> n_body nd = Reg content ->
  0 <= ppos <= Z.of_nat (length content) -> ppos + Z.of_nat (length buf) <= 4096 ->
  slab s !! h = Some d ->
  let pos := ppos + Z.of_nat (length buf) in
  let s' := set_b_data 1 dI (set_slab h (sized d pos)
    (set_b_data (data_block_number d) dB s)) in
  store ppos buf (b_data s (data_block_number d)) = Some dB ->
  store_inode (Z.of_nat k) (sized d pos) (b_data s 1) = Some dI ->
  wf_fs s' -> rep_with blks fb (set_body h k nd (Reg (content_write ppos buf content)) t) s'.
Proof using.
  intros R Ho Hbody Hp Hfit Hs pos s' HB HI Hw.
  destruct (rep_opened _ _ _ _ R _ _ _ _ Ho)
    as (_ & Hk & b & d0 & Hb & Hb0 & Hb1 & _ & Hs0 & Hl & Hd & Hh).
  rewrite Hs in Hs0. injection Hs0 as <-. pose proof Hd as (_ & _ & Hblk & Hsz).
  unfold holds_body in Hh. rewrite Hbody in Hh, Hsz. destruct Hh as (Hm & Hmax & Htake).
  cbn [body_size] in Hsz.
  assert (file_content d (b_data s b) = content) as Hold
    by (unfold file_content, file_size; by rewrite Hsz, Nat2Z.id).
  assert (body_size (Reg (content_write ppos buf content)) = pos) as Hpos.
  { unfold content_write, pos. cbn. rewrite length_app, length_take. lia. }
  subst s'. eapply rep_set_body; try done; rewrite ?Hpos; try int_lia; rewrite ?Hblk in *; bd;
    try done.
  - eapply load_store_inode_same; [|exact HI]. apply set_file_size_wf.
    by apply (wf_slab _ (rw_wf _ _ _ _ R) h).
  - intros x Hx Hxk. apply (load_store_inode_ne (Z.of_nat k) _ (sized d pos)); [lia|done].
  - intros x Hx Hxb. destruct (proj1 (Forall_forall _ _) (rw_used _ _ _ _ R) _ Hx) as (? & ? & _).
    by bd.
  - unfold holds_body. cbn [n_body n_mode]. split; [done|].
    assert (file_size (sized d pos) = pos) as Hfs
      by (unfold file_size, sized, set_file_size; cbn; apply uwrap_id; int_lia).
    pose proof (file_content_store d (sized d pos) ppos buf _ dB
      ltac:(unfold file_size; lia) HB Hfs) as Hnew.
    rewrite Hold in Hnew. unfold file_content in Hnew. rewrite Hfs in Hnew.
    cbn [body_size] in Hpos. split; [lia|].
    rewrite <- Hnew at 2. f_equal. lia.
Qed.

Lemma sim_write i buf ppos t s tr a t' :
  wf_bytes buf -> rep t s -> spec_op (op_write i buf ppos) t = Some (a, t') ->
  exists r pos' s' tr', simplefs_write i buf ppos e s tr = Ok (r, pos') s' tr' /\
    a = wrote r pos' /\ rep t' s'.
Proof using Hq He.
  intros Hbuf (blks & fb & R) Hspec. cbn [spec_op] in Hspec.
  apply bind_Some in Hspec as ([[h k] nd] & Eo & Hspec).
  apply bind_Some in Hspec as (content & Hbody%reg_content_Some & Hspec).
  destruct (_ && _) eqn:Eg in Hspec; [|done]. bool_hyps. injection Hspec as <- <-.
  destruct (rep_opened _ _ _ _ R _ _ _ _ Eo)
    as (Hp & Hk & b & d & Hb & Hb0 & Hb1 & _ & Hs & _ & (Hno & _ & Hblk & Hsz) & Hh).
  rewrite Hbody in Hsz. cbn [body_size] in Hsz.
  pose proof (lookup_lt_Some _ _ _ Hk). pose proof (rw_small _ _ _ _ R).
  pose proof (rep_slot_no _ _ _ _ R _ _ Hk) as Hslot. rewrite <- Hno in Hslot.
  assert (forall x, 0 <= x < Z.of_nat k -> slot_no (b_data s 1) x <> Some (inode_no d))
    as Hfirst by (intros x Hx; rewrite Hno; by apply (rep_slot_first _ _ _ _ R k)).
  assert (0 <= Z.of_nat k < Z.of_nat (length (t_nodes t))) as Hkr by lia.
  destruct (write_run e Hq s (rw_wf _ _ _ _ R) i h d Hp Hs
    (Z.of_nat (length (t_nodes t))) (Z.of_nat k) (rw_count _ _ _ _ R) ltac:(lia)
    (conj Hkr Hslot) Hfirst ltac:(congruence) ltac:(congruence)
    buf ppos tr ltac:(lia) ltac:(lia)) as (dB & dI & tr' & HB & HI & _ & Hr).
  eexists _, _, _, _. split; [exact Hr|]. split; [done|].
  pose proof (keeps_fs_write e He i buf ppos Hbuf s tr (rw_wf _ _ _ _ R)) as Hw.
  unfold wlp in Hw. rewrite Hr in Hw. destruct Hw as [Hw _].
  exists blks, fb. by eapply rep_written.
Qed.

(** ** The super block *)

Lemma sim_destroy i t s tr a t' :
  rep t s -> spec_op (op_destroy_inode i) t = Some (a, t') ->
  exists s' tr', simplefs_destory_inode i e s tr = Ok tt s' tr' /\ a = freed /\ rep t' s'.
Proof using.
  intros (blks & fb & R) Hspec. cbn [spec_op] in Hspec.
  apply bind_Some in Hspec as (h & Hp & Hspec).
  apply bind_Some in Hspec as ([k v] & Hh & Hspec). injection Hspec as <- <-.
  destruct (rw_handles _ _ _ _ R _ _ _ Hh) as (_ & _ & d & _ & Hd).
  unfold simplefs_destory_inode, SIMPLEFS_INODE, deref, get, mbind, M_bind.
  rewrite Hp. cbn [or_fault mret M_ret]. rewrite Hd.
  eexists _, _. split; [reflexivity|]. split; [done|].
  exists blks, fb. by apply rep_close.
Qed.

Lemma sim_fill_super t s tr a t' :
  rep t s -> spec_op op_fill_super t = Some (a, t') ->
  exists r s' tr', simplefs_fill_super e s tr = Ok r s' tr' /\
    a = bound r (super s' ≫= s_root) /\ rep t' s'.
Proof using Hq.
  intros (blks & fb & R) Hspec. cbn [spec_op] in Hspec.
  apply bind_Some in Hspec as ([k nd] & [Hk Hno]%find_node_Some & Hspec).
  injection Hspec as <- <-.
  destruct (rep_block _ _ _ _ R _ _ Hk) as (b & i & _ & _ & _ & _ & Hi & _).
  pose proof (rep_stored _ _ _ _ R _ _ Hk) as Hst. rewrite Hno, Hi in Hst.
  destruct (fill_super_run e s tr _ i Hq (rw_wf _ _ _ _ R) (rw_count _ _ _ _ R)
    (rep_small_Z _ _ _ _ R) Hst) as [tr' Hr].
  eexists _, _, _. split; [exact Hr|]. split.
  - cbn. by rewrite (rw_next _ _ _ _ R).
  - exists blks, fb. apply (rep_super _ _ _ (fresh_object i s)). by apply rep_open.
Qed.

(** ** Every operation *)

Lemma sim_call op a t t' c :
  op_ok op -> rep_run t c -> spec_op op t = Some (a, t') ->
  exists c', call_vfs e op c = inr (a, c') /\ rep_run t' c'.
Proof using Hq He.
  destruct c as [s tr]. unfold rep_run. cbn [fst]. intros Hok HR Hspec.
  destruct op as [dir name m excl|dir name m|dir name|dir pos|i len ppos|i buf ppos|i|];
    cbn [op_ok] in Hok; cbn [call_vfs].
  - destruct Hok as [Hn Hm].
    destruct (sim_create _ _ _ _ _ tr _ _ Hn Hm HR Hspec) as (r & s' & tr' & Hr & -> & HR').
    exists (s', tr'). unfold simplefs_create. by rewrite Hr.
  - destruct (sim_create _ _ _ _ _ tr _ _ Hok (uwrap_range 16 _ ltac:(done)) HR Hspec)
      as (r & s' & tr' & Hr & -> & HR').
    exists (s', tr'). unfold simplefs_mkdir. by rewrite Hr.
  - destruct (sim_lookup _ _ _ _ tr _ _ Hok HR Hspec) as (s' & tr' & Hr & -> & HR').
    exists (s', tr'). by rewrite Hr.
  - destruct (sim_iterate _ _ _ _ tr _ _ HR Hspec) as (r & pos' & s' & tr' & Hr & -> & HR').
    exists (s', tr'). by rewrite Hr.
  - destruct Hok as [Hl Hp].
    destruct (sim_read _ _ _ _ _ tr _ _ Hl Hp HR Hspec)
      as (r & pos' & s' & tr' & Hr & -> & HR').
    exists (s', tr'). by rewrite Hr.
  - destruct (sim_write _ _ _ _ _ tr _ _ Hok HR Hspec)
      as (r & pos' & s' & tr' & Hr & -> & HR').
    exists (s', tr'). by rewrite Hr.
  - destruct (sim_destroy _ _ _ tr _ _ HR Hspec) as (s' & tr' & Hr & -> & HR').
    exists (s', tr'). by rewrite Hr.
  - destruct (sim_fill_super _ _ tr _ _ HR Hspec) as (r & s' & tr' & Hr & -> & HR').
    exists (s', tr'). by rewrite Hr.
Qed.

Lemma sim_op op a t t' c :
  op_ok op -> rep_run t c -> spec_op op t = Some (a, t') ->
  exists c', invoke e op c = Some (a, c') /\ rep_run t' c'.
Proof using Hq He.
  intros Hok HR Hspec. destruct (sim_call op a t t' c Hok HR Hspec) as (c' & H & HR').
  exists c'. unfold invoke. by rewrite H.
Qed.
End simulation.
