(* ===== verification/SimplefsTreeTheorems.v ===== *)
(** * simplefs: the refinement theorem

    Sequences of VFS calls on a memory that holds a tree behave as the tree
    specification says, starting for instance from the image of [mkfs] with the
    blocks it uses marked as used. *)

From S2P Require Export SimplefsSim SimplefsTheorems.

(** ** The tree of the image *)

(** The objects [mkfs] writes, none of them open, with the bitmap [fb]. *)
Definition image_tree (fb : Z) : tree :=
  mk_tree
    [ mk_node (ino_of I_ROOT) S_IFDIR (Dir [record1; record2]);
      mk_node (ino_of I_DATA1) S_IFREG (Reg (D1_text ++ [0]));
      mk_node (ino_of I_DATA2) S_IFREG (Reg (D2_text ++ [0])) ]
    ∅ 0 (length (free_list fb)).

Lemma with_free_blocks_wf fb s s' : wf_fs s -> with_free_blocks fb s s' -> wf_fs s'.
Proof.
  intros Hw (d & Hd & ->).
  destruct (keeps_store_le 24 8 (u64 fb) _ _ (wf_block_bytes _ Hw 0) Hd) as [Hl Hb].
  apply wf_set_b_data; [done| |done]. by rewrite Hl, (wf_block_length _ Hw).
Qed.

Section image.
Context (padding : Z) (Hpad : 0 <= padding < 2 ^ 32).
Context (fd : bytes) (Hfd : 5 * 4096 <= Z.of_nat (length fd)) (Hwf : wf_bytes fd).
Context (fb : Z) (Hfb : 0 <= fb < 2 ^ 64).
Context (Hused : forall b, 2 <= b < 5 -> Z.testbit fb b = false).
Context (s : fs) (Hs : with_free_blocks fb (image_fs (mkfs padding fd)) s).

Lemma image_node k nd b :
  t_nodes (image_tree fb) !! k = Some nd -> [2; 3; 4] !! k = Some b ->
  exists i, load_inode (Z.of_nat k) (b_data s 1) = Some i /\
    describes b nd i /\ holds_body (b_data s b) nd.
Proof using Hpad Hfd Hs.
  destruct (with_free_blocks_frame _ _ _ Hs) as (_ & Hb & _).
  destruct (image_inodes padding Hpad fd Hfd) as (I0 & I1 & I2).
  destruct (image_files padding fd Hfd) as [F1 F2].
  intros Hk Hbk. destruct k as [|[|[|k]]]; [injection Hk as <-; injection Hbk as <-..|done];
    rewrite !Hb by discriminate.
  - exists (root_inode padding). split; [exact I0|].
    split; [split_and!; reflexivity|].
    split; [reflexivity|]. split; [cbn; lia|]. split; [exact (image_root_dir padding fd Hfd)|].
    repeat (apply Forall_cons; split); [cbn; lia..|apply Forall_nil_2].
  - exists (D1_inode padding). split; [exact I1|].
    split; [split_and!; reflexivity|].
    split; [reflexivity|]. split; [cbn; lia|]. exact (load_take 13 _ _ F1).
  - exists (D2_inode padding). split; [exact I2|].
    split; [split_and!; reflexivity|].
    split; [reflexivity|]. split; [cbn; lia|]. exact (load_take 13 _ _ F2).
Qed.

Lemma image_rep : rep (image_tree fb) s.
Proof using All.
  destruct (image_super padding fd Hfd) as (_ & _ & Hc & _).
  destruct (with_free_blocks_frame _ _ _ Hs) as (_ & _ & Hcount).
  exists [2; 3; 4], fb. split.
  - eapply with_free_blocks_wf; [|exact Hs]. by apply image_wf.
  - rewrite Hcount. exact Hc.
  - cbn. lia.
  - by destruct Hs as (? & _ & ->).
  - exact (with_free_blocks_read _ _ _ Hfb Hs).
  - reflexivity.
  - reflexivity.
  - by apply (bool_decide_unpack _).
  - repeat (apply Forall_cons; split); try apply Forall_nil_2;
      (split; [discriminate|]); (split; [discriminate|]); unfold free_list;
      intros [Hbit _]%list_elem_of_filter; rewrite Hused in Hbit by lia; discriminate Hbit.
  - by apply (bool_decide_unpack _).
  - repeat (apply Forall_cons; split); try apply Forall_nil_2; cbn; lia.
  - exact image_node.
  - intros h k v H. cbn in H. by rewrite lookup_empty in H.
Qed.
End image.

(** ** The refinement *)

(** C1: On a memory that holds a tree, and while no kernel service fails, every
    sequence of VFS calls that the tree specification allows runs without a
    fault, returns exactly the specified answers (the inodes bound, the entries
    listed, the bytes read), and leaves a memory that holds the specified
    tree. *)
Theorem simplefs_refines_tree e ops t l t' s tr :
  quiet e -> env_wf e -> Forall op_ok ops -> rep t s ->
  runs spec_op ops t = Some (l, t') ->
  exists s' tr', runs (invoke e) ops (s, tr) = Some (l, (s', tr')) /\ rep t' s'.
Proof.
  intros Hq He Hok HR Hspec.
  destruct (runs_simulation spec_op (invoke e) op_ok rep_run (sim_op e Hq He)
    ops l t t' (s, tr) Hok HR Hspec) as ([s' tr'] & Hrun & HR').
  by exists s', tr'.
Qed.

(** The image with the blocks of its three objects marked as used. *)
Definition used_bitmap : Z :=
  Z.clearbit (Z.clearbit (Z.clearbit mkfs_free_blocks 2) 3) 4.
Definition sound_image : fs :=
  set_b_data 0 (default [] (set_sb_free_blocks used_bitmap
    (b_data (image_fs (mkfs 0 blank)) 0))) (image_fs (mkfs 0 blank)).

Lemma used_bitmap_ok :
  0 <= used_bitmap < 2 ^ 64 /\ forall b, 2 <= b < 5 -> Z.testbit used_bitmap b = false.
Proof.
  split; [done|]. intros b Hb. assert (b = 2 \/ b = 3 \/ b = 4) as [-> | [-> | ->]] by lia;
    reflexivity.
Qed.

Lemma sound_image_rep : rep (image_tree used_bitmap) sound_image.
Proof.
  destruct used_bitmap_ok as [Hr Hu].
  apply (image_rep 0 pad0 blank blank_size blank_wf used_bitmap Hr Hu).
  destruct (set_free_blocks_Some used_bitmap (image_fs (mkfs 0 blank))
    (image_wf 0 blank blank_wf)) as [d Hd].
  exists d. split; [exact Hd|]. unfold sound_image. rewrite Hd. reflexivity.
Qed.

(** A session on it: mount, create a file and a directory with a file in it,
    write, look up a file of the image and write into it, read both files back,
    list both directories, drop an inode and look it up again. *)
Definition f_inode : inode := mk_vfs_inode 11 (created_fop f_mode) (Some 1%nat).
Definition d_mode : Z := 0x1ED.
Definition d_inode : inode :=
  mk_vfs_inode 12 (Some simplefs_dir_operations) (Some 2%nat).
Definition data1_inode : inode :=
  mk_vfs_inode 2 (Some simplefs_file_operations) (Some 4%nat).
Definition session : list vfs_op :=
  [ op_fill_super;
    op_create root_dir (str "f") f_mode true; op_write f_inode (str "hello") 0;
    op_mkdir root_dir (str "d") d_mode; op_create d_inode (str "g") f_mode true;
    op_lookup root_dir (str "Data1"); op_write data1_inode (str "HELLO") 2;
    op_read data1_inode 100 0; op_read f_inode 3 0;
    op_iterate root_dir 0; op_iterate d_inode 0;
    op_destroy_inode f_inode; op_lookup root_dir (str "f") ].

Definition session_answers : list answer :=
  [ bound 0 (Some root_dir);
    bound 0 (Some f_inode); wrote 5 5;
    bound 0 (Some d_inode);
    bound 0 (Some (mk_vfs_inode 13 (created_fop f_mode) (Some 3%nat)));
    bound 0 (Some data1_inode); wrote 5 7;
    copied 7 7 (str "I HELLO"); copied 3 3 (str "hel");
    listed 0 1024 [record1; record2; (str "f", 11); (str "d", 12)];
    listed 0 256 [(str "g", 13)];
    freed; bound 0 (Some (mk_vfs_inode 11 (created_fop f_mode) (Some 5%nat))) ].

Lemma session_ok : Forall op_ok session.
Proof.
  assert (forall n, n = str "f" \/ n = str "d" \/ n = str "g" \/ n = str "Data1" -> name_ok n)
    as N by (intros n [-> |[-> |[-> | ->]]]; by apply name_ok_bool).
  unfold session. repeat match goal with
    | |- Forall op_ok (_ :: _) => apply Forall_cons; split
    | |- Forall op_ok [] => apply Forall_nil_2
    end; cbn [op_ok];
    first [ exact I | apply N; tauto | split; [apply N; tauto|exact (proj1 f_mode_ok)]
          | apply reflect_wf_bytes; reflexivity | lia | apply (N _); tauto ].
Qed.

Lemma simplefs_refines_tree_witness :
  exists s' tr', runs (invoke quiet_env) session (sound_image, []) =
    Some (session_answers, (s', tr')).
Proof.
  assert (exists t', runs spec_op session (image_tree used_bitmap) =
    Some (session_answers, t')) as [t' Ht] by (eexists; vm_compute; reflexivity).
  destruct (simplefs_refines_tree quiet_env session (image_tree used_bitmap)
    session_answers t' sound_image [] quiet_env_quiet quiet_env_wf session_ok
    sound_image_rep Ht) as (s' & tr' & H & _).
  exists s', tr'. exact H.
Defined.

(** ** What no sequence of calls can do to a tree *)

(** [nd'] is a later state of the object [nd]: the same number, mode and kind,
    and, for a directory, the same entries followed by others. *)
Definition later (nd nd' : node) : Prop :=
  n_ino nd' = n_ino nd /\ n_mode nd' = n_mode nd /\
  match n_body nd with
  | Reg _ => exists content, n_body nd' = Reg content
  | Dir ents => exists more, n_body nd' = Dir (ents ++ more)
  end.

Definition grows (t t' : tree) : Prop :=
  forall k nd, t_nodes t !! k = Some nd ->
  exists nd', t_nodes t' !! k = Some nd' /\ later nd nd'.

(** Every entry of every directory names an object of the tree. *)
Definition closed (t : tree) : Prop :=
  forall k nd ents name no, t_nodes t !! k = Some nd -> n_body nd = Dir ents ->
  (name, no) ∈ ents -> exists k' nd', t_nodes t !! k' = Some nd' /\ n_ino nd' = no.

#[export] Instance later_preorder : PreOrder later.
Proof.
  split.
  - intros nd. split_and!; try done. destruct (n_body nd); [by eexists|].
    exists []. by rewrite app_nil_r.
  - intros x y z (I1 & M1 & B1) (I2 & M2 & B2).
    split_and!; [congruence|congruence|].
    destruct (n_body x) as [c|ents]; destruct B1 as [? B1]; rewrite B1 in B2;
      destruct B2 as [? B2]; [by eexists|]. eexists. by rewrite B2, <- app_assoc.
Qed.

#[export] Instance grows_preorder : PreOrder grows.
Proof.
  split.
  - intros t k nd Hk. by exists nd.
  - intros x y z H1 H2 k nd Hk. destruct (H1 _ _ Hk) as (nd' & Hk' & L).
    destruct (H2 _ _ Hk') as (nd'' & ? & ?). exists nd''. split; [done|by etrans].
Qed.

(** The same objects: opening and closing handles. *)
Lemma same_nodes_keep t t' :
  t_nodes t' = t_nodes t -> grows t t' /\ (closed t -> closed t').
Proof. intros E. unfold grows, closed. rewrite E. split; [by intros ? ? ?; eexists|done]. Qed.

Lemma set_body_grows h k nd b t :
  t_nodes t !! k = Some nd -> later nd (mk_node (n_ino nd) (n_mode nd) b) ->
  grows t (set_body h k nd b t).
Proof.
  intros Hk L x nd0 Hx. cbn. pose proof (lookup_lt_Some _ _ _ Hk).
  destruct (decide (x = k)) as [->|].
  - rewrite list_lookup_insert_eq by done. replace nd0 with nd by congruence. by eexists.
  - rewrite list_lookup_insert_ne by done. by exists nd0.
Qed.

Lemma grows_number t t' no :
  grows t t' -> (exists k nd, t_nodes t !! k = Some nd /\ n_ino nd = no) ->
  exists k nd, t_nodes t' !! k = Some nd /\ n_ino nd = no.
Proof.
  intros HG (k & nd & Hk & <-). destruct (HG _ _ Hk) as (nd' & ? & ? & _). by exists k, nd'.
Qed.

Lemma opened_node t i h k nd : opened t i = Some (h, k, nd) -> t_nodes t !! k = Some nd.
Proof.
  unfold opened. destruct (i_private i); [|done]. simpl.
  destruct (t_handles t !! _) as [[k' v]|]; [|done]. simpl.
  destruct (t_nodes t !! k') eqn:E; [|done]. simpl. case_match; [congruence|done].
Qed.

Lemma spec_create_keeps dir name m t a t' :
  spec_create dir name m t = Some (a, t') -> grows t t' /\ (closed t -> closed t').
Proof.
  unfold spec_create. case_match; [by intros [= <- <-]; apply same_nodes_keep|].
  case_match; [by intros [= <- <-]; apply same_nodes_keep|].
  intros Hspec. apply bind_Some in Hspec as ([[h k] nd] & Hk%opened_node & Hspec).
  apply bind_Some in Hspec as (ents & Hb%dir_ents_Some & Hspec).
  case_match; [|done]. injection Hspec as _ <-.
  set (no := Z.of_nat (length (t_nodes t)) + 8).
  set (new := mk_node no m (if S_ISDIR m then Dir [] else Reg [])).
  set (nd' := mk_node (n_ino nd) (n_mode nd) (Dir (ents ++ [(name, no)]))).
  assert (grows t (add_node new (set_body h k nd (Dir (ents ++ [(name, no)])) t))) as HG.
  { etrans; [apply (set_body_grows h k nd (Dir (ents ++ [(name, no)])) t Hk)|].
    - split_and!; [done|done|]. rewrite Hb. by eexists.
    - intros x nd0 Hx. exists nd0. split; [|done]. by apply lookup_app_l_Some. }
  split; [exact HG|]. intros HC x nd0 ents0 name0 no0. cbn [add_node open_node set_body t_nodes].
  intros Hx Hb0 Hin. apply lookup_app_Some in Hx as [Hx|[_ Hx]].
  - apply list_lookup_insert_Some in Hx as [(-> & <- & _)|[_ Hx]].
    + injection Hb0 as <-. apply elem_of_app in Hin as [Hin|Hin].
      * apply (grows_number _ _ _ HG). by eapply HC.
      * apply list_elem_of_singleton in Hin as [= -> ->].
        exists (length (t_nodes t)), new. split; [|done].
        rewrite lookup_app_r by (by rewrite length_insert).
        by rewrite length_insert, Nat.sub_diag.
    + apply (grows_number _ _ _ HG). by eapply HC.
  - apply list_lookup_singleton_Some in Hx as [_ <-].
    unfold new in Hb0. cbn in Hb0. destruct (S_ISDIR m); [|done].
    injection Hb0 as <-. by apply not_elem_of_nil in Hin.
Qed.

Lemma spec_op_keeps op t a t' :
  spec_op op t = Some (a, t') -> grows t t' /\ (closed t -> closed t').
Proof.
  destruct op as [dir name m excl|dir name m|dir name|dir pos|i len ppos|i buf ppos|i|];
    cbn [spec_op]; try apply spec_create_keeps; intros Hspec.
  - apply bind_Some in Hspec as ([[h k] nd] & _ & Hspec).
    apply bind_Some in Hspec as (ents & _ & Hspec).
    destruct (dir_find name ents); [|by injection Hspec as _ <-; apply same_nodes_keep].
    apply bind_Some in Hspec as ([k' nd'] & _ & Hspec).
    injection Hspec as _ <-. by apply same_nodes_keep.
  - destruct (negb _); [by injection Hspec as _ <-; apply same_nodes_keep|].
    apply bind_Some in Hspec as ([[h k] nd] & _ & Hspec).
    destruct (n_body nd); injection Hspec as _ <-; by apply same_nodes_keep.
  - apply bind_Some in Hspec as ([[h k] nd] & _ & Hspec).
    apply bind_Some in Hspec as (content & _ & Hspec).
    case_match; injection Hspec as _ <-; by apply same_nodes_keep.
  - apply bind_Some in Hspec as ([[h k] nd] & Hk%opened_node & Hspec).
    apply bind_Some in Hspec as (content & Hb%reg_content_Some & Hspec).
    case_match; [|done]. injection Hspec as _ <-.
    set (b := Reg (content_write ppos buf content)).
    assert (grows t (set_body h k nd b t)) as HG.
    { apply set_body_grows; [done|]. split_and!; [done|done|]. rewrite Hb. by eexists. }
    split; [exact HG|]. intros HC x nd0 ents0 name0 no0 Hx Hb0 Hin.
    apply (grows_number _ _ _ HG).
    apply list_lookup_insert_Some in Hx as [(_ & <- & _)|[_ Hx]]; [done|by eapply HC].
  - apply bind_Some in Hspec as (h & _ & Hspec). apply bind_Some in Hspec as (kv & _ & Hspec).
    injection Hspec as _ <-.
    by apply same_nodes_keep.
  - apply bind_Some in Hspec as ([k nd] & _ & Hspec). injection Hspec as _ <-.
    by apply same_nodes_keep.
Qed.

Lemma runs_keep ops l t t' :
  runs spec_op ops t = Some (l, t') -> grows t t' /\ (closed t -> closed t').
Proof.
  revert l t. induction ops as [|op ops IH]; intros l t; cbn [runs].
  { intros [= _ <-]. by split. }
  intros ([a t1] & Hop & Hrest)%bind_Some.
  apply bind_Some in Hrest as ([l1 t2] & Hrest & [= _ <-]).
  destruct (spec_op_keeps _ _ _ _ Hop) as [G1 C1]. destruct (IH _ _ Hrest) as [G2 C2].
  split; [by etrans|auto].
Qed.

(** Looking a name up through a current handle is defined in a closed tree. *)
Lemma closed_lookup t dir h k nd name :
  closed t -> opened t dir = Some (h, k, nd) -> is_Some (dir_ents nd) ->
  is_Some (spec_op (op_lookup dir name) t).
Proof.
  intros HC Ho [ents Hents]. cbn [spec_op]. rewrite Ho. cbn [mbind option_bind].
  rewrite Hents. cbn [mbind option_bind]. apply dir_ents_Some in Hents.
  destruct (dir_find name ents) as [no|] eqn:Ef; [|by eexists].
  apply dir_find_in in Ef as [name' Hin].
  destruct (HC k nd ents name' no (opened_node _ _ _ _ _ Ho) Hents Hin) as (k' & nd' & Hk' & Hno).
  destruct (find_node t no) as [[k1 nd1]|] eqn:E; [by eexists|].
  unfold find_node in E. apply list_find_None in E.
  by destruct (proj1 (Forall_lookup _ _) E _ _ Hk' Hno).
Qed.

(** C14: As long as no service fails and no wait is interrupted: starting from a tree
    whose entries all name objects, no sequence of calls that the tree
    specification allows makes an entry dangle: afterwards a lookup of any name
    through a current handle returns, it never dereferences the NULL of an inode
    not found.  (With a signal it may: C40.) *)
Theorem lookup_never_dangles e ops t l t' s tr dir h k nd name :
  quiet e -> env_wf e -> Forall op_ok ops -> rep t s -> closed t ->
  runs spec_op ops t = Some (l, t') ->
  opened t' dir = Some (h, k, nd) -> is_Some (dir_ents nd) -> c_string name ->
  exists s1 tr1 s2 tr2,
    runs (invoke e) ops (s, tr) = Some (l, (s1, tr1)) /\
    simplefs_lookup dir name e s1 tr1 = Ok tt s2 tr2.
Proof.
  intros Hq He Hok HR HC Hspec Ho Hd Hn.
  destruct (runs_simulation spec_op (invoke e) op_ok rep_run (sim_op e Hq He)
    ops l t t' (s, tr) Hok HR Hspec) as ([s1 tr1] & Hrun & HR1).
  destruct (runs_keep _ _ _ _ Hspec) as [_ HC1].
  destruct (closed_lookup _ _ _ _ _ name (HC1 HC) Ho Hd) as [[a t2] Hl].
  destruct (sim_lookup e Hq dir name t' s1 tr1 a t2 Hn HR1 Hl) as (s2 & tr2 & Hr & _).
  by exists s1, tr1, s2, tr2.
Qed.

Lemma image_closed fb : closed (image_tree fb).
Proof.
  intros k nd ents name no Hk Hb Hin.
  destruct k as [|[|[|k]]]; [injection Hk as <-; cbn in Hb; try discriminate Hb..|discriminate Hk].
  injection Hb as <-. apply elem_of_cons in Hin as [E|E%list_elem_of_singleton];
    injection E as -> ->; [by exists 1%nat; eexists|by exists 2%nat; eexists].
Qed.

Lemma lookup_never_dangles_witness :
  exists s1 tr1 s2 tr2,
    runs (invoke quiet_env) session (sound_image, []) = Some (session_answers, (s1, tr1)) /\
    simplefs_lookup root_dir (str "d") quiet_env s1 tr1 = Ok tt s2 tr2.
Proof.
  assert (exists t' h k nd, runs spec_op session (image_tree used_bitmap) =
    Some (session_answers, t') /\ opened t' root_dir = Some (h, k, nd) /\
    is_Some (dir_ents nd)) as (t' & h & k & nd & Ht & Ho & Hd).
  { eexists _, _, _, _. split; [vm_compute; reflexivity|].
    split; [vm_compute; reflexivity|]. eexists. vm_compute. reflexivity. }
  apply (lookup_never_dangles quiet_env session (image_tree used_bitmap) session_answers t'
    sound_image [] root_dir h k nd (str "d") quiet_env_quiet quiet_env_wf session_ok
    sound_image_rep (image_closed _) Ht Ho Hd).
  by apply (name_ok_bool (str "d")).
Defined.

(** The image of [mkfs] holds the tree of its three objects, the root directory
    with its two entries and the two files with their contents, as soon as the
    bitmap marks their blocks as used (the one [mkfs] writes does not). *)
Theorem image_is_tree padding fd fb s :
  0 <= padding < 2 ^ 32 -> 5 * 4096 <= Z.of_nat (length fd) -> wf_bytes fd ->
  0 <= fb < 2 ^ 64 -> (forall b, 2 <= b < 5 -> Z.testbit fb b = false) ->
  with_free_blocks fb (image_fs (mkfs padding fd)) s ->
  rep (image_tree fb) s /\ closed (image_tree fb).
Proof. intros. split; [by apply (image_rep padding) with fd|apply image_closed]. Qed.

Lemma image_is_tree_witness : rep (image_tree used_bitmap) sound_image.
Proof.
  destruct (set_free_blocks_Some used_bitmap (image_fs (mkfs 0 blank))
    (image_wf 0 blank blank_wf)) as [d Hd].
  apply (image_is_tree 0 blank used_bitmap sound_image pad0 blank_size blank_wf
    (proj1 used_bitmap_ok) (proj2 used_bitmap_ok)).
  exists d. split; [exact Hd|]. unfold sound_image. rewrite Hd. reflexivity.
Defined.
