(* ===== verification/SimplefsPartial.v ===== *)
(** * simplefs: the steps of an operation on the tree

    An operation that does not go through to its end leaves a memory that still
    holds a tree, but not the specified one.  Each step of creating and writing
    is given its effect on the tree: an in-core object nobody holds ([leak]), a
    block taken ([take_block]), an inode stored that no entry names
    ([store_node]), contents changed with the size as it was ([rep_rewrite]), a
    handle with a size that is not the stored one ([restale]). *)

From S2P Require Export SimplefsSim.

(** ** Steps on trees *)

Definition leak (t : tree) : tree :=
  mk_tree (t_nodes t) (t_handles t) (S (t_next t)) (t_room t).
Definition take_block (t : tree) : tree :=
  mk_tree (t_nodes t) (t_handles t) (t_next t) (pred (t_room t)).
Definition store_node (nd : node) (t : tree) : tree :=
  mk_tree (t_nodes t ++ [nd]) (t_handles t) (t_next t) (t_room t).
Definition restale (h k : nat) (v : Z) (t : tree) : tree :=
  mk_tree (t_nodes t) (<[h := (k, v)]> (t_handles t)) (t_next t) (t_room t).

Lemma opened_handle t i h k nd :
  opened t i = Some (h, k, nd) ->
  i_private i = Some h /\ t_nodes t !! k = Some nd /\
  t_handles t !! h = Some (k, body_size (n_body nd)).
Proof.
  unfold opened. destruct (i_private i) as [h'|]; [|done]. simpl.
  destruct (t_handles t !! h') as [[k' v]|] eqn:Eh; [|done]. simpl.
  destruct (t_nodes t !! k') as [nd'|] eqn:Ek; [|done]. simpl.
  destruct (Z.eqb_spec v (body_size (n_body nd'))) as [->|]; [|done].
  by intros [= <- <- <-].
Qed.

(** Writing back what an object contains changes nothing. *)
Lemma set_body_same t i h k nd :
  opened t i = Some (h, k, nd) -> set_body h k nd (n_body nd) t = t.
Proof.
  intros (_ & Hk & Hh)%opened_handle. unfold set_body. destruct nd as [no m bd], t. cbn in *.
  by rewrite list_insert_id, insert_id.
Qed.

(** ** Their effect on the memory *)

Lemma wf_write f n l s :
  keeps_block f -> wf_fs s -> f (b_data s n) = Some l -> wf_fs (set_b_data n l s).
Proof.
  intros Hf Hs Hl. destruct (Hf _ _ (wf_block_bytes _ Hs n) Hl) as [H1 H2].
  apply wf_set_b_data; [done| |done]. by rewrite H1, (wf_block_length _ Hs).
Qed.

Section steps.
Context (blks : list Z) (fb : Z) (t : tree) (s : fs) (R : rep_with blks fb t s).

Lemma fresh_handle h k v : t_handles t !! h = Some (k, v) -> h <> slab_next s.
Proof using R.
  intros Hh ->. destruct (rw_handles _ _ _ _ R _ _ _ Hh) as (_ & _ & i & _ & Hs).
  by rewrite (wf_slab_next _ (rw_wf _ _ _ _ R)) in Hs.
Qed.

Lemma rep_leak x : wf_inode x -> rep_with blks fb (leak t) (fresh_object x s).
Proof using R.
  intros Hx. pose proof R as []. split; try done.
  - by apply wf_fresh_object.
  - cbn. by f_equal.
  - intros h k v Hh. cbn in Hh. pose proof (fresh_handle _ _ _ Hh).
    destruct (rw_handles _ _ _ Hh) as (? & ? & i & ? & ?).
    split; [done|]. split; [done|]. exists i. split; [done|].
    cbn. by rewrite lookup_insert_ne.
Qed.

Lemma rep_take j rest dA :
  free_list fb = j :: rest -> set_sb_free_blocks (Z.clearbit fb j) (b_data s 0) = Some dA ->
  rep_with blks (Z.clearbit fb j) (take_block t) (set_b_data 0 dA s).
Proof using R.
  intros Hfree HA. pose proof R as []. pose proof (free_list_lowest _ _ _ Hfree) as (Hj & _).
  pose proof (sb_free_blocks_range _ _ rw_wf rw_free) as Hfb.
  assert (with_free_blocks (Z.clearbit fb j) s (set_b_data 0 dA s)) as W by (by exists dA).
  destruct (with_free_blocks_frame _ _ _ W) as (_ & Hb & Hc).
  assert (wf_fs (set_b_data 0 dA s)) as Hwf
    by (by eapply wf_write; [apply keeps_store_le| |exact HA]).
  pose proof (free_list_clearbit _ _ _ Hfree) as Hcl.
  split; try done.
  - by rewrite Hc.
  - eapply with_free_blocks_read; [by apply clearbit_range|exact W].
  - cbn. by rewrite Hcl, <- rw_room, Hfree.
  - eapply Forall_impl; [exact rw_used|]. intros x (? & ? & Hx). split_and!; [done|done|].
    rewrite Hcl. intros ?. apply Hx. rewrite Hfree. by right.
  - intros k nd b Hk Hbk. destruct (rw_nodes _ _ _ Hk Hbk) as (i & ? & ? & ?).
    destruct (proj1 (Forall_lookup _ _) rw_used _ _ Hbk) as (? & ? & _).
    exists i. by rewrite !Hb.
Qed.

(** Another stale handle, or a stale one repaired. *)
Lemma rep_restale h k v d :
  slab s !! h = Some d -> (exists w, t_handles t !! h = Some (k, w)) -> 0 <= v < 2 ^ 64 ->
  rep_with blks fb (restale h k v t) (set_slab h (set_file_size v d) s).
Proof using R.
  intros Hd [w Hw] Hv. pose proof R as [].
  destruct (rw_handles _ _ _ Hw) as (Hk & _ & i & Hi & Hs).
  rewrite Hd in Hs. injection Hs as ->. split; try done.
  - apply wf_set_slab; [done| |by eexists].
    apply set_file_size_wf. by apply (wf_slab _ rw_wf h).
  - intros h' k' v'. cbn [restale t_handles set_slab slab]. rewrite lookup_insert.
    case_decide as E.
    + intros [= <- <-]. split; [done|]. split; [done|]. exists i. split; [done|].
      by rewrite E, lookup_insert_eq.
    + intros Hh. destruct (rw_handles _ _ _ Hh) as (? & ? & i' & ? & ?).
      split; [done|]. split; [done|]. exists i'. by rewrite lookup_insert_ne.
Qed.

(** An inode stored and counted. *)
Lemma rep_store x nd j dB dC :
  let c := Z.of_nat (length (t_nodes t)) in
  c < 64 -> n_ino nd = c + 8 -> describes j nd x -> wf_inode x ->
  (forall l, holds_body l nd) ->
  j <> 0 -> j <> 1 -> j ∉ free_list fb -> j ∉ blks ->
  set_sb_inodes_count (c + 1) (b_data s 0) = Some dB ->
  store_inode c x (b_data s 1) = Some dC ->
  rep_with (blks ++ [j]) fb (store_node nd t) (set_b_data 0 dB (set_b_data 1 dC s)).
Proof using R.
  intros c Hc Hno Hdesc Hx Hbody Hj0 Hj1 Hjf Hjb HB HC. pose proof R as [].
  assert (wf_fs (set_b_data 1 dC s)) as Hwf1
    by (by eapply wf_write; [apply keeps_store_inode| |exact HC]).
  assert (wf_fs (set_b_data 0 dB (set_b_data 1 dC s))) as Hwf
    by (by eapply wf_write; [apply keeps_store_le| |exact HB]).
  assert (forall y, (y < length (t_nodes t))%nat ->
    load_inode (Z.of_nat y) dC = load_inode (Z.of_nat y) (b_data s 1)) as Hold.
  { intros y Hy. apply (load_store_inode_ne c _ x); [lia|done]. }
  split; cbn [store_node t_nodes t_handles t_next t_room]; rewrite ?length_app; try done; bd.
  - rewrite (set_inodes_count_read (c + 1) _ _ ltac:(int_lia) HB). cbn. f_equal. lia.
  - cbn. lia.
  - by rewrite (set_inodes_count_free_blocks _ _ _ HB).
  - cbn. lia.
  - apply NoDup_app. split; [done|]. split; [|apply NoDup_singleton].
    by intros y Hy ->%list_elem_of_singleton.
  - by apply Forall_app_2; [|apply Forall_singleton].
  - rewrite fmap_app. apply NoDup_app. split; [done|]. split; [|apply NoDup_singleton].
    intros y (nd0 & -> & Hin)%list_elem_of_fmap.
    pose proof (proj1 (Forall_forall _ _) rw_ino_range _ Hin) as Hlt. cbn beta in Hlt.
    intros Hy%list_elem_of_singleton. lia.
  - apply Forall_app_2; [|apply Forall_singleton; cbn; lia].
    eapply Forall_impl; [exact rw_ino_range|]. cbn. lia.
  - intros y nd0 b0 Hy Hb0. apply lookup_app_Some in Hy as [Hy|[Hle Hy]].
    + pose proof (lookup_lt_Some _ _ _ Hy). rewrite lookup_app_l in Hb0 by lia.
      destruct (rw_nodes _ _ _ Hy Hb0) as (i & Hi & Hd & Hh). exists i.
      destruct (proj1 (Forall_lookup _ _) rw_used _ _ Hb0) as (? & ? & _).
      rewrite Hold by done. by bd.
    + rewrite lookup_app_r in Hb0 by lia.
      apply list_lookup_singleton_Some in Hy as [Hy <-].
      apply list_lookup_singleton_Some in Hb0 as [_ <-].
      assert (Z.of_nat y = c) as -> by lia. exists x. split; [|by split; [|apply Hbody]].
      by eapply load_store_inode_same.
  - intros h k v Hh. destruct (rw_handles _ _ _ Hh) as (Hk & ? & i & ? & ?).
    split; [cbn; lia|]. split; [done|]. exists i. by rewrite Hold.
Qed.

(** New contents of an open object in its block, of the same size. *)
Lemma rep_rewrite i h k nd bd d l :
  opened t i = Some (h, k, nd) -> slab s !! h = Some d ->
  length l = 4096%nat -> wf_bytes l -> body_size bd = body_size (n_body nd) ->
  holds_body l (mk_node (n_ino nd) (n_mode nd) bd) ->
  rep_with blks fb (set_body h k nd bd t) (set_b_data (data_block_number d) l s).
Proof using R.
  intros Ho Hs Hl Hb Hsize Hbody.
  destruct (rep_opened _ _ _ _ R _ _ _ _ Ho)
    as (_ & Hk & b & d' & Hbk & Hb0 & Hb1 & _ & Hs' & Hld & Hdesc & _).
  rewrite Hs in Hs'. injection Hs' as <-. pose proof Hdesc as (_ & _ & Hblk & Hsz).
  rewrite Hblk. pose proof (rw_wf _ _ _ _ R) as Hwf.
  pose proof (wf_slab _ Hwf _ _ Hs) as Hd. pose proof Hd as (_ & _ & _ & _ & Hr).
  rewrite <- Hsz in Hsize.
  assert (set_file_size (body_size bd) d = d) as Hsame
    by (rewrite Hsize; by apply set_file_size_same).
  assert (wf_fs (set_b_data b l s)) as Hwf' by (by apply wf_set_b_data).
  eapply rep_set_body; try done; bd; rewrite ?Hsame; try done.
  - by rewrite Hsize.
  - by rewrite insert_id.
  - intros x _ Hx. by bd.
Qed.
End steps.

(** The buffers matter only for what they contain. *)
Lemma rep_with_ext blks fb t s s' :
  (forall n, b_data s' n = b_data s n) -> slab s' = slab s -> slab_next s' = slab_next s ->
  rep_with blks fb t s -> rep_with blks fb t s'.
Proof.
  intros Hb Hs Hn []. destruct rw_wf as [H1 H2 H3 H4].
  split; rewrite ?Hb, ?Hs, ?Hn; try done.
  - split; rewrite ?Hs, ?Hn; try done; intros n; by rewrite Hb.
  - intros k nd b. rewrite !Hb. apply rw_nodes.
Qed.
