(* ===== verification/SimplefsFailures.v ===== *)
(** * simplefs: sequences of operations in which services fail

    Memory may run out, a block may be unreadable and a user buffer may be bad,
    at any point of any operation; only waits for mutexes are not interrupted
    (what a signal does is in [SimplefsErrors]).  [like] compares a run with the
    run in an environment where nothing fails: it goes the same way until the
    first failure, and then stops at once or returns an error.  From this and
    the simulation of [SimplefsSim] every sequence of calls follows the tree
    specification, extended by the errors of [fails]. *)

From S2P Require Export SimplefsTreeTheorems SimplefsPartial.

(** ** Environments *)

(** No wait is interrupted. *)
Definition no_signals (e : env kcall) : Prop :=
  forall tr l, e tr (mutex_lock_interruptible l) = 0.

#[export] Instance answer_ok_dec c r : Decision (answer_ok c r).
Proof. destruct c; simpl; apply _. Defined.

(** The environment that answers like [e] except that nothing fails. *)
Definition quieten (e : env kcall) : env kcall := fun tr c =>
  if decide (answer_ok c (e tr c)) then e tr c else quiet_env tr c.

Lemma quieten_quiet e : quiet (quieten e).
Proof. intros tr c. unfold quieten. case_decide; [done|apply quiet_env_quiet]. Qed.

Lemma quieten_wf e : env_wf e -> env_wf (quieten e).
Proof. intros He tr c. unfold quieten. case_decide; [apply He|apply quiet_env_wf]. Qed.

Lemma quieten_same e tr c : answer_ok c (e tr c) -> quieten e tr c = e tr c.
Proof. intros H. unfold quieten. by rewrite decide_True. Qed.

(** ** Comparing runs *)

(** The two ways the code stops on a failure that it does not report. *)
Definition stop (x : fault) : Prop := x = BugOn \/ x = NullDeref.

(** [like m s B]: from [s], in every environment without signals, [m] returns or
    stops as it does when nothing fails, or stops at a failure, or returns as [B]
    says.  [bad m s B]: it stops at a failure or returns as [B] says. *)
Definition like {A} (m : K A) (s : fs) (B : A -> fs -> trace kcall -> Prop) : Prop :=
  forall e tr, no_signals e ->
  match m e s tr with
  | Ok a s' tr' => m (quieten e) s tr = Ok a s' tr' \/ B a s' tr'
  | Fault x s' tr' => m (quieten e) s tr = Fault x s' tr' \/ stop x
  end.
Definition bad {A} (m : K A) (s : fs) (B : A -> fs -> trace kcall -> Prop) : Prop :=
  forall e tr,
  match m e s tr with Ok a s' tr' => B a s' tr' | Fault x _ _ => stop x end.

Definition never {A} (a : A) (s' : fs) (tr : trace kcall) : Prop := False.

(** From any state, nothing but what happens when nothing fails, or a stop. *)
Definition calm {A} (m : K A) : Prop := forall s, like m s never.

Section rules.
Context {A R : Type}.
Implicit Types B : A -> fs -> trace kcall -> Prop.

Lemma like_ret (a : A) s B : like (mret a) s B.
Proof. intros e tr He. by left. Qed.
Lemma like_fail x s B : like (fail x) s B.
Proof. intros e tr He. by left. Qed.
Lemma bad_fail x s B : stop x -> bad (fail x) s B.
Proof. by intros H e tr. Qed.

Lemma like_bind (m : K R) (f : R -> K A) s B :
  like m s never -> (forall a s', like (f a) s' B) -> like (m ≫= f) s B.
Proof.
  intros Hm Hf e tr He. specialize (Hm e tr He). unfold mbind, M_bind.
  destruct (m e s tr) as [a s1 tr1|x s1 tr1].
  - destruct Hm as [-> | Hm]; [by apply Hf|done].
  - destruct Hm as [-> | Hx]; [by left|by right].
Qed.

(** A call: when it does not fail the runs go on together. *)
Lemma like_call c (f : resp c -> K A) s B :
  (forall r, answer_ok c r -> like (f r) s B) ->
  (forall r, ~ answer_ok c r -> (forall l, c <> mutex_lock_interruptible l) -> bad (f r) s B) ->
  like (call c ≫= f) s B.
Proof.
  intros Hok Hbad e tr He. unfold mbind, M_bind, call.
  destruct (decide (answer_ok c (e tr c))) as [Ha|Ha].
  - rewrite (quieten_same e tr c Ha). by apply Hok.
  - assert (forall l, c <> mutex_lock_interruptible l) as Hc.
    { intros l ->. apply Ha. apply He. }
    specialize (Hbad _ Ha Hc e (existT c (e tr c) :: tr)).
    destruct (f (e tr c) e s _); by right.
Qed.

Lemma like_buf_read n (g : bytes -> option R) (f : R -> K A) s B :
  (forall a, like (f a) s B) -> like (buf_read n g ≫= f) s B.
Proof.
  intros Hf e tr He. unfold buf_read, get, mbind, M_bind.
  destruct (g (b_data s n)); [by apply Hf|by left].
Qed.
Lemma like_deref p i (f : simplefs_inode -> K A) s B :
  slab s !! p = Some i -> like (f i) s B -> like (deref (Some p) ≫= f) s B.
Proof.
  intros Hp Hf e tr He. unfold deref, get, mbind, M_bind. simpl. rewrite Hp. by apply Hf.
Qed.

(** An allocation. *)
Lemma like_alloc (f : option nat -> K A) s B :
  (forall p s', like (f (Some p)) s' B) -> bad (f None) s B -> like (alloc_inode ≫= f) s B.
Proof.
  intros Hs Hn e tr He. unfold alloc_inode, mbind, M_bind, call.
  destruct (e tr kmem_cache_alloc) as [g|] eqn:E.
  - rewrite (quieten_same e tr kmem_cache_alloc) by (rewrite E; by eexists). rewrite E.
    by apply Hs.
  - cbn. specialize (Hn e (existT kmem_cache_alloc None :: tr)).
    destruct (f None e s _); by right.
Qed.
End rules.

Lemma like_never {A} (m : K A) s B : like m s never -> like m s B.
Proof.
  intros H e tr He. specialize (H e tr He). destruct (m e s tr) as [a s' tr'|x s' tr'].
  - destruct H as [H|[]]. by left.
  - done.
Qed.

Lemma calm_get : calm get.
Proof. intros s e tr He. by left. Qed.
Lemma calm_modify f : calm (modify f).
Proof. intros s e tr He. by left. Qed.
Lemma calm_or_fault {A} x (o : option A) : calm (or_fault x o).
Proof. intros s. destruct o; [apply like_ret|apply like_fail]. Qed.
Lemma calm_buf_write n f : calm (buf_write n f).
Proof.
  intros s e tr He. unfold buf_write, get, mbind, M_bind. destruct (f (b_data s n)); by left.
Qed.
Lemma calm_deref p : calm (deref p).
Proof.
  intros s e tr He. unfold deref, get, mbind, M_bind. destruct p as [q|]; simpl; [|by left].
  destruct (slab s !! q); by left.
Qed.
Lemma calm_assign p f : calm (assign p f).
Proof.
  intros s. unfold assign. apply like_bind; [apply calm_deref|]. intros i s'.
  apply like_bind; [apply calm_or_fault|]. intros q s''. apply calm_modify.
Qed.

(** ** The operations *)

(** An unreadable block where BUG_ON looks at it. *)
Lemma bad_bread {A} n r (k : K A) s B :
  ~ answer_ok (sb_bread n) r -> bad (BUG_ON (negb r) ;; k) s B.
Proof. intros Hr e tr. destruct r; [done|]. by left. Qed.

(** A step of a comparison. *)
Create HintDb calm.
#[export] Hint Resolve calm_get calm_modify calm_or_fault calm_buf_write calm_deref
  calm_assign : calm.

Ltac like_step :=
  lazymatch goal with
  | |- like (mret _) _ _ => apply like_ret
  | |- like (fail _) _ _ => apply like_fail
  | |- like (BUG_ON _) _ _ => unfold BUG_ON
  | |- like (call (sb_bread ?n) ≫= (fun r => BUG_ON (negb r) ≫= _)) ?s ?B =>
      refine (like_call (sb_bread n) _ s B _ _);
        [intros ? ->; cbn [negb BUG_ON]|intros ? ? _; by apply bad_bread]
  | |- like (call ?c ≫= _) ?s ?B =>
      refine (like_call c _ s B _ _);
        [let Hr := fresh in intros ? Hr; cbn in Hr; try subst; cbn [negb Z.eqb]
        |intros ? Hbad Hlock;
        try (by destruct (Hbad I)); try (by destruct (Hlock _ eq_refl))]
  | |- like (mret ?a ≫= ?k) ?s ?B => change (like (k a) s B)
  | |- like (buf_read _ _ ≫= _) _ _ => apply like_buf_read; intros ?
  | |- like (SIMPLEFS_SB _ ≫= _) _ _ => apply like_buf_read; intros ?
  | |- like ((if ?b then _ else _) ≫= _) _ _ => destruct b
  | |- like ((_ ≫= _) ≫= _) _ _ => apply like_bind; [|intros ? ?]
  | |- like (?m ≫= _) ?s _ =>
      apply like_bind; [refine ((_ : calm m) s); by auto with calm|intros ? ?]
  | |- like (if ?b then _ else _) _ _ => destruct b
  | |- like (match ?x with _ => _ end) _ _ => destruct x
  end; cbn beta.

Lemma calm_sync n : calm (sync_buffer n).
Proof.
  intros s e tr He. unfold sync_buffer, get, mbind, M_bind, call. left.
  by rewrite (quieten_same e tr (sync_dirty_buffer n (b_data s n)) I).
Qed.
Lemma calm_call c : (forall r, answer_ok c r) -> calm (call c).
Proof.
  intros Hc s e tr He. unfold call. left. by rewrite (quieten_same e tr c (Hc _)).
Qed.
Lemma calm_unlock l : calm (call (mutex_unlock l)).
Proof. by apply calm_call. Qed.
#[export] Hint Resolve calm_sync calm_unlock : calm.

Ltac like_go :=
  repeat like_step;
  try lazymatch goal with
  | |- like (call ?c) ?s _ => refine (calm_call c _ s); intros; exact I
  | |- like ?m ?s never => refine ((_ : calm m) s); by auto with calm
  end.
Ltac calm_go := intros s; like_go.

Lemma calm_sb_sync : calm simplefs_sb_sync.
Proof. unfold simplefs_sb_sync. calm_go. Qed.
#[export] Hint Resolve calm_sb_sync : calm.

Lemma calm_inode_save p : calm (simplefs_inode_save p).
Proof. unfold simplefs_inode_save. calm_go. Qed.
Lemma calm_inode_add p : calm (simplefs_inode_add p).
Proof. unfold simplefs_inode_add. calm_go. Qed.
Lemma calm_get_a_freeblock : calm simplefs_sb_get_a_freeblock.
Proof. unfold simplefs_sb_get_a_freeblock. calm_go. Qed.
Lemma calm_get_objects_count : calm simplefs_sb_get_objects_count.
Proof. unfold simplefs_sb_get_objects_count. calm_go. Qed.
#[export] Hint Resolve calm_inode_save calm_inode_add calm_get_a_freeblock
  calm_get_objects_count : calm.

Lemma calm_record_fs_object dir new name m : calm (record_fs_object dir new name m).
Proof. unfold record_fs_object, directory_unlock. calm_go. Qed.
#[export] Hint Resolve calm_record_fs_object : calm.
Lemma calm_link_fs_object dir new name m : calm (link_fs_object dir new name m).
Proof. unfold link_fs_object. calm_go. Qed.
#[export] Hint Resolve calm_link_fs_object : calm.

(** An allocation whose result is used at once. *)
Lemma bad_assign_None {A} f (k : K A) s B : bad (assign None f ;; k) s B.
Proof. intros e tr. by right. Qed.

Lemma calm_get_inode_loop n k no : calm (get_inode_loop n k no).
Proof.
  revert k. induction n as [|n IH]; intros k s; simpl; [apply like_ret|].
  like_go. apply like_alloc; [|apply bad_assign_None].
  intros p s'. repeat like_step.
Qed.
#[export] Hint Resolve calm_get_inode_loop : calm.
Lemma calm_get_inode no : calm (simplefs_get_inode no).
Proof. unfold simplefs_get_inode. calm_go. Qed.
#[export] Hint Resolve calm_get_inode : calm.

(** A pointer that is NULL and used at once. *)
Lemma bad_null {A} (r : bool) (k : K A) s B :
  r <> true -> bad (if negb r then fail NullDeref else k) s B.
Proof. intros Hr e tr. destruct r; [done|]. by right. Qed.

Lemma calm_iget no : calm (simplefs_iget no).
Proof. unfold simplefs_iget. calm_go. by apply bad_null. Qed.
#[export] Hint Resolve calm_iget : calm.

Lemma calm_lookup_loop n k blk name : calm (lookup_loop n k blk name).
Proof.
  revert k. induction n as [|n IH]; intros k s; simpl; [apply like_ret|].
  like_go.
Qed.
#[export] Hint Resolve calm_lookup_loop : calm.
Lemma calm_lookup dir name : calm (simplefs_lookup dir name).
Proof. unfold simplefs_lookup. calm_go. by apply bad_null. Qed.

Lemma calm_iterate_loop n k blk pos : calm (iterate_loop n k blk pos).
Proof.
  revert k pos. induction n as [|n IH]; intros k pos s; simpl; [apply like_ret|].
  like_go.
Qed.
#[export] Hint Resolve calm_iterate_loop : calm.
Lemma calm_iterate dir pos : calm (simplefs_iterate dir pos).
Proof. unfold simplefs_iterate. calm_go. Qed.

Lemma calm_destory_inode i : calm (simplefs_destory_inode i).
Proof. unfold simplefs_destory_inode. calm_go. Qed.

(** ** The operations that report failures *)

(** A bind whose first part is known to leave [P]. *)
Lemma like_bind_post {A R} (m : K R) (f : R -> K A) (P : R -> fs -> Prop) s B :
  like m s never -> (forall e tr, wlp m e (fun a s' _ => P a s') s tr) ->
  (forall a s', P a s' -> like (f a) s' B) -> like (m ≫= f) s B.
Proof.
  intros Hm HP Hf e tr He. specialize (Hm e tr He). specialize (HP e tr).
  unfold mbind, M_bind. unfold wlp in HP. destruct (m e s tr) as [a s1 tr1|x s1 tr1].
  - destruct Hm as [-> | Hm]; [by apply Hf|done].
  - destruct Hm as [-> | Hx]; [by left|by right].
Qed.

Lemma wlp_get_objects_count e s tr :
  wlp simplefs_sb_get_objects_count e (fun v s' _ => s' = s /\
    (v.1 <? 0 = true \/ v.2 = sb_inodes_count (b_data s 0))) s tr.
Proof.
  unfold simplefs_sb_get_objects_count, SIMPLEFS_SB, buf_read. wp_go.
  destruct (negb _); wp_go; [by split; [|left]|]. by split; [|right].
Qed.

(** No memory for the [struct inode]: nothing has been changed. *)
Definition no_memory (m : Z) (s : fs) (r : Z) (s' : fs) (tr : trace kcall) : Prop :=
  r = - ENOMEM /\ s' = s /\ last_bound tr = None /\ S_ISDIR m || S_ISREG m = true /\
  default 0 (sb_inodes_count (b_data s 0)) < 64.

Lemma like_create dir name m s :
  like (simplefs_create_fs_object dir name m) s (no_memory m s).
Proof.
  unfold simplefs_create_fs_object, directory_unlock, SIMPLEFS_MAX_FILESYSTEM_OBJECTS_SUPPORTED.
  like_step. eapply like_bind_post;
    [apply calm_get_objects_count|intros; apply wlp_get_objects_count|].
  intros [ret count] s' [-> Hc]. cbn [fst snd] in Hc. destruct (ret <? 0); [by like_go|].
  destruct Hc as [|Hc]; [done|]. cbv zeta.
  destruct (Z.leb_spec 64 (default 0 count)); [by like_go|].
  destruct (negb (S_ISDIR m) && negb (S_ISREG m)) eqn:Em; [by like_go|].
  rewrite <- negb_orb, negb_false_iff in Em. subst count.
  like_step.
  - apply like_alloc; [|apply bad_assign_None]. intros p s'. apply like_never. like_go.
  - intros e tr. destruct r; [done|]. cbn. by repeat split.
Qed.

(** Nothing read. *)
Definition no_data (ppos : Z) (s : fs) (v : Z * Z) (s' : fs) (tr : trace kcall) : Prop :=
  (v.1 = 0 \/ v.1 = - EFAULT) /\ v.2 = ppos /\ s' = s.

Lemma like_read i len ppos s p d :
  i_private i = Some p -> slab s !! p = Some d ->
  like (simplefs_read i len ppos) s (no_data ppos s).
Proof.
  intros Hp Hd. unfold simplefs_read, SIMPLEFS_INODE. rewrite Hp.
  apply (like_deref p d); [done|]. destruct (_ <=? _); [apply like_ret|]. like_step.
  - cbv zeta. apply like_buf_read. intros buf. like_step; [like_go|].
    intros e tr. cbn in *. destruct (Z.eqb_spec r 0); [done|]. cbn. split; [by right|done].
  - intros e tr. destruct r; [done|]. cbn. split; [by left|done].
Qed.

(** Nothing written, or [n] bytes of the buffer not read and the rest stored in
    the block [blk]; the size is as before. *)
Definition partly_written (blk ppos : Z) (buf : bytes) (s : fs)
    (v : Z * Z) (s' : fs) (tr : trace kcall) : Prop :=
  v.2 = ppos /\
  (v.1 = 0 /\ s' = s \/
   exists n l, n <> 0 /\ store ppos (user_copy buf n) (b_data s blk) = Some l /\
     v.1 = - EFAULT /\ s' = set_b_data blk l s).

Lemma like_write i buf ppos s p d :
  i_private i = Some p -> slab s !! p = Some d ->
  0 <= ppos -> ppos + Z.of_nat (length buf) <= Z.of_nat (length (b_data s (data_block_number d))) ->
  like (simplefs_write i buf ppos) s (partly_written (data_block_number d) ppos buf s).
Proof.
  intros Hp Hd Hpos Hfit. unfold simplefs_write, SIMPLEFS_INODE. rewrite Hp.
  apply (like_deref p d); [done|]. like_step.
  - like_step; [apply like_never; like_go|]. cbn in Hbad.
    intros e tr. unfold buf_write, get, mbind, M_bind.
    rewrite store_Some by (rewrite ?length_user_copy; lia).
    cbn [or_fault mret M_ret]. destruct (Z.eqb_spec r 0) as [|Hr]; [done|]. cbn.
    split; [done|]. right. eexists r, _. split; [done|]. split; [|done].
    by rewrite store_Some by (rewrite ?length_user_copy; lia).
  - intros e tr. destruct r; [done|]. cbn. split; [done|]. by left.
Qed.

(** [simplefs_fill_super] up to the allocation of the root dentry, and the rest. *)
Definition root_inode_of (p : option nat) : inode :=
  mk_vfs_inode SIMPLEFS_ROOTDIR_INODE_NUMBER (Some simplefs_dir_operations) p.
Definition with_root (root : option inode) (s : fs) : fs :=
  mk_fs (b_data s) (slab s) (slab_next s)
    (Some (mk_super SIMPLEFS_MAGIC SIMPLEFS_DEFAULT_BLOCK_SIZE root)).
Definition find_root : K (option nat) :=
  bh ← call (sb_bread 0);
  BUG_ON (negb bh) ;;
  ok ← call new_inode;
  if negb ok then fail NullDeref else
  call (inode_init_owner
    (mk_vfs_inode SIMPLEFS_ROOTDIR_INODE_NUMBER None None) S_IFDIR) ;;
  simplefs_get_inode SIMPLEFS_ROOTDIR_INODE_NUMBER.

Lemma fill_super_split e s tr :
  simplefs_fill_super e s tr =
  match find_root e s tr with
  | Ok p s' tr' =>
      let r := e tr' (d_make_root (root_inode_of p)) in
      Ok 0 (with_root (if r then Some (root_inode_of p) else None) s')
        (existT (d_make_root (root_inode_of p)) r :: tr')
  | Fault x s' tr' => Fault x s' tr'
  end.
Proof.
  unfold simplefs_fill_super, find_root, BUG_ON, mbind, M_bind, call.
  destruct (negb _); [done|]. cbn.
  destruct (negb _); [done|]. by destruct (simplefs_get_inode _ _ _).
Qed.

Lemma calm_find_root : calm find_root.
Proof. unfold find_root. calm_go. by apply bad_null. Qed.

(** What the super block is left with when there is no memory for the dentry. *)
Lemma fill_super_like e s tr : no_signals e ->
  match simplefs_fill_super e s tr with
  | Ok r s' _ => exists s0 tr0, simplefs_fill_super (quieten e) s tr = Ok r s0 tr0 /\
      (s' = s0 \/ s' = with_root None s0)
  | Fault x _ _ => stop x
  end \/ simplefs_fill_super e s tr = simplefs_fill_super (quieten e) s tr.
Proof.
  intros He. rewrite !fill_super_split. pose proof (calm_find_root s e tr He) as H.
  destruct (find_root e s tr) as [p s1 tr1|x s1 tr1].
  - destruct H as [-> |[]]. left. cbv zeta. eexists _, _. split; [done|].
    rewrite (quieten_quiet e tr1 (d_make_root (root_inode_of p))).
    destruct (e tr1 _); [by left|by right].
  - destruct H as [-> |H]; [by right|by left].
Qed.

(** ** One call *)

(** Creation with mode [m] without memory for the inode. *)
Definition out_of_memory (m : Z) (s : fs) (a : answer) (s' : fs) : Prop :=
  a = bound (- ENOMEM) None /\ s' = s /\ S_ISDIR m || S_ISREG m = true /\
  default 0 (sb_inodes_count (b_data s 0)) < 64.

(** What a failed call leaves, for the operations that go on after a failure. *)
Definition failed (op : vfs_op) (s : fs) (a : answer) (s' : fs) : Prop :=
  match op with
  | op_create _ _ m _ => out_of_memory m s a s'
  | op_mkdir _ _ m => out_of_memory (u16 (Z.lor S_IFDIR m)) s a s'
  | op_read _ _ ppos => (a = copied 0 ppos [] \/ a = copied (- EFAULT) ppos []) /\ s' = s
  | op_write i buf ppos => a = wrote 0 ppos /\ s' = s \/
      exists h d n l, i_private i = Some h /\ slab s !! h = Some d /\ n <> 0 /\
        store ppos (user_copy buf n) (b_data s (data_block_number d)) = Some l /\
        a = wrote (- EFAULT) ppos /\ s' = set_b_data (data_block_number d) l s
  | _ => False
  end.

Lemma answered_like {A} (m : K A) s B e tr (f : A -> fs -> trace kcall -> answer)
    (F : answer -> fs -> Prop) :
  no_signals e -> like m s B -> (forall v s' tr', B v s' tr' -> F (f v s' tr') s') ->
  match answered (m e s tr) f with
  | inl x => answered (m (quieten e) s tr) f = inl x \/ stop x
  | inr (a, (s', tr')) => answered (m (quieten e) s tr) f = inr (a, (s', tr')) \/ F a s'
  end.
Proof.
  intros He Hm HF. specialize (Hm e tr He). destruct (m e s tr) as [v s' tr'|x s' tr']; cbn.
  - destruct Hm as [-> |HB]; [by left|right; by eapply HF].
  - destruct Hm as [-> |Hx]; [by left|by right].
Qed.

(** The operations other than mounting. *)
Lemma call_vfs_like e op (s : fs) tr :
  no_signals e -> op <> op_fill_super ->
  match op with
  | op_read i _ _ => exists h (d : simplefs_inode), i_private i = Some h /\ slab s !! h = Some d
  | op_write i buf ppos => exists h (d : simplefs_inode), i_private i = Some h /\
      slab s !! h = Some d /\ 0 <= ppos /\
      ppos + Z.of_nat (length buf) <= Z.of_nat (length (b_data s (data_block_number d)))
  | _ => True
  end ->
  match call_vfs e op (s, tr) with
  | inl x => call_vfs (quieten e) op (s, tr) = inl x \/ stop x
  | inr (a, (s', tr')) =>
      call_vfs (quieten e) op (s, tr) = inr (a, (s', tr')) \/ failed op s a s'
  end.
Proof.
  intros He Hop Hpre.
  destruct op as [dir name m excl|dir name m|dir name|dir pos|i len ppos|i buf ppos|i|];
    cbn [call_vfs failed]; [..|done].
  - apply (answered_like _ _ _ _ _ _ _ He (like_create dir name m s)).
    by intros v s' tr' (-> & -> & -> & H).
  - unfold simplefs_mkdir. generalize (u16 (Z.lor S_IFDIR m)). intros m0.
    apply (answered_like _ _ _ _ _ _ _ He (like_create dir name m0 s)).
    by intros v s' tr' (-> & -> & -> & H).
  - by apply (answered_like _ _ never _ _ _ _ He (calm_lookup dir name s)).
  - by apply (answered_like _ _ never _ _ _ _ He (calm_iterate dir pos s)).
  - destruct Hpre as (h & d & Hh & Hd).
    apply (answered_like _ _ _ _ _ _ _ He (like_read i len ppos s h d Hh Hd)).
    intros [r pos] s' tr' ([Hr|Hr] & Hp & ->); cbn in Hr, Hp; subst;
      (split; [|done]); [by left|by right].
  - destruct Hpre as (h & d & Hh & Hd & H0 & Hlen).
    apply (answered_like _ _ _ _ _ _ _ He (like_write i buf ppos s h d Hh Hd H0 Hlen)).
    intros [r pos] s' tr' (Hp & [(Hr & ->)|(n & l & Hn & Hl & Hr & ->)]); cbn in Hr, Hp; subst.
    + by left.
    + right. by exists h, d, n, l.
  - by apply (answered_like _ _ never _ _ _ _ He (calm_destory_inode i s)).
Qed.

(** ** The specification with failures *)

(** [content] after [d] was stored at [ppos] without a change of size. *)
Definition scribble (ppos : Z) (d content : bytes) : bytes :=
  take (length content)
    (take (Z.to_nat ppos) content ++ d ++ drop (Z.to_nat ppos + length d) content).

(** The answers of a call in which a service failed, and the tree it leaves. *)
Inductive fails : vfs_op -> tree -> answer -> tree -> Prop :=
  | create_no_memory dir name m excl t t' i :
      spec_op (op_create dir name m excl) t = Some (bound 0 i, t') ->
      fails (op_create dir name m excl) t (bound (- ENOMEM) None) t
  | mkdir_no_memory dir name m t t' i :
      spec_op (op_mkdir dir name m) t = Some (bound 0 i, t') ->
      fails (op_mkdir dir name m) t (bound (- ENOMEM) None) t
  | read_unreadable i len ppos t :
      fails (op_read i len ppos) t (copied 0 ppos []) t
  | read_bad_buffer i len ppos t :
      fails (op_read i len ppos) t (copied (- EFAULT) ppos []) t
  | write_unreadable i buf ppos t :
      fails (op_write i buf ppos) t (wrote 0 ppos) t
  | write_bad_buffer i buf ppos t h k nd content n :
      opened t i = Some (h, k, nd) -> reg_content nd = Some content -> n <> 0 ->
      fails (op_write i buf ppos) t (wrote (- EFAULT) ppos)
        (set_body h k nd (Reg (scribble ppos (user_copy buf n) content)) t)
  | mount_no_dentry t t' i :
      spec_op op_fill_super t = Some (bound 0 i, t') ->
      fails op_fill_super t (bound 0 None) t'.

(** A run of a sequence of calls follows the specification with the failures
    [F]: up to the first call that the specification leaves open, for one of the
    reasons of [outside], or that stops at a failure,
    every call is answered as specified or as [F] says, from
    related states.  After such a call nothing more is said. *)
Inductive follows (F : vfs_op -> tree -> answer -> tree -> Prop) (e : env kcall)
    : tree -> list vfs_op -> fs * trace kcall -> Prop :=
  | follows_end t c : rep_run t c -> follows F e t [] c
  | follows_answer t op ops c a t' c' :
      rep_run t c -> call_vfs e op c = inr (a, c') ->
      spec_op op t = Some (a, t') \/ F op t a t' ->
      follows F e t' ops c' -> follows F e t (op :: ops) c
  | follows_stop t op ops c x :
      rep_run t c -> call_vfs e op c = inl x -> stop x -> follows F e t (op :: ops) c
  | follows_open t op ops c :
      rep_run t c -> spec_op op t = None -> outside op t -> follows F e t (op :: ops) c.

(** One call from related states is answered as specified or as [F] says, or
    stops at a failure. *)
Definition answered_by (F : vfs_op -> tree -> answer -> tree -> Prop) (e : env kcall)
    (op : vfs_op) (t : tree) (c : fs * trace kcall) : Prop :=
  match call_vfs e op c with
  | inl x => stop x
  | inr (a, c') => exists t', (spec_op op t = Some (a, t') \/ F op t a t') /\ rep_run t' c'
  end.

(** One call at a time is enough. *)
Lemma follows_calls F e :
  (forall op t a t' c, op_ok op -> rep_run t c -> spec_op op t = Some (a, t') ->
     answered_by F e op t c) ->
  forall ops t c, Forall op_ok ops -> rep_run t c -> follows F e t ops c.
Proof.
  intros Hcall ops. induction ops as [|op ops IH]; intros t c Hok HR.
  { by apply follows_end. }
  apply Forall_cons in Hok as [Hop Hok].
  destruct (spec_op op t) as [[a0 t0]|] eqn:Hspec;
    [|by apply follows_open; [..|apply spec_op_outside]].
  pose proof (Hcall op t a0 t0 c Hop HR Hspec) as H. unfold answered_by in H.
  destruct (call_vfs e op c) as [x|[a c']] eqn:E; [by eapply follows_stop|].
  destruct H as (t' & Ha & HR'). eapply follows_answer; [done|exact E|exact Ha|by apply IH].
Qed.

(** ** Related states after a failure *)

Lemma rep_fill_root t s root : rep t s -> rep t (with_root root s).
Proof.
  intros (blks & fb & R). exists blks, fb. by apply (rep_super _ _ _ s).
Qed.

Lemma create_succeeds dir name m t a t' :
  spec_create dir name m t = Some (a, t') -> Z.of_nat (length (t_nodes t)) < 64 ->
  S_ISDIR m || S_ISREG m = true -> exists i, a = bound 0 i.
Proof.
  unfold spec_create. intros H Hn Hm.
  destruct (Z.leb_spec 64 (Z.of_nat (length (t_nodes t)))); [lia|].
  rewrite Hm in H. cbn [negb] in H. apply bind_Some in H as ([[h k] nd] & _ & H).
  apply bind_Some in H as (ents & _ & H). destruct (_ && _); [|done].
  injection H as <- _. by eexists.
Qed.

Lemma out_of_memory_fails dir name m t s a a0 t0 s' :
  rep t s -> spec_create dir name m t = Some (a0, t0) -> out_of_memory m s a s' ->
  a = bound (- ENOMEM) None /\ s' = s /\ exists i, a0 = bound 0 i.
Proof.
  intros (blks & fb & R) Hspec (-> & -> & Hm & Hc). rewrite (rw_count _ _ _ _ R) in Hc.
  split; [done|]. split; [done|]. by eapply create_succeeds.
Qed.

Lemma scribble_holds ppos d content l l' :
  take (length content) l = content -> (length content <= length l)%nat ->
  0 <= ppos <= Z.of_nat (length content) -> store ppos d l = Some l' ->
  length (scribble ppos d content) = length content /\
  take (length content) l' = scribble ppos d content.
Proof.
  intros Hl Hlen Hp (_ & Hfit & ->)%store_inv.
  assert (length (take (Z.to_nat ppos) content) = Z.to_nat ppos) as L1
    by (rewrite length_take; lia).
  split.
  - unfold scribble. rewrite length_take, !length_app, length_drop. lia.
  - unfold scribble. rewrite <- Hl at 3 4. rewrite !take_app, !length_take.
    rewrite !take_take, skipn_firstn_comm, take_take.
    f_equal; [f_equal; lia|]. f_equal; f_equal; lia.
Qed.

(** Bytes stored in an open file without a change of its size. *)
Lemma rep_scribble blks fb t s i h k nd content ppos d l dd :
  rep_with blks fb t s -> opened t i = Some (h, k, nd) -> reg_content nd = Some content ->
  0 <= ppos <= Z.of_nat (length content) -> wf_bytes d ->
  slab s !! h = Some dd -> store ppos d (b_data s (data_block_number dd)) = Some l ->
  rep_with blks fb (set_body h k nd (Reg (scribble ppos d content)) t)
    (set_b_data (data_block_number dd) l s).
Proof.
  intros R Ho Hc%reg_content_Some Hp Hd Hs Hl. pose proof (rw_wf _ _ _ _ R) as Hwf.
  destruct (rep_opened _ _ _ _ R _ _ _ _ Ho)
    as (_ & _ & b & d' & _ & _ & _ & _ & Hs' & _ & (_ & _ & Hblk & _) & Hh).
  rewrite Hs in Hs'. injection Hs' as <-.
  unfold holds_body in Hh. rewrite Hc in Hh. destruct Hh as (Hm & Hmax & Htake).
  rewrite <- Hblk in Htake. destruct (scribble_holds ppos d content _ l Htake
    ltac:(rewrite (wf_block_length _ Hwf); lia) Hp Hl) as [Hlen Htake'].
  apply (rep_rewrite blks fb t s R i); try done.
  - by rewrite (store_length _ _ _ _ Hl), (wf_block_length _ Hwf).
  - eapply store_wf; [apply (wf_block_bytes _ Hwf)|exact Hd|exact Hl].
  - rewrite Hc. cbn. by rewrite Hlen.
  - unfold holds_body. cbn [n_body n_mode]. rewrite Hlen. done.
Qed.

(** What [call_vfs_like] needs to know of the arguments. *)
Lemma call_pre op t a t' s :
  rep t s -> spec_op op t = Some (a, t') ->
  match op with
  | op_read i _ _ => exists h (d : simplefs_inode), i_private i = Some h /\ slab s !! h = Some d
  | op_write i buf ppos => exists h (d : simplefs_inode), i_private i = Some h /\
      slab s !! h = Some d /\ 0 <= ppos /\
      ppos + Z.of_nat (length buf) <= Z.of_nat (length (b_data s (data_block_number d)))
  | _ => True
  end.
Proof.
  intros (blks & fb & R) Hspec. destruct op; try done; cbn [spec_op] in Hspec;
    apply bind_Some in Hspec as ([[h k] nd] & Ho & Hspec);
    destruct (rep_opened _ _ _ _ R _ _ _ _ Ho) as (Hp & _ & b & d & _ & _ & _ & _ & Hs & _);
    exists h, d; (split; [done|]); [done|]. split; [done|].
  apply bind_Some in Hspec as (content & _ & Hspec).
  destruct (_ && _) eqn:Eg in Hspec; [|done]. bool_hyps.
  rewrite (wf_block_length _ (rw_wf _ _ _ _ R)). lia.
Qed.

(** A failure that is reported is one of [fails]. *)
Lemma failed_fails op t a0 t0 s a s' :
  op_ok op -> rep t s -> spec_op op t = Some (a0, t0) -> failed op s a s' ->
  exists t', fails op t a t' /\ rep t' s'.
Proof.
  intros Hok HR Hspec Hf. destruct op as [dir name m excl|dir name m| | |i len ppos|i buf ppos| |];
    cbn [failed] in Hf; try done.
  - destruct (out_of_memory_fails _ _ _ _ _ _ _ _ _ HR Hspec Hf) as (-> & -> & j & ->).
    exists t. split; [|done]. by eapply create_no_memory.
  - destruct (out_of_memory_fails _ _ _ _ _ _ _ _ _ HR Hspec Hf) as (-> & -> & j & ->).
    exists t. split; [|done]. by eapply mkdir_no_memory.
  - destruct Hf as [[-> | ->] ->]; exists t; by split; [constructor|].
  - destruct Hf as [[-> ->]|(h & d & n & l & Hp & Hd & Hn & Hl & -> & ->)].
    { exists t. by split; [constructor|]. }
    cbn [spec_op] in Hspec. apply bind_Some in Hspec as ([[h' k] nd] & Ho & Hspec).
    apply bind_Some in Hspec as (content & Hc & Hspec).
    destruct (_ && _) eqn:Eg in Hspec; [|done]. bool_hyps.
    destruct (opened_handle _ _ _ _ _ Ho) as (Hp' & _). rewrite Hp in Hp'.
    injection Hp' as <-. eexists. split; [by eapply write_bad_buffer|].
    destruct HR as (blks & fb & R). exists blks, fb.
    eapply rep_scribble; try done. by apply user_copy_wf.
Qed.

(** A call, from related states: it is answered as specified or as [fails] says,
    or stops at a failure. *)
Lemma call_follows e op t a0 t0 s tr :
  no_signals e -> env_wf e -> op_ok op -> rep t s -> spec_op op t = Some (a0, t0) ->
  answered_by fails e op t (s, tr).
Proof.
  intros He Hw Hok HR Hspec. unfold answered_by.
  destruct (sim_call (quieten e) (quieten_quiet e) (quieten_wf e Hw)
      op a0 t t0 (s, tr) Hok HR Hspec)
    as ([s0 tr0] & Hcall & HR0).
  assert (op = op_fill_super \/ op <> op_fill_super) as [->|Hop]
    by (destruct op; first [by left|by right]).
  - pose proof (fill_super_like e s tr He) as H. cbn [call_vfs] in *.
    destruct H as [H|H].
    + destruct (simplefs_fill_super e s tr) as [r s' tr'|x s' tr']; [|done].
      destruct H as (s1 & tr1 & E & Hs'). rewrite E in Hcall. cbn in Hcall |- *.
      injection Hcall as Ha <- <-. exists t0. cbn [spec_op] in Hspec.
      apply bind_Some in Hspec as ([k nd] & Ek & Hspec). injection Hspec as <- <-.
      injection Ha as -> Hroot. destruct Hs' as [-> | ->].
      * split; [|done]. left. rewrite Hroot. cbn [spec_op]. by rewrite Ek.
      * split; [|by apply rep_fill_root]. right. eapply mount_no_dentry.
        cbn [spec_op]. by rewrite Ek.
    + rewrite H, Hcall. exists t0. split; [by left|done].
  - pose proof (call_vfs_like e op s tr He Hop (call_pre op t a0 t0 s HR Hspec)) as H.
    destruct (call_vfs e op (s, tr)) as [x|[a [s' tr']]].
    + destruct H as [H|H]; [congruence|done].
    + destruct H as [H|H].
      * rewrite H in Hcall. injection Hcall as <- <- <-. exists t0. split; [by left|done].
      * destruct (failed_fails op t a0 t0 s a s' Hok HR Hspec H) as (t' & Hf & HR').
        exists t'. split; [by right|done].
Qed.

(** Whatever service fails (memory for an inode or a dentry, a disk block, a
    user buffer) and as long as no wait is interrupted by a signal, every
    sequence of VFS calls on a memory that holds a tree behaves as the tree
    specification says up to the first call that stops (an unchecked NULL or a
    [BUG_ON]) or that is [outside] the specification: each call before is answered as specified, or fails with ENOMEM leaving
    the tree unchanged, reads nothing, writes nothing, or leaves the readable
    part of a write followed by zeros in the file without changing its size. *)
Theorem simplefs_follows_tree e ops t s tr :
  no_signals e -> env_wf e -> Forall op_ok ops -> rep t s ->
  follows fails e t ops (s, tr).
Proof.
  intros He Hw Hok HR. apply follows_calls; [|done|done].
  intros op t' a t'' [s' tr'] Hop HR' Hspec. by apply (call_follows e op t' a t'').
Qed.

(** A kernel in which the last two bytes of every buffer written cannot be read. *)
Definition bad_buffers : env kcall := fun tr c =>
  match c with copy_from_user _ => 2 | c => quiet_env tr c end.

Lemma simplefs_follows_tree_witness :
  no_signals bad_buffers /\
  follows fails bad_buffers (image_tree used_bitmap) session (sound_image, []).
Proof.
  assert (no_signals bad_buffers) as Hn by (intros tr l; reflexivity).
  assert (env_wf bad_buffers) as Hw.
  { intros tr c. pose proof (quiet_env_wf tr c) as H. by destruct c. }
  split; [exact Hn|].
  exact (simplefs_follows_tree bad_buffers session (image_tree used_bitmap) sound_image []
    Hn Hw session_ok sound_image_rep).
Defined.
