(* ===== verification/SimplefsDangle.v ===== *)
(** * simplefs: one signal makes an entry dangle

    [simplefs_inode_add] returns nothing, so [simplefs_create_fs_object] cannot
    tell that a signal kept it from storing the inode.  Here the wait of
    [simplefs_inode_add] for the inode-management mutex is interrupted and
    nothing else fails: creation links the name to an inode number that is not
    in the store, and looking the name up dereferences NULL. *)

From S2P Require Export SimplefsErrors SimplefsFailures.

(** ** The signal *)

(** The last call was the unlock with which [simplefs_sb_get_a_freeblock]
    returns: the next wait for the inode-management mutex is the one of
    [simplefs_inode_add] (the other two waits for it in creation come after the
    wait for the directory mutex and after [brelse]). *)
Definition add_begins (tr : trace kcall) : bool :=
  match tr with existT (mutex_unlock simplefs_sb_lock) _ :: _ => true | _ => false end.

(** The waits of a trace that were interrupted. *)
Definition interrupted_wait (x : event kcall) : bool :=
  let '(existT c r) := x in
  match c as c0 return resp c0 -> bool with
  | mutex_lock_interruptible _ => fun r => negb (r =? 0)
  | _ => fun _ => false
  end r.
Definition signals (tr : trace kcall) : nat := length (List.filter interrupted_wait tr).

(** That wait is interrupted, and every other service succeeds. *)
Record add_interrupted (e : env kcall) : Prop := {
  ai_signal tr :
    add_begins tr = true -> e tr (mutex_lock_interruptible simplefs_inodes_mgmt_lock) = - EINTR;
  ai_others tr c :
    (c = mutex_lock_interruptible simplefs_inodes_mgmt_lock -> add_begins tr = false) ->
    answer_ok c (e tr c);
}.

Lemma ok_not_interrupted c (r : resp c) : answer_ok c r -> interrupted_wait (ev c r) = false.
Proof. destruct c; try done. cbn. by intros ->. Qed.

Lemma signals_ok c (r : resp c) tr : answer_ok c r -> signals (ev c r :: tr) = signals tr.
Proof.
  intros Ha. unfold signals. change (ev c r :: tr) with ([ev c r] ++ tr).
  rewrite List.filter_app. cbn [List.filter app length]. by rewrite (ok_not_interrupted c r Ha).
Qed.

Lemma signals_interrupted l tr :
  signals (ev (mutex_lock_interruptible l) (- EINTR) :: tr) = S (signals tr).
Proof. done. Qed.

Section signal.
Context (e : env kcall) (He : add_interrupted e).

Lemma ai_ok tr c :
  c <> mutex_lock_interruptible simplefs_inodes_mgmt_lock -> answer_ok c (e tr c).
Proof using He. intros Hc. by apply ai_others. Qed.
Lemma ai_lock tr l :
  l <> simplefs_inodes_mgmt_lock -> e tr (mutex_lock_interruptible l) = 0.
Proof using He. intros Hl. apply (ai_ok tr (mutex_lock_interruptible l)). congruence. Qed.
Lemma ai_mgmt tr :
  add_begins tr = false -> e tr (mutex_lock_interruptible simplefs_inodes_mgmt_lock) = 0.
Proof using He.
  intros H. by apply (ai_others e He tr (mutex_lock_interruptible simplefs_inodes_mgmt_lock)).
Qed.
Lemma ai_bread tr n : e tr (sb_bread n) = true.
Proof using He. by apply (ai_ok tr (sb_bread n)). Qed.
Lemma ai_new_inode tr : e tr new_inode = true.
Proof using He. by apply (ai_ok tr new_inode). Qed.

(** A part that does not wait for the inode-management mutex runs as if nothing
    failed, and is not interrupted. *)
Definition undisturbed {A} (m : K A) : Prop := forall s tr,
  m e s tr = m (quieten e) s tr /\
  match m e s tr with Ok _ _ tr' | Fault _ _ tr' => signals tr' = signals tr end.

Section rules.
Context {A R : Type}.
Lemma undisturbed_ret (a : A) : undisturbed (mret a).
Proof using. done. Qed.
Lemma undisturbed_fail x : undisturbed (fail (A := A) x).
Proof using. done. Qed.
Lemma undisturbed_bind (m : K R) (f : R -> K A) :
  undisturbed m -> (forall a, undisturbed (f a)) -> undisturbed (m ≫= f).
Proof using.
  intros Hm Hf s tr. destruct (Hm s tr) as [Em Hs]. unfold mbind, M_bind. rewrite <- Em.
  destruct (m e s tr) as [a s' tr'|x s' tr']; [|done].
  destruct (Hf a s' tr') as [Ef Hs']. split; [done|].
  destruct (f a e s' tr'); congruence.
Qed.
Lemma undisturbed_call c :
  c <> mutex_lock_interruptible simplefs_inodes_mgmt_lock -> undisturbed (call c).
Proof using He.
  intros Hc s tr. pose proof (ai_ok tr c Hc) as Ha. unfold call.
  split; [by rewrite (quieten_same e tr c Ha)|]. by apply signals_ok.
Qed.
End rules.

Lemma undisturbed_get : undisturbed get.
Proof using. done. Qed.
Lemma undisturbed_put s : undisturbed (put s).
Proof using. done. Qed.
Lemma undisturbed_modify f : undisturbed (modify f).
Proof using. done. Qed.
Lemma undisturbed_or_fault {A} x (o : option A) : undisturbed (or_fault x o).
Proof using. by destruct o. Qed.

Ltac undisturbed_step :=
  lazymatch goal with
  | |- undisturbed (mret _) => apply undisturbed_ret
  | |- undisturbed (fail _) => apply undisturbed_fail
  | |- undisturbed get => apply undisturbed_get
  | |- undisturbed (put _) => apply undisturbed_put
  | |- undisturbed (modify _) => apply undisturbed_modify
  | |- undisturbed (or_fault _ _) => apply undisturbed_or_fault
  | |- undisturbed (if ?b then _ else _) => destruct b
  | |- undisturbed (match ?x with _ => _ end) => destruct x
  | |- undisturbed (call ?c) => refine (undisturbed_call c _); discriminate
  | |- undisturbed (_ ≫= _) => apply undisturbed_bind; [|intros ?]
  | |- undisturbed (buf_read _ _) => unfold buf_read
  | |- undisturbed (buf_write _ _) => unfold buf_write
  | |- undisturbed (deref _) => unfold deref
  | |- undisturbed (assign _ _) => unfold assign
  | |- undisturbed (BUG_ON _) => unfold BUG_ON
  | |- undisturbed (SIMPLEFS_SB _) => unfold SIMPLEFS_SB
  | |- undisturbed (sync_buffer _) => unfold sync_buffer
  | |- undisturbed simplefs_sb_sync => unfold simplefs_sb_sync
  end; cbn beta.
Ltac undisturbed_go := repeat undisturbed_step.

Lemma undisturbed_alloc_inode : undisturbed alloc_inode.
Proof using He. unfold alloc_inode. undisturbed_go. Qed.
Lemma undisturbed_get_a_freeblock : undisturbed simplefs_sb_get_a_freeblock.
Proof using He. unfold simplefs_sb_get_a_freeblock. undisturbed_go. Qed.
Lemma undisturbed_inode_save p : undisturbed (simplefs_inode_save p).
Proof using He. unfold simplefs_inode_save. undisturbed_go. Qed.
Lemma undisturbed_get_inode_loop n k no : undisturbed (get_inode_loop n k no).
Proof using He.
  revert k. induction n as [|n IH]; intros k; simpl; [apply undisturbed_ret|].
  undisturbed_go; [apply undisturbed_alloc_inode|apply IH].
Qed.
Lemma undisturbed_iget no : undisturbed (simplefs_iget no).
Proof using He.
  unfold simplefs_iget, simplefs_get_inode. undisturbed_go. apply undisturbed_get_inode_loop.
Qed.
Lemma undisturbed_lookup dir name : undisturbed (simplefs_lookup dir name).
Proof using He.
  unfold simplefs_lookup. undisturbed_go. generalize 0, (Z.to_nat (dir_children_count a)).
  intros k n. revert k. induction n as [|n IH]; intros k; simpl; [apply undisturbed_ret|].
  undisturbed_go; [apply undisturbed_iget|apply IH].
Qed.

Lemma wp_undisturbed {A} (m : K A) (Q : A -> fs -> trace kcall -> Prop) s tr :
  undisturbed m ->
  wp m (quieten e) (fun a s' tr' => signals tr' = signals tr -> Q a s' tr') s tr ->
  wp m e Q s tr.
Proof using.
  intros Hm. destruct (Hm s tr) as [Em Hs]. unfold wp. rewrite Em in Hs |- *.
  destruct (m (quieten e) s tr); auto.
Qed.
End signal.

(** ** Creation with the signal *)

(** One call of creation, with its answer. *)
Ltac signal_step He :=
  lazymatch goal with
  | |- wp (mbind _ _) _ _ _ _ => apply wp_bind
  | |- wp (mret _) _ _ _ _ => apply wp_ret
  | |- wp (BUG_ON false) _ _ _ _ => apply wp_ret
  | |- wp (call ?c) ?e ?Q ?s ?tr =>
      refine (proj2 (wp_call c e Q s tr) _);
      rewrite ?(ai_bread e He), ?(ai_new_inode e He);
      try rewrite (ai_lock e He) by done
  | |- wp (sync_buffer _) _ _ _ _ => unfold sync_buffer; wp_go
  end; cbn [negb Z.eqb Z.ltb Z.compare Z.opp].
Ltac signal_go He := cbn [negb Z.eqb Z.ltb Z.compare Z.opp]; repeat signal_step He.

(** The number of signals in a trace that begins with uninterrupted calls. *)
Ltac by_signals :=
  repeat first
    [ rewrite signals_ok by done
    | match goal with H : signals ?tr = _ |- context [signals ?tr] => rewrite H end ];
  reflexivity.

(** Use of what is known of every return of a part. *)
Lemma wp_with {A} (m : K A) e (Q R : A -> fs -> trace kcall -> Prop) s tr :
  wlp m e R s tr -> wp m e (fun a s' tr' => R a s' tr' -> Q a s' tr') s tr -> wp m e Q s tr.
Proof. intros HR HQ. eapply wp_mono; [by apply (wp_and _ _ _ _ _ _ HQ HR)|]. naive_solver. Qed.

(** The allocator returns a block with the unlock. *)
Lemma get_a_freeblock_last e s tr :
  wlp simplefs_sb_get_a_freeblock e (fun _ _ tr' => add_begins tr' = true) s tr.
Proof.
  unfold simplefs_sb_get_a_freeblock, SIMPLEFS_SB, buf_read. wp_go.
  destruct (negb _); wp_go; [done|]. destruct (_ =? _); wp_go; [done|].
  eapply wlp_mono; [apply wlp_any|]. intros _ s1 tr1 _. wp_go.
  eapply wlp_mono; [apply wlp_any|]. intros _ s2 tr2 _. by wp_go.
Qed.

Section dangle.
Context (e : env kcall) (He : add_interrupted e) (Hwe : env_wf e).
Context (s : fs) (dir : inode) (p : nat) (d : simplefs_inode).
Context (ents : list entry) (c fb j kp : Z) (name : bytes) (m : Z).
Context (Hpre : create_pre s dir p d ents c fb j kp name m).

Let d' := set_dir_children_count (Z.of_nat (length ents) + 1) d.

(** [simplefs_inode_add] returns at once. *)
Lemma inode_add_skips q (Q : unit -> fs -> trace kcall -> Prop) s0 tr :
  add_begins tr = true ->
  Q tt s0 (ev (mutex_lock_interruptible simplefs_inodes_mgmt_lock) (- EINTR) :: tr) ->
  wp (simplefs_inode_add q) e Q s0 tr.
Proof using He.
  intros Hb HQ. unfold simplefs_inode_add. wp_go. by rewrite (ai_signal e He tr Hb).
Qed.

(** The rest of creation: the record is written and counted. *)
Lemma record_signal new sl tr :
  added s c fb j m false sl -> i_private new = Some (slab_next s) ->
  wp (record_fs_object dir new name m) e (fun r s' tr' =>
    r = 0 /\ signals tr' = signals tr /\
    exists s1 dF, recorded s d ents c name sl s1 /\
      store_inode kp d' (b_data sl 1) = Some dF /\
      s' = set_b_data 1 dF (set_slab p d' s1)) sl tr.
Proof using He Hpre.
  intros Ha Hnew.
  destruct (added_facts s dir p d ents c fb j kp name m Hpre _ _ Ha)
    as (Hp & (g & Hg) & Hblk & Hcount & Hsearch & Hlen).
  pose proof Hpre as [[_ _ Hcr _ _ _ _] Hdir _ [Hb0 Hb1] _ Hch [Hkp _] _ _ _].
  destruct (record_writes s dir p d ents c fb j kp name m Hpre) as (dD & dE & HD & HE).
  destruct (store_inode_Some kp d' (b_data sl 1)) as [dF HF]; [lia|rewrite Hlen; lia|].
  unfold record_fs_object, SIMPLEFS_INODE, directory_unlock. rewrite Hdir, Hnew. signal_go He.
  eapply wp_deref; [exact Hp|]. rewrite Hch. signal_go He.
  eapply wp_deref; [exact Hg|]. signal_go He.
  eapply wp_buf_write; [rewrite Hblk; exact HD|]. signal_go He.
  eapply wp_buf_write; [bd; exact HE|]. signal_go He.
  rewrite (ai_mgmt e He) by done. signal_go He.
  eapply wp_assign; [exact Hp|]. rewrite Hch. fold d'. signal_go He.
  apply (wp_undisturbed e); [by apply undisturbed_inode_save|].
  eapply (wp_inode_save (quieten e) (quieten_quiet e) p d' _ kp dF);
    [apply lookup_insert_eq|bd; exact Hcount|bd; exact Hsearch|bd; exact HF|].
  intros tr1 _ Hs. signal_go He. split; [done|]. split; [by_signals|].
  eexists _, dF. split; [by exists dD, dE|]. done.
Qed.

(** Creation as a whole. *)
Lemma create_signal tr :
  wp (simplefs_create_fs_object dir name m) e (fun r s' tr' =>
    r = 0 /\ signals tr' = S (signals tr) /\
    exists sl s1 dF, added s c fb j m false sl /\ recorded s d ents c name sl s1 /\
      store_inode kp d' (b_data sl 1) = Some dF /\
      s' = set_b_data 1 dF (set_slab p d' s1)) s tr.
Proof using He Hwe Hpre.
  pose proof Hpre as [[Hw Hc Hcr Hfb [Hj Hbit] Hlow [Hm Hmode]] _ _ _ _ _ _ _ _ _].
  unfold simplefs_create_fs_object. signal_go He.
  unfold simplefs_sb_get_objects_count. signal_go He.
  rewrite (ai_mgmt e He) by done. signal_go He.
  unfold SIMPLEFS_SB. eapply wp_buf_read; [exact Hc|]. signal_go He.
  cbn [from_option id]. cbv zeta. unfold SIMPLEFS_MAX_FILESYSTEM_OBJECTS_SUPPORTED.
  rewrite (proj2 (Z.leb_gt 64 c)) by lia. rewrite <- negb_orb, Hmode. signal_go He.
  apply (wp_undisturbed e); [by apply undisturbed_alloc_inode|].
  apply (wp_alloc_inode (quieten e) (quieten_quiet e)). intros g tr2 Hg _ Hs2.
  pose proof (quieten_wf e Hwe _ kmem_cache_alloc g Hg) as Hgw.
  rewrite new_ino_u64 by done. signal_go He.
  eapply wp_assign; [bd; apply lookup_insert_eq|]. signal_go He.
  apply (wp_with _ _ _ _ _ _ (get_a_freeblock_last e _ _)).
  apply (wp_undisturbed e); [by apply undisturbed_get_a_freeblock|].
  eapply (wp_get_a_freeblock (quieten e) (quieten_quiet e) fb j); bd; try done.
  { apply wf_set_slab; [by apply wf_fresh_object|by apply init_fields_wf; [int_lia|..]|].
    by eexists; apply lookup_insert_eq. }
  intros s3 tr3 (dA & HA & ->) _ Hs3 Hlast. bd. signal_go He.
  eapply wp_assign; [bd; apply lookup_insert_eq|]. cbn [from_option id].
  rewrite created_inode_fields by done. fold (created_fop m).
  unfold link_fs_object. signal_go He. cbn [i_private].
  apply inode_add_skips; [done|]. signal_go He.
  pose proof (added_skipped s c fb j m g dA HA) as Ha.
  eapply wp_mono; [by apply (record_signal _ _ _ Ha)|].
  intros r s' tr' (-> & Hs' & s1 & dF & Hr & HF & ->). split; [done|]. split.
  - rewrite Hs', signals_interrupted. f_equal. by_signals.
  - by eexists _, s1, dF.
Qed.

(** A number in no slot is not found. *)
Lemma find_inode_None n k l no :
  0 <= k -> (forall x, k <= x < k + Z.of_nat n -> slot_no l x <> Some no) ->
  find_inode n k l no = None.
Proof using.
  revert k. induction n as [|n IH]; intros k Hk Hno; [done|]. cbn [find_inode].
  pose proof (Hno k ltac:(lia)) as H. unfold slot_no in H.
  destruct (load_inode k l) as [i|]; [|done]. simpl in H |- *.
  destruct (Z.eqb_spec (inode_no i) no) as [E|]; [by rewrite E in H|]. apply IH; [lia|].
  intros x Hx. apply Hno. lia.
Qed.

(** The memory it leaves: the name is the last entry of the directory, the
    directory counts it, and no stored inode has its number. *)
Record dangling (s' : fs) : Prop := {
  dg_entry : is_dir (b_data s' (data_block_number d)) (ents ++ [(name, c + 8)]);
  dg_parent : slab s' !! p = Some d';
  dg_count : sb_inodes_count (b_data s' 0) = Some c;
  dg_not_stored : stored_inode s' (c + 8) = None;
}.

Lemma unstored_dangling sl s1 dF :
  name_ok name -> (forall x, 0 <= x < c -> slot_no (b_data s 1) x <> Some (c + 8)) ->
  added s c fb j m false sl -> recorded s d ents c name sl s1 ->
  store_inode kp d' (b_data sl 1) = Some dF ->
  dangling (set_b_data 1 dF (set_slab p d' s1)).
Proof using Hpre.
  intros Hn Huniq Ha (dD & dE & HD & HE & ->) HF.
  destruct (added_facts s dir p d ents c fb j kp name m Hpre _ _ Ha)
    as (Hp & _ & _ & Hcount & _ & _).
  assert (b_data sl 1 = b_data s 1) as E1.
  { inversion Ha; subst. unfold pre_link_state. by bd. }
  pose proof Hpre as [[_ _ Hcr _ _ _ _] _ _ [Hb0 Hb1] Hd _ [Hkp Hslot] _ _ _].
  pose proof (wf_slab _ (ap_wf _ _ _ _ _ (cp_alloc _ _ _ _ _ _ _ _ _ _ _ Hpre)) _ _
    (cp_parent _ _ _ _ _ _ _ _ _ _ _ Hpre)) as Hwd.
  assert (sb_inodes_count (b_data (set_b_data 1 dF (set_slab p d' (set_b_data
    (data_block_number d) dE (set_b_data (data_block_number d) dD sl)))) 0) = Some c) as Hc0
    by (by bd).
  split; [|by bd; rewrite lookup_insert_eq|exact Hc0|].
  - bd. eapply is_dir_append; [exact Hd|done|int_lia|exact HD|exact HE].
  - unfold stored_inode, SIMPLEFS_SUPERBLOCK_BLOCK_NUMBER, SIMPLEFS_INODESTORE_BLOCK_NUMBER.
    rewrite Hc0. cbn [mbind option_bind]. bd. apply find_inode_None; [lia|].
    intros x Hx. destruct (decide (x = kp)) as [->|Hne].
    + unfold slot_no. rewrite (load_store_inode_same kp d' _ _ (set_file_size_wf _ _ Hwd) HF).
      cbn. intros [= E]. apply (Huniq kp Hkp). by rewrite Hslot, E.
    + rewrite (slot_no_store_ne kp x _ _ _ ltac:(congruence) HF), E1. apply Huniq. lia.
Qed.

(** Looking the name up. *)
Lemma dangling_lookup s' tr :
  dangling s' -> wf_fs s' -> c_string name -> dir_find name ents = None ->
  (forall name' ino, (name', ino) ∈ ents -> 0 <= ino < 2 ^ 31) ->
  exists s2 tr2, simplefs_lookup dir name e s' tr = Fault NullDeref s2 tr2.
Proof using He Hpre.
  intros [Hdir Hp Hc Hnone] Hw Hn Hf Hinos.
  pose proof Hpre as [[_ _ Hcr _ _ _ _] Hpriv _ _ _ _ _ _ Hroom _].
  rewrite (proj1 (undisturbed_lookup e He dir name s' tr)).
  pose proof (lookup_run (quieten e) s' tr dir p d' (ents ++ [(name, c + 8)]) name c
    (quieten_quiet e) Hw Hc ltac:(lia) Hpriv Hp Hdir) as H.
  cbv zeta in H. rewrite (dir_find_append _ _ _ Hf), Hnone in H. apply H; [| |done].
  - unfold d'. cbn. rewrite length_app, uwrap_id by int_lia. cbn. lia.
  - intros name' ino [Hin|[= -> ->]%list_elem_of_singleton]%elem_of_app;
      [by eapply Hinos|int_lia].
Qed.
End dangle.

(** ** The theorem *)

(** C40: One signal is enough to make an entry dangle.  When the wait of
    [simplefs_inode_add] for the inode-management mutex is interrupted and every
    other service succeeds, creating a name that is not yet in a directory with
    room, under the preconditions of a successful creation and with an inode
    number that is not in use, reports success after exactly one interrupted
    wait; the directory then ends with the new name and its inode number, no
    inode with that number is stored nor the count changed, and looking the name
    up dereferences NULL. *)
Theorem one_signal_dangles e s tr dir p d ents c fb j kp name m excl :
  add_interrupted e -> env_wf e -> create_pre s dir p d ents c fb j kp name m ->
  name_ok name -> dir_find name ents = None ->
  (forall name' ino, (name', ino) ∈ ents -> 0 <= ino < 2 ^ 31) ->
  (forall x, 0 <= x < c -> slot_no (b_data s 1) x <> Some (c + 8)) ->
  exists s1 tr1,
    simplefs_create dir name m excl e s tr = Ok 0 s1 tr1 /\
    signals tr1 = S (signals tr) /\ dangling p d ents c name s1 /\
    exists s2 tr2, simplefs_lookup dir name e s1 tr1 = Fault NullDeref s2 tr2.
Proof.
  intros He Hwe Hpre Hn Hf Hinos Huniq. unfold simplefs_create.
  pose proof (create_signal e He Hwe s dir p d ents c fb j kp name m Hpre tr) as H.
  apply wp_run in H as (r & s1 & tr1 & Hrun & -> & Hsig & sl & s0 & dF & Ha & Hr & HF & ->).
  pose proof Hpre as [[Hw _ _ _ _ _ [Hm _]] _ _ _ _ _ _ _ _ _].
  pose proof (keeps_create_fs_object e Hwe dir name m (c_string_wf _ (proj1 Hn)) Hm s tr Hw)
    as Hw'.
  unfold wlp in Hw'. rewrite Hrun in Hw'. destruct Hw' as [Hw' _].
  assert (dangling p d ents c name (set_b_data 1 dF (set_slab p
    (set_dir_children_count (Z.of_nat (length ents) + 1) d) s0))) as Hd
    by (by eapply unstored_dangling).
  eexists _, tr1. split; [exact Hrun|]. split; [done|]. split; [done|].
  apply (dangling_lookup e He s dir p d ents c fb j kp name m Hpre); try done.
  by apply Hn.
Qed.

(** On the mounted image of [mkfs], with the second wait for the
    inode-management mutex interrupted. *)
Definition add_signal : env kcall := fun tr c =>
  match c as c0 return resp c0 -> resp c0 with
  | mutex_lock_interruptible simplefs_inodes_mgmt_lock => fun r =>
      if add_begins tr then - EINTR else r
  | _ => fun r => r
  end (quiet_env tr c).

Lemma add_signal_interrupts : add_interrupted add_signal.
Proof.
  split.
  - intros tr H. cbn. by rewrite H.
  - intros tr c H. pose proof (quiet_env_quiet tr c) as Hq. destruct c as [[]| | | | | | |
      | | | | | | | | | | | |]; try exact Hq. cbn. by rewrite H.
Qed.
Lemma add_signal_wf : env_wf add_signal.
Proof. intros tr c. pose proof (quiet_env_wf tr c) as H. by destruct c. Qed.

Lemma one_signal_dangles_witness :
  exists s1 tr1,
    simplefs_create root_dir (str "f") f_mode true add_signal world [] = Ok 0 s1 tr1 /\
    signals tr1 = 1%nat /\
    dangling 0 (root_inode 0) [record1; record2] 3 (str "f") s1 /\
    exists s2 tr2,
      simplefs_lookup root_dir (str "f") add_signal s1 tr1 = Fault NullDeref s2 tr2.
Proof.
  apply (one_signal_dangles add_signal world [] root_dir 0%nat (root_inode 0)
    [record1; record2] 3 mkfs_free_blocks 2 0 (str "f") f_mode true
    add_signal_interrupts add_signal_wf).
  - apply world_create. reflexivity.
  - by apply name_ok_bool.
  - reflexivity.
  - exact world_inos.
  - intros x Hx. rewrite world_slots by done. intros [= H]. lia.
Defined.
