(* ===== verification/SimplefsSignals.v ===== *)
(** * simplefs: sequences of operations in any environment

    A signal may interrupt any wait for a mutex, and any other service may fail,
    at any point of any operation.  What an interrupted creation or write leaves
    behind still holds a tree; [interrupted] says which, one constructor per
    place where the wait is interrupted.  With it every sequence of calls
    follows the tree specification in every environment, up to a call that the
    specification leaves open or that stops.  (A mutex that an
    interrupted operation leaves locked is the subject of
    [interrupted_waits_break_locking]: the sequences are those in which later
    waits end.) *)

From S2P Require Export SimplefsErrors SimplefsFailures SimplefsDangle.

(** ** Operations that do not wait *)

(** The environment that answers like [e] except that no wait is interrupted. *)
Definition deaf (e : env kcall) : env kcall := fun tr c =>
  match c with mutex_lock_interruptible _ => 0 | c => e tr c end.

Lemma deaf_no_signals e : no_signals (deaf e).
Proof. by intros tr l. Qed.
Lemma deaf_wf e : env_wf e -> env_wf (deaf e).
Proof. intros He tr c. pose proof (He tr c) as H. by destruct c. Qed.

(** It makes no difference to an operation that takes no mutex. *)
Definition no_wait {A} (m : K A) : Prop := forall e s tr, m (deaf e) s tr = m e s tr.

Section no_wait_rules.
Context {A R : Type}.
Lemma no_wait_ret (a : A) : no_wait (mret a).
Proof. done. Qed.
Lemma no_wait_fail x : no_wait (fail (A := A) x).
Proof. done. Qed.
Lemma no_wait_bind (m : K R) (f : R -> K A) :
  no_wait m -> (forall a, no_wait (f a)) -> no_wait (m ≫= f).
Proof.
  intros Hm Hf e s tr. unfold mbind, M_bind. rewrite Hm. destruct (m e s tr); [apply Hf|done].
Qed.
Lemma no_wait_call c : (forall l, c <> mutex_lock_interruptible l) -> no_wait (call c).
Proof. intros Hc e s tr. unfold call. destruct c; first [reflexivity|by destruct (Hc l)]. Qed.
End no_wait_rules.

Lemma no_wait_get : no_wait get.
Proof. done. Qed.
Lemma no_wait_put s : no_wait (put s).
Proof. done. Qed.
Lemma no_wait_modify f : no_wait (modify f).
Proof. done. Qed.
Lemma no_wait_or_fault {A} x (o : option A) : no_wait (or_fault x o).
Proof. by destruct o. Qed.

Create HintDb no_wait.
#[export] Hint Resolve no_wait_ret no_wait_fail no_wait_get no_wait_put no_wait_modify
  no_wait_or_fault : no_wait.

Ltac no_wait_step :=
  lazymatch goal with
  | |- no_wait (if ?b then _ else _) => destruct b
  | |- no_wait (match ?x with _ => _ end) => destruct x
  | |- no_wait (call ?c) => exact (no_wait_call c ltac:(discriminate))
  | |- no_wait (_ ≫= _) => apply no_wait_bind; [|intros ?]
  end; cbn beta.
Ltac no_wait_go := repeat no_wait_step; auto with no_wait.

Lemma no_wait_buf_read {A} n (f : bytes -> option A) : no_wait (buf_read n f).
Proof. unfold buf_read. no_wait_go. Qed.
Lemma no_wait_deref p : no_wait (deref p).
Proof. unfold deref. no_wait_go. Qed.
#[export] Hint Resolve no_wait_buf_read no_wait_deref : no_wait.
Lemma no_wait_assign p f : no_wait (assign p f).
Proof. unfold assign. no_wait_go. Qed.
Lemma no_wait_alloc : no_wait alloc_inode.
Proof. unfold alloc_inode. no_wait_go. Qed.
Lemma no_wait_BUG_ON b : no_wait (BUG_ON b).
Proof. unfold BUG_ON. no_wait_go. Qed.
#[export] Hint Resolve no_wait_assign no_wait_alloc no_wait_BUG_ON : no_wait.

Lemma no_wait_get_inode_loop n k no : no_wait (get_inode_loop n k no).
Proof. revert k. induction n as [|n IH]; intros k; simpl; no_wait_go. Qed.
#[export] Hint Resolve no_wait_get_inode_loop : no_wait.
Lemma no_wait_get_inode no : no_wait (simplefs_get_inode no).
Proof. unfold simplefs_get_inode, SIMPLEFS_SB. no_wait_go. Qed.
#[export] Hint Resolve no_wait_get_inode : no_wait.
Lemma no_wait_iget no : no_wait (simplefs_iget no).
Proof. unfold simplefs_iget. no_wait_go. Qed.
#[export] Hint Resolve no_wait_iget : no_wait.
Lemma no_wait_lookup_loop n k blk name : no_wait (lookup_loop n k blk name).
Proof. revert k. induction n as [|n IH]; intros k; simpl; no_wait_go. Qed.
Lemma no_wait_iterate_loop n k blk pos : no_wait (iterate_loop n k blk pos).
Proof. revert k pos. induction n as [|n IH]; intros k pos; simpl; no_wait_go. Qed.
#[export] Hint Resolve no_wait_lookup_loop no_wait_iterate_loop : no_wait.

(** Does the operation wait for a mutex? *)
Definition waits_for_mutex (op : vfs_op) : bool :=
  match op with op_create _ _ _ _ | op_mkdir _ _ _ | op_write _ _ _ => true | _ => false end.

Lemma call_vfs_deaf e op c :
  waits_for_mutex op = false -> call_vfs (deaf e) op c = call_vfs e op c.
Proof.
  destruct c as [s tr]. destruct op; intros H; try done; cbn [call_vfs]; f_equal;
    match goal with |- ?m (deaf e) s tr = _ => enough (no_wait m) by done end.
  - unfold simplefs_lookup. no_wait_go.
  - unfold simplefs_iterate. no_wait_go.
  - unfold simplefs_read. no_wait_go.
  - unfold simplefs_destory_inode. no_wait_go.
  - unfold simplefs_fill_super. no_wait_go.
Qed.

(** ** What creation binds *)

(** The inode of a successful creation is the last thing bound; a failed one
    ends with an unlock or a wait. *)
Definition bound_or_error (new : inode) (r : Z) (tr : trace kcall) : Prop :=
  r <> 0 /\ last_bound tr = None \/ r = 0 /\ last_bound tr = Some new.

Lemma record_bound dir new name m e s tr :
  wlp (record_fs_object dir new name m) e (fun r _ tr' => bound_or_error new r tr') s tr.
Proof.
  unfold record_fs_object, directory_unlock.
  do 9 (apply wlp_bind_any; intros ? ? ?). apply wlp_bind_any; intros r s1 tr1.
  destruct (negb (r =? 0)); [wp_go; by left|].
  apply wlp_bind_any; intros ? ? ?. apply wlp_bind_any; intros ret s2 tr2. wp_go.
  destruct (Z.eqb_spec ret 0) as [->|]; cbn [negb].
  - wp_go. by right.
  - wp_go. by left.
Qed.

Lemma wlp_alloc_inode e s tr :
  wlp alloc_inode e (fun p _ _ => p = None \/ p = Some (slab_next s)) s tr.
Proof.
  unfold alloc_inode. wp_go. destruct (e tr kmem_cache_alloc) as [g|]; wp_go; [|by left].
  by right.
Qed.

Lemma create_bound dir name m e s tr :
  wlp (simplefs_create_fs_object dir name m) e (fun r _ tr' =>
    bound_or_error (mk_vfs_inode (u64 (default 0 (sb_inodes_count (b_data s 0)) + 8))
      (created_fop m) (Some (slab_next s))) r tr') s tr.
Proof.
  unfold simplefs_create_fs_object, directory_unlock. wp_go.
  destruct (negb _); [wp_go; by left|].
  apply wlp_bind. eapply wlp_mono; [apply wlp_get_objects_count|].
  intros [ret count] s1 tr1 [-> Hc]. cbn [fst snd] in Hc.
  destruct (Z.ltb_spec ret 0); [wp_go; left; split; [lia|done]|].
  destruct Hc as [|Hc]; [lia|]. cbv zeta. subst count.
  destruct (_ <=? _); [wp_go; by left|]. destruct (_ && _); [wp_go; by left|]. wp_go.
  destruct (negb _); [wp_go; by left|].
  assert (default 0 (sb_inodes_count (b_data s 0)) + SIMPLEFS_START_INO -
    SIMPLEFS_RESERVED_INODES + 1 = default 0 (sb_inodes_count (b_data s 0)) + 8) as ->
    by (unfold SIMPLEFS_START_INO, SIMPLEFS_RESERVED_INODES; lia).
  apply wlp_bind. eapply wlp_mono; [apply wlp_alloc_inode|].
  intros p s1 tr2 [-> | ->]; [exact I|].
  apply wlp_bind_any. intros _ s2 tr3. apply wlp_bind_any. intros [ret0 block] s3 tr4.
  destruct (Z.ltb_spec ret0 0); [wp_go; left; split; [lia|done]|].
  apply wlp_bind_any. intros _ s4 tr5. unfold link_fs_object.
  apply wlp_bind_any. intros _ s5 tr6. apply record_bound.
Qed.

(** ** What an interrupted creation leaves *)

(** The object that creation makes in the tree [t]. *)
Definition new_node (m : Z) (t : tree) : node :=
  mk_node (Z.of_nat (length (t_nodes t)) + 8) m (if S_ISDIR m then Dir [] else Reg []).

(** The tree when the object has been linked neither to a handle nor to an
    entry: its block is taken, and it is stored or not. *)
Definition placed (stored : bool) (m : Z) (t : tree) : tree :=
  let t' := take_block (leak t) in if stored then store_node (new_node m t) t' else t'.

Section interrupted_creation.
Context (blks : list Z) (fb : Z) (t : tree) (s : fs) (R : rep_with blks fb t s).
Context (dir : inode) (h k : nat) (nd : node) (ents : list entry).
Context (Ho : opened t dir = Some (h, k, nd)) (Hents : n_body nd = Dir ents).
Context (name : bytes) (m : Z) (Hname : name_ok name).
Context (Hm : 0 <= m < 2 ^ 16 /\ S_ISDIR m || S_ISREG m = true).
Context (Hsmall : (length (t_nodes t) < 64)%nat) (Hroom : (length ents < 16)%nat).
Context (j : Z) (rest : list Z) (Hfree : free_list fb = j :: rest).

Let c := Z.of_nat (length (t_nodes t)).
Let blks' (stored : bool) := if stored then blks ++ [j] else blks.

Lemma pre_link_eq g dA :
  pre_link_state s c j m g dA = set_b_data 0 dA (fresh_object (created_inode c j m g) s).
Proof using.
  unfold pre_link_state, set_b_data, set_slab, fresh_object. cbn.
  by rewrite !insert_insert_eq.
Qed.

Lemma object_state_eq g : object_state s c m g = fresh_object (init_fields (c + 8) m g) s.
Proof using.
  unfold object_state, set_slab, fresh_object. cbn. by rewrite insert_insert_eq.
Qed.

Lemma opened_placed stored : opened (placed stored m t) dir = Some (h, k, nd).
Proof using Ho.
  pose proof (opened_handle _ _ _ _ _ Ho) as (Hp & Hk & Hh). unfold opened.
  rewrite Hp. simpl. destruct stored; cbn [placed store_node take_block leak t_handles t_nodes];
    rewrite Hh; simpl; [rewrite lookup_app_l by (by eapply lookup_lt_Some)|];
    rewrite Hk; simpl; by rewrite Z.eqb_refl.
Qed.

Lemma rep_added stored sl :
  added s c fb j m stored sl -> (forall i, slab sl !! slab_next s = Some i -> wf_inode i) ->
  rep_with (blks' stored) (Z.clearbit fb j) (placed stored m t) sl.
Proof using R Hfree Hm Hsmall Hroom.
  intros Ha Hwf. unfold blks'.
  assert (forall g dA, wf_inode (created_inode c j m g) ->
    set_sb_free_blocks (Z.clearbit fb j) (b_data s 0) = Some dA ->
    rep_with blks (Z.clearbit fb j) (placed false m t) (pre_link_state s c j m g dA)) as Hskip.
  { intros g dA Hg HA. rewrite pre_link_eq.
    eapply (rep_take _ _ _ _ (rep_leak _ _ _ _ R _ Hg)); [exact Hfree|exact HA]. }
  destruct Ha as [g dA HA|g dA dB dC HA HB HC].
  - apply Hskip; [|done]. apply Hwf. unfold pre_link_state. bd. apply lookup_insert_eq.
  - assert (wf_inode (created_inode c j m g)) as Hg.
    { apply Hwf. unfold pre_link_state. bd. apply lookup_insert_eq. }
    specialize (Hskip g dA Hg HA). destruct (created_blocks blks fb t s R j rest Hfree) as [Bd Bu].
    apply Forall_app in Bu as [_ (Hj0 & Hj1 & Hjf)%Forall_singleton].
    apply NoDup_app in Bd as (_ & Bd & _).
    assert (j ∉ blks) as Hjb by (intros Hin; by apply (Bd j Hin), list_elem_of_singleton).
    eapply (rep_store _ _ _ _ Hskip (created_inode c j m g) (new_node m t) j); try done.
    + cbn. subst c. lia.
    + split_and!; try done. cbn. by destruct (S_ISDIR m).
    + intros l. unfold holds_body, new_node. cbn [n_body n_mode]. destruct (S_ISDIR m) eqn:Em.
      * split; [done|]. split; [cbn; lia|]. split; [by intros ? ? [=]|done].
      * split; [done|]. split; [cbn; lia|done].
Qed.

Section recorded.
Context (d : simplefs_inode) (Hpre : create_pre s dir h d ents c fb j (Z.of_nat k) name m).
Context (stored : bool) (sl s1 : fs).
Context (Ha : added s c fb j m stored sl) (Hrec : recorded s d ents c name sl s1).
Context (Hwf : forall i, slab s1 !! slab_next s = Some i -> wf_inode i).

Let blk := data_block_number d.

(** The block of the directory after the record was written. *)
Lemma recorded_block :
  exists dE, is_dir dE (ents ++ [(name, c + 8)]) /\ length dE = 4096%nat /\ wf_bytes dE /\
    (forall x, b_data s1 x = b_data (set_b_data blk dE sl) x) /\
    slab s1 = slab sl /\ slab_next s1 = slab_next sl.
Proof using Hpre Ha Hrec Hname Hsmall R.
  clear Hwf Hroom.
  destruct (added_facts _ _ _ _ _ _ _ _ _ _ _ Hpre _ _ Ha) as (_ & _ & Hblk & _).
  destruct Hrec as (dD & dE & HD & HE & ->). exists dE.
  pose proof (rw_wf _ _ _ _ R) as Hw. destruct Hname as [Hc _].
  destruct (keeps_store_le _ _ _ _ _ (wf_block_bytes _ Hw _) HD) as [LD WD].
  assert (wf_bytes (name ++ [0])) as Hn0
    by (apply Forall_app; split; [by apply c_string_wf|by apply Forall_singleton]).
  destruct (keeps_store _ _ Hn0 _ _ WD HE) as [LE WE].
  split; [|split_and!; try done].
  - eapply is_dir_append; [apply (cp_is_dir _ _ _ _ _ _ _ _ _ _ _ Hpre)|done| |exact HD|exact HE].
    subst c. int_lia.
  - by rewrite LE, LD, (wf_block_length _ Hw).
  - intros x. destruct (decide (x = blk)) as [->|]; unfold blk in *; by bd.
Qed.

Lemma rep_recorded : rep_with (blks' stored) (Z.clearbit fb j) (placed stored m t) s1.
Proof using All.
  destruct recorded_block as (dE & Hdir & HL & HW & Hb & Hs & Hn).
  eapply rep_with_ext; [exact Hb|exact Hs|exact Hn|].
  assert (rep_with (blks' stored) (Z.clearbit fb j) (placed stored m t) sl) as Hsl
    by (apply rep_added; [done|by rewrite <- Hs]).
  pose proof (opened_placed stored) as Hop.
  destruct (added_facts _ _ _ _ _ _ _ _ _ _ _ Hpre _ _ Ha) as (Hd & _).
  destruct (rep_opened _ _ _ _ R _ _ _ _ Ho) as (_ & _ & b & d0 & _ & _ & _ & _ & Hs0 & _ & _ & Hh).
  unfold holds_body in Hh. rewrite Hents in Hh. destruct Hh as (? & ? & _ & ?).
  rewrite <- (set_body_same _ _ _ _ _ Hop).
  eapply (rep_rewrite _ _ _ _ Hsl dir); try done.
  rewrite Hents. unfold holds_body. cbn [n_body n_mode]. split_and!; try done.
  intros x ent Hx. apply Hdir. by apply lookup_app_l_Some.
Qed.

Let d' := set_dir_children_count (Z.of_nat (length ents) + 1) d.

(** The entry counted in core only. *)
Lemma rep_unsaved :
  rep_with (blks' stored) (Z.clearbit fb j)
    (restale h k (Z.of_nat (length ents) + 1) (placed stored m t)) (set_slab h d' s1).
Proof using All.
  destruct recorded_block as (dE & _ & _ & _ & _ & Hs & _).
  destruct (added_facts _ _ _ _ _ _ _ _ _ _ _ Hpre _ _ Ha) as (Hd & _).
  destruct (opened_handle _ _ _ _ _ (opened_placed stored)) as (_ & _ & Hh).
  apply (rep_restale _ _ _ _ rep_recorded); [by rewrite Hs|by eexists|int_lia].
Qed.

(** Success, with the inode of the new object stored or not. *)
Lemma rep_recounted dF :
  store_inode (Z.of_nat k) d' (b_data sl 1) = Some dF ->
  wf_fs (set_b_data 1 dF (set_slab h d' s1)) ->
  rep_with (blks' stored) (Z.clearbit fb j)
    (set_body h k nd (Dir (ents ++ [(name, c + 8)])) (placed stored m t))
    (set_b_data 1 dF (set_slab h d' s1)).
Proof using All.
  intros HF Hw. destruct recorded_block as (dE & Hdir & _ & _ & Hb & Hs & _).
  pose proof rep_recorded as Hrep.
  destruct (rep_opened _ _ _ _ Hrep _ _ _ _ (opened_placed stored))
    as (_ & Hk & b & d0 & Hbk & Hb0 & Hb1 & _ & Hs0 & Hl & Hdesc & Hh).
  destruct (added_facts _ _ _ _ _ _ _ _ _ _ _ Hpre _ _ Ha) as (Hd & _).
  rewrite Hs, Hd in Hs0. injection Hs0 as <-. pose proof Hdesc as (_ & _ & Hblk & _).
  assert (b_data sl 1 = b_data s1 1) as E1 by (rewrite Hb; unfold blk; rewrite Hblk; by bd).
  rewrite E1 in HF. unfold holds_body in Hh. rewrite Hents in Hh. destruct Hh as (Hi & _ & _ & Hr).
  assert (set_file_size (body_size (Dir (ents ++ [(name, c + 8)]))) d = d') as Ed.
  { unfold d', set_dir_children_count. f_equal. cbn. rewrite length_app. cbn. lia. }
  eapply rep_set_body; try done; rewrite ?Ed; bd; try done.
  - cbn. rewrite length_app. cbn. int_lia.
  - eapply load_store_inode_same; [|exact HF]. apply set_file_size_wf.
    by apply (wf_slab _ (rw_wf _ _ _ _ R) h), (cp_parent _ _ _ _ _ _ _ _ _ _ _ Hpre).
  - intros x Hx Hxk. apply (load_store_inode_ne (Z.of_nat k) _ d'); [lia|done].
  - intros x Hx _.
    destruct (proj1 (Forall_forall _ _) (rw_used _ _ _ _ Hrep) _ Hx) as (_ & ? & _). by bd.
  - rewrite Hb. unfold blk. rewrite Hblk. bd.
    unfold holds_body. cbn [n_body n_mode]. rewrite length_app. split; [done|].
    split; [cbn; lia|]. split; [done|]. apply Forall_app. split; [done|].
    apply Forall_singleton. cbn. subst c. lia.
Qed.
End recorded.

(** Success, with everything stored. *)
Lemma rep_success b d sl s1 dF :
  let d' := set_dir_children_count (Z.of_nat (length ents) + 1) d in
  create_pre s dir h d ents c fb j (Z.of_nat k) name m ->
  blks !! k = Some b -> data_block_number d = b -> b <> j ->
  load_inode (Z.of_nat k) (b_data s 1) = Some d -> describes b nd d ->
  S_ISDIR (n_mode nd) = true -> Forall (fun ent => 0 <= ent.2 < 2 ^ 31) ents ->
  added s c fb j m true sl -> recorded s d ents c name sl s1 ->
  store_inode (Z.of_nat k) d' (b_data sl 1) = Some dF ->
  wf_fs (set_b_data 1 dF (set_slab h d' s1)) ->
  rep_with (blks ++ [j]) (Z.clearbit fb j)
    (add_node (new_node m t) (set_body h k nd (Dir (ents ++ [(name, c + 8)])) t))
    (set_b_data 1 dF (set_slab h d' s1)).
Proof using All.
  intros d' Hpre Hb Hblk Hbj Hd Hdesc Hdir Hrange Ha (dD & dE & HD & HE & ->) HF Hw.
  inversion Ha as [|g dA dB dC HA HB HC]; subst sl.
  pose proof (parent_not_fresh _ _ _ _ _ _ _ _ _ _ _ Hpre) as Hne.
  set (g' := created_inode c j m g). assert (wf_inode g') as Hg.
  { apply (wf_slab _ Hw (slab_next s)). cbn. rewrite !lookup_insert_ne by done.
    by rewrite lookup_insert_eq. }
  assert (pre_link_state s c j m g dA = pre_link_state s c j m g' dA) as Eg
    by (by rewrite !pre_link_eq).
  rewrite Eg in Hw |- *.
  exact (rep_created blks fb t s R dir h k nd ents Ho Hents name m Hname Hm Hsmall
    Hroom j rest Hfree b d Hpre Hb Hblk Hbj Hd Hdesc Hdir Hrange g' dA dB dC dD dE dF
    ltac:(by split) Hg Hw).
Qed.
End interrupted_creation.

(** ** The specification with interruptions *)

(** The answers of an interrupted call, and the tree it leaves, in the order of
    the waits in the code. *)
Inductive interrupted : vfs_op -> tree -> answer -> tree -> Prop :=
  | create_early op x t a t' :
      creates op = Some x -> spec_op op t = Some (a, t') ->
      interrupted op t (bound (- EINTR) None) t
  | create_object_leaked op x t t' i :
      creates op = Some x -> spec_op op t = Some (bound 0 i, t') ->
      interrupted op t (bound (- EINTR) None) (leak t)
  | create_uncounted op dir name m t t' i stored :
      creates op = Some (dir, name, m) -> spec_op op t = Some (bound 0 i, t') ->
      interrupted op t (bound (- EINTR) None) (placed stored m t)
  | create_unsaved op dir name m t t' i stored h k nd ents :
      creates op = Some (dir, name, m) -> spec_op op t = Some (bound 0 i, t') ->
      opened t dir = Some (h, k, nd) -> dir_ents nd = Some ents ->
      interrupted op t (bound (- EINTR) None)
        (restale h k (Z.of_nat (length ents) + 1) (placed stored m t))
  | create_not_stored op dir name m t t' i h k nd ents :
      creates op = Some (dir, name, m) -> spec_op op t = Some (bound 0 i, t') ->
      opened t dir = Some (h, k, nd) -> dir_ents nd = Some ents ->
      interrupted op t (bound 0 i)
        (set_body h k nd (Dir (ents ++ [(name, n_ino (new_node m t))])) (placed false m t))
  | write_same_size i buf ppos t h k nd content :
      opened t i = Some (h, k, nd) -> reg_content nd = Some content ->
      interrupted (op_write i buf ppos) t (wrote (- EINTR) (ppos + Z.of_nat (length buf)))
        (set_body h k nd (Reg (scribble ppos buf content)) t)
  | write_unsaved i buf ppos t h k nd content :
      opened t i = Some (h, k, nd) -> reg_content nd = Some content ->
      interrupted (op_write i buf ppos) t (wrote (- EINTR) (ppos + Z.of_nat (length buf)))
        (restale h k (ppos + Z.of_nat (length buf))
           (set_body h k nd (Reg (scribble ppos buf content)) t)).

(** A service failed or a wait was interrupted. *)
Definition troubled (op : vfs_op) (t : tree) (a : answer) (t' : tree) : Prop :=
  fails op t a t' \/ interrupted op t a t'.

(** ** One call *)

(** The errors reported before anything is touched. *)
Lemma rejected_ends s dir name m c r :
  sb_inodes_count (b_data s 0) = Some c ->
  (if 64 <=? c then Some (- ENOSPC)
   else if negb (S_ISDIR m || S_ISREG m) then Some (- EINVAL) else None) = Some r ->
  ends (simplefs_create_fs_object dir name m) s
    (fun v s' => (v = - EINTR \/ v = r) /\ s' = s) (fun _ _ => False).
Proof.
  intros Hc Hr. unfold simplefs_create_fs_object, directory_unlock. ends_go; [by auto|].
  apply (ends_get_objects_count _ c); [done| |];
    (change (- EINTR <? 0) with true || change (0 <? 0) with false); [by ends_go; auto|].
  cbv iota. cbn [from_option id]. cbv zeta. unfold SIMPLEFS_MAX_FILESYSTEM_OBJECTS_SUPPORTED.
  rewrite <- negb_orb. destruct (64 <=? c).
  - injection Hr as <-. ends_go. by auto.
  - destruct (negb _); [|done]. injection Hr as <-. ends_go. by auto.
Qed.

Lemma no_memory_fails op x t i t' :
  creates op = Some x -> spec_op op t = Some (bound 0 i, t') ->
  fails op t (bound (- ENOMEM) None) t.
Proof. destruct op; try done; intros _ H; by econstructor. Qed.

Lemma creates_spec op dir name m t :
  creates op = Some (dir, name, m) -> spec_op op t = spec_create dir name m t.
Proof. destruct op; try done; by intros [= -> -> <-]. Qed.

(** Creation with room for the object. *)
Lemma create_room_troubled op dir name m e t s tr blks fb h k nd ents j rest :
  env_wf e -> creates op = Some (dir, name, m) -> name_ok name -> 0 <= m < 2 ^ 16 ->
  S_ISDIR m || S_ISREG m = true -> rep_with blks fb t s ->
  opened t dir = Some (h, k, nd) -> n_body nd = Dir ents -> free_list fb = j :: rest ->
  (length (t_nodes t) < 64)%nat -> (length ents < 16)%nat ->
  let new := mk_vfs_inode (Z.of_nat (length (t_nodes t)) + 8) (created_fop m) (Some (t_next t)) in
  let t' := add_node (new_node m t)
    (set_body h k nd (Dir (ents ++ [(name, Z.of_nat (length (t_nodes t)) + 8)])) t) in
  spec_op op t = Some (bound 0 (Some new), t') ->
  match simplefs_create_fs_object dir name m e s tr with
  | Ok r s' tr' => exists t', (spec_op op t = Some (bound r (last_bound tr'), t') \/
      troubled op t (bound r (last_bound tr')) t') /\ rep t' s'
  | Fault x _ _ => stop x
  end.
Proof.
  intros He Hop Hname Hm Hmode R Ho Hents Hfree Hsmall Hroom new t' Hspec.
  pose proof (conj Hm Hmode) as Hm'.
  destruct (rep_create_pre blks fb t s R dir h k nd ents Ho Hents name m Hname Hm' Hsmall
    Hroom j rest Hfree) as (b & d & Hpre & Hb & Hblk & Hbj & Hd & Hdesc & Hdir & Hrange).
  pose proof (create_ends_lemma s dir h d ents _ fb j _ name m Hpre e tr) as Hend.
  pose proof (create_bound dir name m e s tr) as Hbound. unfold wlp in Hbound.
  pose proof (keeps_create_fs_object e He dir name m (c_string_wf _ (proj1 Hname)) Hm
    s tr (rw_wf _ _ _ _ R)) as Hw. unfold wlp in Hw.
  rewrite (rw_count _ _ _ _ R), (rw_next _ _ _ _ R) in Hbound. cbn [from_option id] in Hbound.
  rewrite uwrap_id in Hbound by int_lia. fold new in Hbound.
  destruct (simplefs_create_fs_object dir name m e s tr) as [r s' tr'|x s' tr'].
  2: { by destruct Hend; [right|left..]. }
  destruct Hw as [Hw _].
  assert (dir_ents nd = Some ents) as Hde by (unfold dir_ents; by rewrite Hents).
  assert (r <> 0 -> last_bound tr' = None) as Hnone by (by destruct Hbound as [[_ ?]|[? _]]).
  pose proof (parent_not_fresh _ _ _ _ _ _ _ _ _ _ _ Hpre) as Hne.
  pose proof (wf_slab _ Hw) as Hws.
  destruct Hend as [r [-> | ->]|g|stored sl s1 Ha Hr|stored sl s1 Ha Hr|stored sl s1 dF Ha Hr HF];
    try (rewrite Hnone by done).
  - exists t. split; [right; right; by eapply create_early|by exists blks, fb].
  - exists t. split; [right; left; by eapply no_memory_fails|by exists blks, fb].
  - exists (leak t). split; [right; right; by eapply create_object_leaked|]. exists blks, fb.
    rewrite object_state_eq in Hws |- *. apply rep_leak; [done|].
    apply (Hws (slab_next s)). apply lookup_insert_eq.
  - exists (placed stored m t). split; [right; right; by eapply create_uncounted|].
    eexists _, _. eapply rep_recorded; try done. by intros ? ?%Hws.
  - eexists. split; [right; right; by eapply create_unsaved|].
    eexists _, _. eapply rep_unsaved; try done. intros i Hi.
    apply (Hws (slab_next s)). cbn. by rewrite lookup_insert_ne.
  - destruct Hbound as [[? _]|[_ ->]]; [done|]. destruct stored.
    + exists t'. split; [by left|]. eexists _, _.
      by eapply (rep_success blks fb t s R dir h k nd ents).
    + eexists. split; [right; right; by eapply create_not_stored|].
      eexists _, _. eapply (rep_recounted blks fb t s R); try done.
      intros i Hi. apply (Hws (slab_next s)). cbn. by rewrite lookup_insert_ne.
Qed.

(** Creation in any environment. *)
Lemma create_troubled op dir name m e t a0 t0 s tr :
  env_wf e -> creates op = Some (dir, name, m) -> name_ok name -> 0 <= m < 2 ^ 16 ->
  rep t s -> spec_op op t = Some (a0, t0) ->
  match simplefs_create_fs_object dir name m e s tr with
  | Ok r s' tr' => exists t', (spec_op op t = Some (bound r (last_bound tr'), t') \/
      troubled op t (bound r (last_bound tr')) t') /\ rep t' s'
  | Fault x _ _ => stop x
  end.
Proof.
  intros He Hop Hname Hm (blks & fb & R) Hspec.
  pose proof (rw_count _ _ _ _ R) as Hcount. pose proof Hspec as Hs.
  rewrite (creates_spec _ _ _ _ _ Hop) in Hs. unfold spec_create in Hs.
  pose proof (fun r => rejected_ends s dir name m _ r Hcount) as Hrej.
  assert (forall r, a0 = bound r None -> t0 = t -> r <> 0 ->
    ends (simplefs_create_fs_object dir name m) s
      (fun v s' => (v = - EINTR \/ v = r) /\ s' = s) (fun _ _ => False) ->
    match simplefs_create_fs_object dir name m e s tr with
    | Ok r s' tr' => exists t', (spec_op op t = Some (bound r (last_bound tr'), t') \/
        troubled op t (bound r (last_bound tr')) t') /\ rep t' s'
    | Fault x _ _ => stop x
    end) as Hrejected.
  { intros r -> -> Hr Hends. specialize (Hends e tr).
    pose proof (create_bound dir name m e s tr) as Hbound. unfold wlp in Hbound.
    destruct (simplefs_create_fs_object dir name m e s tr) as [v s' tr'|x s' tr']; [|done].
    destruct Hends as [Hv ->]. exists t. split; [|by exists blks, fb].
    destruct Hbound as [[_ ->]|[-> _]]; [|by destruct Hv as [Hv|Hv]].
    destruct Hv as [-> | ->]; [right; right; by eapply create_early|by left]. }
  destruct (Z.leb_spec 64 (Z.of_nat (length (t_nodes t)))) as [|Hsmall].
  { injection Hs as <- <-. by eapply Hrejected; [..|apply Hrej]. }
  destruct (S_ISDIR m || S_ISREG m) eqn:Emode; cbn [negb] in Hs, Hrej.
  2: { injection Hs as <- <-. by eapply Hrejected; [..|apply Hrej]. }
  clear Hrej Hrejected.
  apply bind_Some in Hs as ([[h k] nd] & Eo & Hs).
  apply bind_Some in Hs as (ents & Hbody%dir_ents_Some & Hs).
  destruct ((0 <? t_room t)%nat && (length ents <? 16)%nat) eqn:Eg; [|done].
  apply andb_true_iff in Eg as [Hroom%Nat.ltb_lt Hlen%Nat.ltb_lt].
  injection Hs as <- <-. destruct (free_list fb) as [|j rest] eqn:Ef.
  { pose proof (rw_room _ _ _ _ R) as Hr. rewrite Ef in Hr. cbn in Hr. lia. }
  eapply create_room_troubled; try done. lia.
Qed.

(** A write in any environment. *)
Lemma write_troubled i buf ppos e t a0 t0 s tr :
  env_wf e -> wf_bytes buf -> rep t s ->
  spec_op (op_write i buf ppos) t = Some (a0, t0) ->
  match simplefs_write i buf ppos e s tr with
  | Ok (r, pos) s' _ => exists t', (spec_op (op_write i buf ppos) t = Some (wrote r pos, t') \/
      troubled (op_write i buf ppos) t (wrote r pos) t') /\ rep t' s'
  | Fault x _ _ => stop x
  end.
Proof.
  intros He Hbuf HR Hspec. pose proof HR as (blks & fb & R). pose proof Hspec as Hs.
  cbn [spec_op] in Hs. apply bind_Some in Hs as ([[h k] nd] & Ho & Hs).
  apply bind_Some in Hs as (content & Hc & Hs).
  destruct (_ && _) eqn:Eg in Hs; [|done]. bool_hyps. injection Hs as <- <-.
  destruct (rep_opened _ _ _ _ R _ _ _ _ Ho)
    as (Hp & Hk & b & d & Hb & Hb0 & Hb1 & _ & Hd & Hl & Hdesc & Hh).
  pose proof Hdesc as (Hno & _ & Hblk & Hsz).
  pose proof (lookup_lt_Some _ _ _ Hk). pose proof (rw_small _ _ _ _ R).
  pose proof (rep_slot_no _ _ _ _ R _ _ Hk) as Hslot. rewrite <- Hno in Hslot.
  assert (forall x, 0 <= x < Z.of_nat k -> slot_no (b_data s 1) x <> Some (inode_no d))
    as Hfirst by (intros x Hx; rewrite Hno; by apply (rep_slot_first _ _ _ _ R k)).
  pose proof (write_ends_lemma s (rw_wf _ _ _ _ R) i h d Hp Hd _ (Z.of_nat k) buf ppos
    (rw_count _ _ _ _ R) ltac:(lia) ltac:(split; [lia|done]) Hfirst
    ltac:(congruence) ltac:(congruence) ltac:(lia) ltac:(lia) e tr) as Hend.
  destruct (simplefs_write i buf ppos e s tr) as [[r pos] s' tr'|x s' tr'] eqn:Er.
  2: { destruct Hend as [-> _]. by left. }
  pose proof (keeps_fs_write e He i buf ppos Hbuf s tr (rw_wf _ _ _ _ R)) as Hw.
  unfold wlp in Hw. rewrite Er in Hw. destruct Hw as [Hw _].
  pose proof (fun dd l Hdd => rep_scribble _ _ _ _ _ _ _ _ _ ppos dd l d R Ho Hc
    ltac:(lia) Hdd Hd) as Hscr.
  inversion Hend; subst.
  - exists t. split; [right; left; constructor|by exists blks, fb].
  - eexists. split; [right; left; by eapply write_bad_buffer|].
    eexists _, _. eapply Hscr; [by apply user_copy_wf|done].
  - eexists. split; [right; right; by eapply write_same_size|]. eexists _, _. by eapply Hscr.
  - eexists. split; [right; right; by eapply write_unsaved|]. eexists _, _.
    eapply rep_restale; [by eapply Hscr|done| |int_lia].
    eexists. cbn. by rewrite lookup_insert_eq.
  - eexists. split; [by left|].
    eexists _, _. eapply rep_written; try done. by apply reg_content_Some.
Qed.

Lemma call_troubled e op t a0 t0 c :
  env_wf e -> op_ok op -> rep_run t c -> spec_op op t = Some (a0, t0) ->
  answered_by troubled e op t c.
Proof.
  destruct c as [s tr]. unfold rep_run. cbn [fst]. intros He Hok HR Hspec.
  destruct (waits_for_mutex op) eqn:Ew.
  - unfold answered_by. destruct op as [dir name m excl|dir name m| | | |i buf ppos| |];
      try done; cbn [call_vfs op_ok] in *.
    + destruct Hok as [Hn Hm]. unfold simplefs_create.
      pose proof (create_troubled (op_create dir name m excl) dir name m e t a0 t0 s tr
        He eq_refl Hn Hm HR Hspec) as H.
      by destruct (simplefs_create_fs_object dir name m e s tr).
    + unfold simplefs_mkdir.
      pose proof (create_troubled (op_mkdir dir name m) dir name _ e t a0 t0 s tr
        He eq_refl Hok (uwrap_range 16 _ ltac:(done)) HR Hspec) as H.
      by destruct (simplefs_create_fs_object _ _ _ e s tr).
    + pose proof (write_troubled i buf ppos e t a0 t0 s tr He Hok HR Hspec) as H.
      by destruct (simplefs_write i buf ppos e s tr) as [[r pos] s' tr'|x s' tr'].
  - pose proof (call_follows (deaf e) op t a0 t0 s tr (deaf_no_signals e) (deaf_wf e He)
      Hok HR Hspec) as H.
    unfold answered_by in H |- *. rewrite call_vfs_deaf in H by done.
    destruct (call_vfs e op (s, tr)) as [x|[a c']]; [done|].
    destruct H as (t' & [H|H] & HR'); exists t'; (split; [|done]); [by left|right; by left].
Qed.

(** ** The theorem *)

(** C2: In every environment, whatever services fail and whatever waits are
    interrupted by signals, every sequence of VFS calls on a memory that holds a
    tree follows the tree specification until one of two things happens: a call
    stops at an unchecked NULL or a [BUG_ON], or a call is made that the
    specification leaves open.  [outside] lists the latter: an operation on a
    stale or closed handle (its in-core size is not the object's) or on the
    wrong kind of object, a 17th entry, no block left, a write that starts past
    the end or goes past the block, a lookup of an entry whose inode is not
    stored, a mount without a root.  About such a call and those after it
    nothing is claimed.  Before, each call is answered as specified, as a failed
    call, or as an interrupted one, and leaves the tree that answer says: a
    leaked object, a block lost, an entry without an inode, a handle with a
    size that was not stored; none of these calls makes an access outside an
    object or after a free. *)
Theorem every_session_follows_tree e ops t s tr :
  env_wf e -> Forall op_ok ops -> rep t s -> follows troubled e t ops (s, tr).
Proof.
  intros He Hok HR. apply follows_calls; [|done|done].
  intros op t' a t'' c Hop HR' Hspec. by eapply call_troubled.
Qed.

(** With a kernel that interrupts the wait of [simplefs_inode_add]. *)
Lemma every_session_follows_tree_witness :
  follows troubled add_signal (image_tree used_bitmap) session (sound_image, []).
Proof.
  exact (every_session_follows_tree add_signal session (image_tree used_bitmap)
    sound_image [] add_signal_wf session_ok sound_image_rep).
Defined.
