(* ===== verification/SimplefsDisk.v ===== *)
(** * simplefs: what is on the disk

    The operations change blocks in the buffer cache and write some of them to
    the device with [sync_dirty_buffer].  [disk] is what the device holds: the
    blocks it held and those synchronised since, in order; blocks only marked
    dirty may never get there.  A call that reports no error of the kinds
    [lossy] leaves nothing behind in the cache only
    ([answered_calls_are_durable]); so a file system mounted anew after any
    sequence of calls holds the tree the calls left ([sessions_survive_remount]);
    and the power may fail in the middle of a call ([crash_anywhere]). *)

From S2P Require Export SimplefsSignals.

(** ** The device *)

Definition writes (l : list (Z * bytes)) (d : Z -> bytes) : Z -> bytes :=
  foldr (fun '(n, x) d => <[n := x]> d) d l.
Definition disk (d0 : Z -> bytes) (tr : trace kcall) : Z -> bytes := writes (syncs tr) d0.

Lemma writes_app l1 l2 d : writes (l1 ++ l2) d = writes l1 (writes l2 d).
Proof. apply foldr_app. Qed.
Lemma writes_ext l d d' : (forall n, d n = d' n) -> forall n, writes l d n = writes l d' n.
Proof.
  intros Hd. induction l as [|[m x] l IH]; intros n; [apply Hd|]. cbn.
  destruct (decide (m = n)) as [->|]; [by rewrite !fn_lookup_insert|].
  rewrite !fn_lookup_insert_ne by done. apply IH.
Qed.

(** The cache and the device agree. *)
Definition durable (d0 : Z -> bytes) (c : fs * trace kcall) : Prop :=
  forall n, b_data c.1 n = disk d0 c.2 n.

(** The device in the hands of a kernel that has just started. *)
Definition remount (d : Z -> bytes) : fs := mk_fs d ∅ 0 None.
Definition closed (t : tree) : tree := mk_tree (t_nodes t) ∅ 0 (t_room t).

Lemma rep_remount blks fb t s d :
  rep_with blks fb t s -> (forall n, d n = b_data s n) ->
  rep_with blks fb (closed t) (remount d).
Proof.
  intros [] Hd. destruct rw_wf as [H1 H2 H3 H4].
  split; cbn [closed remount t_nodes t_handles t_next t_room b_data slab slab_next];
    rewrite ?Hd; try done.
  - split; cbn; try done; intros n; by rewrite Hd.
  - intros k nd b. rewrite !Hd. apply rw_nodes.
Qed.

(** ** Operations that write nothing *)

(** What only depends on the buffers and on what was synchronised. *)
Record stable (I : fs -> trace kcall -> Prop) : Prop := {
  stable_call : forall c r s tr, (forall n d, c <> sync_dirty_buffer n d) ->
    I s tr -> I s (existT c r :: tr);
  stable_state : forall s s' tr, b_data s' = b_data s -> I s tr -> I s' tr;
}.
(** [m] changes nothing of the kind. *)
Definition steady {A} (m : K A) : Prop := forall I e s tr,
  stable I -> I s tr -> wlp m e (fun _ s' tr' => I s' tr') s tr.

Lemma steady_bind {A B} (m : K A) (f : A -> K B) :
  steady m -> (forall a, steady (f a)) -> steady (m ≫= f).
Proof.
  intros Hm Hf I e s tr HI H. apply wlp_bind. eapply wlp_mono; [by apply Hm|].
  intros a s' tr' Ha. by apply Hf.
Qed.
Lemma steady_ret {A} (a : A) : steady (mret a).
Proof. by intros I e s tr HI H. Qed.
Lemma steady_fail {A} x : steady (fail (A := A) x).
Proof. done. Qed.
Lemma steady_call c : (forall n d, c <> sync_dirty_buffer n d) -> steady (call c).
Proof.
  intros Hc I e s tr HI H. refine (proj2 (wlp_call c e _ s tr) _).
  by apply (stable_call _ HI).
Qed.
Lemma steady_get : steady get.
Proof. by intros I e s tr HI H. Qed.
Lemma steady_modify f : (forall s, b_data (f s) = b_data s) -> steady (modify f).
Proof. intros Hf I e s tr HI H. apply wlp_modify. by apply (stable_state _ HI s). Qed.
Lemma steady_or_fault {A} x (o : option A) : steady (or_fault x o).
Proof. intros I e s tr HI H. by apply wlp_or_fault. Qed.

Create HintDb steady.
#[export] Hint Resolve steady_ret steady_fail steady_get steady_or_fault : steady.

Ltac steady_step :=
  lazymatch goal with
  | |- steady (if ?b then _ else _) => destruct b
  | |- steady (match ?x with _ => _ end) => destruct x
  | |- steady (call _) => apply steady_call; discriminate
  | |- steady (modify _) => by apply steady_modify
  | |- steady (_ ≫= _) => apply steady_bind; [|intros ?]
  end; cbn beta.
Ltac steady_go := repeat steady_step; auto with steady.

Lemma steady_buf_read {A} n (f : bytes -> option A) : steady (buf_read n f).
Proof. unfold buf_read. steady_go. Qed.
Lemma steady_deref p : steady (deref p).
Proof. unfold deref. steady_go. Qed.
Lemma steady_SB f : steady (SIMPLEFS_SB f).
Proof. apply steady_buf_read. Qed.
#[export] Hint Resolve steady_buf_read steady_SB steady_deref : steady.
Lemma steady_assign p f : steady (assign p f).
Proof. unfold assign. steady_go. Qed.
Lemma steady_BUG_ON b : steady (BUG_ON b).
Proof. unfold BUG_ON. steady_go. Qed.
Lemma steady_alloc : steady alloc_inode.
Proof.
  intros I e s tr HI H. unfold alloc_inode. wp_go.
  assert (I s (existT kmem_cache_alloc (e tr kmem_cache_alloc) :: tr)) as H'
    by (by apply (stable_call _ HI)).
  destruct (e tr kmem_cache_alloc); wp_go; [|exact H']. by eapply (stable_state _ HI s).
Qed.
Lemma steady_get_objects_count : steady simplefs_sb_get_objects_count.
Proof. unfold simplefs_sb_get_objects_count. steady_go. Qed.
#[export] Hint Resolve steady_assign steady_BUG_ON steady_alloc steady_get_objects_count : steady.

Lemma steady_get_inode_loop n k no : steady (get_inode_loop n k no).
Proof. revert k. induction n as [|n IH]; intros k; simpl; steady_go. Qed.
#[export] Hint Resolve steady_get_inode_loop : steady.
Lemma steady_get_inode no : steady (simplefs_get_inode no).
Proof. unfold simplefs_get_inode. steady_go. Qed.
#[export] Hint Resolve steady_get_inode : steady.
Lemma steady_iget no : steady (simplefs_iget no).
Proof. unfold simplefs_iget. steady_go. Qed.
#[export] Hint Resolve steady_iget : steady.
Lemma steady_lookup_loop n k blk name : steady (lookup_loop n k blk name).
Proof. revert k. induction n as [|n IH]; intros k; simpl; steady_go. Qed.
Lemma steady_iterate_loop n k blk pos : steady (iterate_loop n k blk pos).
Proof. revert k pos. induction n as [|n IH]; intros k pos; simpl; steady_go. Qed.
#[export] Hint Resolve steady_lookup_loop steady_iterate_loop : steady.

Definition writes_nothing (op : vfs_op) : bool :=
  match op with op_create _ _ _ _ | op_mkdir _ _ _ | op_write _ _ _ => false | _ => true end.

Lemma steady_answered {A} (m : K A) (f : A -> fs -> trace kcall -> answer) I e s tr a c' :
  steady m -> stable I -> I s tr -> answered (m e s tr) f = inr (a, c') -> I c'.1 c'.2.
Proof.
  intros Hm HI H Ha. specialize (Hm I e s tr HI H). unfold wlp in Hm.
  destruct (m e s tr) as [v s' tr'|x s' tr']; [|done]. cbn in Ha. by injection Ha as <- <-.
Qed.

Lemma call_steady I e op s tr a c' :
  writes_nothing op = true -> stable I -> I s tr ->
  call_vfs e op (s, tr) = inr (a, c') -> I c'.1 c'.2.
Proof.
  intros Hw HI H Hcall. destruct op; try done; cbn [call_vfs] in Hcall;
    (eapply steady_answered; [|exact HI|exact H|exact Hcall]).
  - unfold simplefs_lookup. steady_go.
  - unfold simplefs_iterate. steady_go.
  - unfold simplefs_read. steady_go.
  - unfold simplefs_destory_inode. steady_go.
  - unfold simplefs_fill_super. steady_go.
Qed.

(** ** Which blocks may differ *)

Section durability.
Context (d0 : Z -> bytes).

(** The cache and the device agree outside [D]. *)
Definition clean (D : Z -> Prop) (s : fs) (tr : trace kcall) : Prop :=
  forall n, ~ D n -> b_data s n = disk d0 tr n.

(** In any environment [m] turns [D1] into [D2], which depends on its result. *)
Definition moves {A} (m : K A) (D1 : Z -> Prop) (D2 : A -> Z -> Prop) : Prop :=
  forall e s tr, clean D1 s tr -> wlp m e (fun a s' tr' => clean (D2 a) s' tr') s tr.
Definition still {A} (m : K A) : Prop := forall D, moves m D (fun _ => D).

Lemma moves_bind {A B} (m : K A) (f : A -> K B) D1 D2 D3 :
  moves m D1 D2 -> (forall a, moves (f a) (D2 a) D3) -> moves (m ≫= f) D1 D3.
Proof.
  intros Hm Hf e s tr H. apply wlp_bind. eapply wlp_mono; [by apply Hm|].
  intros a s' tr' Ha. by apply Hf.
Qed.
Lemma moves_still {A B} (m : K A) (f : A -> K B) D1 D3 :
  still m -> (forall a, moves (f a) D1 D3) -> moves (m ≫= f) D1 D3.
Proof. intros Hm Hf. eapply moves_bind; [apply Hm|done]. Qed.
Lemma moves_weaken {A} (m : K A) D1 D2 D1' (D2' : A -> Z -> Prop) :
  moves m D1 D2 -> (forall n, D1' n -> D1 n) -> (forall a n, D2 a n -> D2' a n) ->
  moves m D1' D2'.
Proof.
  intros Hm H1 H2 e s tr H. eapply wlp_mono; [apply Hm|].
  - intros n Hn. apply H. naive_solver.
  - intros a s' tr' Ha n Hn. apply Ha. naive_solver.
Qed.
Lemma moves_end {A} (m : K A) (D1 : Z -> Prop) (D2 : A -> Z -> Prop) :
  still m -> (forall a n, D1 n -> D2 a n) -> moves m D1 D2.
Proof. intros Hm HD. eapply moves_weaken; [apply Hm|by intros n Hn; exact Hn|exact HD]. Qed.
Lemma moves_ret {A} (a : A) D (D2 : A -> Z -> Prop) :
  (forall n, D n -> D2 a n) -> moves (mret a) D D2.
Proof. intros HD e s tr H. apply wlp_ret. intros n Hn. apply H. naive_solver. Qed.
Lemma moves_fail {A} x D (D2 : A -> Z -> Prop) : moves (fail x) D D2.
Proof. done. Qed.
Lemma moves_buf_write n f D : moves (buf_write n f) D (fun _ x => D x \/ x = n).
Proof.
  intros e s tr H. unfold buf_write. wp_go. intros x Hx.
  cbn. rewrite fn_lookup_insert_ne by naive_solver. apply H. naive_solver.
Qed.
Lemma moves_sync n D : moves (sync_buffer n) D (fun _ x => D x /\ x <> n).
Proof.
  intros e s tr H. unfold sync_buffer. wp_go. intros x Hx. unfold disk. cbn [syncs writes foldr].
  destruct (decide (n = x)) as [->|]; [by rewrite fn_lookup_insert|].
  rewrite fn_lookup_insert_ne by done. apply H. naive_solver.
Qed.


Lemma clean_stable D : stable (clean D).
Proof.
  split.
  - intros c r s0 tr0 Hc H0 n Hn. rewrite (H0 n Hn). unfold disk.
    destruct c; first [reflexivity|by destruct (Hc _ _ eq_refl)].
  - intros s0 s1 tr0 Hb H0 n Hn. rewrite Hb. by apply H0.
Qed.
Lemma still_steady {A} (m : K A) : steady m -> still m.
Proof. intros Hm D e s tr H. apply (Hm (clean D)); [apply clean_stable|done]. Qed.
End durability.

(** A step of an operation that moves blocks. *)
Create HintDb still.
#[export] Hint Resolve still_steady : still.
Ltac moves_step :=
  lazymatch goal with
  | |- moves _ (mret _) _ _ => apply moves_ret
  | |- moves _ (call _) _ _ =>
      apply moves_end; [apply still_steady, steady_call; discriminate|]
  | |- moves _ (fail _) _ _ => apply moves_fail
  | |- moves _ (if ?b then _ else _) _ _ => destruct b eqn:?
  | |- moves _ (match ?x with _ => _ end) _ _ => destruct x eqn:?
  | |- moves _ (buf_write _ _ ≫= _) _ _ => eapply moves_bind; [apply moves_buf_write|intros ?]
  | |- moves _ (sync_buffer _ ≫= _) _ _ => eapply moves_bind; [apply moves_sync|intros ?]
  | |- moves _ (_ ≫= _) _ _ =>
      apply moves_still; [solve [apply still_steady; steady_go|auto with still]|intros ?]
  end; cbn beta.

Section operations.
Context (d0 : Z -> bytes).

Lemma moves_sb_sync D : moves d0 simplefs_sb_sync D (fun _ x => D x /\ x <> 0).
Proof.
  unfold simplefs_sb_sync. by repeat moves_step.
Qed.

(** The allocator writes the super block back before it returns. *)
Lemma still_get_a_freeblock : still d0 simplefs_sb_get_a_freeblock.
Proof.
  intros D. unfold simplefs_sb_get_a_freeblock. repeat moves_step; try done.
  eapply moves_bind; [apply moves_sb_sync|intros ?]. repeat moves_step.
  unfold SIMPLEFS_SUPERBLOCK_BLOCK_NUMBER. naive_solver.
Qed.
#[local] Hint Resolve still_get_a_freeblock : still.

(** Adding an inode leaves the inode store to be written later. *)
Lemma moves_inode_add p D : moves d0 (simplefs_inode_add p) D (fun _ x => D x \/ x = 1).
Proof.
  unfold simplefs_inode_add. repeat moves_step; [by left..|].
  eapply moves_bind; [apply moves_sb_sync|intros ?]. repeat moves_step.
  unfold SIMPLEFS_SUPERBLOCK_BLOCK_NUMBER, SIMPLEFS_INODESTORE_BLOCK_NUMBER. naive_solver.
Qed.

(** Saving one writes the whole store back, unless it reports an error. *)
Definition save_error (r : Z) : Prop := r = - EINTR \/ r = - EIO.
Lemma moves_inode_save p D :
  moves d0 (simplefs_inode_save p) D (fun r x => D x /\ (x <> 1 \/ save_error r)).
Proof.
  unfold simplefs_inode_save, save_error. repeat moves_step;
    unfold SIMPLEFS_INODESTORE_BLOCK_NUMBER; naive_solver.
Qed.

Lemma moves_record dir new name m :
  moves d0 (record_fs_object dir new name m) (fun x => x = 1)
    (fun r x => x = 1 /\ save_error r).
Proof.
  unfold record_fs_object, directory_unlock. repeat moves_step; unfold save_error; try naive_solver.
  eapply moves_bind; [apply moves_inode_save|intros ret]. cbn beta.
  repeat moves_step; unfold save_error; [naive_solver|].
  intros x [[[[->|]|] ?] [?|[Hr|Hr]]]; subst; done.
Qed.

Lemma moves_create dir name m :
  moves d0 (simplefs_create_fs_object dir name m) (fun _ => False)
    (fun r x => x = 1 /\ save_error r).
Proof.
  unfold simplefs_create_fs_object, directory_unlock. repeat moves_step; try done.
  unfold link_fs_object. eapply moves_bind; [apply moves_inode_add|intros ?].
  eapply moves_weaken; [apply moves_record|naive_solver|done].
Qed.

Lemma moves_write i buf ppos :
  moves d0 (simplefs_write i buf ppos) (fun _ => False) (fun v _ => v.1 = - EFAULT).
Proof.
  unfold simplefs_write. repeat moves_step; try done; [naive_solver|].
  eapply moves_bind; [apply moves_inode_save|intros ?]. repeat moves_step. naive_solver.
Qed.

(** The errors after which the cache may hold what the device does not. *)
Definition lossy (a : answer) : Prop :=
  match a with
  | bound r _ => save_error r
  | wrote r _ => r = - EFAULT
  | _ => False
  end.

Lemma durable_clean c : durable d0 c <-> clean d0 (fun _ => False) c.1 c.2.
Proof. unfold durable, clean. naive_solver. Qed.

Lemma moves_answered {A} (m : K A) D2 (f : A -> fs -> trace kcall -> answer) e s tr a c' :
  moves d0 m (fun _ => False) D2 -> (forall v s' tr' x, D2 v x -> lossy (f v s' tr')) ->
  durable d0 (s, tr) -> answered (m e s tr) f = inr (a, c') -> ~ lossy a -> durable d0 c'.
Proof.
  intros Hm HD Hd Ha Hl. specialize (Hm e s tr (proj1 (durable_clean _) Hd)). unfold wlp in Hm.
  destruct (m e s tr) as [v s' tr'|x s' tr']; [|done]. cbn in Ha. injection Ha as <- <-.
  intros n. apply Hm. intros Hn. by eapply Hl, HD.
Qed.
End operations.

(** When the device holds what the cache holds before a call, it does so after
    it, in every environment, unless the call reports an interrupted wait, an
    inode that is not stored, or a bad buffer of a write. *)
Theorem answered_calls_are_durable d0 e op c a c' :
  durable d0 c -> call_vfs e op c = inr (a, c') -> ~ lossy a -> durable d0 c'.
Proof.
  intros Hd Hcall Hl. destruct c as [s tr]. destruct (writes_nothing op) eqn:Ew.
  { apply durable_clean. eapply (call_steady (clean d0 (fun _ => False)) e op s tr);
      [done|apply clean_stable|exact (proj1 (durable_clean _ (s, tr)) Hd)|exact Hcall]. }
  destruct op as [dir name m excl|dir name m| | | |i buf ppos| |];
    try done; cbn [call_vfs] in Hcall.
  - eapply moves_answered; [apply moves_create| |exact Hd|exact Hcall|exact Hl]. by intros ???? [].
  - eapply moves_answered; [apply moves_create| |exact Hd|exact Hcall|exact Hl]. by intros ???? [].
  - eapply moves_answered; [apply moves_write| |exact Hd|exact Hcall|exact Hl]. by intros [] ????.
Qed.

(** ** A new mount after any sequence of calls *)

Lemma spec_not_lossy op t a t' : spec_op op t = Some (a, t') -> ~ lossy a.
Proof.
  destruct op; cbn [spec_op]; unfold spec_create, mbind, option_bind; intros H;
    repeat case_match; simplify_eq; cbn; unfold save_error;
    first [done|by intros []|by intros [?|?]|unfold EFAULT; lia].
Qed.

(** C7: As long as no service fails and no wait is interrupted, and for a sequence
    of calls that the tree specification allows, from a device that durably
    holds a tree: what the calls have answered is on the device, and a kernel
    that mounts it finds the tree they left, with no inode open. *)
Theorem sessions_survive_remount d0 e ops t l t' s tr :
  quiet e -> env_wf e -> Forall op_ok ops -> rep t s -> durable d0 (s, tr) ->
  runs spec_op ops t = Some (l, t') ->
  exists s' tr', runs (invoke e) ops (s, tr) = Some (l, (s', tr')) /\
    rep (closed t') (remount (disk d0 tr')).
Proof.
  intros Hq He Hok HR Hd Hspec.
  destruct (runs_simulation spec_op (invoke e) op_ok
    (fun t c => rep_run t c /\ durable d0 c)
    ltac:(intros op a t1 t1' c Hop [HR1 Hd1] Hs1;
      destruct (sim_call e Hq He op a t1 t1' c Hop HR1 Hs1) as (c' & Hc & HR');
      exists c'; unfold invoke; rewrite Hc; split; [done|]; split; [done|];
      eapply answered_calls_are_durable; [exact Hd1|exact Hc|by eapply spec_not_lossy])
    ops l t t' (s, tr) Hok (conj HR Hd) Hspec) as ([s' tr'] & Hrun & (blks & fb & R) & Hd').
  exists s', tr'. split; [exact Hrun|]. exists blks, fb.
  eapply rep_remount; [exact R|]. intros n. symmetry. apply Hd'.
Qed.

(** ** Power failures in the middle of a call *)

(** What the device may hold when the power fails during [op], besides the tree
    before and the tree after: the block of a new object is taken; it is, and the
    super block counts one inode more than are stored; a file has new bytes and
    its old size. *)
Inductive torn : vfs_op -> tree -> (Z -> bytes) -> Prop :=
  | torn_block op x t d :
      creates op = Some x -> rep (closed (take_block t)) (remount d) -> torn op t d
  | torn_count op x t d d1 :
      creates op = Some x -> rep (closed (take_block t)) (remount d1) ->
      (forall n, n <> 0 -> d n = d1 n) ->
      set_sb_inodes_count (Z.of_nat (length (t_nodes t)) + 1) (d1 0) = Some (d 0) ->
      torn op t d
  | torn_contents i buf ppos t d h k nd content :
      opened t i = Some (h, k, nd) -> reg_content nd = Some content ->
      rep (closed (set_body h k nd (Reg (scribble ppos buf content)) t)) (remount d) ->
      torn (op_write i buf ppos) t d.

Definition crash (op : vfs_op) (t t' : tree) (d : Z -> bytes) : Prop :=
  rep (closed t) (remount d) \/ torn op t d \/ rep (closed t') (remount d).

Lemma rep_closed t s : rep t s -> rep (closed t) (remount (b_data s)).
Proof. intros (blks & fb & R). exists blks, fb. by eapply rep_remount. Qed.

(** The writes of one call: it can be cut after any of them. *)
Definition cut (op : vfs_op) (t t' : tree) (s : fs) (l : list (Z * bytes)) : Prop :=
  forall l1, l1 `suffix_of` l -> crash op t t' (writes l1 (b_data s)).

Lemma cut_nil op t t' s : rep t s -> cut op t t' s [].
Proof. intros HR l1 ->%suffix_nil_inv. left. by apply rep_closed. Qed.
Lemma cut_cons op t t' s x l :
  cut op t t' s l -> crash op t t' (writes (x :: l) (b_data s)) -> cut op t t' s (x :: l).
Proof.
  intros Hl Hx [|y l1] H; [apply Hl, suffix_nil|].
  apply suffix_cons_inv in H as [-> |H]; [exact Hx|by apply Hl].
Qed.

(** The five states of the device during a creation. *)
Section creation_cuts.
Context (blks : list Z) (fb : Z) (t : tree) (s : fs) (R : rep_with blks fb t s).
Context (dir : inode) (h k : nat) (nd : node) (ents : list entry).
Context (Ho : opened t dir = Some (h, k, nd)) (Hents : n_body nd = Dir ents).
Context (name : bytes) (m : Z) (Hname : name_ok name).
Context (j : Z) (rest : list Z) (Hfree : free_list fb = j :: rest).
Let c := Z.of_nat (length (t_nodes t)).
Context (d g : simplefs_inode) (Hpre : create_pre s dir h d ents c fb j (Z.of_nat k) name m).
Context (dA dB dC dD dE dF : bytes).
Context (W : create_writes s d ents c fb j (Z.of_nat k) name m g dA dB dC dD dE dF).

Lemma cut_block : rep (closed (take_block t)) (remount (<[0 := dA]> (b_data s))).
Proof using R Hfree W.
  destruct W as [HA _ _ _ _ _]. eexists _, _.
  eapply rep_remount; [by eapply (rep_take blks fb t s R)|done].
Qed.

Lemma cut_record :
  rep (closed (take_block t))
    (remount (<[data_block_number d := dE]> (<[0 := dA]> (b_data s)))).
Proof using R Ho Hents Hname Hfree Hpre W.
  pose proof W as [HA _ _ HD HE _]. pose proof (rw_wf _ _ _ _ R) as Hw.
  pose proof Hpre as [[_ _ Hc _ _ _ _] _ Hd [Hb0 _] Hisdir _ _ _ _ _].
  assert (opened (take_block t) dir = Some (h, k, nd)) as Ho' by exact Ho.
  destruct (rep_opened _ _ _ _ R _ _ _ _ Ho) as (_ & _ & b & d0 & _ & _ & _ & _ & _ & _ & _ & Hh).
  unfold holds_body in Hh. rewrite Hents in Hh. destruct Hh as (? & ? & _ & ?).
  destruct (keeps_store_le _ _ _ _ _ (wf_block_bytes _ Hw _) HD) as [LD WD].
  assert (wf_bytes (name ++ [0])) as Hn0.
  { apply Forall_app. split; [by apply c_string_wf, Hname|by apply Forall_singleton]. }
  destruct (keeps_store _ _ Hn0 _ _ WD HE) as [LE WE].
  eexists _, _. eapply rep_remount.
  - rewrite <- (set_body_same _ _ _ _ _ Ho').
    eapply (rep_rewrite _ _ _ _ (rep_take blks fb t s R j rest dA Hfree HA) dir); try done.
    + by rewrite LE, LD, (wf_block_length _ Hw).
    + rewrite Hents. unfold holds_body. cbn [n_body n_mode]. split_and!; try done.
      intros x ent Hx.
      assert (0 <= c + 8 < 2 ^ 64) as Hino by int_lia.
      apply (is_dir_append _ _ _ _ _ _ Hisdir Hname Hino HD HE).
      by apply lookup_app_l_Some.
  - done.
Qed.

Lemma creation_cuts op x t' :
  creates op = Some x ->
  rep t' (create_result s h d ents c j m g dA dB dC dD dE dF) ->
  cut op t t' s [(1, dF); (data_block_number d, dE); (0, dB); (0, dA)].
Proof using R Ho Hents Hname Hfree Hpre W.
  intros Hop HR'. pose proof W as [HA HB _ _ _ _].
  pose proof Hpre as [_ _ _ [Hb0 Hb1] _ _ _ _ _ _].
  repeat apply cut_cons; [apply cut_nil; by exists blks, fb|..]; cbn [writes foldr].
  - right. left. eapply torn_block; [done|exact cut_block].
  - right. left. eapply (torn_count _ _ _ _ (<[0 := dA]> (b_data s))); [done|exact cut_block|..].
    + intros n Hn. by bd.
    + bd. exact HB.
  - right. left.
    eapply (torn_count _ _ _ _ (<[data_block_number d := dE]> (<[0 := dA]> (b_data s))));
      [done|exact cut_record|..].
    + intros n Hn. destruct (decide (n = data_block_number d)) as [->|]; by bd.
    + bd. exact HB.
  - right. right. destruct HR' as (blks' & fb' & R'). exists blks', fb'.
    eapply rep_remount; [exact R'|]. intros n. unfold create_result, pre_link_state.
    destruct (decide (n = 1)) as [->|]; [by bd|].
    destruct (decide (n = data_block_number d)) as [->|]; [by bd|].
    destruct (decide (n = 0)) as [->|]; by bd.
Qed.
End creation_cuts.
Lemma create_cuts e op dir name m t s tr a t' :
  quiet e -> env_wf e -> creates op = Some (dir, name, m) -> name_ok name ->
  0 <= m < 2 ^ 16 -> rep t s -> spec_op op t = Some (a, t') ->
  exists r s' tr' l, simplefs_create_fs_object dir name m e s tr = Ok r s' tr' /\
    syncs tr' = l ++ syncs tr /\ cut op t t' s l.
Proof.
  intros Hq He Hop Hname Hm HR Hspec. pose proof HR as (blks & fb & R).
  pose proof (rw_count _ _ _ _ R) as Hcount. pose proof Hspec as Hs.
  rewrite (creates_spec _ _ _ _ _ Hop) in Hs. unfold spec_create in Hs.
  pose proof (fun r => create_rejected e Hq s tr dir name m _ r Hcount) as Hrej.
  destruct (Z.leb_spec 64 (Z.of_nat (length (t_nodes t)))) as [|Hsmall].
  { injection Hs as <- <-. destruct (Hrej _ eq_refl) as (tr' & Hr & _ & Hsy).
    eexists _, s, tr', []. split; [exact Hr|]. split; [done|]. by apply cut_nil. }
  destruct (S_ISDIR m || S_ISREG m) eqn:Emode; cbn [negb] in Hs, Hrej.
  2: { injection Hs as <- <-. destruct (Hrej _ eq_refl) as (tr' & Hr & _ & Hsy).
    eexists _, s, tr', []. split; [exact Hr|]. split; [done|]. by apply cut_nil. }
  clear Hrej. apply bind_Some in Hs as ([[h k] nd] & Ho & Hs).
  apply bind_Some in Hs as (ents & Hents%dir_ents_Some & Hs).
  destruct ((0 <? t_room t)%nat && (length ents <? 16)%nat) eqn:Eg; [|done].
  apply andb_true_iff in Eg as [Hroom%Nat.ltb_lt Hlen%Nat.ltb_lt].
  injection Hs as <- <-. destruct (free_list fb) as [|j rest] eqn:Hfree.
  { pose proof (rw_room _ _ _ _ R) as Hr. rewrite Hfree in Hr. cbn in Hr. lia. }
  destruct (rep_create_pre blks fb t s R dir h k nd ents Ho Hents name m Hname
    (conj Hm Emode) ltac:(lia) Hlen j rest Hfree) as
    (b & d & Hpre & Hb & Hblk & Hbj & Hd & Hdesc & Hdir & Hrange).
  destruct (create_run e Hq He _ _ _ _ _ _ _ _ _ _ _ Hpre tr)
    as (g & dA & dB & dC & dD & dE & dF & tr1 & W & Hg & Hsy & Hr).
  eexists _, _, _, [(1, dF); (data_block_number d, dE); (0, dB); (0, dA)].
  split; [exact Hr|]. split; [exact Hsy|].
  eapply (creation_cuts blks fb t s R dir); try done.
  pose proof (keeps_create_fs_object e He dir name m (c_string_wf _ (proj1 Hname)) Hm
    s tr (rw_wf _ _ _ _ R)) as Hk. unfold wlp in Hk. rewrite Hr in Hk. destruct Hk as [Hk _].
  eexists _, _. eapply rep_created; try done; try lia.
Qed.

(** The three states of the device during a write. *)
Lemma write_cuts e i buf ppos t s tr a t' :
  quiet e -> env_wf e -> wf_bytes buf -> rep t s ->
  spec_op (op_write i buf ppos) t = Some (a, t') ->
  exists v s' tr' l, simplefs_write i buf ppos e s tr = Ok v s' tr' /\
    syncs tr' = l ++ syncs tr /\ cut (op_write i buf ppos) t t' s l.
Proof.
  intros Hq He Hbuf HR Hspec. pose proof HR as (blks & fb & R). cbn [spec_op] in Hspec.
  apply bind_Some in Hspec as ([[h k] nd] & Ho & Hspec).
  apply bind_Some in Hspec as (content & Hc & Hspec).
  destruct (_ && _) eqn:Eg in Hspec; [|done]. bool_hyps. injection Hspec as <- <-.
  pose proof (reg_content_Some _ _ Hc) as Hbody.
  destruct (rep_opened _ _ _ _ R _ _ _ _ Ho)
    as (Hp & Hk & b & d & Hb & Hb0 & Hb1 & _ & Hs & _ & (Hno & _ & Hblk & Hsz) & Hh).
  pose proof (lookup_lt_Some _ _ _ Hk). pose proof (rw_small _ _ _ _ R).
  pose proof (rep_slot_no _ _ _ _ R _ _ Hk) as Hslot. rewrite <- Hno in Hslot.
  assert (forall x, 0 <= x < Z.of_nat k -> slot_no (b_data s 1) x <> Some (inode_no d))
    as Hfirst by (intros x Hx; rewrite Hno; by apply (rep_slot_first _ _ _ _ R k)).
  destruct (write_run e Hq s (rw_wf _ _ _ _ R) i h d Hp Hs
    (Z.of_nat (length (t_nodes t))) (Z.of_nat k) (rw_count _ _ _ _ R) ltac:(lia)
    ltac:(split; [lia|exact Hslot]) Hfirst ltac:(congruence) ltac:(congruence)
    buf ppos tr ltac:(lia) ltac:(lia)) as (dB & dI & tr' & HB & HI & Hsy & Hr).
  eexists _, _, _, [(1, dI); (data_block_number d, dB)]. split; [exact Hr|]. split; [exact Hsy|].
  pose proof (keeps_fs_write e He i buf ppos Hbuf s tr (rw_wf _ _ _ _ R)) as Hw.
  unfold wlp in Hw. rewrite Hr in Hw. destruct Hw as [Hw _].
  repeat apply cut_cons; [by apply cut_nil|..]; cbn [writes foldr].
  - right. left. eapply torn_contents; [exact Ho|exact Hc|].
    eexists _, _. eapply rep_remount; [by eapply (rep_scribble _ _ _ _ _ _ _ _ _ ppos buf)|done].
  - right. right. eexists _, _. eapply rep_remount; [by eapply rep_written|].
    intros n. bd. done.
Qed.

(** What every call writes, and the states of the device in between. *)
Lemma call_cuts e op t a t' s tr :
  quiet e -> env_wf e -> op_ok op -> rep t s -> spec_op op t = Some (a, t') ->
  exists c' l, call_vfs e op (s, tr) = inr (a, c') /\ rep_run t' c' /\
    syncs c'.2 = l ++ syncs tr /\ cut op t t' s l.
Proof.
  intros Hq He Hok HR Hspec.
  destruct (sim_call e Hq He op a t t' (s, tr) Hok HR Hspec) as (c' & Hc & HR').
  enough (exists l, syncs c'.2 = l ++ syncs tr /\ cut op t t' s l) as (l & Hl & Hcut)
    by (by exists c', l).
  destruct (writes_nothing op) eqn:Ew.
  - exists []. split; [|by apply cut_nil].
    eapply (call_steady (fun _ tr' => syncs tr' = syncs tr)); [done| |done|exact Hc].
    split; [|done]. intros c r s0 tr0 Hn <-. destruct c; try done. by destruct (Hn _ _ eq_refl).
  - destruct op as [dir name m excl|dir name m| | | |i buf ppos| |]; try done;
      cbn [call_vfs op_ok] in *.
    + destruct Hok as [Hn Hm]. unfold simplefs_create in Hc.
      destruct (create_cuts e (op_create dir name m excl) dir name m t s tr a t' Hq He eq_refl
        Hn Hm HR Hspec) as (r & s' & tr' & l & Hr & Hsy & Hcut).
      rewrite Hr in Hc. cbn in Hc. injection Hc as _ <-. by exists l.
    + unfold simplefs_mkdir in Hc.
      destruct (create_cuts e (op_mkdir dir name m) dir name _ t s tr a t' Hq He eq_refl
        Hok (uwrap_range 16 _ ltac:(done)) HR Hspec) as (r & s' & tr' & l & Hr & Hsy & Hcut).
      rewrite Hr in Hc. cbn in Hc. injection Hc as _ <-. by exists l.
    + destruct (write_cuts e i buf ppos t s tr a t' Hq He Hok HR Hspec)
        as ([r pos] & s' & tr' & l & Hr & Hsy & Hcut).
      rewrite Hr in Hc. cbn in Hc. injection Hc as _ <-. by exists l.
Qed.

Lemma rep_remount_ext t d d' :
  (forall n, d' n = d n) -> rep (closed t) (remount d) -> rep (closed t) (remount d').
Proof.
  intros Hd (blks & fb & R). exists blks, fb. by eapply rep_with_ext; [..|exact R].
Qed.
Lemma crash_ext op t t' d d' :
  (forall n, d' n = d n) -> crash op t t' d -> crash op t t' d'.
Proof.
  intros Hd [H|[H|H]]; [left|right; left|right; right]; try (by eapply rep_remount_ext).
  destruct H as [op x t d Hop H|op x t d d1 Hop H Hn H0|i buf ppos t d h k nd content Ho Hc H].
  - eapply torn_block; [done|by eapply rep_remount_ext].
  - eapply torn_count; [done|exact H| |by rewrite Hd]. intros n Hn0. rewrite Hd. by apply Hn.
  - eapply torn_contents; [done..|by eapply rep_remount_ext].
Qed.

(** The power fails in one of the calls [ops]: during [op], which took the tree
    from [t1] to [t2]. *)
Definition crash_during (ops : list vfs_op) (t : tree) (d : Z -> bytes) : Prop :=
  exists ops1 op ops2 l1 t1 a t2, ops = ops1 ++ op :: ops2 /\
    runs spec_op ops1 t = Some (l1, t1) /\ spec_op op t1 = Some (a, t2) /\ crash op t1 t2 d.

Lemma crash_during_cons op a ops t t1 d :
  spec_op op t = Some (a, t1) -> crash_during ops t1 d -> crash_during (op :: ops) t d.
Proof.
  intros Hs (ops1 & op' & ops2 & l1 & t2 & a' & t3 & -> & Hr & Hs' & Hc).
  exists (op :: ops1), op', ops2, (a :: l1), t2, a', t3.
  split; [done|]. split; [|done]. simpl. rewrite Hs. simpl. by rewrite Hr.
Qed.

(** C3: As long as no service fails and no wait is interrupted, and for a sequence
    of calls that the tree specification allows, from a device that durably
    holds a tree: the power may fail after any number of the writes.  The
    device then holds the tree before the call in which it failed, or the tree
    after it, or one of the three states of [torn]; in particular the calls
    before that one are all there.  (With signals or failures a call may leave
    other states: C24, C25.) *)
Theorem crash_anywhere d0 e ops t l t' s tr :
  quiet e -> env_wf e -> Forall op_ok ops -> rep t s -> durable d0 (s, tr) ->
  runs spec_op ops t = Some (l, t') ->
  exists s' tr', runs (invoke e) ops (s, tr) = Some (l, (s', tr')) /\
    syncs tr `suffix_of` syncs tr' /\
    forall w, syncs tr `suffix_of` w -> w `suffix_of` syncs tr' ->
      rep (closed t') (remount (writes w d0)) \/ crash_during ops t (writes w d0).
Proof.
  intros Hq He. revert t l s tr.
  induction ops as [|op ops IH]; intros t l s tr Hok HR Hd Hspec.
  { injection Hspec as <- <-. exists s, tr. do 2 (split; [done|]). intros w H1 H2. left.
    rewrite (anti_symm suffix w (syncs tr) H2 H1). eapply rep_remount_ext; [|by apply rep_closed].
    intros n. symmetry. apply (Hd n). }
  apply Forall_cons in Hok as [Hop Hok]. simpl in Hspec.
  destruct (spec_op op t) as [[a t1]|] eqn:Es; [|done]. simpl in Hspec.
  destruct (runs spec_op ops t1) as [[l' t'']|] eqn:Er; [|done]. injection Hspec as <- <-.
  destruct (call_cuts e op t a t1 s tr Hq He Hop HR Es) as ([s1 tr1] & l0 & Hc & HR1 & Hsy & Hcut).
  cbn [snd] in Hsy. assert (durable d0 (s1, tr1)) as Hd1
    by (eapply answered_calls_are_durable; [exact Hd|exact Hc|by eapply spec_not_lossy]).
  destruct (IH t1 l' s1 tr1 Hok HR1 Hd1 Er) as (s' & tr' & Hrun & Hgrow & Hw).
  exists s', tr'. split; [|split].
  - assert (invoke e op (s, tr) = Some (a, (s1, tr1))) as Hi by (unfold invoke; by rewrite Hc).
    simpl. rewrite Hi. simpl. by rewrite Hrun.
  - trans (syncs tr1); [|done]. rewrite Hsy. by apply suffix_app_r.
  - intros w H1 H2. destruct (suffix_weak_total w (syncs tr1) _ H2 Hgrow) as [Hin|Hout].
    + right. destruct H1 as [l1 ->]. rewrite Hsy in Hin. apply suffix_app_inv in Hin.
      exists [], op, ops, [], t, a, t1. do 3 (split; [done|]).
      eapply crash_ext; [|by apply Hcut]. intros n. rewrite writes_app.
      apply writes_ext. intros n'. symmetry. apply Hd.
    + destruct (Hw w Hout H2) as [H|H]; [by left|right]. by eapply crash_during_cons.
Qed.

(** The power fails during the session of [session] on the image. *)
Lemma crash_anywhere_witness :
  exists s' tr', runs (invoke quiet_env) session (sound_image, []) =
      Some (session_answers, (s', tr')) /\
    forall w, w `suffix_of` syncs tr' -> exists t' d, d = writes w (b_data sound_image) /\
      (rep (closed t') (remount d) \/ crash_during session (image_tree used_bitmap) d).
Proof.
  assert (exists t', runs spec_op session (image_tree used_bitmap) =
    Some (session_answers, t')) as [t' Ht] by (eexists; vm_compute; reflexivity).
  assert (durable (b_data sound_image) (sound_image, [])) as Hd by (intros n; reflexivity).
  destruct (crash_anywhere (b_data sound_image) quiet_env session (image_tree used_bitmap)
    session_answers t' sound_image [] quiet_env_quiet quiet_env_wf session_ok
    sound_image_rep Hd Ht) as (s' & tr' & H & _ & Hw).
  exists s', tr'. split; [exact H|]. intros w Hs. exists t', (writes w (b_data sound_image)).
  split; [reflexivity|]. apply Hw; [apply suffix_nil|exact Hs].
Defined.

Lemma sessions_survive_remount_witness :
  exists s' tr' t', runs (invoke quiet_env) session (sound_image, []) =
      Some (session_answers, (s', tr')) /\
    rep (closed t') (remount (disk (b_data sound_image) tr')).
Proof.
  assert (exists t', runs spec_op session (image_tree used_bitmap) =
    Some (session_answers, t')) as [t' Ht] by (eexists; vm_compute; reflexivity).
  assert (durable (b_data sound_image) (sound_image, [])) as Hd by (intros n; reflexivity).
  destruct (sessions_survive_remount (b_data sound_image) quiet_env session
    (image_tree used_bitmap) session_answers t' sound_image [] quiet_env_quiet quiet_env_wf
    session_ok sound_image_rep Hd Ht) as (s' & tr' & H & Hrep).
  exists s', tr', t'. split; [exact H|exact Hrep].
Defined.

(** A call that emits nothing. *)
Lemma answered_calls_are_durable_witness :
  exists c', call_vfs quiet_env (op_iterate root_dir 1) (sound_image, []) =
      inr (listed 0 1 [], c') /\ durable (b_data sound_image) c'.
Proof.
  assert (durable (b_data sound_image) (sound_image, [])) as Hd by (intros n; reflexivity).
  exists (sound_image, []). split; [reflexivity|].
  apply (answered_calls_are_durable _ quiet_env (op_iterate root_dir 1) (sound_image, [])
    (listed 0 1 [])); [exact Hd|reflexivity|exact id].
Defined.

(** The count is written before the inode: when the power fails after the second
    write of a creation, the super block counts an inode that is not stored. *)
Theorem crash_counts_unstored e s dir p d ents c fb j kp name m :
  quiet e -> env_wf e -> create_pre s dir p d ents c fb j kp name m ->
  exists s' tr' w, simplefs_create_fs_object dir name m e s [] = Ok 0 s' tr' /\
    w `suffix_of` syncs tr' /\
    sb_inodes_count (writes w (b_data s) 0) = Some (c + 1) /\
    writes w (b_data s) 1 = b_data s 1.
Proof.
  intros Hq He Hpre.
  destruct (create_run e Hq He s dir p d ents c fb j kp name m Hpre [])
    as (g & dA & dB & dC & dD & dE & dF & tr1 & [_ HB _ _ _ _] & _ & Hsy & Hr).
  destruct Hpre as [[_ _ Hc _ _ _ _] _ _ _ _ _ _ _ _ _].
  eexists _, _, [(0, dB); (0, dA)]. split; [exact Hr|]. split; [|split].
  - cbn [syncs ev]. rewrite Hsy. by exists [(1, dF); (data_block_number d, dE)].
  - cbn [writes foldr]. rewrite fn_lookup_insert.
    eapply set_inodes_count_read; [int_lia|exact HB].
  - cbn [writes foldr]. by bd.
Qed.

Lemma crash_counts_unstored_witness :
  exists s' tr' w, simplefs_create_fs_object root_dir (str "f") f_mode quiet_env world [] =
      Ok 0 s' tr' /\
    w `suffix_of` syncs tr' /\
    sb_inodes_count (writes w (b_data world) 0) = Some 4 /\
    writes w (b_data world) 1 = b_data world 1.
Proof.
  assert (create_pre world root_dir 0 (root_inode 0) [record1; record2] 3 mkfs_free_blocks
    2 0 (str "f") f_mode) as Hpre by (apply world_create; reflexivity).
  exact (crash_counts_unstored quiet_env world root_dir 0%nat (root_inode 0)
    [record1; record2] 3 mkfs_free_blocks 2 0 (str "f") f_mode
    quiet_env_quiet quiet_env_wf Hpre).
Defined.
