(* ===== verification/FtraceHook.v ===== *)
(** * ftrace hooks ([ftrace/ftrace_hook.c])

    The hooks are an array; a hook is designated by its index, which also
    designates the [ftrace_ops] embedded in it.  [cells] are the function
    pointers the [original] fields point to ([real_sys_clone] is cell 0,
    [real_sys_execve] cell 1).  What ftrace does with the calls it gets is read
    off the trace by [ftrace_of]: the address filters and the registered
    [ftrace_ops].  [ge_5_7] selects the [#if] variant of [lookup_name];
    [MCOUNT_INSN_SIZE] is the kernel's constant (unused, as USE_FENTRY_OFFSET
    is 0). *)

From S2P Require Export KMonad Bytes.

(** ** Data *)

Definition USE_FENTRY_OFFSET : bool := false.

Inductive ftrace_flag :=
  | FTRACE_OPS_FL_SAVE_REGS
  | FTRACE_OPS_FL_RECURSION
  | FTRACE_OPS_FL_IPMODIFY.

(** [ops_func] is whether [ops.func] was set to [fh_ftrace_thunk]. *)
Record ftrace_hook := mk_hook {
  name : bytes;
  function : Z;
  original : nat;
  address : Z;
  ops_func : bool;
  ops_flags : list ftrace_flag;
}.

Record fh_state := mk_fh {
  hooks : list ftrace_hook;
  cells : nat -> Z;
}.

(** The registers a system-call stub receives: [di] and the others. *)
Record pt_regs := mk_regs { di : Z; other_regs : list Z }.

Inductive fcall :=
  | register_kprobe (symbol_name : bytes)
  | unregister_kprobe (symbol_name : bytes)
  | kallsyms_lookup_name (n : bytes)
  | ftrace_set_filter_ip (ops : nat) (ip : Z) (remove reset : bool)
  | register_ftrace_function (ops : nat)
  | unregister_ftrace_function (ops : nat)
  | kmalloc (size : Z)
  | strncpy_from_user (src count : Z)
  | kfree (p : option nat)
  | call_regs (f : Z) (regs : pt_regs)
  | call_args (f : Z) (args : list Z)
  | pr_debug
  | pr_info (msg : string) (arg : option bytes) (ret : Z).

(** [register_kprobe]: the result and the address it stores in [kp.addr];
    [kmalloc]: NULL or the contents of the new block; [strncpy_from_user]: the
    result and the block's contents afterwards. *)
#[export] Instance fh_api : KApi fcall := fun c =>
  match c with
  | register_kprobe _ => (Z * Z)%type
  | kmalloc _ => option bytes
  | strncpy_from_user _ _ => (Z * bytes)%type
  | kallsyms_lookup_name _ | ftrace_set_filter_ip _ _ _ _
  | register_ftrace_function _ | unregister_ftrace_function _
  | call_regs _ _ | call_args _ _ => Z
  | _ => unit
  end.

Abbreviation F := (M fcall fh_state).

(** ** Installing and removing *)

Section fh.
Context (ge_5_7 : bool) (MCOUNT_INSN_SIZE : Z).

Definition lookup_name (n : bytes) : F Z :=
  if ge_5_7 then
    '(r, addr) ← call (register_kprobe n);
    if r <? 0 then mret 0 else
    call (unregister_kprobe n) ;; mret addr
  else call (kallsyms_lookup_name n).

(** [&hooks[i]] and an assignment to its fields. *)
Definition hook_at (i : nat) : F ftrace_hook :=
  s ← get; or_fault OutOfBounds (hooks s !! i).
Definition set_hook (i : nat) (h : ftrace_hook) : F unit :=
  modify (fun s => mk_fh (<[i := h]> (hooks s)) (cells s)).

Definition set_address (a : Z) (h : ftrace_hook) : ftrace_hook :=
  mk_hook (name h) (function h) (original h) a (ops_func h) (ops_flags h).
Definition set_ops (h : ftrace_hook) : ftrace_hook :=
  mk_hook (name h) (function h) (original h) (address h) true
    [FTRACE_OPS_FL_SAVE_REGS; FTRACE_OPS_FL_RECURSION; FTRACE_OPS_FL_IPMODIFY].

Definition fh_resolve_hook_address (i : nat) : F Z :=
  h ← hook_at i;
  a ← lookup_name (name h);
  set_hook i (set_address a h) ;;
  if a =? 0 then call pr_debug ;; mret (- ENOENT) else
  modify (fun s => mk_fh (hooks s)
    (<[original h := if USE_FENTRY_OFFSET then u64 (a + MCOUNT_INSN_SIZE) else a]>
       (cells s))) ;;
  mret 0.

Definition fh_install_hook (i : nat) : F Z :=
  err ← fh_resolve_hook_address i;
  if negb (err =? 0) then mret err else
  h ← hook_at i;
  set_hook i (set_ops h) ;;
  err ← call (ftrace_set_filter_ip i (address h) false false);
  if negb (err =? 0) then call pr_debug ;; mret err else
  err ← call (register_ftrace_function i);
  if negb (err =? 0) then
    call pr_debug ;;
    call (ftrace_set_filter_ip i (address h) true false) ;;
    mret err
  else mret 0.

Definition fh_remove_hook (i : nat) : F unit :=
  h ← hook_at i;
  err ← call (unregister_ftrace_function i);
  (if negb (err =? 0) then call pr_debug else mret tt) ;;
  err ← call (ftrace_set_filter_ip i (address h) true false);
  (if negb (err =? 0) then call pr_debug else mret tt).

(** The [for] loop of [fh_install_hooks] from index [i], [n] iterations left:
    the error and the index at which it stopped. *)
Fixpoint fh_install_loop (n i : nat) : F (Z * nat) :=
  match n with
  | O => mret (0, i)
  | S n' =>
      err ← fh_install_hook i;
      if negb (err =? 0) then mret (err, i) else fh_install_loop n' (S i)
  end.

(** [while (i != 0) fh_remove_hook(&hooks[--i]);] *)
Fixpoint fh_rollback (i : nat) : F unit :=
  match i with
  | O => mret tt
  | S i' => fh_remove_hook i' ;; fh_rollback i'
  end.

Definition fh_install_hooks (count : nat) : F Z :=
  '(err, i) ← fh_install_loop count 0;
  if err =? 0 then mret 0 else fh_rollback i ;; mret err.

Fixpoint fh_remove_loop (n i : nat) : F unit :=
  match n with
  | O => mret tt
  | S n' => fh_remove_hook i ;; fh_remove_loop n' (S i)
  end.
Definition fh_remove_hooks (count : nat) : F unit := fh_remove_loop count 0.

Definition fh_init : F Z :=
  err ← fh_install_hooks 2;
  if negb (err =? 0) then mret err else
  call (pr_info "module loaded" None 0) ;; mret 0.
Definition fh_exit : F unit :=
  fh_remove_hooks 2 ;; call (pr_info "module unloaded" None 0).
End fh.

(** ** The hook functions *)

Definition within_module_t : Type := Z -> bool.

(** What [fh_ftrace_thunk] leaves in [regs->ip]. *)
Definition fh_ftrace_thunk (within_module : within_module_t) (h : ftrace_hook)
    (parent_ip regs_ip : Z) : Z :=
  if USE_FENTRY_OFFSET then function h
  else if negb (within_module parent_ip) then function h else regs_ip.

(** Call through the function pointer in a cell. *)
Definition real_sys_clone : nat := 0.
Definition real_sys_execve : nat := 1.
Definition real_fn (c : nat) : F Z :=
  s ← get; if cells s c =? 0 then fail NullDeref else mret (cells s c).

(** The [PTREGS_SYSCALL_STUBS] variants. *)
Definition fh_sys_clone (regs : pt_regs) : F Z :=
  call (pr_info "clone() before" None 0) ;;
  f ← real_fn real_sys_clone;
  ret ← call (call_regs f regs);
  call (pr_info "clone() after: %ld" None ret) ;;
  mret ret.

(** Returns the contents of the block, or NULL. *)
Definition duplicate_filename (filename : Z) : F (option bytes) :=
  r ← call (kmalloc 4096);
  match r with
  | None => mret None
  | Some _ =>
      '(n, buf) ← call (strncpy_from_user filename 4096);
      if n <? 0 then call (kfree (Some 0%nat)) ;; mret None
      else mret (Some buf)
  end.

(** [printk] of a ["%s"]: NULL is printed as such, a block without a
    terminator is read past its end. *)
Definition pr_info_str (msg : string) (s : option bytes) : F unit :=
  match s with
  | None => call (pr_info msg None 0)
  | Some l =>
      if existsb (Z.eqb 0) l then call (pr_info msg (Some (until_nul l)) 0)
      else fail OutOfBounds
  end.

Definition kfree_filename (s : option bytes) : F unit :=
  call (kfree (match s with Some _ => Some 0%nat | None => None end)).

Definition fh_sys_execve (regs : pt_regs) : F Z :=
  kernel_filename ← duplicate_filename (di regs);
  pr_info_str "execve() before: %s" kernel_filename ;;
  kfree_filename kernel_filename ;;
  f ← real_fn real_sys_execve;
  ret ← call (call_regs f regs);
  call (pr_info "execve() after: %ld" None ret) ;;
  mret ret.

(** The variants for kernels before 4.17. *)
Definition fh_sys_clone_args (clone_flags newsp parent_tidptr child_tidptr tls : Z) : F Z :=
  call (pr_info "clone() before" None 0) ;;
  f ← real_fn real_sys_clone;
  ret ← call (call_args f [clone_flags; newsp; parent_tidptr; child_tidptr; tls]);
  call (pr_info "clone() after: %ld" None ret) ;;
  mret ret.

Definition fh_sys_execve_args (filename argv envp : Z) : F Z :=
  kernel_filename ← duplicate_filename filename;
  pr_info_str "execve() before: %s" kernel_filename ;;
  kfree_filename kernel_filename ;;
  f ← real_fn real_sys_execve;
  ret ← call (call_args f [filename; argv; envp]);
  call (pr_info "execve() after: %ld" None ret) ;;
  mret ret.

(** ** The array of the module *)

Definition SYSCALL_NAME (stubs : bool) (n : string) : bytes :=
  if stubs then str "__x64_" ++ str n else str n.

Definition HOOK (stubs : bool) (n : string) (f : Z) (orig : nat) : ftrace_hook :=
  mk_hook (SYSCALL_NAME stubs n) f orig 0 false [].

(** [clone_fn] and [execve_fn] are the addresses of the two hook functions. *)
Definition demo_hooks (stubs : bool) (clone_fn execve_fn : Z) : list ftrace_hook :=
  [ HOOK stubs "sys_clone" clone_fn real_sys_clone;
    HOOK stubs "sys_execve" execve_fn real_sys_execve ].
