(* ===== verification/FtraceTheorems.v ===== *)
(** * ftrace hooks: the theorems *)

From S2P Require Export FtraceHook.

(** ** What ftrace holds after a trace of calls

    The address filters (which [ftrace_ops] are called at which address) and
    the registered [ftrace_ops]; a call that fails changes nothing. *)
Record ftrace := mk_ft { filters : gset (nat * Z); registered : gset nat }.

Definition set_filter (remove : bool) (x : nat * Z) (ft : ftrace) : ftrace :=
  mk_ft (if remove then filters ft ∖ {[x]} else {[x]} ∪ filters ft) (registered ft).
Definition set_registered (i : nat) (ft : ftrace) : ftrace :=
  mk_ft (filters ft) ({[i]} ∪ registered ft).
Definition unset_registered (i : nat) (ft : ftrace) : ftrace :=
  mk_ft (filters ft) (registered ft ∖ {[i]}).

Definition ft_event (c : fcall) : resp c -> ftrace -> ftrace :=
  match c with
  | ftrace_set_filter_ip i ip remove _ => fun r ft =>
      if r =? 0 then set_filter remove (i, ip) ft else ft
  | register_ftrace_function i => fun r ft => if r =? 0 then set_registered i ft else ft
  | unregister_ftrace_function i => fun r ft =>
      if r =? 0 then unset_registered i ft else ft
  | _ => fun _ ft => ft
  end.

Fixpoint ftrace_of (tr : trace fcall) : ftrace :=
  match tr with
  | [] => mk_ft ∅ ∅
  | existT c r :: tr' => ft_event c r (ftrace_of tr')
  end.

Definition add_hook (i : nat) (a : Z) (ft : ftrace) : ftrace :=
  set_registered i (set_filter false (i, a) ft).
Definition del_hook (i : nat) (a : Z) (ft : ftrace) : ftrace :=
  set_filter true (i, a) (unset_registered i ft).

(** Hook [i] is unknown to ftrace. *)
Definition idle (ft : ftrace) (i : nat) : Prop :=
  i ∉ registered ft /\ forall a, (i, a) ∉ filters ft.

Lemma ftrace_eq ft ft' :
  filters ft = filters ft' -> registered ft = registered ft' -> ft = ft'.
Proof. destruct ft, ft'. simpl. congruence. Qed.

Lemma del_add_hook i a ft : idle ft i -> del_hook i a (add_hook i a ft) = ft.
Proof.
  intros [Hr Hf]. specialize (Hf a).
  apply ftrace_eq; simpl; apply leibniz_equiv; set_solver.
Qed.

Lemma del_filter_add i a ft :
  idle ft i -> set_filter true (i, a) (set_filter false (i, a) ft) = ft.
Proof.
  intros [Hr Hf]. specialize (Hf a). apply ftrace_eq; simpl; [|done].
  apply leibniz_equiv. set_solver.
Qed.

Lemma idle_add_hook i j a ft : i <> j -> idle ft j -> idle (add_hook i a ft) j.
Proof. intros Hne [Hr Hf]. split; simpl; [set_solver|]. intros b. specialize (Hf b). set_solver. Qed.

(** The hooks [(i, a)] of a list added, oldest first. *)
Definition add_hooks (l : list (nat * Z)) (ft : ftrace) : ftrace :=
  fold_left (fun ft x => add_hook x.1 x.2 ft) l ft.

(** Removing what was added never fails. *)
Definition removal_works (e : env fcall) : Prop :=
  (forall tr i, e tr (unregister_ftrace_function i) = 0) /\
  (forall tr i a, e tr (ftrace_set_filter_ip i a true false) = 0).

Lemma idle_add_hooks l ft j : j ∉ l.*1 -> idle ft j -> idle (add_hooks l ft) j.
Proof.
  revert ft. induction l as [|[i a] l IH]; intros ft Hj Hid; [done|].
  apply not_elem_of_cons in Hj as [Hne Hj]. apply IH; [done|]. by apply idle_add_hook.
Qed.

(** Hook [j] is set up: resolved, with our callback, and the caller's pointer
    holds the address of the original function. *)
Definition ready (s : fh_state) (j : nat) : Prop :=
  exists h, hooks s !! j = Some h /\ address h <> 0 /\ ops_func h = true /\
    cells s (original h) = address h.
Definition originals (s : fh_state) : list nat := original <$> hooks s.

Section runs.
Context (ge_5_7 : bool) (MCOUNT : Z) (e : env fcall) (Hrm : removal_works e).

(** The state changes no field but [address], [ops] and the cells. *)
Definition same_hooks (s s' : fh_state) : Prop :=
  length (hooks s') = length (hooks s).

Lemma wp_hook_at i h (Q : ftrace_hook -> fh_state -> trace fcall -> Prop) s tr :
  hooks s !! i = Some h -> Q h s tr -> wp (hook_at i) e Q s tr.
Proof. intros Hh HQ. unfold hook_at. wp_go. apply wp_or_fault. by exists h. Qed.

(** [lookup_name] leaves ftrace and the state alone. *)
Lemma wp_lookup_name n (Q : Z -> fh_state -> trace fcall -> Prop) s tr :
  (forall a tr', ftrace_of tr' = ftrace_of tr -> Q a s tr') ->
  wp (lookup_name ge_5_7 n) e Q s tr.
Proof.
  intros HQ. unfold lookup_name. destruct ge_5_7; wp_go; [|by apply HQ].
  destruct (e tr (register_kprobe n)) as [r addr] eqn:E.
  destruct (r <? 0); wp_go; by apply HQ.
Qed.

(** Hook [i] in the array: its address. *)
Definition addr_at (s : fh_state) (i : nat) (a : Z) : Prop :=
  exists h, hooks s !! i = Some h /\ address h = a.

(** What installing hook [i] establishes. *)
Definition installed (i : nat) (s s' : fh_state) (ft : ftrace) (r : Z) (ft' : ftrace) : Prop :=
  length (hooks s') = length (hooks s) /\
  (forall j, j <> i -> hooks s' !! j = hooks s !! j) /\
  (forall h, hooks s !! i = Some h ->
    exists h', hooks s' !! i = Some h' /\ original h' = original h /\
      name h' = name h /\ function h' = function h) /\
  if r =? 0 then
    exists h, hooks s' !! i = Some h /\ address h <> 0 /\
      ops_func h = true /\ cells s' (original h) = address h /\
      (forall c, c <> original h -> cells s' c = cells s c) /\
      ft' = add_hook i (address h) ft
  else ft' = ft.

Lemma install_hook_run i s tr :
  (i < length (hooks s))%nat -> idle (ftrace_of tr) i ->
  wp (fh_install_hook ge_5_7 MCOUNT i) e (fun r s' tr' =>
    installed i s s' (ftrace_of tr) r (ftrace_of tr')) s tr.
Proof.
  intros Hi Hidle. destruct (lookup_lt_is_Some_2 (hooks s) i Hi) as [h Hh].
  unfold fh_install_hook, fh_resolve_hook_address, set_hook.
  apply wp_bind, wp_bind. eapply wp_hook_at; [exact Hh|].
  apply wp_bind, wp_lookup_name. intros a tr1 Htr1. wp_go.
  assert (Hset : forall h', length (<[i:=h']> (hooks s)) = length (hooks s))
    by (intros; apply length_insert).
  destruct (Z.eqb_spec a 0) as [->|Ha].
  { wp_go. split_and!; simpl; [by rewrite Hset| | |done].
    - intros j Hj. by rewrite list_lookup_insert_ne.
    - intros h0 Hh0. simplify_eq. rewrite list_lookup_insert_eq by done. by eexists. }
  wp_go. cbn [negb Z.eqb]. apply wp_bind.
  eapply wp_hook_at; [cbn; by rewrite list_lookup_insert_eq|]. wp_go.
  set (h1 := set_ops (set_address a h)).
  change (address (set_address a h)) with a.
  assert (Hfr : forall r tr', (if r =? 0 then ftrace_of tr' = add_hook i a (ftrace_of tr)
      else ftrace_of tr' = ftrace_of tr) ->
    installed i s
      (mk_fh (<[i:=h1]> (<[i:=set_address a h]> (hooks s)))
         (<[original h:=if USE_FENTRY_OFFSET then u64 (a + MCOUNT) else a]> (cells s)))
      (ftrace_of tr) r (ftrace_of tr')).
  { intros r tr' Hr. split_and!; simpl.
    - by rewrite !length_insert.
    - intros j Hj. by rewrite !list_lookup_insert_ne.
    - intros h0 Hh0. simplify_eq.
      rewrite list_lookup_insert_eq by (by rewrite length_insert). by eexists.
    - destruct (r =? 0); [|done]. exists h1.
      rewrite list_lookup_insert_eq by (by rewrite length_insert).
      split_and!; try done; simpl; [by rewrite fn_lookup_insert|].
      intros c Hc. by rewrite fn_lookup_insert_ne. }
  simpl. match goal with |- context [negb ?b] => destruct b eqn:E end; simpl; wp_go.
  - match goal with |- context [negb ?b] => destruct b eqn:E2 end; simpl; wp_go; apply Hfr.
    + simpl. by rewrite E, E2, Htr1.
    + rewrite E2. simpl. rewrite E, E2, (proj2 Hrm), Htr1. by apply del_filter_add.
  - apply Hfr. rewrite E. simpl. by rewrite E.
Qed.

Lemma installed_originals i s s' ft r ft' :
  (i < length (hooks s))%nat -> installed i s s' ft r ft' -> originals s' = originals s.
Proof.
  intros Hi (Hlen & Hother & Hself & _). apply list_eq. intros j.
  unfold originals. rewrite !list_lookup_fmap.
  destruct (decide (j = i)) as [->|Hne]; [|by rewrite Hother].
  destruct (lookup_lt_is_Some_2 (hooks s) i Hi) as [h Hh].
  destruct (Hself h Hh) as (h' & -> & Ho & _). rewrite Hh. simpl. by rewrite Ho.
Qed.

Lemma installed_ready i j s s' ft ft' :
  (i < length (hooks s))%nat -> NoDup (originals s) -> installed i s s' ft 0 ft' ->
  j <> i -> ready s j -> ready s' j.
Proof.
  intros Hi Hnd Hin Hne (h & Hh & Ha & Hf & Hc).
  pose proof (installed_originals _ _ _ _ _ _ Hi Hin) as Ho.
  destruct Hin as (_ & Hother & _ & (g & Hg & _ & _ & _ & Hcells & _)).
  exists h. rewrite Hother by done. split_and!; [done..|]. rewrite Hcells; [done|].
  intros E. apply Hne. eapply (NoDup_lookup (originals s)); [done| |].
  - unfold originals. by rewrite list_lookup_fmap, Hh.
  - rewrite <- Ho. unfold originals. rewrite list_lookup_fmap, Hg. simpl. by rewrite E.
Qed.

(** What the loop establishes: the hooks [addrs] from [i] up to the one that
    failed were added, and on success all of them are ready. *)
Definition loop_post (n i : nat) (s : fh_state) (ft : ftrace)
    (r : Z * nat) (s' : fh_state) (ft' : ftrace) : Prop :=
  length (hooks s') = length (hooks s) /\ originals s' = originals s /\
  (forall j, (j < i)%nat -> hooks s' !! j = hooks s !! j) /\
  (exists addrs, addrs.*1 = seq i (r.2 - i) /\ (i <= r.2 <= i + n)%nat /\
    ft' = add_hooks addrs ft /\ forall j a, (j, a) ∈ addrs -> addr_at s' j a) /\
  (r.1 = 0 -> r.2 = (i + n)%nat /\ (NoDup (originals s) ->
    forall j, (j < i)%nat /\ ready s j \/ (i <= j < i + n)%nat -> ready s' j)).

Lemma install_loop_run n i s tr :
  (i + n <= length (hooks s))%nat ->
  (forall j, (i <= j < i + n)%nat -> idle (ftrace_of tr) j) ->
  wp (fh_install_loop ge_5_7 MCOUNT n i) e (fun r s' tr' =>
    loop_post n i s (ftrace_of tr) r s' (ftrace_of tr')) s tr.
Proof.
  revert i s tr. induction n as [|n IH]; intros i s tr Hi Hidle; cbn [fh_install_loop].
  { apply wp_ret. split_and!; try done.
    - exists []. simpl. rewrite Nat.sub_diag. split_and!; [done|lia|lia|done|].
      by intros j a ?%not_elem_of_nil.
    - intros _. simpl. split; [lia|]. intros _ j [[_ H]|?]; [done|lia]. }
  apply wp_bind. eapply wp_mono;
    [apply install_hook_run; [lia|apply Hidle; lia]|]. intros r s1 tr1 Hin.
  assert (i < length (hooks s))%nat as Hi0 by lia.
  pose proof (installed_originals _ _ _ _ _ _ Hi0 Hin) as Ho1.
  pose proof Hin as (Hlen & Hother & _ & Hr).
  destruct (r =? 0) eqn:Er; simpl.
  - apply Z.eqb_eq in Er as ->.
    destruct Hr as (h & Hh & Ha & Hf & Hc & _ & Hft).
    eapply wp_mono; [apply IH; [lia|]|].
    { intros j Hj. rewrite Hft. apply idle_add_hook; [lia|]. apply Hidle. lia. }
    intros [err k] s2 tr2 (Hlen2 & Ho2 & Hlow & (addrs & Hs & Hk & Hft2 & Hat) & Hok).
    cbn [fst snd] in *. split_and!; cbn [fst snd]; [congruence|congruence| | |].
    + intros j Hj. rewrite Hlow by lia. apply Hother. lia.
    + exists ((i, address h) :: addrs). split_and!; [|lia|lia| |].
      * rewrite fmap_cons, Hs. simpl. replace (k - i)%nat with (S (k - S i)) by lia. done.
      * rewrite Hft2, Hft. done.
      * intros j a [[= -> ->]|Hin']%elem_of_cons; [|by apply Hat].
        exists h. rewrite Hlow by lia. done.
    + intros He. destruct (Hok He) as [-> Hrd]. split; [lia|]. intros Hnd j Hj.
      apply Hrd; [by rewrite Ho1|].
      destruct (decide (S i <= j)%nat); [right; lia|left; split; [lia|]].
      destruct (decide (j = i)) as [->|Hne]; [by exists h|].
      eapply installed_ready; [|done|exact Hin|done|]; [lia|].
      destruct Hj as [[_ H]|]; [done|lia].
  - wp_go. split_and!; cbn [fst snd]; [done|done| | |].
    + intros j Hj. apply Hother. lia.
    + exists []. simpl. rewrite Nat.sub_diag. split_and!; [done|lia|lia|done|].
      by intros j a ?%not_elem_of_nil.
    + intros ->. done.
Qed.

Lemma remove_hook_run i a s tr :
  addr_at s i a ->
  exists tr', fh_remove_hook i e s tr = Ok tt s tr' /\
    ftrace_of tr' = del_hook i a (ftrace_of tr).
Proof.
  intros (h & Hh & Ha). unfold fh_remove_hook, hook_at, mbind, M_bind, get, call.
  rewrite Hh. cbn [or_fault mret M_ret]. rewrite (proj1 Hrm). cbn.
  rewrite (proj2 Hrm). cbn. eexists. split; [reflexivity|]. cbn. by rewrite Ha.
Qed.

Lemma rollback_run k addrs ft s tr :
  addrs.*1 = seq 0 k -> (forall j a, (j, a) ∈ addrs -> addr_at s j a) ->
  (forall j, (j < k)%nat -> idle ft j) -> ftrace_of tr = add_hooks addrs ft ->
  exists tr', fh_rollback k e s tr = Ok tt s tr' /\ ftrace_of tr' = ft.
Proof.
  revert addrs tr. induction k as [|k IH]; intros addrs tr Hs Hat Hid Hft.
  { destruct addrs; [|done]. by exists tr. }
  rewrite seq_S in Hs. simpl in Hs.
  destruct addrs as [|x addrs _] using rev_ind; [by destruct (seq 0 k)|].
  rewrite fmap_app in Hs. apply app_inj_tail in Hs as [Hs Hx]. destruct x as [j a].
  simpl in Hx. subst j.
  destruct (remove_hook_run k a s tr) as (tr1 & Hr & Hft1).
  { apply Hat. apply elem_of_app. right. by left. }
  cbn [fh_rollback]. unfold mbind, M_bind. rewrite Hr.
  apply (IH addrs); [done| |intros; apply Hid; lia|].
  - intros j b Hj. apply Hat. apply elem_of_app. by left.
  - rewrite Hft1, Hft. unfold add_hooks at 1. rewrite fold_left_app. simpl.
    apply del_add_hook, idle_add_hooks; [|apply Hid; lia].
    rewrite Hs, elem_of_seq. lia.
Qed.

Lemma add_hook_comm i j a b ft :
  add_hook i a (add_hook j b ft) = add_hook j b (add_hook i a ft).
Proof. apply ftrace_eq; simpl; apply leibniz_equiv; set_solver. Qed.

Lemma add_hooks_cons i a l ft :
  add_hooks ((i, a) :: l) ft = add_hook i a (add_hooks l ft).
Proof.
  change (add_hooks l (add_hook i a ft) = add_hook i a (add_hooks l ft)).
  revert ft. induction l as [|[j b] l IH]; intros ft; [done|].
  change (add_hooks l (add_hook j b (add_hook i a ft)) =
    add_hook i a (add_hooks l (add_hook j b ft))).
  by rewrite (add_hook_comm j i), IH.
Qed.

Lemma remove_loop_run n i addrs ft s tr :
  addrs.*1 = seq i n -> (forall j a, (j, a) ∈ addrs -> addr_at s j a) ->
  (forall j, (i <= j < i + n)%nat -> idle ft j) -> ftrace_of tr = add_hooks addrs ft ->
  exists tr', fh_remove_loop n i e s tr = Ok tt s tr' /\ ftrace_of tr' = ft.
Proof.
  revert i addrs tr. induction n as [|n IH]; intros i addrs tr Hs Hat Hid Hft.
  { destruct addrs; [|done]. by exists tr. }
  destruct addrs as [|[j a] addrs]; [done|]. simpl in Hs. injection Hs as -> Hs.
  change (addrs.*1 = seq (S i) n) in Hs.
  destruct (remove_hook_run i a s tr) as (tr1 & Hr & Hft1); [apply Hat; by left|].
  cbn [fh_remove_loop]. unfold mbind, M_bind. rewrite Hr.
  apply (IH (S i) addrs); [done| |intros; apply Hid; lia|].
  - intros k b Hk. apply Hat. by right.
  - rewrite Hft1, Hft, add_hooks_cons.
    apply del_add_hook, idle_add_hooks; [|apply Hid; lia].
    rewrite Hs, elem_of_seq. lia.
Qed.

(** [fh_install_hooks] with what it leaves for the removal. *)
Lemma install_hooks_run count s tr :
  (count <= length (hooks s))%nat ->
  (forall j, (j < count)%nat -> idle (ftrace_of tr) j) ->
  exists r s' tr',
    fh_install_hooks ge_5_7 MCOUNT count e s tr = Ok r s' tr' /\
    originals s' = originals s /\
    if r =? 0 then
      (exists addrs, addrs.*1 = seq 0 count /\
        ftrace_of tr' = add_hooks addrs (ftrace_of tr) /\
        forall j a, (j, a) ∈ addrs -> addr_at s' j a) /\
      (NoDup (originals s) -> forall j, (j < count)%nat -> ready s' j)
    else ftrace_of tr' = ftrace_of tr.
Proof.
  intros Hc Hid.
  destruct (proj1 (wp_run _ _ _ _ _) (install_loop_run count 0 s tr ltac:(lia)
    ltac:(intros; apply Hid; lia))) as ([err k] & s1 & tr1 & Hr & Hpost).
  destruct Hpost as (Hlen & Ho & _ & (addrs & Hs & Hk & Hft & Hat) & Hok).
  cbn [fst snd] in *. rewrite Nat.sub_0_r in Hs.
  unfold fh_install_hooks, mbind, M_bind. rewrite Hr.
  destruct (err =? 0) eqn:Eerr.
  - apply Z.eqb_eq in Eerr as ->. destruct (Hok eq_refl) as [-> Hrd].
    eexists _, _, _. split_and!; [reflexivity|done|]. simpl. split; [by exists addrs|].
    intros Hnd j Hj. apply Hrd; [done|]. right. lia.
  - destruct (rollback_run k addrs (ftrace_of tr) s1 tr1) as (tr2 & Hrb & Hft2);
      [done|done|intros; apply Hid; lia|done|].
    rewrite Hrb. eexists _, _, _. split_and!; [reflexivity|done|]. by rewrite Eerr.
Qed.
End runs.

(** ** The theorems *)

(** C8: Installing hooks is all or nothing: on success every hook is registered
    and ready, on failure at any point (unresolved symbol, filter or
    registration refused) ftrace is left as it was. *)
Theorem install_hooks_all_or_nothing ge_5_7 MCOUNT e count s tr :
  removal_works e -> (count <= length (hooks s))%nat -> NoDup (originals s) ->
  (forall j, (j < count)%nat -> idle (ftrace_of tr) j) ->
  exists r s' tr',
    fh_install_hooks ge_5_7 MCOUNT count e s tr = Ok r s' tr' /\
    if r =? 0 then
      (exists addrs, addrs.*1 = seq 0 count /\
        ftrace_of tr' = add_hooks addrs (ftrace_of tr) /\
        forall j a, (j, a) ∈ addrs -> addr_at s' j a) /\
      forall j, (j < count)%nat -> ready s' j
    else ftrace_of tr' = ftrace_of tr.
Proof.
  intros Hrm Hc Hnd Hid.
  destruct (install_hooks_run ge_5_7 MCOUNT e Hrm count s tr Hc Hid)
    as (r & s' & tr' & Hr & _ & H).
  exists r, s', tr'. split; [done|]. destruct (r =? 0); [|done].
  destruct H as [Ha Hrd]. auto.
Qed.

(** C32: Unloading undoes loading: after a successful [fh_init], [fh_exit] leaves
    ftrace as it was before. *)
Theorem fh_exit_undoes_init ge_5_7 MCOUNT e s tr :
  removal_works e -> (2 <= length (hooks s))%nat ->
  idle (ftrace_of tr) 0 -> idle (ftrace_of tr) 1 ->
  exists r s' tr',
    fh_init ge_5_7 MCOUNT e s tr = Ok r s' tr' /\
    if r =? 0 then
      exists tr'', fh_exit e s' tr' = Ok tt s' tr'' /\ ftrace_of tr'' = ftrace_of tr
    else ftrace_of tr' = ftrace_of tr.
Proof.
  intros Hrm Hc H0 H1.
  assert (forall j, (j < 2)%nat -> idle (ftrace_of tr) j) as Hid
    by (intros [|[|j]] Hj; [done|done|lia]).
  destruct (install_hooks_run ge_5_7 MCOUNT e Hrm 2 s tr Hc Hid)
    as (r & s' & tr1 & Hr & _ & H).
  unfold fh_init, mbind, M_bind. rewrite Hr. destruct (r =? 0) eqn:Er.
  - destruct H as [(addrs & Hs & Hft & Hat) _]. eexists 0, s', _. split; [reflexivity|].
    simpl. unfold fh_exit, fh_remove_hooks, mbind, M_bind.
    match goal with |- context [fh_remove_loop 2 0 e s' ?t] =>
      destruct (remove_loop_run e Hrm 2 0 addrs (ftrace_of tr) s' t) as (tr2 & Hr2 & Hft2);
        [done|done|intros; apply Hid; lia|done|] end.
    rewrite Hr2. unfold call. eexists.
    split; [f_equal; apply unit_eta|exact Hft2].
  - exists r, s', tr1. simpl. rewrite Er. by split.
Qed.

(** A kernel in which symbols resolve to 4096 and the second registration is
    refused or not. *)
Definition fh_env (refuse : bool) : env fcall := fun tr c =>
  match c as c0 return resp c0 with
  | register_kprobe _ => (0, 4096)
  | kallsyms_lookup_name _ => 4096
  | register_ftrace_function i => if refuse && (i =? 1)%nat then - EINVAL else 0
  | ftrace_set_filter_ip _ _ _ _ | unregister_ftrace_function _
  | call_regs _ _ | call_args _ _ => 0
  | kmalloc n => Some (replicate (Z.to_nat n) 0)
  | strncpy_from_user _ n => (3, str "/bi" ++ replicate (Z.to_nat n - 3) 0)
  | unregister_kprobe _ | kfree _ | pr_debug | pr_info _ _ _ => tt
  end.

Lemma fh_env_removal refuse : removal_works (fh_env refuse).
Proof. done. Qed.

Definition demo : fh_state := mk_fh (demo_hooks true 100 200) (fun _ => 0).

Lemma install_hooks_all_or_nothing_witness :
  exists r s' tr',
    fh_install_hooks true 5 2 (fh_env true) demo [] = Ok r s' tr' /\
    if r =? 0 then
      (exists addrs, addrs.*1 = seq 0 2 /\
        ftrace_of tr' = add_hooks addrs (ftrace_of []) /\
        forall j a, (j, a) ∈ addrs -> addr_at s' j a) /\
      forall j, (j < 2)%nat -> ready s' j
    else ftrace_of tr' = ftrace_of [].
Proof.
  apply (install_hooks_all_or_nothing true 5 (fh_env true) 2 demo []).
  - apply fh_env_removal.
  - apply Nat.leb_le. reflexivity.
  - apply (bool_decide_unpack _). reflexivity.
  - intros j _. split; [apply not_elem_of_empty|intros a; apply not_elem_of_empty].
Defined.

Lemma fh_exit_undoes_init_witness :
  exists r s' tr',
    fh_init true 5 (fh_env false) demo [] = Ok r s' tr' /\
    if r =? 0 then
      exists tr'', fh_exit (fh_env false) s' tr' = Ok tt s' tr'' /\ ftrace_of tr'' = ftrace_of []
    else ftrace_of tr' = ftrace_of [].
Proof.
  apply (fh_exit_undoes_init true 5 (fh_env false) demo []).
  - apply fh_env_removal.
  - apply Nat.leb_le. reflexivity.
  - split; [apply not_elem_of_empty|intros a; apply not_elem_of_empty].
  - split; [apply not_elem_of_empty|intros a; apply not_elem_of_empty].
Defined.

(** ** Recursion *)

(** The code reached by a call from [parent] to the address of a hooked
    function, when the hook function itself calls the original through the
    saved pointer from the address [site] inside it: ftrace calls the thunk at
    the entry, execution goes on at the [ip] the thunk leaves.  [fuel] bounds
    the number of calls followed. *)
Fixpoint hooked_call (fuel : nat) (within_module : within_module_t) (h : ftrace_hook)
    (site : Z) (saved parent : Z) : list Z :=
  match fuel with
  | O => []
  | S n =>
      let ip := if saved =? address h
                then fh_ftrace_thunk within_module h parent saved else saved in
      if ip =? function h then ip :: hooked_call n within_module h site saved site
      else [ip]
  end.

(** C22: A call from outside the module runs the hook function once and then the
    original; the hook's own call is not redirected, so there is no recursion. *)
Theorem hook_runs_once within_module h site parent fuel :
  function h <> address h -> within_module site = true ->
  within_module parent = false -> (2 <= fuel)%nat ->
  hooked_call fuel within_module h site (address h) parent = [function h; address h] /\
  hooked_call fuel within_module h site (address h) site = [address h].
Proof.
  intros Hne Hsite Hpar Hf. destruct fuel as [|[|n]]; [lia|lia|].
  assert (forall k, hooked_call (S k) within_module h site (address h) site = [address h])
    as Hs.
  { intros k. cbn [hooked_call]. unfold fh_ftrace_thunk, USE_FENTRY_OFFSET.
    rewrite Z.eqb_refl, Hsite. simpl.
    by rewrite (proj2 (Z.eqb_neq (address h) (function h))) by congruence. }
  split; [|by apply Hs]. change (hooked_call (S (S n)) within_module h site (address h) parent)
    with (let ip := if address h =? address h
            then fh_ftrace_thunk within_module h parent (address h) else address h in
          if ip =? function h then ip :: hooked_call (S n) within_module h site (address h) site
          else [ip]).
  rewrite Hs. unfold fh_ftrace_thunk, USE_FENTRY_OFFSET.
  rewrite Z.eqb_refl, Hpar. simpl. by rewrite Z.eqb_refl.
Qed.

Lemma hook_runs_once_witness :
  hooked_call 7 (fun ip => (90 <=? ip) && (ip <? 300))
    (set_address 4096 (HOOK true "sys_clone" 100 0)) 120 4096 5000 = [100; 4096] /\
  hooked_call 7 (fun ip => (90 <=? ip) && (ip <? 300))
    (set_address 4096 (HOOK true "sys_clone" 100 0)) 120 4096 120 = [4096].
Proof.
  apply (hook_runs_once (fun ip => (90 <=? ip) && (ip <? 300))
    (set_address 4096 (HOOK true "sys_clone" 100 0)) 120 5000 7).
  - discriminate.
  - reflexivity.
  - reflexivity.
  - lia.
Defined.

(** ** The hook functions *)

(** Blocks allocated and not yet freed; [kfree(NULL)] frees nothing. *)
Fixpoint live (tr : trace fcall) : Z :=
  match tr with
  | [] => 0
  | existT c r :: tr' =>
      live tr' + match c as c0 return resp c0 -> Z with
                 | kmalloc _ => fun o : option bytes => if o is Some _ then 1 else 0
                 | kfree (Some _) => fun _ => - 1
                 | _ => fun _ => 0
                 end r
  end.

(** [strncpy_from_user(dst, src, count)]: a negative result is a fault; a
    result below [count] is the length of the string, which is copied with its
    terminator; the result [count] means that [count] non-zero bytes were
    copied and no terminator. *)
Definition strncpy_spec (e : env fcall) : Prop :=
  forall tr src count n buf, e tr (strncpy_from_user src count) = (n, buf) ->
  length buf = Z.to_nat count /\
  (n < 0 \/
   0 <= n < count /\ (exists s rest, c_string s /\ Z.of_nat (length s) = n /\
                        buf = s ++ 0 :: rest) \/
   n = count /\ Forall (fun b => b <> 0) buf).

(** What user memory holds at the file name, as [strncpy_from_user] sees it. *)
Definition copied_whole (e : env fcall) (p : Z) : Prop :=
  forall tr, (e tr (strncpy_from_user p 4096)).1 < 4096.

Lemma existsb_zero_app s rest : existsb (Z.eqb 0) (s ++ 0 :: rest) = true.
Proof. rewrite existsb_app. simpl. by rewrite orb_true_r. Qed.

Lemma existsb_zero_none l : Forall (fun b => b <> 0) l -> existsb (Z.eqb 0) l = false.
Proof.
  induction 1 as [|b l Hb _ IH]; [done|]. cbn -[Z.eqb]. rewrite IH, orb_false_r.
  apply Z.eqb_neq. congruence.
Qed.

(** The part of [fh_sys_execve] before the real system call. *)
Definition log_filename (p : Z) : F unit :=
  kernel_filename ← duplicate_filename p;
  pr_info_str "execve() before: %s" kernel_filename ;;
  kfree_filename kernel_filename.

Lemma log_filename_run e p s tr :
  strncpy_spec e -> copied_whole e p ->
  exists tr', log_filename p e s tr = Ok tt s tr' /\ live tr' = live tr.
Proof.
  intros Hspec Hc. unfold log_filename, duplicate_filename, kfree_filename, mbind, M_bind, call.
  destruct (e tr (kmalloc 4096)) as [g|] eqn:Ek; simpl.
  - match goal with |- context [e ?t (strncpy_from_user p 4096)] =>
      destruct (e t (strncpy_from_user p 4096)) as [n buf] eqn:Es; specialize (Hc t) end.
    rewrite Es in Hc. simpl in Hc.
    destruct (Hspec _ _ _ _ _ Es) as (Hl & Hcase).
    destruct (Z.ltb_spec n 0); simpl.
    + unfold call. simpl. eexists. split; [f_equal; apply unit_eta|]. simpl. lia.
    + destruct Hcase as [?|[(_ & s0 & rest & Hs & _ & ->)|[-> _]]]; [lia| |lia].
      rewrite existsb_zero_app. unfold call. simpl.
      eexists. split; [f_equal; apply unit_eta|]. simpl. lia.
  - unfold call. simpl. eexists. split; [f_equal; apply unit_eta|]. simpl. lia.
Qed.

Lemma fh_sys_execve_unfold regs :
  forall e s tr, fh_sys_execve regs e s tr =
  (log_filename (di regs) ;;
   f ← real_fn real_sys_execve;
   ret ← call (call_regs f regs);
   call (pr_info "execve() after: %ld" None ret) ;;
   mret ret) e s tr.
Proof.
  intros e s tr. unfold fh_sys_execve, log_filename, mbind, M_bind.
  destruct (duplicate_filename (di regs) e s tr) as [a s1 tr1|]; [|done].
  by destruct (pr_info_str "execve() before: %s" a e s1 tr1).
Qed.

(** C26: [fh_sys_execve] is transparent for file names of up to 4095 characters:
    it calls the original with the same registers and returns its result, and
    the copy of the name is freed, whether the allocation, the copy or neither
    fails. *)
Theorem execve_hook_transparent e s tr regs :
  strncpy_spec e -> copied_whole e (di regs) -> cells s real_sys_execve <> 0 ->
  exists tr1 ret,
    let tr2 := ev (call_regs (cells s real_sys_execve) regs) ret :: tr1 in
    ret = e tr1 (call_regs (cells s real_sys_execve) regs) /\
    fh_sys_execve regs e s tr =
    Ok ret s (ev (pr_info "execve() after: %ld" None ret) tt :: tr2) /\
    live tr2 = live tr.
Proof.
  intros Hspec Hc Hf. rewrite fh_sys_execve_unfold. unfold mbind at 1, M_bind at 1.
  destruct (log_filename_run e (di regs) s tr Hspec Hc) as (tr1 & -> & Hl).
  unfold real_fn, mbind, M_bind, get, call.
  rewrite (proj2 (Z.eqb_neq _ 0)) by done. unfold mret, M_ret, ev.
  exists tr1, (e tr1 (call_regs (cells s real_sys_execve) regs)). split; [done|]. split.
  - by match goal with |- context [e ?t (pr_info _ _ _)] =>
      destruct (e t (pr_info "execve() after: %ld" None
        (e tr1 (call_regs (cells s real_sys_execve) regs)))) end.
  - simpl. lia.
Qed.

(** A file name of 4096 bytes or more leaves the copy without a terminator;
    printing it reads past the end of the allocation. *)
Theorem execve_hook_overread e s tr regs :
  strncpy_spec e -> (forall tr', (e tr' (strncpy_from_user (di regs) 4096)).1 = 4096) ->
  e tr (kmalloc 4096) <> None ->
  exists tr', fh_sys_execve regs e s tr = Fault OutOfBounds s tr'.
Proof.
  intros Hspec Hlong Hk.
  unfold fh_sys_execve, duplicate_filename, mbind, M_bind, call.
  destruct (e tr (kmalloc 4096)) as [g|]; [|done].
  match goal with |- context [e ?t (strncpy_from_user _ 4096)] =>
    destruct (e t (strncpy_from_user (di regs) 4096)) as [n buf] eqn:Es;
    specialize (Hlong t) end.
  rewrite Es in Hlong. simpl in Hlong. subst n. cbn.
  destruct (Hspec _ _ _ _ _ Es) as (_ & [?|[[? _]|[_ Hnz]]]); [lia|lia|].
  rewrite existsb_zero_none by done. by eexists.
Qed.

(** User memory with a name of [k] times ['a'] (and a fault for [k < 0]). *)
Definition user_env (k : Z) : env fcall := fun tr c =>
  match c as c0 return resp c0 -> resp c0 with
  | strncpy_from_user _ count => fun _ =>
      if k <? 0 then (- EFAULT, replicate (Z.to_nat count) 0)
      else if k <? count then
        (k, replicate (Z.to_nat k) 97 ++ 0 :: replicate (Z.to_nat (count - k - 1)) 0)
      else (count, replicate (Z.to_nat count) 97)
  | _ => fun r => r
  end (fh_env false tr c).

Lemma user_env_spec k : strncpy_spec (user_env k).
Proof.
  intros tr src count n buf. simpl. destruct (Z.ltb_spec k 0).
  - intros [= <- <-]. rewrite length_replicate. split; [done|]. left. done.
  - destruct (Z.ltb_spec k count); intros [= <- <-].
    + split.
      * rewrite length_app. simpl. rewrite !length_replicate. lia.
      * right. left. split; [lia|]. eexists _, _. split; [|split; [|reflexivity]].
        -- apply Forall_replicate. lia.
        -- rewrite length_replicate. lia.
    + rewrite length_replicate. split; [done|]. right. right. split; [done|].
      by apply Forall_replicate.
Qed.

Definition hooked : fh_state := mk_fh (demo_hooks true 100 200) (fun _ => 4096).

Lemma execve_hook_transparent_witness :
  exists tr1 ret,
    let tr2 := ev (call_regs 4096 (mk_regs 7 [])) ret :: tr1 in
    ret = user_env 3 tr1 (call_regs 4096 (mk_regs 7 [])) /\
    fh_sys_execve (mk_regs 7 []) (user_env 3) hooked [] =
    Ok ret hooked (ev (pr_info "execve() after: %ld" None ret) tt :: tr2) /\
    live tr2 = 0.
Proof.
  apply (execve_hook_transparent (user_env 3) hooked [] (mk_regs 7 [])).
  - apply user_env_spec.
  - intros tr. reflexivity.
  - discriminate.
Defined.

Lemma execve_hook_overread_witness :
  exists tr', fh_sys_execve (mk_regs 7 []) (user_env 5000) hooked [] =
    Fault OutOfBounds hooked tr'.
Proof.
  apply (execve_hook_overread (user_env 5000) hooked [] (mk_regs 7 [])).
  - apply user_env_spec.
  - intros tr. reflexivity.
  - discriminate.
Defined.
