(* ===== verification/BlockDev.v ===== *)
(** * A RAM block device ([block_device/simple.c])

    A request is a start sector, a direction and the memory segments it
    transfers; [block_dev] is the driver's structure, its storage the list of
    bytes [data].  Positions are [loff_t] (64-bit signed), [b_len] is
    [unsigned long]: the bounds test mixes them and is written out at those
    widths.  [None] is a [memcpy] outside an object. *)

From S2P Require Export Resources Bytes.

Definition SECTOR_SHIFT : Z := 9.
Definition PAGE_SIZE : Z := 4096.

Inductive data_dir := READ | WRITE.
Inductive blk_status_t := BLK_STS_OK | BLK_STS_IOERR.

Record request := mk_rq {
  rq_pos : Z;
  rq_dir : data_dir;
  rq_segs : list bytes;
}.

(** ** Serving a request *)

(** [(pos + b_len) > dev_size] and the clamped length: [loff_t + unsigned long]
    is [unsigned long], and [dev_size] is converted to it. *)
Definition clamp (pos dev_size b_len : Z) : Z :=
  if u64 dev_size <? u64 (pos + b_len) then u64 (dev_size - pos) else b_len.

(** [memcpy] between [seg] and the storage at [pos]. *)
Definition copy_segment (dir : data_dir) (pos b_len : Z) (seg data : bytes)
    : option (bytes * bytes) :=
  match dir with
  | WRITE => d ← load 0 b_len seg; data' ← store pos d data; Some (seg, data')
  | READ => d ← load pos b_len data; seg' ← store 0 d seg; Some (seg', data)
  end.

(** [rq_for_each_segment]: the segments and the storage afterwards, and
    [*nr_bytes]. *)
Fixpoint do_request_loop (dir : data_dir) (dev_size : Z) (segs : list bytes)
    (pos nr_bytes : Z) (data : bytes) : option (list bytes * bytes * Z) :=
  match segs with
  | [] => Some ([], data, nr_bytes)
  | seg :: segs' =>
      let b_len := clamp pos dev_size (Z.of_nat (length seg)) in
      '(seg', data') ← copy_segment dir pos b_len seg data;
      '(segs'', data'', nr) ← do_request_loop dir dev_size segs'
        (s64 (pos + b_len)) (u32 (nr_bytes + b_len)) data';
      Some (seg' :: segs'', data'', nr)
  end.

(** The return value, the request with its segments, the storage and
    [*nr_bytes]. *)
Definition do_request (capacity : Z) (rq : request) (data : bytes)
    : option (Z * request * bytes * Z) :=
  let ret := 0 in
  let pos := s64 (Z.shiftl (rq_pos rq) SECTOR_SHIFT) in
  let dev_size := s64 (u64 (Z.shiftl capacity SECTOR_SHIFT)) in
  '(segs, data', nr) ← do_request_loop (rq_dir rq) dev_size (rq_segs rq) pos 0 data;
  Some (ret, mk_rq (rq_pos rq) (rq_dir rq) segs, data', nr).

(** ** The driver *)

Record block_dev := mk_dev {
  capacity : Z;
  data : option bytes;
  queue : kptr;
  gdisk : bool;
}.

Record bd_state := mk_bd { dev_major : Z; block_device : option block_dev }.

Inductive bcall :=
  | printk
  | blk_mq_start_request
  | blk_update_request (rq : request) (status : blk_status_t) (nr_bytes : Z)
  | blk_mq_end_request (rq : request) (status : blk_status_t)
  | register_blkdev (major : Z)
  | unregister_blkdev (major : Z)
  | kmalloc_dev
  | kfree_dev
  | kmalloc_data (size : Z)
  | kfree_data
  | blk_mq_init_sq_queue (depth : Z)
  | blk_cleanup_queue
  | alloc_disk (minors : Z)
  | set_capacity (n : Z)
  | add_disk (major first_minor : Z) (disk_name : bytes)
  | del_gendisk
  | put_disk.

(** [blk_update_request] answers whether the request has more data;
    [kmalloc_data] gives the (uninitialised) contents of the storage. *)
#[export] Instance bd_api : KApi bcall := fun c =>
  match c with
  | blk_update_request _ _ _ => bool
  | register_blkdev _ => Z
  | kmalloc_dev | alloc_disk _ => bool
  | kmalloc_data _ => option bytes
  | blk_mq_init_sq_queue _ => kptr
  | _ => unit
  end.

Abbreviation B := (M bcall bd_state).

Definition blockdev_open : B Z := call printk ;; mret 0.
Definition blockdev_release : B unit := call printk.
Definition blockdev_ioctl (cmd arg : Z) : B Z := call printk ;; mret (- ENOTTY).

(** [block_device->field]. *)
Definition the_dev : B block_dev := s ← get; or_fault NullDeref (block_device s).
Definition set_dev (d : block_dev) : B unit :=
  modify (fun s => mk_bd (dev_major s) (Some d)).

Definition queue_rq (rq : request) : B blk_status_t :=
  call blk_mq_start_request ;;
  dev ← the_dev;
  d ← or_fault NullDeref (data dev);
  '(ret, rq', d', nr_bytes) ← or_fault OutOfBounds (do_request (capacity dev) rq d);
  set_dev (mk_dev (capacity dev) (Some d') (queue dev) (gdisk dev)) ;;
  let status := if negb (ret =? 0) then BLK_STS_IOERR else BLK_STS_OK in
  more ← call (blk_update_request rq' status nr_bytes);
  if (more : bool) then fail BugOn else
  call (blk_mq_end_request rq' status) ;;
  mret status.

(** [kmalloc] of the structure leaves its fields unspecified; the code writes
    each field before it reads it, they start out as NULL here. *)
Definition myblock_driver_init : B Z :=
  s ← get;
  major ← call (register_blkdev (dev_major s));
  put (mk_bd major None) ;;
  ok ← call kmalloc_dev;
  if negb ok then
    call printk ;; call (unregister_blkdev major) ;; mret (- ENOMEM)
  else
  let cap := Z.shiftr (112 * PAGE_SIZE) 9 in
  d ← call (kmalloc_data (Z.shiftl cap 9));
  set_dev (mk_dev cap d PNull false) ;;
  match d with
  | None =>
      call printk ;; call (unregister_blkdev major) ;; call kfree_dev ;; mret (- ENOMEM)
  | Some _ =>
      call printk ;;
      q ← call (blk_mq_init_sq_queue 128);
      set_dev (mk_dev cap d q false) ;;
      match q with
      | PNull =>
          call printk ;; call kfree_data ;; call (unregister_blkdev major) ;;
          call kfree_dev ;; mret (- ENOMEM)
      | PErr _ => fail BadPointer      (* block_device->queue->queuedata = ... *)
      | POk =>
          disk ← call (alloc_disk 1);
          set_dev (mk_dev cap d q disk) ;;
          if negb disk then fail NullDeref else
          call printk ;;
          call (set_capacity cap) ;;
          call (add_disk major 0 (str "blockdev")) ;;
          mret 0
      end
  end.

Definition myblock_driver_exit : B unit :=
  dev ← the_dev;
  (if gdisk dev then call del_gendisk ;; call put_disk else mret tt) ;;
  (match queue dev with PNull => mret tt | _ => call blk_cleanup_queue end) ;;
  call kfree_data ;;
  s ← get;
  call (unregister_blkdev (dev_major s)) ;;
  call kfree_dev.

(** ** What the driver acquires *)

Inductive bd_rsrc := r_major | r_dev | r_data | r_queue | r_tag_set | r_disk | r_disk_added.

#[export] Instance bd_rsrc_eq_dec : EqDecision bd_rsrc.
Proof. solve_decision. Defined.

(** [blk_mq_init_sq_queue] sets up the queue and its tag set;
    [blk_cleanup_queue] takes down the queue. *)
#[export] Instance bd_resources : Resources bcall := {|
  rsrc := bd_rsrc;
  acquires := fun c => match c as c0 return resp c0 -> list bd_rsrc with
    | register_blkdev _ => fun r : Z => if 0 <? r then [r_major] else []
    | kmalloc_dev => fun r : bool => if r then [r_dev] else []
    | kmalloc_data _ => fun r : option bytes => match r with Some _ => [r_data] | None => [] end
    | blk_mq_init_sq_queue _ => fun r : kptr =>
        match r with POk => [r_queue; r_tag_set] | _ => [] end
    | alloc_disk _ => fun r : bool => if r then [r_disk] else []
    | add_disk _ _ _ => fun _ => [r_disk_added]
    | _ => fun _ => []
    end;
  releases := fun c => match c as c0 return resp c0 -> list bd_rsrc with
    | unregister_blkdev _ => fun _ => [r_major]
    | kfree_dev => fun _ => [r_dev]
    | kfree_data => fun _ => [r_data]
    | blk_cleanup_queue => fun _ => [r_queue]
    | del_gendisk => fun _ => [r_disk_added]
    | put_disk => fun _ => [r_disk]
    | _ => fun _ => []
    end;
|}.
