(* ===== verification/BlockDevTheorems.v ===== *)
(** * Block device: the theorems

    A request that starts inside the device transfers exactly the bytes that
    fit; one that starts beyond its end accesses memory outside the storage. *)

From S2P Require Export BlockDev.

(** Two stores, one after the other, are one. *)
Lemma store_app off x y l l1 :
  store off x l = Some l1 ->
  store (off + Z.of_nat (length x)) y l1 = store off (x ++ y) l.
Proof.
  intros Hs. pose proof (store_length _ _ _ _ Hs) as Hlen.
  apply store_inv in Hs as (H0 & Hfit & ->).
  unfold store, in_object. rewrite Hlen, length_app.
  destruct (decide (off + Z.of_nat (length x) + Z.of_nat (length y) <= Z.of_nat (length l))).
  - rewrite !(proj2 (Z.leb_le _ _)) by lia. cbn [andb]. f_equal.
    assert (length (take (Z.to_nat off) l ++ x) = Z.to_nat (off + Z.of_nat (length x)))
      as Hl by (rewrite length_app, length_take; lia).
    rewrite (app_assoc (take (Z.to_nat off) l) x (drop _ _)).
    rewrite take_app_length', drop_app_ge by lia.
    rewrite <- !app_assoc, drop_drop. do 4 f_equal. lia.
  - rewrite (proj2 (Z.leb_gt (off + Z.of_nat (length x) + Z.of_nat (length y)) _)) by lia.
    rewrite (proj2 (Z.leb_gt (off + Z.of_nat (length x + length y)) _)) by lia.
    by rewrite !andb_false_r.
Qed.

Lemma load_all l : load 0 (Z.of_nat (length l)) l = Some l.
Proof. rewrite load_Some by lia. rewrite drop_0, take_ge; [done|lia]. Qed.

Lemma load_head n l :
  0 <= n <= Z.of_nat (length l) -> load 0 n l = Some (take (Z.to_nat n) l).
Proof. intros. rewrite load_Some by lia. by rewrite drop_0. Qed.

Lemma load_beyond off len l : Z.of_nat (length l) < off + len -> load off len l = None.
Proof.
  intros. unfold load, in_object. by rewrite (proj2 (Z.leb_gt (off + len) _)), andb_false_r.
Qed.

Lemma store_head d l :
  (length d <= length l)%nat -> store 0 d l = Some (d ++ drop (length d) l).
Proof. intros. by rewrite store_Some by lia. Qed.

Lemma store_nil off l : 0 <= off <= Z.of_nat (length l) -> store off [] l = Some l.
Proof.
  intros. rewrite store_Some by (simpl; lia). simpl. by rewrite Nat.add_0_r, take_drop.
Qed.

(** The clamp, for a position inside the device and lengths below 2^63. *)
Lemma clamp_spec pos size b :
  0 <= pos <= size -> size < 2 ^ 63 -> 0 <= b < 2 ^ 63 ->
  clamp pos size b = Z.min b (size - pos).
Proof.
  intros. unfold clamp. rewrite (uwrap_id 64 size), (uwrap_id 64 (pos + b)) by int_lia.
  destruct (Z.ltb_spec size (pos + b)); [rewrite uwrap_id by int_lia|]; lia.
Qed.

(** Total length of the segments. *)
Definition total (segs : list bytes) : Z := Z.of_nat (length (concat segs)).

Lemma total_cons seg segs : total (seg :: segs) = Z.of_nat (length seg) + total segs.
Proof. unfold total. simpl. rewrite length_app. lia. Qed.

Section loop.
Context (size : Z) (Hsize : size < 2 ^ 63).

Lemma write_loop segs pos nr data :
  0 <= pos <= size -> Z.of_nat (length data) = size -> total segs < 2 ^ 31 ->
  0 <= nr -> nr + total segs < 2 ^ 32 ->
  let n := Z.min (total segs) (size - pos) in
  exists data',
    do_request_loop WRITE size segs pos nr data = Some (segs, data', nr + n) /\
    store pos (take (Z.to_nat n) (concat segs)) data = Some data'.
Proof.
  revert pos nr data. induction segs as [|seg segs IH];
    intros pos nr data Hpos Hlen Htot Hnr Hsum n.
  { exists data. subst n. unfold total. simpl. rewrite Z.min_l by lia. simpl.
    split; [do 2 f_equal; lia|]. apply store_nil. lia. }
  assert (n = Z.min (Z.of_nat (length seg) + total segs) (size - pos)) as En
    by (subst n; by rewrite total_cons).
  clearbody n. rewrite total_cons in Htot, Hsum.
  assert (0 <= total segs) by (unfold total; lia).
  set (b := Z.of_nat (length seg)) in *. assert (0 <= b) by lia.
  cbn [do_request_loop]. fold b. rewrite (clamp_spec pos size b) by int_lia.
  set (m := Z.min b (size - pos)). unfold copy_segment.
  rewrite load_head by lia. cbn [mbind option_bind].
  assert (Z.of_nat (length (take (Z.to_nat m) seg)) = m) as Hm
    by (rewrite length_take; lia).
  destruct (store pos (take (Z.to_nat m) seg) data) as [data1|] eqn:E1;
    [|rewrite store_Some in E1 by lia; done].
  cbn [mbind option_bind].
  rewrite swrap_id by int_lia. rewrite (uwrap_id 32) by int_lia.
  destruct (IH (pos + m) (nr + m) data1) as (data' & Hr & Hs);
    [lia|by rewrite (store_length _ _ _ _ E1)|lia|lia|lia|].
  rewrite Hr. cbn [mbind option_bind]. exists data'. split; [do 2 f_equal; lia|].
  rewrite <- Hm in Hs at 1. rewrite (store_app _ _ _ _ _ E1) in Hs. rewrite <- Hs.
  f_equal. simpl. rewrite take_app.
  f_equal; [destruct (decide (b <= size - pos))|].
  - rewrite !take_ge by lia. done.
  - f_equal. lia.
  - f_equal. destruct (decide (b <= size - pos)); lia.
Qed.

Lemma read_loop segs pos nr data :
  0 <= pos <= size -> Z.of_nat (length data) = size -> total segs < 2 ^ 31 ->
  0 <= nr -> nr + total segs < 2 ^ 32 ->
  let n := Z.min (total segs) (size - pos) in
  exists segs' d,
    do_request_loop READ size segs pos nr data = Some (segs', data, nr + n) /\
    length <$> segs' = length <$> segs /\
    load pos n data = Some d /\
    concat segs' = d ++ drop (Z.to_nat n) (concat segs).
Proof.
  revert pos nr. induction segs as [|seg segs IH]; intros pos nr Hpos Hlen Htot Hnr Hsum n.
  { exists [], []. subst n. unfold total. simpl. rewrite Z.min_l by lia.
    split_and!; [do 2 f_equal; lia|done| |done].
    rewrite load_Some by lia. done. }
  assert (n = Z.min (Z.of_nat (length seg) + total segs) (size - pos)) as En
    by (subst n; by rewrite total_cons).
  clearbody n. rewrite total_cons in Htot, Hsum.
  assert (0 <= total segs) by (unfold total; lia).
  set (b := Z.of_nat (length seg)) in *. assert (0 <= b) by lia.
  cbn [do_request_loop]. fold b. rewrite (clamp_spec pos size b) by int_lia.
  set (m := Z.min b (size - pos)). unfold copy_segment.
  destruct (load pos m data) as [d1|] eqn:E1;
    [|rewrite load_Some in E1 by lia; done].
  pose proof (load_length _ _ _ _ E1) as Hd1.
  cbn [mbind option_bind]. rewrite store_head by lia. cbn [mbind option_bind].
  rewrite swrap_id by int_lia. rewrite (uwrap_id 32) by int_lia.
  destruct (IH (pos + m) (nr + m)) as (segs' & d & Hr & Hls & Hd & Hc);
    [lia|lia|lia|lia|lia|].
  rewrite Hr. cbn [mbind option_bind].
  exists ((d1 ++ drop (length d1) seg) :: segs'), (d1 ++ d).
  split_and!; [do 2 f_equal; lia| | |].
  - rewrite !fmap_cons, Hls, length_app, length_drop. f_equal. lia.
  - replace n with (m + Z.min (total segs) (size - (pos + m))) by lia.
    apply load_join; [done|done|lia|lia].
  - simpl. rewrite Hc, drop_app. rewrite <- !app_assoc. f_equal.
    destruct (decide (b <= size - pos)).
    + rewrite (drop_ge seg (length d1)), (drop_ge seg (Z.to_nat n)) by lia. simpl.
      do 2 f_equal. lia.
    + replace (Z.to_nat (Z.min (total segs) (size - (pos + m)))) with 0%nat by lia.
      rewrite !drop_0.
      assert (d = []) as ->
        by (apply load_length in Hd; apply length_zero_iff_nil; lia).
      simpl. replace (Z.to_nat n - length seg)%nat with 0%nat by lia. rewrite drop_0.
      f_equal. f_equal. lia.
Qed.
End loop.

(** ** Requests *)

(** A device of [c] sectors and a request the block layer can make: less than
    2^31 bytes. *)
Record request_ok (c : Z) (rq : request) (data : bytes) : Prop := {
  ro_capacity : 0 <= c /\ c * 512 < 2 ^ 62;
  ro_data : Z.of_nat (length data) = c * 512;
  ro_total : total (rq_segs rq) < 2 ^ 31;
}.

(** What a request that starts at a sector of the device transfers. *)
Definition transferred (c : Z) (rq : request) : Z :=
  Z.min (total (rq_segs rq)) ((c - rq_pos rq) * 512).

Lemma start_pos c rq data :
  request_ok c rq data -> 0 <= rq_pos rq <= c ->
  s64 (Z.shiftl (rq_pos rq) SECTOR_SHIFT) = rq_pos rq * 512 /\
  s64 (u64 (Z.shiftl c SECTOR_SHIFT)) = c * 512.
Proof.
  intros [? ? ?] ?. unfold SECTOR_SHIFT. rewrite !Z.shiftl_mul_pow2 by lia.
  change (2 ^ 9) with 512. rewrite uwrap_id by int_lia.
  rewrite !swrap_id by int_lia. done.
Qed.

(** C11: A request that starts inside the device stores, or reads, exactly the bytes
    up to the end of the device; the rest of the segments of a read is left as
    it was.  [nr_bytes] is the number transferred. *)
Theorem do_request_transfers c rq data :
  request_ok c rq data -> 0 <= rq_pos rq <= c ->
  let n := transferred c rq in
  let pos := rq_pos rq * 512 in
  match rq_dir rq with
  | WRITE => exists data',
      do_request c rq data = Some (0, rq, data', n) /\
      store pos (take (Z.to_nat n) (concat (rq_segs rq))) data = Some data'
  | READ => exists segs d,
      do_request c rq data = Some (0, mk_rq (rq_pos rq) READ segs, data, n) /\
      length <$> segs = length <$> rq_segs rq /\
      load pos n data = Some d /\
      concat segs = d ++ drop (Z.to_nat n) (concat (rq_segs rq))
  end.
Proof.
  intros Hok Hpos n pos. destruct (start_pos c rq data Hok Hpos) as [E1 E2].
  destruct Hok as [Hc Hd Ht]. unfold do_request. rewrite E1, E2.
  assert (n = Z.min (total (rq_segs rq)) (c * 512 - pos)) as En
    by (subst n pos; unfold transferred; f_equal; lia).
  clearbody n. subst n.
  destruct rq as [p [|] segs]; cbn [rq_pos rq_dir rq_segs] in *.
  - destruct (read_loop (c * 512) ltac:(int_lia) segs pos 0 data) as
      (segs' & d & Hr & Hl & Hld & Hcat); [lia|done|done|done|int_lia|].
    exists segs', d. fold pos. rewrite Hr. by split_and!.
  - destruct (write_loop (c * 512) ltac:(int_lia) segs pos 0 data) as (data' & Hr & Hs);
      [lia|done|done|done|int_lia|].
    exists data'. fold pos. rewrite Hr. by split_and!.
Qed.

Lemma do_request_transfers_witness :
  exists data',
    do_request 2 (mk_rq 1 WRITE [replicate 300 7; replicate 300 8]) (replicate 1024 0) =
    Some (0, mk_rq 1 WRITE [replicate 300 7; replicate 300 8], data', 512) /\
    store 512 (replicate 300 7 ++ replicate 212 8) (replicate 1024 0) = Some data'.
Proof.
  apply (do_request_transfers 2 (mk_rq 1 WRITE [replicate 300 7; replicate 300 8])
    (replicate 1024 0)).
  - split; [lia|reflexivity|apply Z.ltb_lt; reflexivity].
  - simpl. lia.
Defined.

(** C23: A sector range written and read back: the same bytes, all counted. *)
Theorem write_read_roundtrip c sector segs bufs data :
  request_ok c (mk_rq sector WRITE segs) data -> 0 <= sector ->
  sector * 512 + total segs <= c * 512 -> length <$> bufs = length <$> segs ->
  exists data',
    do_request c (mk_rq sector WRITE segs) data =
      Some (0, mk_rq sector WRITE segs, data', total segs) /\
    do_request c (mk_rq sector READ bufs) data' =
      Some (0, mk_rq sector READ segs, data', total segs).
Proof.
  intros Hok Hs Hfit Hlens. pose proof Hok as [Hc Hd Ht]. cbn [rq_segs] in Ht.
  assert (0 <= total segs) by (unfold total; lia).
  assert (total bufs = total segs) as Htb.
  { unfold total. f_equal. clear -Hlens. revert segs Hlens.
    induction bufs as [|b bufs IH]; intros [|s segs] [=]; [done|].
    simpl. rewrite !length_app. auto with f_equal. }
  destruct (start_pos c _ data Hok) as [E1 E2]; [simpl; lia|]. simpl in E1.
  destruct (write_loop (c * 512) ltac:(int_lia) segs (sector * 512) 0 data)
    as (data' & Hw & Hst); [lia|done|done|done|int_lia|].
  rewrite Z.min_l in Hw, Hst by lia.
  exists data'. unfold do_request. cbn [rq_pos rq_dir rq_segs]. rewrite E1, E2, Hw.
  split; [done|].
  destruct (read_loop (c * 512) ltac:(int_lia) bufs (sector * 512) 0 data')
    as (segs' & d & Hr & Hl & Hld & Hcat); try lia.
  { by rewrite (store_length _ _ _ _ Hst). }
  rewrite Htb, Z.min_l in Hr, Hld, Hcat by lia. rewrite Hr.
  assert (take (Z.to_nat (total segs)) (concat segs) = concat segs) as Et
    by (apply take_ge; unfold total; lia).
  rewrite Et in Hst. pose proof (load_store_same _ _ _ _ Hst) as Hl2.
  change (Z.of_nat (length (concat segs))) with (total segs) in Hl2.
  rewrite Hl2 in Hld. injection Hld as <-.
  rewrite drop_ge in Hcat by (unfold total in *; lia). rewrite app_nil_r in Hcat.
  assert (segs' = segs) as ->; [|done].
  rewrite Hlens in Hl. clear -Hl Hcat. revert segs Hl Hcat.
  induction segs' as [|x segs' IH]; intros [|y segs] [=] Hcat; [done|].
  simpl in Hcat. apply app_inj_1 in Hcat as [-> Hcat]; [|done]. f_equal. auto.
Qed.

Lemma write_read_roundtrip_witness :
  exists data',
    do_request 2 (mk_rq 1 WRITE [replicate 300 7; replicate 200 8]) (replicate 1024 0) =
      Some (0, mk_rq 1 WRITE [replicate 300 7; replicate 200 8], data', 500) /\
    do_request 2 (mk_rq 1 READ [replicate 300 0; replicate 200 0]) data' =
      Some (0, mk_rq 1 READ [replicate 300 7; replicate 200 8], data', 500).
Proof.
  apply (write_read_roundtrip 2 1 [replicate 300 7; replicate 200 8]
    [replicate 300 0; replicate 200 0] (replicate 1024 0)).
  - split; [lia|reflexivity|apply Z.ltb_lt; reflexivity].
  - lia.
  - apply Z.leb_le. reflexivity.
  - reflexivity.
Defined.

(** ** The queue callback *)

(** [blk_update_request] answers whether the request has bytes left. *)
Definition update_request_spec (e : env bcall) : Prop :=
  forall tr rq st nr, e tr (blk_update_request rq st nr) = (nr <? total (rq_segs rq)).

Lemma transferred_lt c rq :
  0 <= rq_pos rq <= c -> 
  (transferred c rq <? total (rq_segs rq)) =
  negb (rq_pos rq * 512 + total (rq_segs rq) <=? c * 512).
Proof.
  intros. unfold transferred.
  destruct (Z.leb_spec (rq_pos rq * 512 + total (rq_segs rq)) (c * 512)); simpl;
    [apply Z.ltb_ge|apply Z.ltb_lt]; lia.
Qed.

(** The callback completes a request that fits, with status OK; for one that
    runs over the end it clamps the transfer and then hits its own [BUG()],
    because the request is not complete. *)
Theorem queue_rq_completes_or_bugs e tr s c d q g rq :
  update_request_spec e -> block_device s = Some (mk_dev c (Some d) q g) ->
  request_ok c rq d -> 0 <= rq_pos rq <= c ->
  if rq_pos rq * 512 + total (rq_segs rq) <=? c * 512 then
    exists s' tr' rq', queue_rq rq e s tr = Ok BLK_STS_OK s' tr' /\
      head tr' = Some (ev (blk_mq_end_request rq' BLK_STS_OK) tt)
  else exists s' tr', queue_rq rq e s tr = Fault BugOn s' tr'.
Proof.
  intros Hu Hdev Hok Hpos.
  assert (exists rq' d', do_request c rq d = Some (0, rq', d', transferred c rq) /\
    total (rq_segs rq') = total (rq_segs rq)) as (rq' & d' & Hr & Ht).
  { destruct (start_pos c rq d Hok Hpos) as [E1 E2]. destruct Hok as [Hc Hd Htot].
    assert (transferred c rq = Z.min (total (rq_segs rq)) (c * 512 - rq_pos rq * 512))
      as -> by (unfold transferred; f_equal; lia).
    unfold do_request. rewrite E1, E2. destruct (rq_dir rq).
    - destruct (read_loop (c * 512) ltac:(int_lia) (rq_segs rq) (rq_pos rq * 512) 0 d)
        as (segs' & x & Hr & Hl & _ & _); [lia|done|done|done|int_lia|].
      rewrite Hr. eexists _, d. split; [reflexivity|]. cbn [rq_segs].
      unfold total. f_equal. revert Hl. generalize (rq_segs rq). clear.
      induction segs' as [|y segs' IH]; intros [|z l] [=]; [done|].
      simpl. rewrite !length_app. auto with f_equal.
    - destruct (write_loop (c * 512) ltac:(int_lia) (rq_segs rq) (rq_pos rq * 512) 0 d)
        as (x & Hr & _); [lia|done|done|done|int_lia|].
      rewrite Hr. eexists _, x. split; [reflexivity|done]. }
  unfold queue_rq, the_dev, set_dev, modify, mbind, M_bind, get, call.
  rewrite Hdev. cbn. rewrite Hr. cbn. rewrite Hu, Ht, transferred_lt by done.
  destruct (_ <=? _); simpl; [|by eexists _, _].
  eexists _, _, rq'. split; [reflexivity|]. simpl. unfold ev. do 2 f_equal. apply unit_eta.
Qed.

Definition bd_env (ok_dev ok_data : bool) (q : kptr) (disk : bool) : env bcall := fun tr c =>
  match c as c0 return resp c0 with
  | blk_update_request rq _ nr => nr <? total (rq_segs rq)
  | register_blkdev _ => 252
  | kmalloc_dev => ok_dev
  | alloc_disk _ => disk
  | kmalloc_data n => if ok_data then Some (replicate (Z.to_nat n) 0) else None
  | blk_mq_init_sq_queue _ => q
  | printk | blk_mq_start_request | blk_mq_end_request _ _ | unregister_blkdev _
  | kfree_dev | kfree_data | blk_cleanup_queue | set_capacity _ | add_disk _ _ _
  | del_gendisk | put_disk => tt
  end.

Definition small_dev : bd_state :=
  mk_bd 252 (Some (mk_dev 2 (Some (replicate 1024 0)) POk true)).

Lemma queue_rq_completes_or_bugs_witness :
  exists s' tr', queue_rq (mk_rq 1 WRITE [replicate 300 7; replicate 300 8])
    (bd_env true true POk true) small_dev [] = Fault BugOn s' tr'.
Proof.
  apply (queue_rq_completes_or_bugs (bd_env true true POk true) [] small_dev 2
    (replicate 1024 0) POk true (mk_rq 1 WRITE [replicate 300 7; replicate 300 8])).
  - intros tr rq st nr. reflexivity.
  - reflexivity.
  - split; [lia|reflexivity|apply Z.ltb_lt; reflexivity].
  - simpl. lia.
Defined.

(** A request that starts beyond the end of the device: the difference
    [dev_size - pos] is negative and wraps to a length near 2^64. *)
Theorem start_past_end_overruns c rq data seg segs :
  request_ok c rq data -> rq_segs rq = seg :: segs -> c < rq_pos rq ->
  rq_pos rq * 512 < 2 ^ 62 -> do_request c rq data = None.
Proof.
  intros [Hc Hd Ht] Hsegs Hpast Hr. rewrite Hsegs, total_cons in Ht.
  assert (0 <= total segs) by (unfold total; lia).
  unfold do_request, SECTOR_SHIFT. rewrite !Z.shiftl_mul_pow2 by lia.
  change (2 ^ 9) with 512. rewrite uwrap_id, !swrap_id by int_lia.
  rewrite Hsegs. cbn [do_request_loop]. unfold clamp.
  rewrite (uwrap_id 64 (c * 512)), (uwrap_id 64 (_ + _)) by int_lia.
  rewrite (proj2 (Z.ltb_lt _ _)) by int_lia.
  assert (u64 (c * 512 - rq_pos rq * 512) = 2 ^ 64 + (c * 512 - rq_pos rq * 512)) as ->.
  { unfold uwrap. rewrite <- (Z.mod_add _ 1) by done.
    rewrite Z.mod_small by int_lia. lia. }
  unfold copy_segment. destruct (rq_dir rq).
  - rewrite load_beyond by int_lia. done.
  - rewrite load_beyond by int_lia. done.
Qed.

Lemma start_past_end_overruns_witness :
  do_request 2 (mk_rq 3 WRITE [replicate 512 7]) (replicate 1024 0) = None.
Proof.
  apply (start_past_end_overruns 2 (mk_rq 3 WRITE [replicate 512 7]) (replicate 1024 0)
    (replicate 512 7) []).
  - split; [lia|reflexivity|apply Z.ltb_lt; reflexivity].
  - reflexivity.
  - simpl. lia.
  - simpl. lia.
Defined.

(** ** Loading and unloading *)

(** Loading ends in one of four ways: with everything acquired; with -ENOMEM
    and everything released again; or in a fault, when [alloc_disk] fails (NULL
    is dereferenced) or the queue cannot be set up (the result is an error
    pointer, which the test for NULL does not catch). *)
Theorem init_all_or_nothing (e : env bcall) tr m b :
  (forall tr', 0 < e tr' (register_blkdev m)) -> held tr = Some [] ->
  match myblock_driver_init e (mk_bd m b) tr with
  | Ok r s' tr' =>
      r = 0 /\ held tr' =
        Some [r_disk_added; r_disk; r_queue; r_tag_set; r_data; r_dev; r_major] \/
      r = - ENOMEM /\ held tr' = Some []
  | Fault x _ _ => x = NullDeref \/ x = BadPointer
  end.
Proof.
  intros Hm Htr. pose proof (proj2 (Z.ltb_lt _ _) (Hm tr)) as E0.
  unfold myblock_driver_init, set_dev, modify, put, mbind, M_bind, get, call.
  cbn [dev_major].
  match goal with |- context [e ?t kmalloc_dev] => destruct (e t kmalloc_dev) eqn:E1 end;
    cbn [negb]; [|right; split; [done|]; cbn; by rewrite Htr; cbn; rewrite E0; cbn].
  match goal with |- context [e ?t (kmalloc_data ?n)] =>
    destruct (e t (kmalloc_data n)) as [d|] eqn:E2 end;
    [|right; split; [done|]; cbn; by rewrite Htr; cbn; rewrite E0; cbn].
  match goal with |- context [e ?t (blk_mq_init_sq_queue ?n)] =>
    destruct (e t (blk_mq_init_sq_queue n)) eqn:E3 end;
    [right; split; [done|]; cbn; by rewrite Htr; cbn; rewrite E0; cbn
    |by right|].
  match goal with |- context [e ?t (alloc_disk ?n)] =>
    destruct (e t (alloc_disk n)) eqn:E4 end; cbn [negb]; [|by left].
  left. split; [done|]. cbn. by rewrite Htr; cbn; rewrite E0; cbn.
Qed.

Lemma init_all_or_nothing_witness :
  match myblock_driver_init (bd_env true false POk true) (mk_bd 0 None) [] with
  | Ok r s' tr' =>
      r = 0 /\ held tr' =
        Some [r_disk_added; r_disk; r_queue; r_tag_set; r_data; r_dev; r_major] \/
      r = - ENOMEM /\ held tr' = Some []
  | Fault x _ _ => x = NullDeref \/ x = BadPointer
  end.
Proof.
  apply (init_all_or_nothing (bd_env true false POk true) [] 0 None);
    [intros tr'; reflexivity|reflexivity].
Defined.

(** Unloading after a successful load releases everything but the tag set of
    the queue, which nothing frees. *)
Theorem load_unload_leaks_tag_set (e : env bcall) tr m b s1 tr1 :
  (forall tr', 0 < e tr' (register_blkdev m)) -> held tr = Some [] ->
  myblock_driver_init e (mk_bd m b) tr = Ok 0 s1 tr1 ->
  exists tr2, myblock_driver_exit e s1 tr1 = Ok tt s1 tr2 /\ held tr2 = Some [r_tag_set].
Proof.
  intros Hm Htr. pose proof (proj2 (Z.ltb_lt _ _) (Hm tr)) as E0.
  unfold myblock_driver_init, set_dev, modify, put, mbind, M_bind, get, call.
  cbn [dev_major].
  match goal with |- context [e ?t kmalloc_dev] => destruct (e t kmalloc_dev) eqn:E1 end;
    cbn [negb]; [|discriminate].
  match goal with |- context [e ?t (kmalloc_data ?n)] =>
    destruct (e t (kmalloc_data n)) as [d|] eqn:E2 end; [|discriminate].
  match goal with |- context [e ?t (blk_mq_init_sq_queue ?n)] =>
    destruct (e t (blk_mq_init_sq_queue n)) eqn:E3 end; [discriminate|discriminate|].
  match goal with |- context [e ?t (alloc_disk ?n)] =>
    destruct (e t (alloc_disk n)) eqn:E4 end; cbn [negb]; [|discriminate].
  intros [= <- <-]. unfold myblock_driver_exit, the_dev, mbind, M_bind, get, call. cbn.
  eexists. split; [f_equal; apply unit_eta|].
  cbn. by rewrite Htr; cbn; rewrite E0; cbn.
Qed.

Lemma load_unload_leaks_tag_set_witness :
  exists s1 tr1 tr2, 
    myblock_driver_exit (bd_env true true POk true) s1 tr1 = Ok tt s1 tr2 /\
    held tr2 = Some [r_tag_set].
Proof.
  eexists _, _.
  eapply (load_unload_leaks_tag_set (bd_env true true POk true) [] 0 None);
    [intros tr'; reflexivity|reflexivity|].
  unfold myblock_driver_init, set_dev, modify, put, mbind, M_bind, get, call.
  reflexivity.
Defined.
