(* ===== verification/MutexDev.v ===== *)
(** * A buffer behind a mutex ([mutex/simple.c], [mutex/poc.c])

    Threads read and write the device; the copies between user space and
    [mutex_buf.buff] move one byte at a time and interleave.  [step t] is one
    step of thread [t], [run] a schedule (a list of thread numbers).  A user
    buffer may be bad from some byte on: a read then fills the part before it,
    and a write stores the part before it and zeros for the rest, as
    [copy_from_user] does; the module looks at neither result.  [locked] tells
    which operations take the mutex: all of them in [simple.c]; [poc.c] is about
    the device with the two lines of [write_file] removed. *)

From S2P Require Export Prelude Bytes.

Definition BUFF_LEN : nat := 256.

(** A call: the size asked for and the position.  [room]: how many bytes of the
    user buffer can be written; [user]: the bytes of it that can be read. *)
Inductive file_op :=
  | read_file (size room : nat) (offt : Z)
  | write_file (size : nat) (user : bytes) (offt : Z).

Definition op_size (o : file_op) : nat :=
  match o with read_file n _ _ => n | write_file n _ _ => n end.
Definition op_offt (o : file_op) : Z :=
  match o with read_file _ _ p => p | write_file _ _ p => p end.

(** How many bytes of [buff] the copy touches. *)
Definition copy_len (o : file_op) : nat :=
  match o with read_file n room _ => n `min` room | write_file n _ _ => n end.

(** Where a thread is: before its next call, or inside it with [i] bytes copied;
    for a read, [acc] is the user buffer so far. *)
Inductive pc := Idle | Copying (i : nat) (acc : bytes).

(** [done]: the calls that have returned. *)
Record thread := mk_thread { done : nat; at_pc : pc }.

(** What a call returned: its result, the position it left in [*offt], the bytes
    it put into the user buffer. *)
Record reply := mk_reply {
  who : nat;
  asked : file_op;
  ret : Z;
  offt : Z;
  data : bytes;
}.

Record sys := mk_sys {
  mutex : option nat;
  buff : bytes;
  threads : list thread;
  log : list reply;          (* of the calls that returned, newest first *)
}.

Definition set_thread (t : nat) (th : thread) (s : sys) : sys :=
  mk_sys (mutex s) (buff s) (<[t := th]> (threads s)) (log s).
Definition set_mutex (m : option nat) (s : sys) : sys :=
  mk_sys m (buff s) (threads s) (log s).
Definition set_buff (b : bytes) (s : sys) : sys :=
  mk_sys (mutex s) b (threads s) (log s).

(** [int ret = count; *offt += count]. *)
Definition answer (t : nat) (o : file_op) (d : bytes) : reply :=
  mk_reply t o (s32 (Z.of_nat (op_size o))) (s64 (op_offt o + Z.of_nat (op_size o))) d.

(** [progs]: the calls of each thread, in order. *)
Section device.
Context (locked : file_op -> bool) (progs : list (nat -> file_op)).

Definition mutex_lock (t : nat) (o : file_op) (s : sys) : option sys :=
  if locked o then
    match mutex s with
    | None => Some (set_mutex (Some t) s)
    | Some _ => None
    end
  else Some s.
Definition mutex_unlock (o : file_op) (s : sys) : sys :=
  if locked o then set_mutex None s else s.

(** One byte of the copy of [o]; [None] outside [buff]. *)
Definition copy_byte (o : file_op) (i : nat) (acc : bytes) (s : sys) : option (sys * bytes) :=
  match o with
  | read_file _ _ _ => b ← buff s !! i; Some (s, acc ++ [b])
  | write_file _ user _ =>
      _ ← buff s !! i;
      Some (set_buff (<[i := default 0 (user !! i)]> (buff s)) s, acc)
  end.

(** The end of the call: release the mutex and return. *)
Definition complete (t k : nat) (o : file_op) (acc : bytes) (s : sys) : sys :=
  let s := mutex_unlock o (set_thread t (mk_thread (S k) Idle) s) in
  mk_sys (mutex s) (buff s) (threads s) (answer t o acc :: log s).

(** [None] is an access outside the buffer; a thread that waits for the mutex
    (or does not exist) stays where it is. *)
Definition step (t : nat) (s : sys) : option sys :=
  match progs !! t, threads s !! t with
  | Some p, Some (mk_thread k Idle) =>
      match mutex_lock t (p k) s with
      | Some s' => Some (set_thread t (mk_thread k (Copying 0 [])) s')
      | None => Some s
      end
  | Some p, Some (mk_thread k (Copying i acc)) =>
      if (i <? copy_len (p k))%nat then
        '(s', acc') ← copy_byte (p k) i acc s;
        Some (set_thread t (mk_thread k (Copying (S i) acc')) s')
      else Some (complete t k (p k) acc s)
  | _, _ => Some s
  end.

Fixpoint run (sched : list nat) (s : sys) : option sys :=
  match sched with
  | [] => Some s
  | t :: sched' => s' ← step t s; run sched' s'
  end.

(** [mutex_buf] is in static storage. *)
Definition initial : sys :=
  mk_sys None (replicate BUFF_LEN 0) (replicate (length progs) (mk_thread 0 Idle)) [].

Lemma run_app l1 l2 s : run (l1 ++ l2) s = s' ← run l1 s; run l2 s'.
Proof.
  revert s. induction l1 as [|t l1 IH]; intros s; [done|]. simpl.
  destruct (step t s); [apply IH|done].
Qed.
End device.

Definition with_mutex (o : file_op) : bool := true.
Definition write_unlocked (o : file_op) : bool :=
  match o with read_file _ _ _ => true | write_file _ _ _ => false end.

(** ** The checking program *)

Definition cnt : nat := 0x100.

Definition all2 (buf : bytes) : bool := forallb (Z.eqb 50) (take cnt buf).
Definition all3 (buf : bytes) : bool := forallb (Z.eqb 51) (take cnt buf).

(** The test on which [child1] stops: a mixed, non-empty buffer. *)
Definition child1_stops (buf : bytes) : bool :=
  negb (all2 buf) && negb (all3 buf) && negb (length (until_nul buf) =? 0)%nat.

(** The three threads call forever, on one open file; the kernel gives each call
    the file's position, which the module does not look at. *)
Section checker.
Context (pos : nat -> nat -> Z).
Definition child1 (k : nat) : file_op := read_file 0x100 cnt (pos 0 k).
Definition child2 (k : nat) : file_op := write_file cnt (replicate cnt 50) (pos 1 k).
Definition child3 (k : nat) : file_op := write_file cnt (replicate cnt 51) (pos 2 k).
Definition poc_threads : list (nat -> file_op) := [child1; child2; child3].
End checker.

(** ** One call at a time *)

(** What a write leaves in a buffer that holds [b]. *)
Definition padded (n : nat) (user : bytes) : bytes := take n (user ++ replicate n 0).
Definition written (n : nat) (user b : bytes) : bytes := padded n user ++ drop n b.

(** A call that runs alone: its reply and the buffer it leaves. *)
Definition atomic (t : nat) (o : file_op) (b : bytes) : reply * bytes :=
  match o with
  | read_file _ _ _ => (answer t o (take (copy_len o) b), b)
  | write_file n user _ => (answer t o [], written n user b)
  end.

#[export] Instance file_op_eq_dec : EqDecision file_op.
Proof. solve_decision. Defined.
#[export] Instance reply_eq_dec : EqDecision reply.
Proof. solve_decision. Defined.

(** The buffer after the calls of [l] (newest first) one after the other; [None]
    when one of the replies is not that of its call alone. *)
Fixpoint serial (l : list reply) : option bytes :=
  match l with
  | [] => Some (replicate BUFF_LEN 0)
  | r :: l' =>
      b ← serial l';
      let '(r', b') := atomic (who r) (asked r) b in
      if decide (r = r') then Some b' else None
  end.

(** The calls of [l] that thread [t] made. *)
Definition calls_of (t : nat) (l : list reply) : list file_op :=
  asked <$> filter (fun r => who r = t) l.

Lemma calls_of_cons t r l :
  calls_of t (r :: l) = if decide (who r = t) then asked r :: calls_of t l else calls_of t l.
Proof. unfold calls_of. rewrite filter_cons. by destruct (decide (who r = t)). Qed.

Lemma length_padded n user : length (padded n user) = n.
Proof. unfold padded. rewrite length_take, length_app, length_replicate. lia. Qed.

Lemma lookup_padded n user i : (i < n)%nat -> padded n user !! i = Some (default 0 (user !! i)).
Proof.
  intros Hi. unfold padded. rewrite lookup_take_lt by done.
  destruct (user !! i) as [x|] eqn:E.
  - by rewrite lookup_app_l by (by eapply lookup_lt_Some).
  - apply lookup_ge_None in E. rewrite lookup_app_r by done.
    apply lookup_replicate_2. lia.
Qed.

(** ** Calls under the mutex *)

Section safety.
Context (progs : list (nat -> file_op)).

(** The thread in the critical section, when the buffer held [b] before its call
    and [cur] now: a reader has copied a prefix, a writer replaced one. *)
Definition critical (o : file_op) (i : nat) (acc b cur : bytes) : Prop :=
  (i <= copy_len o)%nat /\ (i <= BUFF_LEN)%nat /\
  match o with
  | read_file _ _ _ => cur = b /\ acc = take i b
  | write_file n user _ => acc = [] /\ cur = take i (padded n user) ++ drop i b
  end.

(** [b]: the buffer after the calls that returned. *)
Definition idle_or_holder (b : bytes) (s : sys) : Prop :=
  match mutex s with
  | None => buff s = b
  | Some t => exists p k i acc, progs !! t = Some p /\
      threads s !! t = Some (mk_thread k (Copying i acc)) /\
      critical (p k) i acc b (buff s)
  end.

Record inv (s : sys) : Prop := {
  inv_len : length (buff s) = BUFF_LEN;
  inv_serial : exists b, serial (log s) = Some b /\ length b = BUFF_LEN /\ idle_or_holder b s;
  inv_others : forall t k i acc,
    threads s !! t = Some (mk_thread k (Copying i acc)) -> mutex s = Some t;
  inv_order : forall t p th, progs !! t = Some p -> threads s !! t = Some th ->
    calls_of t (log s) = reverse (p <$> seq 0 (done th));
  inv_asked : Forall (fun r => exists p k, progs !! who r = Some p /\ asked r = p k) (log s);
}.

Lemma inv_initial : inv (initial progs).
Proof.
  split; unfold initial; cbn [buff mutex threads log].
  - by rewrite length_replicate.
  - eexists. split; [reflexivity|]. by rewrite length_replicate.
  - intros t k i acc H. apply lookup_replicate in H as [? _]. done.
  - intros t p th _ H. by apply lookup_replicate in H as [-> _].
  - constructor.
Qed.

(** A thread that moves within its call keeps the order of the calls. *)
Lemma order_kept s t k p1 p2 l :
  inv s -> threads s !! t = Some (mk_thread k p1) -> l = log s ->
  forall t' p th, progs !! t' = Some p ->
  <[t := mk_thread k p2]> (threads s) !! t' = Some th ->
  calls_of t' l = reverse (p <$> seq 0 (done th)).
Proof.
  intros Hi Ht -> t' p th Hp H. destruct (decide (t = t')) as [<-|Hne].
  - rewrite list_lookup_insert_eq in H by (by eapply lookup_lt_Some). injection H as <-.
    exact (inv_order _ Hi t p _ Hp Ht).
  - rewrite list_lookup_insert_ne in H by done. by eapply inv_order.
Qed.

(** Only the holder is in its call. *)
Lemma others_kept s t th t' k i acc :
  inv s -> t <> t' -> <[t := th]> (threads s) !! t' = Some (mk_thread k (Copying i acc)) ->
  mutex s = Some t'.
Proof. intros Hi Hne H. rewrite list_lookup_insert_ne in H by done. by eapply inv_others. Qed.

Lemma inv_enter s t p k :
  inv s -> progs !! t = Some p -> threads s !! t = Some (mk_thread k Idle) -> mutex s = None ->
  inv (set_thread t (mk_thread k (Copying 0 [])) (set_mutex (Some t) s)).
Proof.
  intros Hi Hp Ht Hm. pose proof (lookup_lt_Some _ _ _ Ht) as Hlt.
  destruct (inv_serial _ Hi) as (b & Hb & Hl & Hc). unfold idle_or_holder in Hc. rewrite Hm in Hc.
  split; cbn; [apply (inv_len _ Hi)| | |by eapply order_kept|apply (inv_asked _ Hi)].
  - exists b. split; [done|]. split; [done|]. unfold idle_or_holder. cbn.
    exists p, k, 0%nat, []. split; [done|]. split; [by apply list_lookup_insert_eq|].
    split; [lia|]. split; [lia|]. by destruct (p k).
  - intros t' k' i acc H. destruct (decide (t = t')) as [<-|Hne]; [done|].
    pose proof (others_kept _ _ _ _ _ _ _ Hi Hne H). congruence.
Qed.

(** The byte that the holder copies next. *)
Lemma critical_copy o i acc b s :
  critical o i acc b (buff s) -> length b = BUFF_LEN -> length (buff s) = BUFF_LEN ->
  (i < copy_len o)%nat ->
  ((i < BUFF_LEN)%nat /\ exists s' acc', copy_byte o i acc s = Some (s', acc') /\
     threads s' = threads s /\ mutex s' = mutex s /\ log s' = log s /\
     length (buff s') = BUFF_LEN /\ critical o (S i) acc' b (buff s')) \/
  (i = BUFF_LEN /\ copy_byte o i acc s = None).
Proof.
  intros (Hi & Hb & Hcr) Hl Hlb Hlt. destruct (decide (i = BUFF_LEN)) as [->|Hne].
  { right. split; [done|]. unfold copy_byte.
    rewrite (proj2 (lookup_ge_None (buff s) BUFF_LEN)) by lia. by destruct o. }
  left. split; [lia|].
  destruct (lookup_lt_is_Some_2 (buff s) i) as [x Hx]; [lia|].
  unfold copy_byte. destruct o as [n room po|n user po]; cbn [copy_len] in *; rewrite Hx; cbn.
  - destruct Hcr as [Hcur ->]. eexists _, _. split_and!; try done; try (cbn; lia).
    split; [exact Hlt|]. split; [lia|]. split; [done|]. symmetry. apply take_S_r. congruence.
  - destruct Hcr as [-> Hcur]. eexists _, _.
    split_and!; try done; try (cbn; lia); [cbn; by rewrite length_insert|].
    split; [exact Hlt|]. split; [lia|]. split; [done|]. cbn [buff set_buff].
    rewrite (take_S_r _ _ _ (lookup_padded n user i Hlt)), <- app_assoc, Hcur.
    pose proof (length_padded n user).
    rewrite insert_app_r_alt by (rewrite length_take; lia). f_equal.
    rewrite length_take. replace (i - i `min` length (padded n user))%nat with 0%nat by lia.
    destruct (lookup_lt_is_Some_2 b i) as [y Hy]; [lia|]. by rewrite (drop_S _ _ _ Hy).
Qed.

Lemma inv_copy s s' t p k i acc acc' b :
  inv s -> mutex s = Some t -> progs !! t = Some p ->
  threads s !! t = Some (mk_thread k (Copying i acc)) ->
  serial (log s) = Some b -> length b = BUFF_LEN ->
  threads s' = threads s -> mutex s' = mutex s -> log s' = log s ->
  length (buff s') = BUFF_LEN -> critical (p k) (S i) acc' b (buff s') ->
  inv (set_thread t (mk_thread k (Copying (S i) acc')) s').
Proof.
  intros Hi Hm Hp Ht Hb Hl Et Em El Hlen Hcr. pose proof (lookup_lt_Some _ _ _ Ht).
  split; cbn; rewrite ?Et, ?Em, ?El; [done| | |by eapply order_kept|apply (inv_asked _ Hi)].
  - exists b. split; [done|]. split; [done|]. unfold idle_or_holder. cbn. rewrite Em, Hm, Et.
    exists p, k, (S i), acc'. split; [done|]. split; [by apply list_lookup_insert_eq|done].
  - intros t' k' i' a H'. destruct (decide (t = t')) as [<-|Hne]; [done|]. by eapply others_kept.
Qed.

(** A call that has copied everything is the call alone. *)
Lemma critical_done t o acc b cur :
  critical o (copy_len o) acc b cur -> atomic t o b = (answer t o acc, cur).
Proof.
  intros (_ & _ & Hcr). destruct o as [n room po|n user po]; cbn [atomic copy_len] in *.
  - by destruct Hcr as [-> ->].
  - destruct Hcr as [-> ->]. unfold written. by rewrite take_ge by (by rewrite length_padded).
Qed.

Lemma inv_complete s t p k acc b :
  inv s -> mutex s = Some t -> progs !! t = Some p ->
  threads s !! t = Some (mk_thread k (Copying (copy_len (p k)) acc)) ->
  serial (log s) = Some b -> critical (p k) (copy_len (p k)) acc b (buff s) ->
  inv (complete with_mutex t k (p k) acc s).
Proof.
  intros Hi Hm Hp Ht Hb Hcr. pose proof (lookup_lt_Some _ _ _ Ht).
  pose proof (critical_done t _ _ _ _ Hcr) as Ha.
  split; cbn; [apply (inv_len _ Hi)| | | |constructor; [by exists p, k|apply (inv_asked _ Hi)]].
  - exists (buff s). rewrite Hb. cbn. rewrite Ha, decide_True by done.
    split; [done|]. split; [apply (inv_len _ Hi)|done].
  - intros t' k' i' a H'. destruct (decide (t = t')) as [<-|Hne].
    + by rewrite list_lookup_insert_eq in H' by done.
    + pose proof (others_kept _ _ _ _ _ _ _ Hi Hne H'). congruence.
  - intros t' q th Hq H'.
    change (calls_of t' (answer t (p k) acc :: log s) = reverse (q <$> seq 0 (done th))).
    rewrite calls_of_cons. cbn [who asked answer].
    destruct (decide (t = t')) as [<-|Hne].
    + rewrite list_lookup_insert_eq in H' by done. injection H' as <-.
      assert (q = p) as -> by congruence. cbn [done].
      rewrite seq_S, fmap_app, reverse_app. cbn. f_equal.
      exact (inv_order _ Hi t p _ Hp Ht).
    + rewrite list_lookup_insert_ne in H' by done. by eapply inv_order.
Qed.

(** The call that thread [t] is in, or makes next. *)
Definition current (t : nat) (s : sys) : option file_op :=
  p ← progs !! t; th ← threads s !! t; Some (p (done th)).

(** A step goes on, or leaves the buffer in a call for more than it holds. *)
Lemma inv_step t s :
  inv s ->
  (exists s', step with_mutex progs t s = Some s' /\ inv s') \/
  (step with_mutex progs t s = None /\
   exists o, current t s = Some o /\ (BUFF_LEN < copy_len o)%nat).
Proof.
  intros Hi. unfold step, current.
  destruct (progs !! t) as [p|] eqn:Ep; [|left; by exists s].
  destruct (threads s !! t) as [[k [|i acc]]|] eqn:Et; [| |left; by exists s].
  - left. unfold mutex_lock, with_mutex. destruct (mutex s) eqn:Em; [by exists s|].
    eexists. split; [reflexivity|]. by eapply inv_enter.
  - pose proof (inv_others _ Hi _ _ _ _ Et) as Hm.
    destruct (inv_serial _ Hi) as (b & Hb & Hl & Hc). unfold idle_or_holder in Hc.
    rewrite Hm in Hc. destruct Hc as (p' & k' & i' & acc' & Ep' & Et' & Hcr). simplify_eq.
    destruct (Nat.ltb_spec i (copy_len (p k))) as [Hlt|Hge].
    + destruct (critical_copy _ _ _ _ _ Hcr Hl (inv_len _ Hi) Hlt)
        as [(_ & s' & acc' & -> & ? & ? & ? & ? & ?)|[-> ->]]; cbn.
      * left. eexists. split; [reflexivity|]. by eapply inv_copy.
      * right. split; [done|]. eexists. split; [reflexivity|]. done.
    + left. eexists. split; [reflexivity|].
      assert (i = copy_len (p k)) as -> by (destruct Hcr; lia). by eapply inv_complete.
Qed.

(** Whoever holds the mutex leaves it after the bytes that are left and one more
    step, or leaves the buffer. *)
Lemma holder_runs_on n : forall s t i acc p k,
  inv s -> mutex s = Some t -> progs !! t = Some p ->
  threads s !! t = Some (mk_thread k (Copying i acc)) -> (BUFF_LEN - i)%nat = n ->
  exists m, (m <= S n)%nat /\
    match run with_mutex progs (replicate m t) s with
    | Some s' => mutex s' = None
    | None => (BUFF_LEN < copy_len (p k))%nat
    end.
Proof.
  induction n as [|n IH]; intros s t i acc p k Hi Hm Hp Ht Hn;
    destruct (inv_serial _ Hi) as (b & Hb & Hl & Hc); unfold idle_or_holder in Hc;
    rewrite Hm in Hc; destruct Hc as (p' & k' & i' & acc' & Ep' & Et' & Hcr); simplify_eq;
    assert (step with_mutex progs t s = if (i <? copy_len (p k))%nat then
        '(s', acc0) ← copy_byte (p k) i acc s;
        Some (set_thread t (mk_thread k (Copying (S i) acc0)) s')
      else Some (complete with_mutex t k (p k) acc s)) as Estep
      by (unfold step; by rewrite Hp, Ht);
    destruct (Nat.ltb_spec i (copy_len (p k))) as [Hlt|Hge];
    try (exists 1%nat; split; [lia|]; cbn; rewrite Estep; done);
    destruct (critical_copy _ _ _ _ _ Hcr Hl (inv_len _ Hi) Hlt)
      as [(Hlb & s' & acc0 & Ec & ? & ? & ? & ? & ?)|[-> Ec]]; try lia;
    rewrite Ec in Estep; cbn in Estep;
    try (exists 1%nat; split; [lia|]; cbn; rewrite Estep; done).
  assert (inv (set_thread t (mk_thread k (Copying (S i) acc0)) s')) as Hi1
    by (by eapply inv_copy).
  destruct (IH (set_thread t (mk_thread k (Copying (S i) acc0)) s') t (S i) acc0 p k)
    as (m & Hle & Hrun); try done; cbn [mutex threads set_thread]; [congruence| |lia|].
  - match goal with E : threads s' = _ |- _ => rewrite E end.
    apply list_lookup_insert_eq. by eapply lookup_lt_Some.
  - exists (S m). split; [lia|]. cbn. rewrite Estep. exact Hrun.
Qed.

Lemma inv_run sched s :
  inv s ->
  match run with_mutex progs sched s with
  | Some s' => inv s'
  | None => exists t p k, progs !! t = Some p /\ (BUFF_LEN < copy_len (p k))%nat
  end.
Proof.
  revert s. induction sched as [|t sched IH]; intros s Hi; [done|]. simpl.
  destruct (inv_step t s Hi) as [(s1 & -> & Hi1)|(-> & o & Ho & Hlt)]; [by apply IH|].
  unfold current in Ho. destruct (progs !! t) as [p|] eqn:Ep; [|done].
  destruct (threads s !! t) as [th|]; [|done]. injection Ho as <-. cbn. eauto.
Qed.
End safety.

(** ** The theorems *)

(** C10: With every call under the mutex, whatever the threads call, whatever part of
    their buffers is accessible and whatever the schedule: the calls that have
    returned are as if made one after the other, in the order in which they
    returned, which for each thread is that of its program.  So a read returns
    (up to where its buffer can be written) the buffer as the completed writes
    before it left it, never a mixture.  The only way to stop is a call for
    more bytes than the buffer has. *)
Theorem calls_serialize progs sched :
  match run with_mutex progs sched (initial progs) with
  | Some s =>
      exists b, serial (log s) = Some b /\ (mutex s = None -> buff s = b) /\
        forall t p th, progs !! t = Some p -> threads s !! t = Some th ->
          calls_of t (log s) = reverse (p <$> seq 0 (done th))
  | None => exists t p k, progs !! t = Some p /\ (BUFF_LEN < copy_len (p k))%nat
  end.
Proof.
  pose proof (inv_run progs sched _ (inv_initial progs)) as H.
  destruct (run with_mutex progs sched (initial progs)) as [s|]; [|done].
  destruct (inv_serial _ _ H) as (b & Hb & _ & Hc). exists b. split; [done|]. split.
  - unfold idle_or_holder in Hc. intros Hm. by rewrite Hm in Hc.
  - apply (inv_order _ _ H).
Qed.

(** C27: From every reachable state in which a thread holds the mutex, at most 257
    steps of that thread make it free again, unless its call asks for more bytes
    than the buffer has and leaves the buffer first. *)
Theorem mutex_is_released progs sched s t :
  run with_mutex progs sched (initial progs) = Some s -> mutex s = Some t ->
  exists n o, (n <= BUFF_LEN + 1)%nat /\ current progs t s = Some o /\
    match run with_mutex progs (replicate n t) s with
    | Some s' => mutex s' = None
    | None => (BUFF_LEN < copy_len o)%nat
    end.
Proof.
  intros Hr Hm. pose proof (inv_run progs sched _ (inv_initial progs)) as Hi.
  rewrite Hr in Hi. destruct (inv_serial _ _ Hi) as (b & _ & _ & Hc).
  unfold idle_or_holder in Hc. rewrite Hm in Hc. destruct Hc as (p & k & i & acc & Hp & Ht & _).
  destruct (holder_runs_on progs _ s t i acc p k Hi Hm Hp Ht eq_refl) as (n & Hle & Hrun).
  exists n, (p k). split; [lia|]. split; [|done]. unfold current. by rewrite Hp, Ht.
Qed.

(** ** The checking program *)

(** Calls of which each writes the whole buffer leave values. *)
Lemma serial_values (vals : list bytes) l b :
  Forall (fun v => length v = BUFF_LEN) vals ->
  Forall (fun r => match asked r with
    | write_file n user _ => n = BUFF_LEN /\ user ∈ vals
    | read_file n room _ => n = BUFF_LEN /\ room = BUFF_LEN
    end) l ->
  serial l = Some b ->
  (b = replicate BUFF_LEN 0 \/ b ∈ vals) /\
  Forall (fun r => match asked r with
    | read_file _ _ _ => data r = replicate BUFF_LEN 0 \/ data r ∈ vals
    | write_file _ _ _ => True
    end) l.
Proof.
  intros Hv. revert b. induction l as [|r l IH]; intros b Hl Hs.
  { injection Hs as <-. split; [by left|constructor]. }
  apply Forall_cons in Hl as [Hr Hl]. cbn in Hs.
  destruct (serial l) as [b0|]; [|done]. destruct (IH b0 Hl eq_refl) as [Hb0 Hf].
  assert (length b0 = BUFF_LEN) as Hlen.
  { destruct Hb0 as [->|Hin]; [done|]. rewrite Forall_forall in Hv. by apply Hv. }
  cbn [mbind option_bind] in Hs. destruct r as [w o re po d]; cbn [asked who data] in *.
  destruct o as [n room q|n user q]; cbn [atomic copy_len] in Hs; case_decide as E; try done;
    injection Hs as <-; destruct Hr as [-> Hu].
  - split; [done|]. constructor; [|done]. cbn. injection E as _ _ ->. subst room.
    by rewrite take_ge by (rewrite Hlen; done).
  - split; [|by constructor]. right. rewrite Forall_forall in Hv.
    specialize (Hv _ Hu). unfold written, padded.
    by rewrite take_app_le, take_ge, drop_ge, app_nil_r by lia.
Qed.

(** The checking program never stops: no read mixes the two values. *)
Theorem poc_never_stops pos sched :
  exists s, run with_mutex (poc_threads pos) sched (initial (poc_threads pos)) = Some s /\
    Forall (fun r => who r = 0%nat -> child1_stops (data r) = false) (log s).
Proof.
  pose proof (inv_run (poc_threads pos) sched _ (inv_initial (poc_threads pos))) as H.
  destruct (run with_mutex _ sched _) as [s|].
  2: { destruct H as (t & p & k & Hp & Hlt). exfalso.
       do 3 (destruct t as [|t]; [injection Hp as <-; change (256 < 256)%nat in Hlt; lia|]).
       done. }
  exists s. split; [done|]. destruct (inv_serial _ _ H) as (b & Hb & _).
  assert (forall r, r ∈ log s -> exists p k, poc_threads pos !! who r = Some p /\ asked r = p k)
    as Hasked by (apply Forall_forall, (inv_asked _ _ H)).
  destruct (serial_values [replicate cnt 50; replicate cnt 51] (log s) b) as [_ Hf]; [| |done|].
  - repeat (constructor; [reflexivity|]). constructor.
  - apply Forall_forall. intros r (p & k & Hp & ->)%Hasked.
    destruct (who r) as [|[|[|]]]; simplify_eq/=; split; try reflexivity; [left|right; left].
  - apply Forall_forall. intros r Hr Hw. pose proof (proj1 (Forall_forall _ _) Hf r Hr) as Hd.
    destruct (Hasked r Hr) as (p & k & Hp & Ha). rewrite Hw in Hp. injection Hp as <-.
    cbn beta in Hd. rewrite Ha in Hd. cbn [child1] in Hd. destruct Hd as [->|Hd]; [reflexivity|].
    apply elem_of_cons in Hd as [->|Hd]; [reflexivity|].
    apply list_elem_of_singleton in Hd as ->. reflexivity.
Qed.

(** Without the mutex in [write_file] the reader can see both values. *)
Theorem torn_read_without_mutex :
  exists sched s, run write_unlocked (poc_threads (fun _ _ => 0)) sched
      (initial (poc_threads (fun _ _ => 0))) = Some s /\
    exists r, r ∈ log s /\ who r = 0%nat /\ child1_stops (data r) = true.
Proof.
  (* [child2] writes everything, [child3] half, then [child1] reads *)
  exists (replicate 258 1%nat ++ replicate 129 2%nat ++ replicate 258 0%nat).
  eexists. split; [vm_compute; reflexivity|].
  eexists. split; [left|split; vm_compute; reflexivity].
Qed.

(** A reader and a writer of short buffers that are partly bad: the write stores
    one byte and pads with a zero. *)
Definition short_calls : list (nat -> file_op) :=
  [fun _ => read_file 4 3 10; fun _ => write_file 2 [7] 0].

Lemma calls_serialize_witness :
  exists s, run with_mutex short_calls [1; 0; 1; 1; 1; 0; 0; 0; 0; 0]%nat (initial short_calls) =
      Some s /\
    log s = [mk_reply 0 (read_file 4 3 10) 4 14 [7; 0; 0]; mk_reply 1 (write_file 2 [7] 0) 2 2 []] /\
    exists b, serial (log s) = Some b /\ (mutex s = None -> buff s = b).
Proof.
  pose proof (calls_serialize short_calls [1; 0; 1; 1; 1; 0; 0; 0; 0; 0]%nat) as H.
  destruct (run with_mutex short_calls [1; 0; 1; 1; 1; 0; 0; 0; 0; 0]%nat (initial short_calls))
    as [s|] eqn:E; [|vm_compute in E; discriminate E].
  destruct H as (b & Hb & Hf & _). exists s. split; [reflexivity|]. split.
  - enough (log <$> run with_mutex short_calls [1; 0; 1; 1; 1; 0; 0; 0; 0; 0]%nat
      (initial short_calls) = Some [mk_reply 0 (read_file 4 3 10) 4 14 [7; 0; 0];
        mk_reply 1 (write_file 2 [7] 0) 2 2 []]) as H
      by (rewrite E in H; injection H as H; exact H).
    vm_compute. reflexivity.
  - exists b. split; [exact Hb|exact Hf].
Defined.

Lemma mutex_is_released_witness :
  exists s n o, run with_mutex short_calls [1; 0; 1]%nat (initial short_calls) = Some s /\
    mutex s = Some 1%nat /\ (n <= BUFF_LEN + 1)%nat /\ current short_calls 1 s = Some o.
Proof.
  destruct (run with_mutex short_calls [1; 0; 1]%nat (initial short_calls)) as [s|] eqn:E;
    [|vm_compute in E; discriminate E].
  assert (mutex s = Some 1%nat) as Hm.
  { enough (mutex <$> run with_mutex short_calls [1; 0; 1]%nat (initial short_calls) =
      Some (Some 1%nat)) as H by (rewrite E in H; injection H as H; exact H).
    vm_compute. reflexivity. }
  destruct (mutex_is_released short_calls [1; 0; 1]%nat s 1%nat E Hm) as (n & o & Hn & Ho & _).
  exists s, n, o. split; [reflexivity|]. split; [exact Hm|]. split; [exact Hn|exact Ho].
Defined.
