(* ===== verification/CharDev.v ===== *)
(** * Character devices: loading and unloading

    The kernel services that register a character device, shared by the modules
    that do ([char_device/version1], [char_device/version2], [mutex],
    [ioctl_mmap], [misc_device]), what each acquires and releases, and the
    modules' init and exit functions.  What a failed step leaves behind, and
    what unloading gives back, is read off the trace with [held]. *)

From S2P Require Export Resources Bytes.

Inductive ccall :=
  | printk
  | register_chrdev (major : Z) (name : bytes)
  | unregister_chrdev (major : Z) (name : bytes)
  | alloc_chrdev_region (minor count : Z) (name : bytes)
  | unregister_chrdev_region (dev count : Z)
  | cdev_alloc
  | cdev_init
  | cdev_add (dev count : Z)
  | cdev_del
  | class_create (name : bytes)
  | class_destroy (class : kptr)
  | device_create (class : kptr) (dev : Z) (name : bytes)
  | device_destroy (dev : Z)
  | mutex_init
  | vmalloc (size : Z)
  | vfree
  | misc_register (name : bytes)
  | misc_deregister.

(** [alloc_chrdev_region]: the result and the device number it stores. *)
#[export] Instance cd_api : KApi ccall := fun c =>
  match c with
  | register_chrdev _ _ | cdev_add _ _ | misc_register _ => Z
  | alloc_chrdev_region _ _ _ => (Z * Z)%type
  | cdev_alloc | vmalloc _ => bool
  | class_create _ | device_create _ _ _ => kptr
  | _ => unit
  end.

(** The module's static variables. *)
Record cd_state := mk_cd {
  devt : Z;
  cdev_ptr : bool;          (* a [cdev] pointer is not NULL *)
  class_ptr : kptr;
  data_ptr : bool;
}.
Definition set_devt (d : Z) (s : cd_state) : cd_state :=
  mk_cd d (cdev_ptr s) (class_ptr s) (data_ptr s).
Definition set_cdev (p : bool) (s : cd_state) : cd_state :=
  mk_cd (devt s) p (class_ptr s) (data_ptr s).
Definition set_class (c : kptr) (s : cd_state) : cd_state :=
  mk_cd (devt s) (cdev_ptr s) c (data_ptr s).
Definition set_data (p : bool) (s : cd_state) : cd_state :=
  mk_cd (devt s) (cdev_ptr s) (class_ptr s) p.

Abbreviation CD := (M ccall cd_state).

(** [device_destroy] looks the device up in the class: it accepts NULL, but
    follows an error pointer.  ([device_create] and [class_destroy] test for
    both.) *)
Definition destroy_device (class : kptr) (dev : Z) : CD unit :=
  match class with PErr _ => fail BadPointer | _ => call (device_destroy dev) end.

(** Use of a pointer by a function that follows it. *)
Definition not_null (p : bool) : CD unit := if p then mret tt else fail NullDeref.

(** [MKDEV(MAJOR(dev), 0)]: the device number with minor 0 (20 minor bits). *)
Definition MINORBITS : Z := 20.
Definition MAJOR (dev : Z) : Z := Z.shiftr dev MINORBITS.
Definition MKDEV (ma mi : Z) : Z := Z.lor (Z.shiftl ma MINORBITS) mi.

(** ** What is acquired *)

Inductive cd_rsrc := r_chrdev | r_region | r_added | r_class | r_device | r_data | r_misc.
#[export] Instance cd_rsrc_eq_dec : EqDecision cd_rsrc.
Proof. solve_decision. Defined.

(** [cdev_del] undoes [cdev_add] (the object of [cdev_alloc] is not counted);
    [device_destroy] and [class_destroy] undo the creations, the latter doing
    nothing for a pointer that is not a class. *)
#[export] Instance cd_resources : Resources ccall := {|
  rsrc := cd_rsrc;
  acquires := fun c => match c as c0 return resp c0 -> list cd_rsrc with
    | register_chrdev _ _ => fun r : Z => if 0 <=? r then [r_chrdev] else []
    | alloc_chrdev_region _ _ _ => fun r : Z * Z => if 0 <=? r.1 then [r_region] else []
    | cdev_add _ _ => fun r : Z => if r =? 0 then [r_added] else []
    | class_create _ => fun r : kptr => match r with POk => [r_class] | _ => [] end
    | device_create _ _ _ => fun r : kptr => match r with POk => [r_device] | _ => [] end
    | vmalloc _ => fun r : bool => if r then [r_data] else []
    | misc_register _ => fun r : Z => if r =? 0 then [r_misc] else []
    | _ => fun _ => []
    end;
  releases := fun c => match c as c0 return resp c0 -> list cd_rsrc with
    | unregister_chrdev _ _ => fun _ => [r_chrdev]
    | unregister_chrdev_region _ _ => fun _ => [r_region]
    | cdev_del => fun _ => [r_added]
    | class_destroy c => fun _ => match c with POk => [r_class] | _ => [] end
    | device_destroy _ => fun _ => [r_device]
    | vfree => fun _ => [r_data]
    | misc_deregister => fun _ => [r_misc]
    | _ => fun _ => []
    end;
|}.

(** ** char_device/version1/my_dev.c *)

Module V1.
Definition modname : bytes := str "hello".
Definition my_major : Z := 66.

Definition my_init : CD Z := call (register_chrdev my_major modname).
Definition my_exit : CD unit := call (unregister_chrdev my_major modname).

(** [hello], with its terminator: [sizeof(hello)] is 14. *)
Definition hello : bytes := str "Hello world!" ++ [10; 0].

(** What a read hands to [copy_to_user] ([None]: outside [hello]), given what
    [copy_to_user] answers; the result and the new position.  [loff_t + size_t]
    and [sizeof - loff_t] are [unsigned long]. *)
Definition my_read (count position : Z) (copy_to_user : bytes -> Z)
    : option (Z * Z) :=
  if Z.of_nat (length hello) <? u64 (position + count) then
    let count := u64 (Z.of_nat (length hello) - position) in
    d ← load position count hello;
    if negb (copy_to_user d =? 0) then Some (- EFAULT, position)
    else Some (s64 count, s64 (position + count))
  else Some (0, position).
End V1.

(** ** char_device/version2/simple.c *)

Module V2.
Definition VULN_MINORS : Z := 1.

Definition my_open : Z := 0.
Definition my_release : Z := 0.
Definition my_read (length offset : Z) : Z := 0.
Definition my_write (length offset : Z) : Z := 0.
Definition my_ioctl (command arg : Z) : Z := 0.

(** The labels of the error path. *)
Definition unregister_chrdev (result : Z) : CD Z :=
  s ← get; call (unregister_chrdev_region (devt s) VULN_MINORS) ;; mret result.
Definition destroy_class (result : Z) : CD Z :=
  s ← get; call (class_destroy (class_ptr s)) ;; unregister_chrdev result.

Definition my_init : CD Z :=
  '(result, dev) ← call (alloc_chrdev_region 0 1 (str "my_region"));
  (if result <? 0 then mret tt else modify (set_devt dev)) ;;
  if result <? 0 then call printk ;; unregister_chrdev result else
  call cdev_init ;;
  s ← get;
  result ← call (cdev_add (devt s) 1);
  if negb (result =? 0) then call printk ;; unregister_chrdev result else
  class ← call (class_create (str "my_class"));
  modify (set_class class) ;;
  if IS_ERR class then call printk ;; unregister_chrdev (PTR_ERR class) else
  device ← call (device_create class (devt s) (str "my_dev"));
  if IS_ERR device then call printk ;; destroy_class (PTR_ERR device) else
  mret 0.

Definition my_exit : CD unit :=
  s ← get;
  destroy_device (class_ptr s) (devt s) ;;
  call (class_destroy (class_ptr s)) ;;
  call cdev_del ;;
  call (unregister_chrdev_region (devt s) VULN_MINORS).
End V2.

(** ** mutex/simple.c *)

Module MutexModule.
Definition open_file : Z := 0.
Definition close_file : Z := 0.

Definition my_init : CD Z :=
  '(ret, dev) ← call (alloc_chrdev_region 0 1 (str "my_region"));
  if ret <? 0 then mret ret else
  modify (set_devt dev) ;;
  call cdev_init ;;
  call (cdev_add dev 1) ;;
  call mutex_init ;;
  class ← call (class_create (str "mutex_device"));
  modify (set_class class) ;;
  call (device_create class (MKDEV (MAJOR dev) 0) (str "my_dev")) ;;
  mret 0.

Definition my_exit : CD unit :=
  call cdev_del ;;
  s ← get;
  destroy_device (class_ptr s) (MKDEV (MAJOR (devt s)) 0) ;;
  call (class_destroy (class_ptr s)) ;;
  call (unregister_chrdev_region (devt s) 1).
End MutexModule.

(** ** ioctl_mmap/simple.c *)

Module MmapModule.
Definition MINOR_BASE : Z := 0.
Definition MINOR_NUM : Z := 1.
Definition DEV_NAME : bytes := str "simple".
Definition DATA_SIZE : Z := 4096.

(** [dev] is an uninitialised local: when [alloc_chrdev_region] fails, its
    value is [garbage]. *)
Definition _mmap_init (garbage : Z) : CD Z :=
  p ← call cdev_alloc;
  modify (set_cdev p) ;;
  '(alloc_ret, d) ← call (alloc_chrdev_region MINOR_BASE MINOR_NUM DEV_NAME);
  let dev := if alloc_ret <? 0 then garbage else d in
  modify (set_devt (MKDEV (MAJOR dev) MINOR_BASE)) ;;
  not_null p ;;
  call cdev_init ;;
  s ← get;
  call (cdev_add (devt s) MINOR_NUM) ;;
  class ← call (class_create (str "mmap_device"));
  modify (set_class class) ;;
  call (device_create class (devt s) DEV_NAME) ;;
  ok ← call (vmalloc DATA_SIZE);
  modify (set_data ok) ;;
  not_null ok ;;                       (* memset *)
  mret 0.

Definition _mmap_exit : CD unit :=
  s ← get;
  destroy_device (class_ptr s) (devt s) ;;
  call (class_destroy (class_ptr s)) ;;
  call cdev_del ;;
  call (unregister_chrdev_region (devt s) MINOR_NUM) ;;
  call vfree.
End MmapModule.

(** ** misc_device *)

Module Misc.
Definition my_init : CD Z :=
  err ← call (misc_register (str "my_misc"));
  (if negb (err =? 0) then call printk else mret tt) ;;
  mret err.
Definition my_exit : CD unit := call misc_deregister.
Definition my_open : CD Z := call printk ;; mret 0.
Definition my_close : CD Z := call printk ;; mret 0.
Definition my_ioctl (command arg : Z) : CD Z := call printk ;; mret 0.
Definition my_read (len : Z) : CD Z := call printk ;; mret 0.
Definition my_write (len : Z) : CD Z := call printk ;; mret (s64 len).
End Misc.
