(* ===== verification/CharDevTheorems.v ===== *)
(** * Character devices: the theorems *)

From S2P Require Export CharDev.

(** Evaluate a run of straight-line code on oblivious answers. *)
Ltac cd_eval := cbn -[Z.ltb Z.leb Z.eqb str MAJOR MKDEV].
Ltac cd_unfold := unfold destroy_device, not_null, modify, mbind, M_bind, get, call, oblivious.

(** Loading [char_device/version2] on each of its paths: all four resources on
    success; on errors, a region released that was never obtained when
    [alloc_chrdev_region] fails, a clean state when [cdev_add] fails, and a
    [cdev] left registered when the class or the device cannot be created. *)
Theorem v2_init_paths (ans : forall c : ccall, resp c) s :
  let alloc := ans (alloc_chrdev_region 0 1 (str "my_region")) : Z * Z in
  let dev := alloc.2 in
  let add := ans (cdev_add dev 1) : Z in
  let class := ans (class_create (str "my_class")) : kptr in
  let device := ans (device_create class dev (str "my_dev")) : kptr in
  exists r s' tr, V2.my_init (oblivious ans) s [] = Ok r s' tr /\
    (if alloc.1 <? 0 then r = alloc.1 /\ held tr = None
    else if negb (add =? 0) then r = add /\ held tr = Some []
    else if IS_ERR class then r = PTR_ERR class /\ held tr = Some [r_added]
    else if IS_ERR device then r = PTR_ERR device /\ held tr = Some [r_added]
    else r = 0 /\ held tr = Some
      (match device with POk => [r_device] | _ => [] end ++
       match class with POk => [r_class] | _ => [] end ++ [r_added; r_region])).
Proof.
  intros alloc dev add class device. subst device class add dev alloc.
  unfold V2.my_init, V2.destroy_class, V2.unregister_chrdev. cd_unfold.
  destruct (ans (alloc_chrdev_region 0 1 (str "my_region"))) as [r d] eqn:Ea.
  cbn [fst snd].
  destruct (Z.ltb_spec r 0) as [Hr|Hr].
  - eexists _, _, _. cd_eval. split; [reflexivity|]. cd_eval.
    by rewrite (proj2 (Z.leb_gt 0 r)) by lia.
  - assert (0 <=? r = true) as Hr' by (by apply Z.leb_le).
    cd_eval.
    destruct (ans (cdev_add d 1) =? 0) eqn:Eb; cd_eval;
      [|eexists _, _, _; split; [reflexivity|]; cd_eval; by rewrite ?Hr', ?Eb; cbn].
    destruct (ans (class_create (str "my_class"))) as [|err|] eqn:Ec; cd_eval;
      [|eexists _, _, _; split; [reflexivity|]; cd_eval; by rewrite ?Hr', ?Eb; cbn|].
    all: lazymatch goal with
      | |- context [?f (device_create ?c ?d0 ?n)] =>
          destruct (f (device_create c d0 n)) as [|?|] eqn:Ed
      end; eexists _, _, _; (split; [reflexivity|]); cd_eval;
      by rewrite ?Hr', ?Eb; cbn.
Qed.

(** ** Loading and unloading *)

(** Every step of a load succeeds. *)
Record succeeds (ans : forall c : ccall, resp c) : Prop := {
  ok_register : forall m n, ans (register_chrdev m n) = 0;
  ok_region : forall m n b, (ans (alloc_chrdev_region m n b) : Z * Z).1 = 0;
  ok_cdev : ans cdev_alloc = true;
  ok_add : forall d n, ans (cdev_add d n) = 0;
  ok_class : forall n, ans (class_create n) = POk;
  ok_device : forall c d n, ans (device_create c d n) = POk;
  ok_vmalloc : forall n, ans (vmalloc n) = true;
  ok_misc : forall n, ans (misc_register n) = 0;
}.

Lemma ok_region_pair ans : succeeds ans -> forall m n b,
  ans (alloc_chrdev_region m n b) = (0, (ans (alloc_chrdev_region m n b) : Z * Z).2).
Proof. intros H m n b. rewrite <- (ok_region ans H m n b). apply surjective_pairing. Qed.

Ltac success_step H :=
  lazymatch goal with
  | |- wp (call ?c) (oblivious ?ans) ?Q ?s ?tr =>
      first [ apply (wp_call_eq _ c _ _ _ _ (ok_register _ H _ _))
            | apply (wp_call_eq _ c _ _ _ _ (ok_region_pair _ H _ _ _))
            | apply (wp_call_eq _ c _ _ _ _ (ok_cdev _ H))
            | apply (wp_call_eq _ c _ _ _ _ (ok_add _ H _ _))
            | apply (wp_call_eq _ c _ _ _ _ (ok_class _ H _))
            | apply (wp_call_eq _ c _ _ _ _ (ok_device _ H _ _ _))
            | apply (wp_call_eq _ c _ _ _ _ (ok_vmalloc _ H _))
            | apply (wp_call_eq _ c _ _ _ _ (ok_misc _ H _))
            | refine (wp_call_eq (C := ccall) ans c tt Q s tr (unit_eta _) _) ]
  | |- _ => wp_step
  end; cbn -[str MAJOR MKDEV held wp call].
Ltac balanced_tac H :=
  apply load_unload_wp; intros s; unfold destroy_device, not_null;
  repeat success_step H; (split; [done|split; [done|]]); repeat success_step H; reflexivity.

(** When every step of its load succeeds, each of the five modules holds what
    it registered, and unloading it gives back exactly that, in the right
    order. *)
Theorem load_unload_balanced (ans : forall c : ccall, resp c) :
  succeeds ans ->
  balanced (oblivious ans) V1.my_init V1.my_exit [r_chrdev] /\
  balanced (oblivious ans) V2.my_init V2.my_exit [r_device; r_class; r_added; r_region] /\
  balanced (oblivious ans) MutexModule.my_init MutexModule.my_exit
    [r_device; r_class; r_added; r_region] /\
  (forall garbage, balanced (oblivious ans) (MmapModule._mmap_init garbage) MmapModule._mmap_exit
    [r_data; r_device; r_class; r_added; r_region]) /\
  balanced (oblivious ans) Misc.my_init Misc.my_exit [r_misc].
Proof.
  intros H. split_and!.
  - unfold V1.my_init, V1.my_exit. balanced_tac H.
  - unfold V2.my_init, V2.my_exit. balanced_tac H.
  - unfold MutexModule.my_init, MutexModule.my_exit. balanced_tac H.
  - intros g. unfold MmapModule._mmap_init, MmapModule._mmap_exit. balanced_tac H.
  - unfold Misc.my_init, Misc.my_exit. balanced_tac H.
Qed.

Definition all_ok (c : ccall) : resp c :=
  match c as c0 return resp c0 with
  | register_chrdev _ _ | cdev_add _ _ | misc_register _ => 0
  | alloc_chrdev_region _ _ _ => (0, Z.shiftl 240 20)
  | cdev_alloc | vmalloc _ => true
  | class_create _ | device_create _ _ _ => POk
  | printk | unregister_chrdev _ _ | unregister_chrdev_region _ _ | cdev_init | cdev_del
  | class_destroy _ | device_destroy _ | mutex_init | vfree | misc_deregister => tt
  end.

Definition fresh : cd_state := mk_cd 0 false PNull false.

(** [mutex/simple.c] checks nothing after [alloc_chrdev_region]: it loads
    whatever the other steps answer, and then unloading it follows the error
    pointer of [class_create], or deletes a [cdev] that was never added. *)
Theorem mutex_init_unchecked (ans : forall c : ccall, resp c) s :
  let alloc := ans (alloc_chrdev_region 0 1 (str "my_region")) : Z * Z in
  let class := ans (class_create (str "mutex_device")) : kptr in
  let add := ans (cdev_add alloc.2 1) : Z in
  0 <= alloc.1 ->
  exists s1 tr1, MutexModule.my_init (oblivious ans) s [] = Ok 0 s1 tr1 /\
    match class with
    | PErr _ => exists s2 tr2, MutexModule.my_exit (oblivious ans) s1 tr1 = Fault BadPointer s2 tr2
    | _ => add <> 0 ->
        exists s2 tr2, MutexModule.my_exit (oblivious ans) s1 tr1 = Ok tt s2 tr2 /\ held tr2 = None
    end.
Proof.
  intros alloc class add. subst add class alloc.
  unfold MutexModule.my_init, MutexModule.my_exit. cd_unfold.
  destruct (ans (alloc_chrdev_region 0 1 (str "my_region"))) as [r d] eqn:Ea. cbn [fst snd].
  intros Hr. rewrite (proj2 (Z.ltb_ge r 0)) by done. cd_eval.
  eexists _, _. split; [reflexivity|]. cd_eval.
  destruct (ans (class_create (str "mutex_device"))) as [|err|]; [|by eexists _, _|];
    (intros Hadd; eexists _, _; split; [f_equal; apply unit_eta|]; cd_eval;
     rewrite (proj2 (Z.leb_le 0 r)) by done; apply Z.eqb_neq in Hadd; rewrite Hadd;
     by repeat case_match).
Qed.

Definition no_class (c : ccall) : resp c :=
  match c as c0 return resp c0 -> resp c0 with
  | class_create _ => fun _ => PErr (-12)
  | _ => fun r => r
  end (all_ok c).

Lemma mutex_init_unchecked_witness :
  exists s1 tr1 s2 tr2, MutexModule.my_init (oblivious no_class) fresh [] = Ok 0 s1 tr1 /\
    MutexModule.my_exit (oblivious no_class) s1 tr1 = Fault BadPointer s2 tr2.
Proof.
  destruct (mutex_init_unchecked no_class fresh) as (s1 & tr1 & Hi & s2 & tr2 & Hx).
  - discriminate.
  - exists s1, tr1, s2, tr2. split; [exact Hi|exact Hx].
Defined.

Lemma all_ok_succeeds : succeeds all_ok.
Proof. by split. Qed.

Lemma load_unload_balanced_witness :
  balanced (oblivious all_ok) MutexModule.my_init MutexModule.my_exit
    [r_device; r_class; r_added; r_region].
Proof. exact (proj1 (proj2 (proj2 (load_unload_balanced all_ok all_ok_succeeds)))). Defined.

(** ** char_device/version1: reading *)

Definition ok_copy : bytes -> Z := fun _ => 0.

(** Every read of [my_dev.c]: one that asks for at least one byte more than is
    left gets the rest of the text, one that asks for what is left or less gets
    0 bytes, as at the end of the file (the test is the wrong way round); from
    a position past the end, [sizeof(hello) - *position] wraps and the copy
    runs outside the text. *)
Theorem v1_read_spec count position :
  0 <= position < 2 ^ 31 -> 0 <= count < 2 ^ 31 ->
  V1.my_read count position ok_copy =
  if position + count <=? 14 then Some (0, position)
  else if position <=? 14 then Some (14 - position, 14)
  else None.
Proof.
  intros Hp Hc. unfold V1.my_read. change (Z.of_nat (length V1.hello)) with 14.
  rewrite (uwrap_id 64 (position + count)) by int_lia.
  destruct (Z.leb_spec (position + count) 14); [by rewrite (proj2 (Z.ltb_ge 14 _)) by lia|].
  rewrite (proj2 (Z.ltb_lt 14 _)) by lia.
  destruct (Z.leb_spec position 14).
  - rewrite uwrap_id by int_lia.
    rewrite load_Some by (change (length V1.hello) with 14%nat; lia).
    cbn [mbind option_bind negb Z.eqb ok_copy].
    rewrite !swrap_id by int_lia. do 2 f_equal. lia.
  - unfold load, in_object.
    assert (u64 (14 - position) = 2 ^ 64 + (14 - position)) as ->.
    { unfold uwrap. rewrite <- (Z.mod_add _ 1) by done. rewrite Z.mod_small by int_lia. lia. }
    change (Z.of_nat (length V1.hello)) with 14.
    by rewrite (proj2 (Z.leb_gt (position + _) 14)), andb_false_r by int_lia.
Qed.

(** [cat] reads 131072 bytes at a time. *)
Lemma v1_read_spec_witness :
  V1.my_read 131072 0 ok_copy = Some (14, 14) /\ V1.my_read 5 0 ok_copy = Some (0, 0) /\
  V1.my_read 1 15 ok_copy = None.
Proof.
  split; [|split].
  - apply (v1_read_spec 131072 0); lia.
  - apply (v1_read_spec 5 0); lia.
  - apply (v1_read_spec 1 15); lia.
Defined.
