(* ===== verification/MmapDev.v ===== *)
(** * A page shared with user space ([ioctl_mmap/simple.c], [ioctl_mmap/test.c])

    [data] is declared [int *]: [data + offset] is [4 * offset] bytes further,
    and a position counts integers, not bytes.  [None] is an access outside
    [data].  Loading and unloading are in [CharDev.MmapModule]. *)

From S2P Require Export Prelude Bytes.

Definition DATA_SIZE : Z := 4096.
Definition sizeof_int : Z := 4.

Record mmap_state := mk_mmap {
  data : bytes;
  f_pos : Z;           (* [filp->f_pos] of the open file *)
  counter : Z;         (* atomic_t: mappings *)
}.

(** [_mmap_init]: one zeroed page. *)
Definition mmap_zero : mmap_state := mk_mmap (replicate (Z.to_nat DATA_SIZE) 0) 0 0.

(** [(void * )(data + *offset)], in bytes from [data]. *)
Definition data_at (offset : Z) : Z := sizeof_int * offset.

(** The result, the bytes handed to [copy_to_user] and the state; the result of
    [copy_to_user] is ignored.  [*offset] is where the file position was; the
    new one is also stored in it. *)
Definition mmap_read (count offset : Z) (s : mmap_state)
    : option (Z * bytes * mmap_state) :=
  if DATA_SIZE <? offset then Some (- EIO, [], s)
  else
    d ← load (data_at offset) count (data s);
    let offset := s64 (offset + 1) in
    Some (s64 count, d, mk_mmap (data s) offset (counter s)).

Definition mmap_write (buf : bytes) (offset : Z) (s : mmap_state)
    : option (Z * mmap_state) :=
  d ← store (data_at offset) buf (data s);
  let offset := s64 (offset + 1) in
  Some (Z.of_nat (length buf), mk_mmap d offset (counter s)).

Inductive whence := SEEK_SET | SEEK_CUR | SEEK_END.

Definition mmap_lseek (offset : Z) (org : whence) (s : mmap_state) : Z * mmap_state :=
  match org with
  | SEEK_SET => (offset, mk_mmap (data s) offset (counter s))
  | SEEK_CUR => let p := s64 (f_pos s + offset) in (p, mk_mmap (data s) p (counter s))
  | SEEK_END => (- EINVAL, s)
  end.

Definition mmap_vma_open (s : mmap_state) : mmap_state :=
  mk_mmap (data s) (f_pos s) (s32 (counter s + 1)).
Definition mmap_vma_close (s : mmap_state) : mmap_state :=
  mk_mmap (data s) (f_pos s) (s32 (counter s - 1)).
(** [vm_flags] and [vm_ops] are set; then the open callback. *)
Definition mmap_remap (s : mmap_state) : Z * mmap_state := (0, mmap_vma_open s).
Definition mmap_open (s : mmap_state) : Z * mmap_state := (0, s).
Definition mmap_release (s : mmap_state) : Z * mmap_state := (0, s).

Inductive fault_result := VM_FAULT_SIGBUS | page_of_data (n : Z).

(** The page that is mapped at the faulting address ([None]: no page of
    [data]). *)
Definition mmap_vm_fault (vmf : option (Z * Z)) : option fault_result :=
  match vmf with
  | None => Some VM_FAULT_SIGBUS
  | Some (address, vm_start) =>
      let offset := u64 (address - vm_start) in
      if DATA_SIZE <=? offset then Some VM_FAULT_SIGBUS
      else
        let page_ptr := data_at offset in
        if page_ptr <? DATA_SIZE then Some (page_of_data (page_ptr / 4096)) else None
  end.

(** ** The test program

    [read] and [write] start at the file position and leave the new one in the
    file. *)

Definition sys_write (buf : bytes) (s : mmap_state) : option mmap_state :=
  '(_, s') ← mmap_write buf (f_pos s) s; Some s'.
Definition sys_read (count : Z) (s : mmap_state) : option (Z * bytes * mmap_state) :=
  mmap_read count (f_pos s) s.
Definition sys_open (s : mmap_state) : mmap_state := mk_mmap (data s) 0 (counter s).

(** Writing and reading one [int] at a time. *)
Fixpoint write_ints (l : list Z) (s : mmap_state) : option mmap_state :=
  match l with
  | [] => Some s
  | i :: l' => s' ← sys_write (le_enc 4 i) s; write_ints l' s'
  end.
Fixpoint read_ints (n : nat) (s : mmap_state) : option (list Z * mmap_state) :=
  match n with
  | O => Some ([], s)
  | S n' =>
      '(r, d, s') ← sys_read sizeof_int s;
      '(l, s'') ← read_ints n' s';
      Some (if r =? 4 then s32 (le_dec d) :: l else l, s'')
  end.

Definition create_data (s : mmap_state) : option mmap_state :=
  write_ints (seqZ 0 10) (sys_open s).
Definition display_data (s : mmap_state) : option (list Z * mmap_state) :=
  read_ints 10 (sys_open s).

(** The page of the mapping is [data]; [munmap] runs the close callback. *)
Definition mmap_data (s : mmap_state) : option mmap_state :=
  let s := (mmap_remap (sys_open s)).2 in
  v ← load_le 28 4 (data s);
  d ← store_le 28 4 (s32 (s32 v + 200)) (data s);
  Some (mmap_vma_close (mk_mmap d (f_pos s) (counter s))).

Definition test_main (s : mmap_state) : option (list Z * list Z * mmap_state) :=
  s ← create_data s;
  '(l1, s) ← display_data s;
  s ← mmap_data s;
  '(l2, s) ← display_data s;
  Some (l1, l2, s).

(** ** Lemmas *)

Definition int_range (i : Z) : Prop := - 2 ^ 31 <= i < 2 ^ 31.

(** The integers at positions [p], [p + 1], ... are [l]. *)
Definition ints_at (p : Z) (l : list Z) (d : bytes) : Prop :=
  forall (k : nat) i, l !! k = Some i ->
  exists b, load (data_at (p + Z.of_nat k)) 4 d = Some b /\ s32 (le_dec b) = i.

Lemma write_int_run i s :
  0 <= f_pos s < 1024 -> length (data s) = Z.to_nat DATA_SIZE ->
  exists d, store (data_at (f_pos s)) (le_enc 4 i) (data s) = Some d /\
    sys_write (le_enc 4 i) s = Some (mk_mmap d (f_pos s + 1) (counter s)).
Proof.
  intros Hp Hl. unfold sys_write, mmap_write.
  assert (is_Some (store (data_at (f_pos s)) (le_enc 4 i) (data s))) as [d Hd].
  { unfold data_at, sizeof_int, DATA_SIZE in *.
    rewrite store_Some; [by eexists|lia|rewrite length_le_enc; lia]. }
  exists d. split; [done|]. rewrite Hd. simpl. rewrite swrap_id by int_lia. done.
Qed.

Lemma s32_le_dec_enc i : int_range i -> s32 (le_dec (le_enc 4 i)) = i.
Proof.
  intros Hi. rewrite le_dec_enc. change (256 ^ Z.of_nat 4) with (2 ^ 32).
  fold (u32 i). rewrite swrap_uwrap by done. by apply swrap_id.
Qed.

Lemma ints_at_store p q l i d d' :
  store (data_at q) (le_enc 4 i) d = Some d' ->
  q < p \/ p + Z.of_nat (length l) <= q -> ints_at p l d -> ints_at p l d'.
Proof.
  intros Hs Hd Hl k j Hj. destruct (Hl k j Hj) as (b & Hb & E). exists b.
  split; [|done]. apply lookup_lt_Some in Hj.
  rewrite (load_store_disjoint _ _ _ _ _ _ Hs); [done|].
  rewrite length_le_enc. unfold data_at, sizeof_int. lia.
Qed.

Lemma write_ints_run l s :
  0 <= f_pos s -> f_pos s + Z.of_nat (length l) <= 1024 ->
  length (data s) = Z.to_nat DATA_SIZE -> Forall int_range l ->
  exists s', write_ints l s = Some s' /\ counter s' = counter s /\
    f_pos s' = f_pos s + Z.of_nat (length l) /\
    length (data s') = Z.to_nat DATA_SIZE /\ ints_at (f_pos s) l (data s') /\
    forall p l0, p + Z.of_nat (length l0) <= f_pos s -> ints_at p l0 (data s) ->
      ints_at p l0 (data s').
Proof.
  revert s. induction l as [|i l IH]; intros s Hp Hfit Hlen Hr.
  { exists s. split_and!; try done; try (simpl; lia). }
  apply Forall_cons in Hr as [Hi Hr]. simpl in Hfit.
  destruct (write_int_run i s) as (d & Hd & Hw); [lia|done|].
  cbn [write_ints]. rewrite Hw. cbn [mbind option_bind].
  destruct (IH (mk_mmap d (f_pos s + 1) (counter s))) as
    (s' & Hs' & Hc & Hf & Hl' & Hat & Hkeep); simpl in *; try lia; try done.
  { by rewrite (store_length _ _ _ _ Hd). }
  exists s'. split_and!; [done|done|lia|done| |].
  - intros [|k] j Hj.
    + injection Hj as <-.
      destruct (Hkeep (f_pos s) [i] ltac:(simpl; lia)) with (k := 0%nat) (i := i)
        as (b & Hb & E); [|done|exists b; by rewrite Z.add_0_r in *].
      intros [|k'] j Hj'; [|by destruct k']. injection Hj' as <-.
      exists (le_enc 4 i). rewrite Z.add_0_r. split; [|by apply s32_le_dec_enc].
      exact (load_store_same _ _ _ _ Hd).
    + destruct (Hat k j Hj) as (b & Hb & E). exists b. split; [|done].
      rewrite <- Hb. f_equal. unfold data_at. lia.
  - intros p l0 Hp0 Hl0. apply Hkeep; [lia|].
    eapply ints_at_store; [exact Hd|lia|done].
Qed.

Lemma read_ints_run l s :
  0 <= f_pos s -> f_pos s + Z.of_nat (length l) <= 1024 -> ints_at (f_pos s) l (data s) ->
  read_ints (length l) s =
  Some (l, mk_mmap (data s) (f_pos s + Z.of_nat (length l)) (counter s)).
Proof.
  revert s. induction l as [|i l IH]; intros s Hp Hfit Hat.
  { simpl. rewrite Z.add_0_r. by destruct s. }
  simpl in Hfit. destruct (Hat 0%nat i eq_refl) as (b & Hb & E).
  cbn [length read_ints]. unfold sys_read, mmap_read.
  rewrite (proj2 (Z.ltb_ge DATA_SIZE (f_pos s))) by (unfold DATA_SIZE; lia).
  change (load (data_at (f_pos s)) sizeof_int (data s))
    with (load (data_at (f_pos s)) 4 (data s)).
  change (Z.of_nat 0) with 0 in Hb. rewrite Z.add_0_r in Hb. rewrite Hb. cbn [mbind option_bind].
  rewrite (swrap_id 64 (f_pos s + 1)) by int_lia.
  rewrite IH; cbn [f_pos data counter]; [|lia|lia|].
  - cbn [mbind option_bind]. change (s64 sizeof_int =? 4) with true. cbv iota.
    rewrite E. do 3 f_equal. lia.
  - intros k j Hj. destruct (Hat (S k) j Hj) as (c & Hc & E'). exists c.
    split; [|done]. rewrite <- Hc. f_equal. unfold data_at. lia.
Qed.

(** ** The theorems *)

(** Integers written one after the other from the start of the file are read
    back in the same order, as long as they fit the page. *)
Theorem ints_roundtrip l s :
  Z.of_nat (length l) <= 1024 -> Forall int_range l ->
  length (data s) = Z.to_nat DATA_SIZE ->
  exists s1 s2, write_ints l (sys_open s) = Some s1 /\
    read_ints (length l) (sys_open s1) = Some (l, s2) /\ data s2 = data s1.
Proof.
  intros Hl Hr Hd.
  destruct (write_ints_run l (sys_open s)) as (s1 & Hw & _ & _ & _ & Hat & _);
    [done|simpl; lia|done|done|].
  exists s1. eexists. split; [done|].
  rewrite (read_ints_run l (sys_open s1)); [by split|done|simpl; lia|exact Hat].
Qed.

(** The bounds test compares a position in integers with a size in bytes: from
    position 1024 to 4096 it passes and the copy runs outside the page; writing
    is not tested at all. *)
Theorem positions_overrun_page s count offset buf :
  length (data s) = Z.to_nat DATA_SIZE -> 1024 <= offset -> 0 < count ->
  buf <> [] ->
  (offset <= DATA_SIZE -> mmap_read count offset s = None) /\
  (DATA_SIZE < offset -> mmap_read count offset s = Some (- EIO, [], s)) /\
  mmap_write buf offset s = None.
Proof.
  intros Hd Ho Hc Hb. unfold mmap_read, mmap_write. split; [|split].
  - intros Hle. rewrite (proj2 (Z.ltb_ge _ _)) by done.
    unfold load, in_object, data_at, sizeof_int. rewrite Hd. unfold DATA_SIZE in *.
    by rewrite (proj2 (Z.leb_gt (4 * offset + count) _)), andb_false_r by lia.
  - intros Hgt. by rewrite (proj2 (Z.ltb_lt _ _)).
  - destruct buf as [|b buf]; [done|].
    rewrite store_None; [done|unfold data_at, sizeof_int; lia|].
    rewrite Hd. unfold data_at, sizeof_int, DATA_SIZE. simpl. lia.
Qed.

Lemma ints_roundtrip_witness :
  exists s1 s2, write_ints [7; -1; 2147483647] (sys_open mmap_zero) = Some s1 /\
    read_ints 3 (sys_open s1) = Some ([7; -1; 2147483647], s2) /\ data s2 = data s1.
Proof.
  apply (ints_roundtrip [7; -1; 2147483647] mmap_zero).
  - simpl. lia.
  - repeat (apply Forall_cons; split; [unfold int_range; lia|]). apply Forall_nil_2.
  - apply length_replicate.
Defined.

Lemma positions_overrun_page_witness :
  mmap_read 4 1024 mmap_zero = None /\ mmap_read 4 5000 mmap_zero = Some (- EIO, [], mmap_zero) /\
  mmap_write [1] 1024 mmap_zero = None.
Proof.
  split; [|split].
  - apply (positions_overrun_page mmap_zero 4 1024 [1]);
      [apply length_replicate|lia|lia|discriminate|unfold DATA_SIZE; lia].
  - apply (positions_overrun_page mmap_zero 4 5000 [1]);
      [apply length_replicate|lia|lia|discriminate|unfold DATA_SIZE; lia].
  - apply (positions_overrun_page mmap_zero 4 1024 [1]);
      [apply length_replicate|lia|lia|discriminate].
Defined.

(** The test program prints 0 to 9, adds 200 to the eighth integer through the
    mapping, prints the ten integers again, and leaves no mapping. *)
Theorem test_program_output :
  match test_main mmap_zero with
  | Some (l1, l2, s) =>
      l1 = [0; 1; 2; 3; 4; 5; 6; 7; 8; 9] /\ l2 = [0; 1; 2; 3; 4; 5; 6; 207; 8; 9] /\
      counter s = 0
  | None => False
  end.
Proof. vm_compute. split; [reflexivity|]. split; reflexivity. Qed.
