(* ===== verification/PciDevice.v ===== *)
(** * A PCI device for QEMU ([pci/my_pci_device.c]) and what it promises

    The device's registers as a record; each access callback is a function on
    it that also gives the effects on the machine, in order: the level of the
    interrupt line and DMA writes.  [rand n] is the [n]-th number the device
    draws.  [TicPort] is the interface a driver of such a device relies on; the
    device is an instance of it. *)

From S2P Require Export Prelude Bytes.

(** ** The interface between driver and device *)

(** A device with a port whose register 0 is the interrupt status (reading) and
    trigger (writing: non-zero raises, zero acknowledges), and an identity
    register at offset 4 of its memory.  [line d] is the level of its
    interrupt line. *)
Class TicPort (D : Type) := {
  port_inl : Z -> D -> Z;
  port_out : Z -> Z -> Z -> D -> D;       (* size, value, offset *)
  mem_read32 : Z -> D -> Z;
  mem_write32 : Z -> Z -> D -> D;         (* value, offset *)
  line : D -> bool;
  dma_log : D -> list (Z * bytes);        (* DMA writes so far, newest first *)
  tic_valid : D -> Prop;                  (* the states the device can be in *)

  port_out_valid : forall n v a d, tic_valid d -> tic_valid (port_out n v a d);
  mem_write_valid : forall v a d, tic_valid d -> tic_valid (mem_write32 v a d);
  (** The line is only up while the status reads non-zero. *)
  line_status : forall d, tic_valid d -> line d = true -> port_inl 0 d <> 0;
  ack_clears : forall d, tic_valid d ->
    port_inl 0 (port_out 4 0 0 d) = 0 /\ line (port_out 4 0 0 d) = false;
  raise_sets : forall v d, tic_valid d -> u32 v <> 0 ->
    port_inl 0 (port_out 4 v 0 d) <> 0 /\ line (port_out 4 v 0 d) = true;
  id_roundtrip : forall v d, tic_valid d -> mem_read32 4 (mem_write32 v 4 d) = u32 v;
  id_keeps_status : forall v d, tic_valid d -> port_inl 0 (mem_write32 v 4 d) = port_inl 0 d;
  port_keeps_id : forall n v a d, tic_valid d ->
    mem_read32 4 (port_out n v a d) = mem_read32 4 d;
}.

(** ** The device *)

Inductive dev_effect :=
  | pci_irq_assert
  | pci_irq_deassert
  | cpu_physical_memory_write (addr : Z) (buf : bytes).

Record PCIHelloDevState := mk_hello {
  dma_size : Z;
  dma_buf : bytes;
  threw_irq : Z;
  id : Z;
}.

Definition HELLO_IO_SIZE : Z := Z.shiftl 1 4.
Definition HELLO_MMIO_SIZE : Z := Z.shiftl 1 6.

Definition set_dma_buf (b : bytes) (d : PCIHelloDevState) : PCIHelloDevState :=
  mk_hello (dma_size d) b (threw_irq d) (id d).
Definition set_threw_irq (i : Z) (d : PCIHelloDevState) : PCIHelloDevState :=
  mk_hello (dma_size d) (dma_buf d) i (id d).
Definition set_id (i : Z) (d : PCIHelloDevState) : PCIHelloDevState :=
  mk_hello (dma_size d) (dma_buf d) (threw_irq d) i.

Section device.
Context (rand : nat -> Z).

(** [for (i = 0; i < d->dma_size; ++i) d->dma_buf[i] = rand();] with [n]
    iterations left. *)
Fixpoint fill_random (n i : nat) (buf : bytes) : bytes :=
  match n with
  | O => buf
  | S n' => fill_random n' (S i) (<[i := u8 (rand i)]> buf)
  end.

(** The interrupt line is pulsed on every write, "just for test". *)
Definition hello_iowrite (addr value size : Z) (d : PCIHelloDevState)
    : PCIHelloDevState * list dev_effect :=
  let pulse := [pci_irq_assert; pci_irq_deassert] in
  if addr =? 0 then
    if negb (value =? 0) then (set_threw_irq 1 d, pulse ++ [pci_irq_assert])
    else (set_threw_irq 0 d, pulse ++ [pci_irq_deassert])
  else if addr =? 4 then
    let buf := fill_random (Z.to_nat (dma_size d)) 0 (dma_buf d) in
    (set_dma_buf buf d,
     pulse ++ [cpu_physical_memory_write value (take (Z.to_nat (dma_size d)) buf)])
  else (d, pulse).

Definition hello_ioread (addr size : Z) (d : PCIHelloDevState) : Z :=
  if addr =? 0 then u64 (threw_irq d) else 0.

Definition hello_mmioread (addr size : Z) (d : PCIHelloDevState) : Z :=
  if addr =? 0 then u64 (threw_irq d) else if addr =? 4 then u64 (id d) else 0.

Definition hello_mmiowrite (addr value size : Z) (d : PCIHelloDevState) : PCIHelloDevState :=
  if addr =? 4 then set_id (s32 value) d else d.

(** [.valid] of both [MemoryRegionOps]. *)
Record access_sizes := mk_sizes { min_access_size : Z; max_access_size : Z }.
Definition hello_mmio_ops : access_sizes := mk_sizes 4 4.
Definition hello_io_ops : access_sizes := mk_sizes 4 4.

(** [malloc] leaves the contents of [dma_buf] unspecified. *)
Definition pci_hellodev_init (garbage : bytes) : PCIHelloDevState :=
  mk_hello (u32 0x1ffff) garbage 0 0x1337.

(** ** On the bus

    The emulated machine: the device, the level of its interrupt line and the
    DMA writes.  QEMU does not call the callbacks for an access whose size is
    outside [.valid]. *)
Record machine := mk_machine {
  hello : PCIHelloDevState;
  irq_level : bool;
  dma : list (Z * bytes);
}.

Definition apply_effect (x : dev_effect) (m : machine) : machine :=
  match x with
  | pci_irq_assert => mk_machine (hello m) true (dma m)
  | pci_irq_deassert => mk_machine (hello m) false (dma m)
  | cpu_physical_memory_write a b => mk_machine (hello m) (irq_level m) ((a, b) :: dma m)
  end.
Definition apply_effects (xs : list dev_effect) (m : machine) : machine :=
  fold_left (fun m x => apply_effect x m) xs m.

Definition valid_access (ops : access_sizes) (size : Z) : bool :=
  (min_access_size ops <=? size) && (size <=? max_access_size ops).

Definition bus_io_write (size value addr : Z) (m : machine) : machine :=
  if valid_access hello_io_ops size then
    let '(d, xs) := hello_iowrite addr (uwrap (8 * size) value) size (hello m) in
    apply_effects xs (mk_machine d (irq_level m) (dma m))
  else m.
Definition bus_io_read (addr : Z) (m : machine) : Z := u32 (hello_ioread addr 4 (hello m)).
Definition bus_mmio_write (value addr : Z) (m : machine) : machine :=
  mk_machine (hello_mmiowrite addr (u32 value) 4 (hello m)) (irq_level m) (dma m).
Definition bus_mmio_read (addr : Z) (m : machine) : Z := u32 (hello_mmioread addr 4 (hello m)).

Definition machine_init (garbage : bytes) : machine :=
  mk_machine (pci_hellodev_init garbage) false [].

(** ** The invariant and the instance *)

(** The status is 0 or 1, the line is up only with status 1, and the DMA buffer
    has the size the device remembers for it. *)
Definition machine_valid (m : machine) : Prop :=
  (threw_irq (hello m) = 0 \/ threw_irq (hello m) = 1) /\
  (irq_level m = true -> threw_irq (hello m) = 1) /\
  length (dma_buf (hello m)) = Z.to_nat (dma_size (hello m)).

Lemma fill_random_app n i done rest :
  length done = i -> length rest = n ->
  fill_random n i (done ++ rest) = done ++ ((fun k => u8 (rand k)) <$> seq i n).
Proof.
  revert i done rest. induction n as [|n IH]; intros i dn rest Hi Hn.
  - by rewrite (nil_length_inv _ Hn).
  - destruct rest as [|b rest]; [done|]. simpl.
    rewrite insert_app_r_alt by lia. replace (i - length dn)%nat with 0%nat by lia. simpl.
    rewrite (cons_middle _ dn rest), (app_assoc dn), IH; [|rewrite length_app; simpl; lia|simpl in Hn; lia].
    by rewrite <- app_assoc.
Qed.

(** The loop draws one number per byte of the buffer. *)
Lemma fill_random_spec buf :
  fill_random (length buf) 0 buf = (fun k => u8 (rand k)) <$> seq 0 (length buf).
Proof. by apply (fill_random_app (length buf) 0 [] buf). Qed.

Lemma fill_random_length n i buf : length (fill_random n i buf) = length buf.
Proof. revert i buf. induction n as [|n IH]; intros i buf; simpl; [done|]. by rewrite IH, length_insert. Qed.

Lemma machine_init_valid garbage :
  length garbage = Z.to_nat 0x1ffff -> machine_valid (machine_init garbage).
Proof. intros H. split_and!; [by left|done|exact H]. Qed.

Lemma bus_io_write_valid n v a m : machine_valid m -> machine_valid (bus_io_write n v a m).
Proof.
  intros (Hs & Hl & Hb). unfold bus_io_write, hello_iowrite.
  destruct (valid_access _ n); [|done].
  destruct (a =? 0); [destruct (uwrap _ v =? 0)|destruct (a =? 4)];
    (unfold machine_valid; cbn -[fill_random Z.to_nat]; rewrite ?fill_random_length;
     split_and!; solve [auto | done]).
Qed.

Lemma status_read m :
  machine_valid m -> bus_io_read 0 m = threw_irq (hello m).
Proof.
  intros [Hs _]. unfold bus_io_read, hello_ioread. simpl.
  destruct Hs as [-> | ->]; reflexivity.
Qed.

Lemma id_read v m : bus_mmio_read 4 (bus_mmio_write v 4 m) = u32 v.
Proof.
  unfold bus_mmio_read, bus_mmio_write, hello_mmioread, hello_mmiowrite. simpl.
  unfold uwrap at 1. change (2 ^ 32) with (2 ^ 32). unfold uwrap at 1.
  rewrite <- Znumtheory.Zmod_div_mod; [|done|done|by exists (2 ^ 32)].
  change (u32 (s32 (u32 v)) = u32 v). rewrite uwrap_swrap by done.
  unfold uwrap. by rewrite Z.mod_mod.
Qed.

#[export, program] Instance hello_tic : TicPort machine := {|
  port_inl := bus_io_read;
  port_out := bus_io_write;
  mem_read32 := bus_mmio_read;
  mem_write32 := bus_mmio_write;
  line := irq_level;
  dma_log := dma;
  tic_valid := machine_valid;
|}.
Next Obligation. intros. by apply bus_io_write_valid. Qed.
Next Obligation.
  intros v a m Hm. unfold bus_mmio_write, hello_mmiowrite.
  destruct (a =? 4); exact Hm.
Qed.
Next Obligation.
  intros m Hm Hl. rewrite status_read by done. destruct Hm as (_ & H & _).
  by rewrite H.
Qed.
Next Obligation.
  intros m Hm. split; [|reflexivity].
  rewrite status_read by (by apply bus_io_write_valid). reflexivity.
Qed.
Next Obligation.
  intros v m Hm Hv. pose proof (bus_io_write_valid 4 v 0 m Hm) as Hm'.
  rewrite status_read by done.
  unfold bus_io_write, hello_iowrite in *. simpl in *.
  change (8 * 4) with 32 in *.
  by rewrite (proj2 (Z.eqb_neq (u32 v) 0)).
Qed.
Next Obligation. intros v m _. apply id_read. Qed.
Next Obligation.
  intros v m _. unfold bus_io_read, hello_ioread, bus_mmio_write, hello_mmiowrite. done.
Qed.
Next Obligation.
  intros n v a m _. unfold bus_io_write, hello_iowrite, bus_mmio_read, hello_mmioread.
  destruct (valid_access _ n); [|done].
  destruct (a =? 0); [destruct (uwrap _ v =? 0)|destruct (a =? 4)]; reflexivity.
Qed.
End device.
