(* ===== verification/PciDriver.v ===== *)
(** * The driver of the PCI device ([pci/driver_pci.c])

    The driver is written against [TicPort]: its state is the device and what
    [pci_set_drvdata] stored.  The device's port region starts at
    [info->port[0].start] and its memory at [info->mem[0].start]; accesses are
    given as offsets in them. *)

From S2P Require Export Resources PciDevice.

Inductive irqreturn := IRQ_NONE | IRQ_HANDLED.

Record tic_info := mk_info {
  mem_start : Z; mem_size : Z;
  port_start : Z; port_size : Z;
  irq : Z;
}.

Inductive pcall :=
  | printk
  | kzalloc
  | pci_enable_device
  | pci_request_regions
  | pci_resource_start (bar : Z)
  | pci_resource_len (bar : Z)
  | pci_ioremap_bar (bar : Z)
  | pci_read_config_byte
  | pci_irq_vector (i : Z)
  | devm_request_irq (irq : Z)
  | iounmap (start : Z)
  | pci_release_regions
  | pci_disable_device
  | kfree
  | pci_set_drvdata (i : tic_info)
  | pci_get_drvdata.

(** [pci_read_config_byte]: the result and the byte it stores. *)
#[export] Instance pci_api : KApi pcall := fun c =>
  match c with
  | kzalloc => bool
  | pci_enable_device | pci_request_regions | pci_resource_start _ | pci_resource_len _
  | pci_ioremap_bar _ | pci_irq_vector _ | devm_request_irq _ => Z
  | pci_read_config_byte => (Z * Z)%type
  | _ => unit
  end.

(** ** Resources *)

Inductive pci_rsrc := r_info | r_enabled | r_regions | r_mapping | r_irq.
#[export] Instance pci_rsrc_eq_dec : EqDecision pci_rsrc.
Proof. solve_decision. Defined.

(** [devm_request_irq] is undone by the driver core after [remove]. *)
#[export] Instance pci_resources : Resources pcall := {|
  rsrc := pci_rsrc;
  acquires := fun c => match c as c0 return resp c0 -> list pci_rsrc with
    | kzalloc => fun r : bool => if r then [r_info] else []
    | pci_enable_device => fun r : Z => if r =? 0 then [r_enabled] else []
    | pci_request_regions => fun r : Z => if r =? 0 then [r_regions] else []
    | pci_ioremap_bar _ => fun r : Z => if r =? 0 then [] else [r_mapping]
    | devm_request_irq _ => fun r : Z => if r =? 0 then [r_irq] else []
    | _ => fun _ => []
    end;
  releases := fun c => match c as c0 return resp c0 -> list pci_rsrc with
    | iounmap _ => fun _ => [r_mapping]
    | pci_release_regions => fun _ => [r_regions]
    | pci_disable_device => fun _ => [r_enabled]
    | kfree => fun _ => [r_info]
    | _ => fun _ => []
    end;
|}.

Section driver.
Context {D : Type} {tic : TicPort D}.

Record drv_state := mk_drv { dev : D; drvdata : option tic_info }.
Abbreviation P := (M pcall drv_state).

Definition on_dev (f : D -> D) : P unit :=
  modify (fun s => mk_drv (f (dev s)) (drvdata s)).

(** ** Interrupts *)

Definition hello_tic_handler (d : D) : D * irqreturn :=
  if negb (port_inl 0 d =? 0) then (port_out 4 0 0 d, IRQ_HANDLED) else (d, IRQ_NONE).

(** ** Probing *)

(** The labels of the error path. *)
Definition out_free : P Z := call printk ;; call kfree ;; mret (- ENODEV).
Definition out_disable : P Z := call printk ;; call pci_disable_device ;; out_free.
Definition out_unrequest : P Z := call printk ;; call pci_release_regions ;; out_disable.
Definition out_iounmap (start : Z) : P Z := call printk ;; call (iounmap start) ;; out_unrequest.

(** From the point where the interrupt handler is installed: change the
    identity, trigger an interrupt, start a DMA. *)
Definition exercise_device (info : tic_info) : P Z :=
  call printk ;;
  on_dev (mem_write32 0x2 4) ;;
  call printk ;;
  on_dev (port_out 1 1 0) ;;                  (* outb *)
  on_dev (port_out 4 1 4) ;;                  (* outl *)
  call (pci_set_drvdata info) ;;
  modify (fun s => mk_drv (dev s) (Some info)) ;;
  mret 0.

Definition hello_tic_probe : P Z :=
  ok ← call kzalloc;
  if negb ok then mret (- ENOMEM) else
  r ← call pci_enable_device;
  if negb (r =? 0) then out_free else
  call printk ;;
  r ← call pci_request_regions;
  if negb (r =? 0) then out_disable else
  call printk ;;
  port_start ← call (pci_resource_start 0);
  port_size ← call (pci_resource_len 0);
  mem_start ← call (pci_ioremap_bar 1);
  mem_size ← call (pci_resource_len 1);
  if mem_start =? 0 then out_unrequest else
  call printk ;;
  '(r, line) ← call pci_read_config_byte;
  if negb (r =? 0) then out_iounmap mem_start else
  let line := u8 line in
  call (pci_irq_vector 0) ;; call printk ;;
  r ← call (devm_request_irq line);
  if negb (r =? 0) then out_iounmap mem_start else
  exercise_device (mk_info mem_start mem_size port_start port_size line).

Definition hello_tic_remove : P unit :=
  call pci_get_drvdata ;;
  s ← get;
  info ← or_fault NullDeref (drvdata s);
  call pci_release_regions ;;
  call pci_disable_device ;;
  call (iounmap (mem_start info)) ;;
  call kfree.

(** ** What the driver holds along its paths *)

Lemma out_free_held e s tr L :
  held tr = Some (r_info :: L) ->
  wp out_free e (fun r s' tr' => r = - ENODEV /\ held tr' = Some L /\ s' = s) s tr.
Proof. intros H. unfold out_free. by held_go. Qed.
Lemma out_disable_held e s tr L :
  held tr = Some (r_enabled :: r_info :: L) ->
  wp out_disable e (fun r s' tr' => r = - ENODEV /\ held tr' = Some L /\ s' = s) s tr.
Proof. intros H. unfold out_disable. held_go. by apply out_free_held. Qed.
Lemma out_unrequest_held e s tr L :
  held tr = Some (r_regions :: r_enabled :: r_info :: L) ->
  wp out_unrequest e (fun r s' tr' => r = - ENODEV /\ held tr' = Some L /\ s' = s) s tr.
Proof. intros H. unfold out_unrequest. held_go. by apply out_disable_held. Qed.
Lemma out_iounmap_held a e s tr L :
  held tr = Some (r_mapping :: r_regions :: r_enabled :: r_info :: L) ->
  wp (out_iounmap a) e (fun r s' tr' => r = - ENODEV /\ held tr' = Some L /\ s' = s) s tr.
Proof. intros H. unfold out_iounmap. held_go. by apply out_unrequest_held. Qed.
Lemma exercise_device_held info e s tr L :
  held tr = Some L ->
  wp (exercise_device info) e
    (fun r s' tr' => r = 0 /\ held tr' = Some L /\ drvdata s' = Some info) s tr.
Proof. intros H. unfold exercise_device, on_dev. by held_go. Qed.
End driver.
