(* ===== verification/PciTheorems.v ===== *)
(** * Theorems on the PCI device and its driver *)

From S2P Require Import PciDriver.

Section theorems.
Context {D : Type} {tic : TicPort D}.

(** The handler serves the device exactly when its status is up, and then
    leaves it acknowledged with the line down: called again at once it reports
    that the interrupt was not its device's, so a level-triggered line does not
    keep firing. *)
Theorem handler_acknowledges (d : D) :
  tic_valid d ->
  let '(d', r) := hello_tic_handler d in
  tic_valid d' /\ line d' = false /\ hello_tic_handler d' = (d', IRQ_NONE) /\
  mem_read32 4 d' = mem_read32 4 d /\
  (r = IRQ_HANDLED <-> port_inl 0 d <> 0) /\ (r = IRQ_NONE -> d' = d).
Proof.
  intros Hv. unfold hello_tic_handler.
  destruct (Z.eqb_spec (port_inl 0 d) 0) as [E|E]; simpl.
  - split_and!; try done.
    + destruct (line d) eqn:El; [|done]. by apply line_status in El.
    + by rewrite E.
  - destruct (ack_clears d Hv) as [Ha Hl]. rewrite Ha. simpl.
    split_and!; try done; [by apply port_out_valid|by apply port_keeps_id].
Qed.

Ltac label_held m :=
  lazymatch m with
  | out_free => by apply out_free_held
  | out_disable => by apply out_disable_held
  | out_unrequest => by apply out_unrequest_held
  | out_iounmap _ => by apply out_iounmap_held
  | exercise_device _ => by apply exercise_device_held
  end.

(** C12: Probing either acquires everything, interrupt included, and stores the
    driver data, or returns an error with everything it had acquired given back
    and the device untouched, whichever step fails. *)
Theorem probe_all_or_nothing (e : env pcall) (s : drv_state) tr :
  held tr = Some [] ->
  exists r s' tr', hello_tic_probe e s tr = Ok r s' tr' /\
    (r = 0 /\ held tr' = Some [r_irq; r_mapping; r_regions; r_enabled; r_info] /\
       is_Some (drvdata s') \/
     (r = - ENODEV \/ r = - ENOMEM) /\ held tr' = Some [] /\ s' = s).
Proof.
  intros Htr. apply wp_run. unfold hello_tic_probe. held_run.
  all: lazymatch goal with
    | |- wp ?m _ _ _ _ => eapply wp_mono; [label_held m|intros ??? (-> & ? & Hs)]
    | |- _ => by right; auto
    end.
  all: first [by left; rewrite Hs|by right; auto].
Qed.

(** Removing the device gives back the regions, the mapping, the enabling and
    the memory of the driver data, but not the interrupt handler: when the
    memory is freed the handler that was given a pointer to it is still
    installed (the driver core takes it out only after [remove] returns). *)
Theorem remove_leaves_handler (e : env pcall) (s : drv_state (D := D)) tr info :
  held tr = Some [r_irq; r_mapping; r_regions; r_enabled; r_info] ->
  drvdata s = Some info ->
  exists tr', hello_tic_remove e s tr = Ok tt s tr' /\ held tr' = Some [r_irq] /\
    calls tr' = calls tr ++
      [pci_get_drvdata; pci_release_regions; pci_disable_device;
       iounmap (mem_start info); kfree].
Proof.
  intros Htr Hi. unfold hello_tic_remove, or_fault. cbv [mbind M_bind call get].
  rewrite Hi. cbv [mret M_ret]. eexists. split; [by rewrite (unit_eta (e _ kfree))|].
  split; [by cbn; rewrite Htr|]. unfold calls. cbn. by rewrite <- !app_assoc.
Qed.
End theorems.

(** ** The driver on the device of the repository *)

Section on_hello.
Context (rand : nat -> Z).
#[local] Existing Instance hello_tic.

Lemma start_dma v m :
  machine_valid m ->
  bus_io_write rand 4 v 4 m =
    let n := Z.to_nat (dma_size (hello m)) in
    let buf := (fun k => u8 (rand k)) <$> seq 0 n in
    mk_machine (set_dma_buf buf (hello m)) false ((u32 v, buf) :: dma m).
Proof.
  intros (_ & _ & Hb). unfold bus_io_write, hello_iowrite.
  change (valid_access hello_io_ops 4) with true. cbv iota.
  change (4 =? 0) with false. change (4 =? 4) with true. cbv iota.
  rewrite <- Hb, fill_random_spec.
  rewrite (take_ge _ (length (dma_buf (hello m)))) by (by rewrite length_fmap, length_seq).
  reflexivity.
Qed.

(** What the driver's accesses make of the device. *)
Definition exercised (m : machine) : machine :=
  let buf := (fun k => u8 (rand k)) <$> seq 0 (Z.to_nat (dma_size (hello m))) in
  mk_machine (set_dma_buf buf (set_id 2 (hello m))) false ((1, buf) :: dma m).

Lemma exercise_hello (e : env pcall) info m dd tr Q :
  machine_valid m ->
  (forall tr', Q 0 (mk_drv (exercised m) (Some info)) tr') ->
  wp (exercise_device (tic := hello_tic rand) info) e Q (mk_drv m dd) tr.
Proof.
  intros Hm HQ. unfold exercise_device, on_dev. wp_go. cbn [dev drvdata port_out mem_write32 hello_tic].
  change (bus_io_write rand 1 1 0 ?x) with x.
  rewrite (start_dma 1 (bus_mmio_write 2 4 m)) by exact Hm. apply HQ.
Qed.

Lemma exercised_valid m : machine_valid m -> machine_valid (exercised m).
Proof.
  intros (Hs & _ & _). split_and!; [exact Hs|done|]. simpl. by rewrite length_fmap, length_seq.
Qed.

(** What the driver does to the device after installing its handler: the
    identity becomes 2; the one-byte write meant to assert an interrupt never
    reaches the device, which accepts four-byte accesses only, so no interrupt
    is left pending; and the DMA puts the whole buffer of random bytes at guest
    physical address 1. *)
Theorem exercise_device_effect (e : env pcall) info m dd tr :
  machine_valid m ->
  wp (exercise_device (tic := hello_tic rand) info) e (fun r s' tr' =>
    r = 0 /\ drvdata s' = Some info /\ machine_valid (dev s') /\
    bus_mmio_read 4 (dev s') = 2 /\
    irq_level (dev s') = false /\ threw_irq (hello (dev s')) = threw_irq (hello m) /\
    dma (dev s') =
      (1, (fun k => u8 (rand k)) <$> seq 0 (Z.to_nat (dma_size (hello m)))) :: dma m)
    (mk_drv m dd) tr.
Proof.
  intros Hm. apply exercise_hello; [done|]. intros tr'.
  split_and!; [done|done|by apply exercised_valid|reflexivity..].
Qed.
End on_hello.

(** ** Witnesses *)

(** A machine whose device has raised its interrupt. *)
Definition raised : machine :=
  mk_machine (mk_hello 2 [0; 1] 1 0x1337) true [].

Lemma raised_valid : machine_valid raised.
Proof. split_and!; [by right|done|done]. Qed.

(** A kernel where every service succeeds. *)
Definition pci_ok : env pcall := fun _ c =>
  match c as c0 return resp c0 with
  | kzalloc => true
  | pci_enable_device | pci_request_regions => 0
  | pci_resource_start _ => 0xc000
  | pci_resource_len _ => 16
  | pci_ioremap_bar _ => 0xf000
  | pci_read_config_byte => (0, 11)
  | pci_irq_vector _ => 11
  | devm_request_irq _ => 0
  | _ => tt
  end.

Lemma handler_acknowledges_witness :
  let '(d', r) := hello_tic_handler (tic := hello_tic (fun _ => 0)) raised in
  r = IRQ_HANDLED /\ irq_level d' = false.
Proof.
  pose proof (handler_acknowledges (tic := hello_tic (fun _ => 0)) raised raised_valid) as H.
  destruct (hello_tic_handler raised) as [d' r]. destruct H as (_ & Hl & _ & _ & Hr & _).
  split; [apply Hr; vm_compute; discriminate|exact Hl].
Defined.

Lemma probe_all_or_nothing_witness :
  exists r s' tr',
    hello_tic_probe (tic := hello_tic (fun _ => 0)) pci_ok (mk_drv raised None) [] = Ok r s' tr' /\
    (r = 0 \/ held tr' = Some []).
Proof.
  destruct (probe_all_or_nothing (tic := hello_tic (fun _ => 0)) pci_ok
    (mk_drv raised None) []) as (r & s' & tr' & Hrun & H).
  - reflexivity.
  - exists r, s', tr'. split; [exact Hrun|].
    destruct H as [(Hr & _)|(_ & Hh & _)]; [left; exact Hr|right; exact Hh].
Defined.

(** The trace after a successful probe. *)
Definition probed : trace pcall :=
  [ev (devm_request_irq 11) 0; ev (pci_ioremap_bar 1) 0xf000; ev pci_request_regions 0;
   ev pci_enable_device 0; ev kzalloc true].

Lemma remove_leaves_handler_witness :
  exists tr',
    hello_tic_remove pci_ok (mk_drv raised (Some (mk_info 0xf000 64 0xc000 16 11))) probed =
      Ok tt (mk_drv raised (Some (mk_info 0xf000 64 0xc000 16 11))) tr' /\
    held tr' = Some [r_irq].
Proof.
  destruct (remove_leaves_handler pci_ok
    (mk_drv raised (Some (mk_info 0xf000 64 0xc000 16 11))) probed
    (mk_info 0xf000 64 0xc000 16 11)) as (tr' & Hrun & Hh & _).
  - reflexivity.
  - reflexivity.
  - exists tr'. split; [exact Hrun|exact Hh].
Defined.

Lemma exercise_device_effect_witness :
  wp (exercise_device (tic := hello_tic (fun _ => 7)) (mk_info 0xf000 64 0xc000 16 11)) pci_ok
    (fun r s' tr' => irq_level (dev s') = false /\ dma (dev s') = [(1, [7; 7])])
    (mk_drv raised None) [].
Proof.
  eapply wp_mono.
  - exact (exercise_device_effect (fun _ => 7) pci_ok (mk_info 0xf000 64 0xc000 16 11)
      raised None [] raised_valid).
  - intros r s' tr' (_ & _ & _ & _ & Hl & _ & Hd). split; [exact Hl|exact Hd].
Defined.
