(* ===== verification/PciBinding.v ===== *)
(** * The life of the PCI device, and the drivers' tables

    How [pci/my_pci_device.c] describes its type to QEMU, what it sets up when
    a device is realized, destroyed and reset; the id tables of
    [pci/driver_pci.c] and [pci/unknown/simple.c] and which of them its
    vendor and device number match; probing on the device that was realized.

    What QEMU does with the type (it does not accept it unless an assertion is
    taken out, says [pci/tips]) is not modelled.  The PCI core of Linux is not in
    the repository: [PciCore] states how it reads a table. *)

From stdpp Require Export strings gmap.
From S2P Require Export Steps PciDriver PciTheorems.

(** ** The device *)

(** [memory_region_init_io]: the callbacks are those of [PciDevice]. *)
Inductive region_ops := hello_mmio | hello_io.
Record MemoryRegion := mk_region { mr_ops : region_ops; mr_name : string; mr_size : Z }.

Inductive bar_space := PCI_BASE_ADDRESS_SPACE_IO | PCI_BASE_ADDRESS_SPACE_MEMORY.

(** What [dma_buf] points to. *)
Inductive buf_ptr := B_null | B_live | B_freed.

(** [PCIHelloDevState] with its [parent_obj]: the BARs and the configuration
    space; the contents of the buffer are in [regs]. *)
Record qdev := mk_qdev {
  regs : PCIHelloDevState;
  buf : buf_ptr;
  io : option MemoryRegion;
  mmio : option MemoryRegion;
  bars : gmap Z (bar_space * MemoryRegion);
  config : gmap Z Z;
}.

(** QEMU allocates the object filled with zeros. *)
Definition qdev_zero : qdev := mk_qdev (mk_hello 0 [] 0 0) B_null None None ∅ ∅.

Definition set_regs (r : PCIHelloDevState) (d : qdev) : qdev :=
  mk_qdev r (buf d) (io d) (mmio d) (bars d) (config d).
Definition set_buf (b : buf_ptr) (d : qdev) : qdev :=
  mk_qdev (regs d) b (io d) (mmio d) (bars d) (config d).
Definition set_config (k v : Z) (d : qdev) : qdev :=
  mk_qdev (regs d) (buf d) (io d) (mmio d) (bars d) (<[k := v]> (config d)).

Definition PCI_INTERRUPT_PIN : Z := 0x3d.

Definition hello_io_setup (d : qdev) : qdev :=
  mk_qdev (regs d) (buf d) (Some (mk_region hello_io "hello_io" HELLO_IO_SIZE))
    (Some (mk_region hello_mmio "hello_mmio" HELLO_MMIO_SIZE)) (bars d) (config d).

(** Registering [&d->io] before it is set up would be an error of the emulator;
    here it registers nothing. *)
Definition pci_register_bar (n : Z) (t : bar_space) (r : option MemoryRegion) (d : qdev) : qdev :=
  match r with
  | Some r => mk_qdev (regs d) (buf d) (io d) (mmio d) (<[n := (t, r)]> (bars d)) (config d)
  | None => d
  end.

(** [pci_hellodev_init], the class's [realize].  [malloc] gives memory with
    unspecified contents, or NULL, which is not looked at. *)
Definition pci_hellodev_realize (malloc : option bytes) (d : qdev) : qdev :=
  let d := set_regs (pci_hellodev_init (default [] malloc)) d in
  let d := set_buf (match malloc with Some _ => B_live | None => B_null end) d in
  let d := hello_io_setup d in
  let d := pci_register_bar 0 PCI_BASE_ADDRESS_SPACE_IO (io d) d in
  let d := pci_register_bar 1 PCI_BASE_ADDRESS_SPACE_MEMORY (mmio d) d in
  set_config PCI_INTERRUPT_PIN 0x02 d.

(** The class's [exit]: [free(d->dma_buf)]. *)
Definition pci_hellodev_uninit (d : qdev) : fault + qdev :=
  match buf d with
  | B_freed => inl UseAfterFree
  | B_live => inr (set_buf B_freed d)
  | B_null => inr d
  end.

(** The class's [reset] only prints. *)
Definition qdev_pci_hellodev_reset (d : qdev) : qdev := d.

(** ** The type *)

Inductive device_category := DEVICE_CATEGORY_MISC.

Record PCIDeviceClass := mk_class {
  realize : option bytes -> qdev -> qdev;
  exit : qdev -> fault + qdev;
  reset : qdev -> qdev;
  vendor_id : Z;
  device_id : Z;
  class_id : Z;
  revision : Z;
  categories : list device_category;
  desc : string;
  props : list string;
}.

Definition hello_properties : list string := [].

Definition TYPE_PCI_HELLO_DEV : string := "pci-hellodev".
Definition TYPE_PCI_DEVICE : string := "pci-device".

Record TypeInfo := mk_typeinfo {
  type_name : string;
  parent : string;
  class_init : PCIDeviceClass -> PCIDeviceClass;
  interfaces : list string;
}.

(** The device as configuration cycles show it. *)
Record pci_ids := mk_ids {
  vendor : Z; device : Z; subvendor : Z; subdevice : Z; class : Z
}.

(** [class_init] gets the class as the parent type has left it. *)
Definition pci_hellodev_class_init (PCI_CLASS_OTHERS : Z) (klass : PCIDeviceClass) : PCIDeviceClass :=
  {| realize := pci_hellodev_realize;
     exit := pci_hellodev_uninit;
     vendor_id := 0x1337;
     device_id := 0x0001;
     class_id := PCI_CLASS_OTHERS;
     categories := categories klass ++ [DEVICE_CATEGORY_MISC];
     revision := 0x00;
     desc := "PCI Hello World";
     props := hello_properties;
     reset := qdev_pci_hellodev_reset |}.

Definition pci_hello_info (PCI_CLASS_OTHERS : Z) : TypeInfo :=
  {| type_name := TYPE_PCI_HELLO_DEV;
     parent := TYPE_PCI_DEVICE;
     class_init := pci_hellodev_class_init PCI_CLASS_OTHERS;
     interfaces := [] |}.

(** [type_register_static] is QEMU's. *)
Definition pci_hello_register_types {A} (type_register_static : TypeInfo -> A)
    (PCI_CLASS_OTHERS : Z) : A :=
  type_register_static (pci_hello_info PCI_CLASS_OTHERS).

(** ** Accesses of the guest

    The callbacks of [PciDevice], where [hello_iowrite] goes through
    [d->dma_buf]. *)

Inductive access :=
  | A_iowrite (addr value : Z) | A_ioread (addr : Z) | A_mmiowrite (addr value : Z) | A_mmioread (addr : Z).

Definition do_access (rand : nat -> Z) (x : access) (d : qdev) : fault + qdev :=
  match x with
  | A_iowrite addr value =>
      if (addr =? 4) && (0 <? dma_size (regs d)) then
        match buf d with
        | B_null => inl NullDeref
        | B_freed => inl UseAfterFree
        | B_live => inr (set_regs (hello_iowrite rand addr value 4 (regs d)).1 d)
        end
      else inr (set_regs (hello_iowrite rand addr value 4 (regs d)).1 d)
  | A_mmiowrite addr value => inr (set_regs (hello_mmiowrite addr value 4 (regs d)) d)
  | A_ioread _ | A_mmioread _ => inr d
  end.

(** ** The drivers' tables *)

Record pci_device_id := mk_id {
  id_vendor : Z; id_device : Z; id_subvendor : Z; id_subdevice : Z;
  id_class : Z; id_class_mask : Z; driver_data : Z
}.

Definition PCI_ANY_ID : Z := 2 ^ 32 - 1.
Definition PCI_DEVICE (v d : Z) : pci_device_id := mk_id v d PCI_ANY_ID PCI_ANY_ID 0 0 0.
Definition id_end : pci_device_id := mk_id 0 0 0 0 0 0 0.

(** pci/driver_pci.c *)
Definition PCI_TIC_VENDOR : Z := 0x1337.
Definition PCI_TIC_DEVICE : Z := 0x0001.
Definition hello_tic_ids : list pci_device_id := [PCI_DEVICE PCI_TIC_VENDOR PCI_TIC_DEVICE; id_end].

(** pci/unknown/simple.c *)
Definition VENDOR_ID : Z := 0x10EE.
Definition DEVICE_ID : Z := 0x7024.
Definition pci_drv_tbl : list pci_device_id :=
  [mk_id VENDOR_ID DEVICE_ID PCI_ANY_ID PCI_ANY_ID 0 0 0; id_end].

(** What an entry of a table says of a device. *)
Definition id_field (want have : Z) : Prop := want = PCI_ANY_ID \/ want = have.
Definition id_matches (x : pci_device_id) (d : pci_ids) : Prop :=
  id_field (id_vendor x) (vendor d) /\ id_field (id_device x) (device d) /\
  id_field (id_subvendor x) (subvendor d) /\ id_field (id_subdevice x) (subdevice d) /\
  Z.land (Z.lxor (id_class x) (class d)) (id_class_mask x) = 0.
Definition terminates (x : pci_device_id) : Prop :=
  id_vendor x = 0 /\ id_subvendor x = 0 /\ id_class_mask x = 0.

(** The PCI core binds a driver to a device when an entry of the driver's table,
    before the one that ends it, matches. *)
Class PciCore := {
  match_id : list pci_device_id -> pci_ids -> bool;
  match_id_spec : forall tbl d, match_id tbl d = true <->
    exists l1 x l2, tbl = l1 ++ x :: l2 /\ Forall (fun y => ~ terminates y) (l1 ++ [x]) /\
      id_matches x d;
}.

#[export] Instance id_field_dec w h : Decision (id_field w h).
Proof. unfold id_field. apply _. Defined.
#[export] Instance id_matches_dec x d : Decision (id_matches x d).
Proof. unfold id_matches. apply _. Defined.
#[export] Instance terminates_dec x : Decision (terminates x).
Proof. unfold terminates. apply _. Defined.

(** A PCI core that walks the table. *)
Fixpoint walk_table (tbl : list pci_device_id) (d : pci_ids) : bool :=
  match tbl with
  | [] => false
  | x :: tbl' =>
      if decide (terminates x) then false
      else if decide (id_matches x d) then true else walk_table tbl' d
  end.

Lemma walk_table_spec tbl d : walk_table tbl d = true <->
  exists l1 x l2, tbl = l1 ++ x :: l2 /\ Forall (fun y => ~ terminates y) (l1 ++ [x]) /\
    id_matches x d.
Proof.
  induction tbl as [|y tbl IH]; simpl.
  { split; [done|]. intros (l1 & x & l2 & E & _). by destruct l1. }
  destruct (decide (terminates y)) as [Ht|Ht].
  { split; [done|]. intros (l1 & x & l2 & E & Hf & _).
    destruct l1; simplify_eq/=; by apply Forall_cons in Hf as [? _]. }
  destruct (decide (id_matches y d)) as [Hm|Hm].
  { split; [|done]. intros _. exists [], y, tbl. split_and!; [done| |done]. by repeat constructor. }
  rewrite IH. split.
  - intros (l1 & x & l2 & -> & Hf & Hx). exists (y :: l1), x, l2. split_and!; try done.
    by constructor.
  - intros (l1 & x & l2 & E & Hf & Hx). destruct l1 as [|z l1]; simplify_eq/=; [done|].
    exists l1, x, l2. apply Forall_cons in Hf as [_ Hf]. done.
Qed.

#[export] Instance walk_core : PciCore := {| match_id := walk_table; match_id_spec := walk_table_spec |}.

(** ** The theorems *)

Section theorems.
Context {core : PciCore}.

(** A table of one entry for a vendor and device. *)
Lemma match_single v n sv sd ids :
  v <> 0 -> id_field sv (subvendor ids) -> id_field sd (subdevice ids) ->
  v <> PCI_ANY_ID -> n <> PCI_ANY_ID ->
  match_id [mk_id v n sv sd 0 0 0; id_end] ids = bool_decide (vendor ids = v /\ device ids = n).
Proof using.
  intros Hv Hsv Hsd Ha Hn. case_bool_decide as H.
  - apply match_id_spec. exists [], (mk_id v n sv sd 0 0 0), [id_end].
    split_and!; [done| |]; [repeat constructor; by intros (? & _)|].
    destruct H as [<- <-]. unfold id_matches, id_field. simpl. rewrite Z.land_0_r. tauto.
  - destruct (match_id _ _) eqn:E; [|done]. destruct H.
    apply match_id_spec in E as (l1 & x & l2 & E & Hf & Hm).
    destruct l1 as [|y [|z l1]]; simplify_eq/=.
    + destruct Hm as ([?|?] & [?|?] & _); try done.
    + apply Forall_cons in Hf as [_ Hf]. apply Forall_cons in Hf as [Hf _]. by destruct Hf.
    + by destruct l1.
Qed.

(** Which devices each driver gets: exactly those with its vendor and device
    number; so the device of the repository is [hello_tic]'s and never the codec
    driver's. *)
Theorem tables_match ids :
  match_id hello_tic_ids ids = bool_decide (vendor ids = 0x1337 /\ device ids = 0x0001) /\
  match_id pci_drv_tbl ids = bool_decide (vendor ids = 0x10EE /\ device ids = 0x7024).
Proof using.
  unfold hello_tic_ids, PCI_DEVICE, pci_drv_tbl. split; by rewrite match_single; try done; left.
Qed.

Theorem class_matches_tic others klass ids :
  vendor ids = vendor_id (pci_hellodev_class_init others klass) ->
  device ids = device_id (pci_hellodev_class_init others klass) ->
  match_id hello_tic_ids ids = true /\ match_id pci_drv_tbl ids = false.
Proof using.
  intros Hv Hd. destruct (tables_match ids) as [-> ->]. rewrite Hv, Hd. by split.
Qed.
End theorems.

(** ** From creation to the end *)

Section life.
Context (rand : nat -> Z).

(** With memory for its buffer no sequence of accesses of the guest makes the
    emulator fault, and destroying the device frees the buffer, once. *)
Theorem hello_lifecycle mem accesses :
  length mem = Z.to_nat 0x1ffff ->
  exists d d', steps (do_access rand) accesses (pci_hellodev_realize (Some mem) qdev_zero) = inr d /\
    length (dma_buf (regs d)) = Z.to_nat (dma_size (regs d)) /\
    (threw_irq (regs d) = 0 \/ threw_irq (regs d) = 1) /\
    pci_hellodev_uninit d = inr d' /\ buf d' = B_freed /\ pci_hellodev_uninit d' = inl UseAfterFree.
Proof using.
  intros Hm.
  destruct (steps_inv (do_access rand) (fun _ => True) (fun d => buf d = B_live /\
    length (dma_buf (regs d)) = Z.to_nat (dma_size (regs d)) /\
    (threw_irq (regs d) = 0 \/ threw_irq (regs d) = 1))) with accesses
    (pci_hellodev_realize (Some mem) qdev_zero) as (d & Hr & Hb & Hl & Ht).
  - intros x d _ (Hb & Hl & Ht).
    assert (forall a v, length (dma_buf (hello_iowrite rand a v 4 (regs d)).1) =
      Z.to_nat (dma_size (hello_iowrite rand a v 4 (regs d)).1) /\
      (threw_irq (hello_iowrite rand a v 4 (regs d)).1 = 0 \/
       threw_irq (hello_iowrite rand a v 4 (regs d)).1 = 1)) as Hw.
    { intros a v. unfold hello_iowrite.
      destruct (a =? 0); [destruct (negb _)|destruct (a =? 4)]; simpl; rewrite ?fill_random_length; auto. }
    destruct x as [a v|a|a v|a]; simpl; rewrite ?Hb.
    + destruct (_ && _); (eexists; split; [reflexivity|]; split; [done|]; apply Hw).
    + by exists d.
    + eexists; split; [reflexivity|]. simpl. unfold hello_mmiowrite. by destruct (a =? 4).
    + by exists d.
  - by apply Forall_forall.
  - split_and!; [done|exact Hm|by left].
  - exists d, (set_buf B_freed d). unfold pci_hellodev_uninit at 1. rewrite Hb. by split_and!.
Qed.

(** Without memory the device is created all the same, and the first DMA
    follows NULL. *)
Theorem hello_without_memory v :
  do_access rand (A_iowrite 4 v) (pci_hellodev_realize None qdev_zero) = inl NullDeref.
Proof using. reflexivity. Qed.

(** Resetting the machine leaves the identity the guest has written, and a
    raised interrupt, in place. *)
Theorem hello_reset_incomplete mem :
  exists d, steps (do_access rand) [A_mmiowrite 4 2; A_iowrite 0 1]
      (pci_hellodev_realize (Some mem) qdev_zero) = inr d /\
    id (regs (qdev_pci_hellodev_reset d)) = 2 /\ threw_irq (regs (qdev_pci_hellodev_reset d)) = 1 /\
    id (regs (pci_hellodev_realize (Some mem) qdev_zero)) = 0x1337.
Proof using. eexists; split; [reflexivity|]. done. Qed.

(** A kernel where every service succeeds, for the device [d]: the sizes of the
    BARs are the device's. *)
Definition services_succeed (d : qdev) (e : env pcall) : Prop := forall tr,
  e tr kzalloc = true /\ e tr pci_enable_device = 0 /\ e tr pci_request_regions = 0 /\
  e tr (pci_ioremap_bar 1) <> 0 /\ (e tr pci_read_config_byte).1 = 0 /\
  (forall n, e tr (devm_request_irq n) = 0) /\
  (forall b, e tr (pci_resource_len b) =
     match bars d !! b with Some (_, r) => mr_size r | None => 0 end).

(** Probing the device as it is created: the driver learns the sizes of the two
    BARs, the device has its new identity, no interrupt is pending, and the
    buffer has been written to guest memory from address 1 on. *)
Theorem probe_created_device mem (e : env pcall) tr :
  length mem = Z.to_nat 0x1ffff ->
  services_succeed (pci_hellodev_realize (Some mem) qdev_zero) e ->
  wp (hello_tic_probe (tic := hello_tic rand)) e (fun r s tr' =>
      r = 0 /\ (exists info, drvdata s = Some info /\ port_size info = 16 /\ mem_size info = 64) /\
      bus_mmio_read 4 (dev s) = 2 /\ irq_level (dev s) = false /\
      dma (dev s) = [(1, (fun k => u8 (rand k)) <$> seq 0 (Z.to_nat 0x1ffff))])
    (mk_drv (mk_machine (regs (pci_hellodev_realize (Some mem) qdev_zero)) false []) None) tr.
Proof using.
  intros Hm He. set (d := pci_hellodev_realize (Some mem) qdev_zero) in *.
  assert (machine_valid (mk_machine (regs d) false [])) as Hv by exact (machine_init_valid mem Hm).
  assert (bars d !! 0 = Some (PCI_BASE_ADDRESS_SPACE_IO, mk_region hello_io "hello_io" 16)) as B0
    by reflexivity.
  assert (bars d !! 1 = Some (PCI_BASE_ADDRESS_SPACE_MEMORY, mk_region hello_mmio "hello_mmio" 64)) as B1
    by reflexivity.
  unfold hello_tic_probe. wp_go.
  destruct (He tr) as (-> & _). cbn [negb]. wp_go.
  match goal with |- context [e ?t pci_enable_device] => destruct (He t) as (_ & -> & _) end.
  cbn [negb Z.eqb]. wp_go.
  match goal with |- context [e ?t pci_request_regions] => destruct (He t) as (_ & _ & -> & _) end.
  cbn [negb Z.eqb]. wp_go.
  match goal with |- context [e ?t (pci_ioremap_bar 1) =? 0] =>
    destruct (He t) as (_ & _ & _ & Hmap & _) end.
  rewrite (proj2 (Z.eqb_neq _ _) Hmap). wp_go.
  match goal with |- context [e ?t pci_read_config_byte] =>
    destruct (He t) as (_ & _ & _ & _ & Hc & _); destruct (e t pci_read_config_byte) as [r line] eqn:E end.
  simpl in Hc. rewrite Hc. cbn [negb Z.eqb]. wp_go.
  match goal with |- context [e ?t (devm_request_irq ?n) =? 0] =>
    destruct (He t) as (_ & _ & _ & _ & _ & Hirq & _); rewrite (Hirq n) end.
  cbn [negb Z.eqb]. apply exercise_hello; [exact Hv|]. intros tr'.
  split_and!; try reflexivity.
  eexists. split; [reflexivity|]. cbn [port_size mem_size].
  split; [rewrite (proj2 (proj2 (proj2 (proj2 (proj2 (proj2 (He _)))))) 0), B0|
    rewrite (proj2 (proj2 (proj2 (proj2 (proj2 (proj2 (He _)))))) 1), B1]; reflexivity.
Qed.
End life.

(** ** Witnesses *)

Lemma hello_lifecycle_witness :
  exists d, steps (do_access (fun _ => 7)) [A_iowrite 0 1; A_mmioread 4]
      (pci_hellodev_realize (Some (replicate (Z.to_nat 0x1ffff) 0)) qdev_zero) = inr d /\
    length (dma_buf (regs d)) = Z.to_nat (dma_size (regs d)).
Proof.
  destruct (hello_lifecycle (fun _ => 7) (replicate (Z.to_nat 0x1ffff) 0)
    [A_iowrite 0 1; A_mmioread 4]) as (d & d' & Hr & Hl & _).
  - apply length_replicate.
  - exists d. split; [exact Hr|exact Hl].
Defined.

(** A kernel for the created device. *)
Definition hello_env : env pcall := fun _ c =>
  match c as c0 return resp c0 with
  | kzalloc => true
  | pci_enable_device | pci_request_regions => 0
  | pci_resource_start _ => 0xc000
  | pci_resource_len b => if b =? 0 then 16 else if b =? 1 then 64 else 0
  | pci_ioremap_bar _ => 0xf000
  | pci_read_config_byte => (0, 11)
  | pci_irq_vector _ => 11
  | devm_request_irq _ => 0
  | _ => tt
  end.

Lemma hello_env_succeeds mem :
  services_succeed (pci_hellodev_realize (Some mem) qdev_zero) hello_env.
Proof.
  intros tr. split_and!; try done. intros b. unfold hello_env. simpl.
  destruct (Z.eqb_spec b 0) as [->|H0]; [done|]. destruct (Z.eqb_spec b 1) as [->|H1]; [done|].
  rewrite !lookup_insert_ne by done. done.
Qed.

Lemma probe_created_device_witness :
  wp (hello_tic_probe (tic := hello_tic (fun _ => 7))) hello_env
    (fun r s tr' => r = 0 /\ irq_level (dev s) = false)
    (mk_drv (mk_machine (regs (pci_hellodev_realize (Some (replicate (Z.to_nat 0x1ffff) 0)) qdev_zero))
      false []) None) [].
Proof.
  eapply wp_mono.
  - apply (probe_created_device (fun _ => 7) (replicate (Z.to_nat 0x1ffff) 0) hello_env []).
    + apply length_replicate.
    + apply hello_env_succeeds.
  - intros r s tr' (Hr & _ & _ & Hi & _). split; [exact Hr|exact Hi].
Defined.
