(* ===== verification/Rcu.v ===== *)
(** * Read-copy update ([RCU/simple.c])

    Four threads and the callbacks of RCU run interleaved on shared memory.
    The code of each thread is a function on the memory and a program counter,
    one case per access to shared state; sleeping has no effect of its own.
    [step] is one step of one task, [run] a schedule (a list of tasks).

    RCU itself is a parameter: [gp_over w] tells that the grace period that
    waits for the read-side critical sections of the readers [w] may end.  The
    theorems assume of it what RCU documents: that a grace period does not end
    before all of these readers have left ([gp_safe]), and for progress that it
    ends once they have ([gp_live]).  [alloc_ok n] tells whether the [n]-th
    allocation succeeds. *)

From S2P Require Export Steps.
From stdpp Require Export gmap.

(** ** Memory *)

(** A [list_head] pointer: NULL, the list's head, or an object. *)
Inductive link := Null | Head | Node (l : nat).

Record foo := mk_foo { a : Z; next : link }.
Definition set_a (v : Z) (o : foo) : foo := mk_foo v (next o).
Definition set_next (n : link) (o : foo) : foo := mk_foo (a o) n.

(** The tasks that enter read-side critical sections. *)
Inductive reader_id := ptr_reader | list_reader.
#[export] Instance reader_id_eq_dec : EqDecision reader_id.
Proof. solve_decision. Defined.
#[export] Instance reader_id_countable : Countable reader_id.
Proof.
  refine (inj_countable'
    (fun r => match r with ptr_reader => true | list_reader => false end)
    (fun b : bool => if b then ptr_reader else list_reader) _).
  by intros [].
Defined.

(** [callbacks]: the objects given to [call_rcu], each with the readers its
    grace period still waits for; [sync]: those of a [synchronize_rcu] in
    progress; [inside]: the readers in a critical section now; [log]: what the
    readers printed, newest first. *)
Record shared := mk_shared {
  heap : gmap nat foo;
  nxt : nat;
  g_pfoo : option nat;
  g_rcu_list : link;
  callbacks : list (nat * gset reader_id);
  sync : option (gset reader_id);
  inside : gset reader_id;
  log : list (reader_id * Z);
}.

Definition set_heap (h : gmap nat foo) (m : shared) : shared :=
  mk_shared h (nxt m) (g_pfoo m) (g_rcu_list m) (callbacks m) (sync m) (inside m) (log m).
Definition set_g_pfoo (p : option nat) (m : shared) : shared :=
  mk_shared (heap m) (nxt m) p (g_rcu_list m) (callbacks m) (sync m) (inside m) (log m).
Definition set_list (k : link) (m : shared) : shared :=
  mk_shared (heap m) (nxt m) (g_pfoo m) k (callbacks m) (sync m) (inside m) (log m).
Definition set_callbacks (c : list (nat * gset reader_id)) (m : shared) : shared :=
  mk_shared (heap m) (nxt m) (g_pfoo m) (g_rcu_list m) c (sync m) (inside m) (log m).
Definition set_sync (w : option (gset reader_id)) (m : shared) : shared :=
  mk_shared (heap m) (nxt m) (g_pfoo m) (g_rcu_list m) (callbacks m) w (inside m) (log m).
Definition print (r : reader_id) (v : Z) (m : shared) : shared :=
  mk_shared (heap m) (nxt m) (g_pfoo m) (g_rcu_list m) (callbacks m) (sync m) (inside m)
    ((r, v) :: log m).

Definition deref (p : option nat) (m : shared) : fault + foo :=
  match p with
  | None => inl NullDeref
  | Some l => match heap m !! l with Some o => inr o | None => inl UseAfterFree end
  end.
Definition assign (p : option nat) (f : foo -> foo) (m : shared) : fault + shared :=
  match p with
  | None => inl NullDeref
  | Some l =>
      match heap m !! l with
      | Some o => inr (set_heap (<[l := f o]> (heap m)) m)
      | None => inl UseAfterFree
      end
  end.
Definition kfree (p : option nat) (m : shared) : fault + shared :=
  match p with
  | None => inr m
  | Some l =>
      match heap m !! l with
      | Some _ => inr (set_heap (delete l (heap m)) m)
      | None => inl UseAfterFree
      end
  end.

(** ** RCU *)

Definition rcu_read_lock (r : reader_id) (m : shared) : shared :=
  mk_shared (heap m) (nxt m) (g_pfoo m) (g_rcu_list m) (callbacks m) (sync m)
    ({[ r ]} ∪ inside m) (log m).

(** The grace periods stop waiting for [r]. *)
Definition rcu_read_unlock (r : reader_id) (m : shared) : shared :=
  mk_shared (heap m) (nxt m) (g_pfoo m) (g_rcu_list m)
    ((fun c => (c.1, c.2 ∖ {[ r ]})) <$> callbacks m)
    ((fun w => w ∖ {[ r ]}) <$> sync m) (inside m ∖ {[ r ]}) (log m).

(** [call_rcu(&old->rcu, rcu_reclaimer)] writes into the object. *)
Definition call_rcu (old : option nat) (m : shared) : fault + shared :=
  match old with
  | None => inl NullDeref
  | Some l =>
      match heap m !! l with
      | Some _ => inr (set_callbacks (callbacks m ++ [(l, inside m)]) m)
      | None => inl UseAfterFree
      end
  end.

Definition list_first_or_null_rcu (k : link) : option nat :=
  match k with Node l => Some l | _ => None end.

(** [list_replace_rcu(&p->list, &q->list)] for the first element [p]: its
    predecessor is the head of the list. *)
Definition list_replace_rcu (p q : option nat) (m : shared) : fault + shared :=
  o ← deref p m;
  m ← assign q (set_next (next o)) m;
  match q with Some l => inr (set_list (Node l) m) | None => inl NullDeref end.

Definition list_add_rcu (p : option nat) (m : shared) : fault + shared :=
  m ← assign p (set_next (g_rcu_list m)) m;
  match p with Some l => inr (set_list (Node l) m) | None => inl NullDeref end.

Section rcu.
Context (gp_over : gset reader_id -> bool) (alloc_ok : nat -> bool).

(** Addresses are not used again. *)
Definition kzalloc (m : shared) : option nat * shared :=
  let h := if alloc_ok (nxt m) then <[nxt m := mk_foo 0 Null]> (heap m) else heap m in
  (if alloc_ok (nxt m) then Some (nxt m) else None,
   mk_shared h (S (nxt m)) (g_pfoo m) (g_rcu_list m) (callbacks m) (sync m) (inside m) (log m)).

(** ** The threads *)

(** [cnt] is the number of iterations left. *)
Inductive reader_pc :=
  | R_idle
  | R_loop (cnt : nat)
  | R_locked (cnt : nat)
  | R_have (cnt : nat) (p : option nat)
  | R_unlock (cnt : nat)
  | R_done.

Definition rcu_reader (pc : reader_pc) (m : shared) : fault + (shared * reader_pc) :=
  match pc with
  | R_loop 0 => inr (m, R_done)
  | R_loop (S cnt) => inr (rcu_read_lock ptr_reader m, R_locked cnt)
  | R_locked cnt => inr (m, R_have cnt (g_pfoo m))
  | R_have cnt p =>
      o ← deref p m;
      inr (print ptr_reader (a o) m, R_unlock cnt)
  | R_unlock cnt => inr (rcu_read_unlock ptr_reader m, R_loop cnt)
  | R_idle | R_done => inr (m, pc)
  end.

Inductive updater_pc :=
  | U_idle
  | U_loop (cnt : nat) (value : Z)
  | U_new (cnt : nat) (value : Z) (new : option nat)
  | U_old (cnt : nat) (value : Z) (new old : option nat)
  | U_copied (cnt : nat) (value : Z) (new old : option nat)
  | U_filled (cnt : nat) (value : Z) (new old : option nat)
  | U_published (cnt : nat) (value : Z) (new old : option nat)
  | U_call (cnt : nat) (value : Z) (old : option nat)
  | U_done.

Definition rcu_updater (pc : updater_pc) (m : shared) : fault + (shared * updater_pc) :=
  match pc with
  | U_loop 0 _ => inr (m, U_done)
  | U_loop (S cnt) v => let '(new, m) := kzalloc m in inr (m, U_new cnt v new)
  | U_new cnt v new => inr (m, U_old cnt v new (g_pfoo m))
  | U_old cnt v new old =>
      o ← deref (g_pfoo m) m;                       (* *new = *g_pfoo *)
      m ← assign new (fun _ => o) m;
      inr (m, U_copied cnt v new old)
  | U_copied cnt v new old =>
      m ← assign new (set_a v) m;
      inr (m, U_filled cnt v new old)
  | U_filled cnt v new old => inr (set_g_pfoo new m, U_published cnt v new old)
  | U_published cnt v new old =>
      _ ← deref new m;                              (* pr_info *)
      inr (m, U_call cnt v old)
  | U_call cnt v old =>
      m ← call_rcu old m;
      inr (m, U_loop cnt (v + 1))
  | U_idle | U_done => inr (m, pc)
  end.

Inductive reader_list_pc :=
  | L_idle
  | L_loop (cnt : nat)
  | L_locked (cnt : nat)
  | L_at (cnt : nat) (pos : link)
  | L_next (cnt : nat) (p : option nat)
  | L_unlock (cnt : nat)
  | L_done.

Definition rcu_reader_list (pc : reader_list_pc) (m : shared) : fault + (shared * reader_list_pc) :=
  match pc with
  | L_loop 0 => inr (m, L_done)
  | L_loop (S cnt) => inr (rcu_read_lock list_reader m, L_locked cnt)
  | L_locked cnt => inr (m, L_at cnt (g_rcu_list m))
  | L_at cnt Head => inr (m, L_unlock cnt)
  | L_at cnt pos =>
      let p := list_first_or_null_rcu pos in
      o ← deref p m;
      inr (print list_reader (a o) m, L_next cnt p)
  | L_next cnt p =>
      o ← deref p m;
      inr (m, L_at cnt (next o))
  | L_unlock cnt => inr (rcu_read_unlock list_reader m, L_loop cnt)
  | L_idle | L_done => inr (m, pc)
  end.

Inductive updater_list_pc :=
  | V_idle
  | V_loop (cnt : nat) (value : Z)
  | V_first (cnt : nat) (value : Z) (p : option nat)
  | V_copy (cnt : nat) (value : Z) (p q : option nat)
  | V_set (cnt : nat) (value : Z) (p q : option nat)
  | V_replace (cnt : nat) (value : Z) (p q : option nat)
  | V_print (cnt : nat) (value : Z) (p q : option nat)
  | V_sync (cnt : nat) (value : Z) (p : option nat)
  | V_wait (cnt : nat) (value : Z) (p : option nat)
  | V_free (cnt : nat) (value : Z) (p : option nat)
  | V_done.

Definition rcu_updater_list (pc : updater_list_pc) (m : shared)
    : fault + (shared * updater_list_pc) :=
  match pc with
  | V_loop 0 _ => inr (m, V_done)
  | V_loop (S cnt) v => inr (m, V_first cnt v (list_first_or_null_rcu (g_rcu_list m)))
  | V_first cnt v p => let '(q, m) := kzalloc m in inr (m, V_copy cnt v p q)
  | V_copy cnt v p q =>
      o ← deref p m;                                (* *q = *p *)
      m ← assign q (fun _ => o) m;
      inr (m, V_set cnt v p q)
  | V_set cnt v p q =>
      m ← assign q (set_a v) m;
      inr (m, V_replace cnt v p q)
  | V_replace cnt v p q =>
      m ← list_replace_rcu p q m;
      inr (m, V_print cnt v p q)
  | V_print cnt v p q =>
      _ ← deref q m;                                (* pr_info *)
      inr (m, V_sync cnt v p)
  | V_sync cnt v p => inr (set_sync (Some (inside m)) m, V_wait cnt v p)
  | V_wait cnt v p =>
      match sync m with
      | Some w => if gp_over w then inr (set_sync None m, V_free cnt v p) else inr (m, pc)
      | None => inr (m, pc)
      end
  | V_free cnt v p =>
      m ← kfree p m;
      inr (m, V_loop cnt (v + 1))
  | V_idle | V_done => inr (m, pc)
  end.

(** The [i]-th pending callback runs, if its grace period is over. *)
Definition rcu_reclaimer (i : nat) (m : shared) : fault + shared :=
  match callbacks m !! i with
  | Some (l, w) =>
      if gp_over w then
        _ ← deref (Some l) m;                       (* pr_info *)
        m ← kfree (Some l) m;
        inr (set_callbacks (delete i (callbacks m)) m)
      else inr m
  | None => inr m
  end.

(** ** Loading and unloading *)

Inductive init_pc :=
  | I_threads (started : nat)
  | I_pfoo
  | I_alloc
  | I_add (p : option nat)
  | I_done.

(** [kthread_stop] waits until the thread's function has returned. *)
Inductive exit_pc :=
  | E_idle
  | E_list
  | E_stop (stopped : nat)
  | E_done.

Record rcu := mk_rcu {
  mem : shared;
  reader : reader_pc;
  updater : updater_pc;
  reader_l : reader_list_pc;
  updater_l : updater_list_pc;
  ini : init_pc;
  ex : exit_pc;
}.

Definition set_mem (m : shared) (s : rcu) : rcu :=
  mk_rcu m (reader s) (updater s) (reader_l s) (updater_l s) (ini s) (ex s).
Definition set_ini (i : init_pc) (s : rcu) : rcu :=
  mk_rcu (mem s) (reader s) (updater s) (reader_l s) (updater_l s) i (ex s).
Definition set_ex (e : exit_pc) (s : rcu) : rcu :=
  mk_rcu (mem s) (reader s) (updater s) (reader_l s) (updater_l s) (ini s) e.

(** [kthread_run] for the [n]-th of the four threads. *)
Definition kthread_run (n : nat) (s : rcu) : rcu :=
  match n with
  | 0%nat => mk_rcu (mem s) (R_loop 2) (updater s) (reader_l s) (updater_l s) (ini s) (ex s)
  | 1%nat => mk_rcu (mem s) (reader s) (U_loop 2 1) (reader_l s) (updater_l s) (ini s) (ex s)
  | 2%nat => mk_rcu (mem s) (reader s) (updater s) (L_loop 2) (updater_l s) (ini s) (ex s)
  | _ => mk_rcu (mem s) (reader s) (updater s) (reader_l s) (V_loop 2 1000) (ini s) (ex s)
  end.

Definition rcu_test_init (s : rcu) : fault + rcu :=
  match ini s with
  | I_threads n =>
      inr (set_ini (if (n <? 3)%nat then I_threads (S n) else I_pfoo) (kthread_run n s))
  | I_pfoo =>
      let '(p, m) := kzalloc (mem s) in
      inr (set_ini I_alloc (set_mem (set_g_pfoo p m) s))
  | I_alloc => let '(p, m) := kzalloc (mem s) in inr (set_ini (I_add p) (set_mem m s))
  | I_add p => m ← list_add_rcu p (mem s); inr (set_ini I_done (set_mem m s))
  | I_done => inr s
  end.

Definition returned (n : nat) (s : rcu) : bool :=
  match n with
  | 0%nat => match reader s with R_done => true | _ => false end
  | 1%nat => match updater s with U_done => true | _ => false end
  | 2%nat => match reader_l s with L_done => true | _ => false end
  | _ => match updater_l s with V_done => true | _ => false end
  end.

Definition rcu_test_exit (s : rcu) : fault + rcu :=
  match ini s, ex s with
  | I_done, E_idle =>
      m ← kfree (g_pfoo (mem s)) (mem s); inr (set_ex E_list (set_mem m s))
  | I_done, E_list =>
      m ← kfree (list_first_or_null_rcu (g_rcu_list (mem s))) (mem s);
      inr (set_ex (E_stop 0) (set_mem m s))
  | I_done, E_stop n =>
      if returned n s then inr (set_ex (if (n <? 3)%nat then E_stop (S n) else E_done) s)
      else inr s
  | _, _ => inr s
  end.

(** ** Schedules *)

Inductive task :=
  | T_init | T_reader | T_updater | T_reader_list | T_updater_list | T_callback (i : nat)
  | T_exit.

Definition step (t : task) (s : rcu) : fault + rcu :=
  match t with
  | T_init => rcu_test_init s
  | T_reader =>
      '(m, pc) ← rcu_reader (reader s) (mem s);
      inr (mk_rcu m pc (updater s) (reader_l s) (updater_l s) (ini s) (ex s))
  | T_updater =>
      '(m, pc) ← rcu_updater (updater s) (mem s);
      inr (mk_rcu m (reader s) pc (reader_l s) (updater_l s) (ini s) (ex s))
  | T_reader_list =>
      '(m, pc) ← rcu_reader_list (reader_l s) (mem s);
      inr (mk_rcu m (reader s) (updater s) pc (updater_l s) (ini s) (ex s))
  | T_updater_list =>
      '(m, pc) ← rcu_updater_list (updater_l s) (mem s);
      inr (mk_rcu m (reader s) (updater s) (reader_l s) pc (ini s) (ex s))
  | T_callback i =>
      match ex s, callbacks (mem s) !! i with
      | E_done, Some (_, w) => if gp_over w then inl UnloadedCode else inr s
      | _, _ => m ← rcu_reclaimer i (mem s); inr (set_mem m s)
      end
  | T_exit => rcu_test_exit s
  end.
End rcu.

Abbreviation run gp_over alloc_ok := (steps (step gp_over alloc_ok)).

(** Before the module is loaded. *)
Definition unloaded : rcu :=
  mk_rcu (mk_shared ∅ 0 None Head [] None ∅ [])
    R_idle U_idle L_idle V_idle (I_threads 0) E_idle.

(** [rcu_test_init] run to its end before any thread wakes up. *)
Definition init_schedule : list task := replicate 7 T_init.
