(* ===== verification/RcuInv.v ===== *)
(** * Read-copy update: the invariant

    Who owns which object.  Every allocated object is held by exactly one of:
    the pointer [g_pfoo], the list, an updater that has not published it yet or
    has just unpublished it, or a pending callback.  A reader inside a critical
    section holds a pointer to an object that is published or whose grace
    period waits for this reader. *)

From S2P Require Export Rcu.

(** ** Ownership *)

Definition olist (p : option nat) : list nat := match p with Some l => [l] | None => [] end.

(** The objects of [L] are distinct and are all that is allocated. *)
Definition owns (m : shared) (L : list nat) : Prop :=
  NoDup L /\ (forall l, is_Some (heap m !! l) <-> l ∈ L) /\ (forall l, l ∈ L -> (l < nxt m)%nat).

#[export] Instance owns_proper m : Proper ((≡ₚ) ==> iff) (owns m).
Proof.
  intros L L' HL. unfold owns. rewrite HL. by setoid_rewrite HL.
Qed.

Lemma owns_same m m' L : heap m' = heap m -> nxt m' = nxt m -> owns m L -> owns m' L.
Proof. unfold owns. by intros -> ->. Qed.

Lemma owns_lookup m L l : owns m L -> l ∈ L -> exists o, heap m !! l = Some o.
Proof. intros (_ & Hd & _) Hl. by apply Hd in Hl as [o ?]; eauto. Qed.

Lemma deref_owned m L l : owns m L -> l ∈ L -> exists o, deref (Some l) m = inr o /\ heap m !! l = Some o.
Proof. intros Ho Hl. destruct (owns_lookup _ _ _ Ho Hl) as [o E]. exists o. simpl. by rewrite E. Qed.

Lemma assign_owned m L l f o :
  owns m L -> heap m !! l = Some o ->
  assign (Some l) f m = inr (set_heap (<[l := f o]> (heap m)) m) /\
  owns (set_heap (<[l := f o]> (heap m)) m) L.
Proof.
  intros (Hn & Hd & Hx) E. simpl. rewrite E. split; [done|]. split; [done|]. split; [|done].
  intros l'. simpl. rewrite <- Hd. destruct (decide (l = l')) as [<-|Hne].
  - rewrite lookup_insert_eq, E. split; eauto.
  - by rewrite lookup_insert_ne.
Qed.

Lemma kfree_owned m L l :
  owns m (l :: L) ->
  kfree (Some l) m = inr (set_heap (delete l (heap m)) m) /\
  owns (set_heap (delete l (heap m)) m) L.
Proof.
  intros (Hn & Hd & Hx). apply NoDup_cons in Hn as [Hnl Hn].
  destruct (proj2 (Hd l)) as [o E]; [left|]. simpl. rewrite E. split; [done|].
  split; [done|]. split; [|intros l' Hl'; apply Hx; by right].
  intros l'. simpl. destruct (decide (l = l')) as [<-|Hne].
  - rewrite lookup_delete_eq. split; [by intros [? ?]|done].
  - rewrite lookup_delete_ne, Hd, elem_of_cons by done. naive_solver.
Qed.

Lemma kzalloc_owned alloc_ok m L :
  alloc_ok (nxt m) = true -> owns m L ->
  exists m', kzalloc alloc_ok m = (Some (nxt m), m') /\ owns m' (nxt m :: L) /\
    heap m' = <[nxt m := mk_foo 0 Null]> (heap m) /\ heap m !! nxt m = None /\
    g_pfoo m' = g_pfoo m /\ g_rcu_list m' = g_rcu_list m /\ callbacks m' = callbacks m /\
    sync m' = sync m /\ inside m' = inside m /\ log m' = log m.
Proof.
  intros Ha (Hn & Hd & Hx). unfold kzalloc. rewrite Ha. eexists. split; [reflexivity|].
  assert (nxt m ∉ L) as Hf by (intros H; apply Hx in H; lia).
  assert (heap m !! nxt m = None) as E.
  { destruct (heap m !! nxt m) eqn:E; [|done]. destruct Hf. apply Hd. by rewrite E. }
  split_and!; try done. split_and!; simpl.
  - by constructor.
  - intros l. destruct (decide (nxt m = l)) as [<-|Hne].
    + rewrite lookup_insert_eq. split; [left|eauto].
    + rewrite lookup_insert_ne, Hd, elem_of_cons by done. naive_solver.
  - intros l [->|Hl]%elem_of_cons; [lia|]. apply Hx in Hl. lia.
Qed.

Lemma kzalloc_failed alloc_ok m L :
  alloc_ok (nxt m) = false -> owns m L ->
  exists m', kzalloc alloc_ok m = (None, m') /\ owns m' L /\
    heap m' = heap m /\ g_pfoo m' = g_pfoo m /\ g_rcu_list m' = g_rcu_list m /\
    callbacks m' = callbacks m /\ sync m' = sync m /\ inside m' = inside m /\ log m' = log m.
Proof.
  intros Ha (Hn & Hd & Hx). unfold kzalloc. rewrite Ha. eexists. split; [reflexivity|].
  split_and!; try done. split_and!; simpl; [done|done|]. intros l Hl. apply Hx in Hl. lia.
Qed.

Lemma kzalloc_None alloc_ok m m' :
  kzalloc alloc_ok m = (None, m') -> exists n, alloc_ok n = false.
Proof. unfold kzalloc. intros E. exists (nxt m). by destruct (alloc_ok (nxt m)). Qed.

(** From here on the accesses are rewritten with these lemmas. *)
#[global] Arguments deref : simpl never.
#[global] Arguments assign : simpl never.
#[global] Arguments kfree : simpl never.
#[local] Opaque kzalloc.

(** ** The invariant *)

Definition upd_owns (pc : updater_pc) : list nat :=
  match pc with
  | U_new _ _ n | U_old _ _ n _ | U_copied _ _ n _ | U_filled _ _ n _ => olist n
  | U_published _ _ _ o | U_call _ _ o => olist o
  | _ => []
  end.
Definition updl_owns (pc : updater_list_pc) : list nat :=
  match pc with
  | V_copy _ _ _ q | V_set _ _ _ q | V_replace _ _ _ q => olist q
  | V_print _ _ p _ | V_sync _ _ p | V_wait _ _ p | V_free _ _ p => olist p
  | _ => []
  end.

Definition first (m : shared) : option nat := list_first_or_null_rcu (g_rcu_list m).

Definition owned (s : rcu) : list nat :=
  olist (g_pfoo (mem s)) ++ olist (first (mem s)) ++
  upd_owns (updater s) ++ updl_owns (updater_l s) ++ (callbacks (mem s)).*1.

(** What the pointer's reader may hold: the current object, the one just
    replaced, or one whose grace period waits for this reader. *)
Definition upd_old (u : updater_pc) : option nat :=
  match u with U_published _ _ _ o | U_call _ _ o => o | _ => None end.
Definition prot (m : shared) (u : updater_pc) (l : nat) : Prop :=
  g_pfoo m = Some l \/ upd_old u = Some l \/
  exists w, (l, w) ∈ callbacks m /\ ptr_reader ∈ w.

(** The same for the reader of the list; the object's successor is the head. *)
Definition lprot (m : shared) (v : updater_list_pc) (l : nat) : Prop :=
  (exists o, heap m !! l = Some o /\ next o = Head) /\
  (first m = Some l \/
   match v with
   | V_print _ _ p _ | V_sync _ _ p => p = Some l
   | V_wait _ _ p => p = Some l /\ exists w, sync m = Some w /\ list_reader ∈ w
   | _ => False
   end).

Definition reader_ok (m : shared) (u : updater_pc) (pc : reader_pc) : Prop :=
  match pc with
  | R_have _ p => ptr_reader ∈ inside m /\ exists l, p = Some l /\ prot m u l
  | R_locked _ | R_unlock _ => ptr_reader ∈ inside m
  | _ => True
  end.

Definition updater_ok (m : shared) (pc : updater_pc) : Prop :=
  match pc with
  | U_old _ _ n o => o = g_pfoo m
  | U_copied _ _ n o | U_filled _ _ n o => is_Some n /\ o = g_pfoo m
  | U_published _ _ n o => n = g_pfoo m /\ is_Some o
  | U_call _ _ o => is_Some o
  | _ => True
  end.

Definition reader_list_ok (m : shared) (v : updater_list_pc) (pc : reader_list_pc) : Prop :=
  match pc with
  | L_at _ k => list_reader ∈ inside m /\ (k = Head \/ exists l, k = Node l /\ lprot m v l)
  | L_next _ p => list_reader ∈ inside m /\ exists l, p = Some l /\ lprot m v l
  | L_locked _ | L_unlock _ => list_reader ∈ inside m
  | _ => True
  end.

Definition updater_list_ok (m : shared) (pc : updater_list_pc) : Prop :=
  match pc with
  | V_first _ _ p | V_copy _ _ p _ => p = first m
  | V_set _ _ p q | V_replace _ _ p q => p = first m /\ is_Some q
  | V_print _ _ p q => q = first m /\ is_Some p
  | V_sync _ _ p | V_free _ _ p => is_Some p
  | V_wait _ _ p => is_Some p /\ is_Some (sync m)
  | _ => True
  end.

Record inv (s : rcu) : Prop := {
  inv_owns : owns (mem s) (owned s);
  inv_pfoo : is_Some (g_pfoo (mem s));
  inv_list : exists h o, g_rcu_list (mem s) = Node h /\ heap (mem s) !! h = Some o /\ next o = Head;
  inv_reader : reader_ok (mem s) (updater s) (reader s);
  inv_updater : updater_ok (mem s) (updater s);
  inv_reader_l : reader_list_ok (mem s) (updater_l s) (reader_l s);
  inv_updater_l : updater_list_ok (mem s) (updater_l s);
  inv_ini : ini s = I_done;
  inv_ex : ex s = E_idle;
}.

(** An updater whose allocation has failed, before it writes to the object it
    does not have; [blamed]: that an allocation did fail. *)
Definition missing (s : rcu) : Prop :=
  match updater s with U_new _ _ None | U_old _ _ None _ => True | _ => False end \/
  match updater_l s with V_copy _ _ _ None => True | _ => False end.
Definition blamed (alloc_ok : nat -> bool) (s : rcu) : Prop :=
  missing s -> exists n, alloc_ok n = false.

(** ** Framing

    The parts of the invariant that a step does not touch. *)

Lemma reader_ok_frame m m' u u' pc :
  (ptr_reader ∈ inside m -> ptr_reader ∈ inside m') ->
  (forall l, ptr_reader ∈ inside m -> prot m u l -> prot m' u' l) ->
  reader_ok m u pc -> reader_ok m' u' pc.
Proof. intros ? ?. destruct pc; simpl; naive_solver. Qed.

Lemma reader_list_ok_frame m m' v v' pc :
  (list_reader ∈ inside m -> list_reader ∈ inside m') ->
  (forall l, list_reader ∈ inside m -> lprot m v l -> lprot m' v' l) ->
  reader_list_ok m v pc -> reader_list_ok m' v' pc.
Proof. intros ? ?. destruct pc; simpl; naive_solver. Qed.

Lemma updater_ok_frame m m' pc : g_pfoo m' = g_pfoo m -> updater_ok m pc -> updater_ok m' pc.
Proof. intros E. destruct pc; simpl; by rewrite ?E. Qed.

Lemma updater_list_ok_frame m m' pc :
  g_rcu_list m' = g_rcu_list m -> (is_Some (sync m) -> is_Some (sync m')) ->
  updater_list_ok m pc -> updater_list_ok m' pc.
Proof. intros E ?. destruct pc; simpl; unfold first; rewrite ?E; naive_solver. Qed.

Lemma prot_frame m m' u u' l :
  g_pfoo m' = g_pfoo m -> callbacks m' = callbacks m -> upd_old u' = upd_old u ->
  prot m u l -> prot m' u' l.
Proof. unfold prot. by intros -> -> ->. Qed.

(** A step that changes the heap only elsewhere keeps the list reader's object. *)
Lemma lprot_frame m m' v l :
  (forall o, heap m !! l = Some o -> heap m' !! l = Some o) ->
  g_rcu_list m' = g_rcu_list m -> sync m' = sync m -> lprot m v l -> lprot m' v l.
Proof.
  intros Hh El Es [(o & Ho & Hn) H]. split; [eauto|]. unfold first. by rewrite El, Es.
Qed.

(** What the readers may hold is owned. *)
Lemma prot_owned s l : prot (mem s) (updater s) l -> l ∈ owned s.
Proof.
  unfold owned. rewrite !elem_of_app. intros [-> | [Hu | (w & Hw & _)]].
  - left. left.
  - do 2 right. left. destruct (updater s); simplify_eq/=; left.
  - do 4 right. apply list_elem_of_fmap. by exists (l, w).
Qed.

Lemma first_owned s l : first (mem s) = Some l -> l ∈ owned s.
Proof. unfold owned. rewrite !elem_of_app. intros ->. right. left. left. Qed.

Lemma lprot_owned s l : lprot (mem s) (updater_l s) l -> l ∈ owned s.
Proof.
  intros [_ [H|H]]; [by apply first_owned|]. unfold owned. rewrite !elem_of_app.
  do 3 right. left. destruct (updater_l s); try done; destruct_and?; subst; left.
Qed.

Lemma list_part_owned s l :
  l ∈ olist (first (mem s)) ++ updl_owns (updater_l s) -> l ∈ owned s.
Proof. unfold owned. rewrite !elem_of_app. naive_solver. Qed.

Lemma owns_head m l L : owns m (l :: L) -> forall l', l' ∈ L -> l <> l'.
Proof. intros (Hn & _) l' Hl' ->. by apply NoDup_cons in Hn as [? _]. Qed.

(** ** Each thread keeps the invariant *)

Section steps.
Context (gp_over : gset reader_id -> bool) (alloc_ok : nat -> bool).
Hypothesis gp_safe : forall w, gp_over w = true -> w = ∅.

Abbreviation goes_on t s := (exists s', step gp_over alloc_ok t s = inr s' /\ inv s').
Abbreviation goes_on_or_misses t s :=
  (goes_on t s \/ missing s /\ step gp_over alloc_ok t s = inl NullDeref).

Lemma reader_step s : inv s -> goes_on T_reader s.
Proof using gp_safe.
  intros [Ho Hp Hl Hr Hu Hrl Hul Hi He].
  destruct s as [m r u rl ul i e]; simpl in *. unfold step; simpl.
  destruct r as [|[|n]|n|n p|n|]; simpl in *.
  1,2,7: eexists; split; [reflexivity|]; by split.
  - eexists; split; [reflexivity|]. split; simpl; try done.
    + set_solver.
    + apply (reader_list_ok_frame m _ ul); [| |exact Hrl]; [set_solver|done].
  - eexists; split; [reflexivity|]. split; simpl; try done. split; [done|].
    destruct Hp as [g Hg]. exists g. split; [done|]. by left.
  - destruct Hr as (Hin & l & -> & Hprot).
    assert (l ∈ owned (mk_rcu m (R_have n (Some l)) u rl ul i e)) as Hown.
    { by apply prot_owned. }
    destruct (deref_owned _ _ _ Ho Hown) as (o & Hd & _).
    rewrite Hd. eexists; split; [reflexivity|]. by split.
  - eexists; split; [reflexivity|]. split; simpl; try done.
    + unfold owned in *; simpl in *. rewrite <- list_fmap_compose. done.
    + apply (reader_list_ok_frame m _ ul); [| |exact Hrl]; [set_solver|].
      intros l _ [H1 H2]. split; [done|]. destruct H2 as [H2|H2]; [by left|right].
      destruct ul; try done. destruct H2 as (-> & w & Hw & Hin). split; [done|].
      exists (w ∖ {[ptr_reader]}). simpl. rewrite Hw. set_solver.
    + apply (updater_list_ok_frame m); [done| |exact Hul]. simpl. by intros [w ->].
Qed.

Lemma reader_list_step s : inv s -> goes_on T_reader_list s.
Proof using gp_safe.
  intros [Ho Hp Hl Hr Hu Hrl Hul Hi He].
  destruct s as [m r u rl ul i e]; simpl in *. unfold step; simpl.
  assert (Hderef : forall l, lprot m ul l -> exists o, deref (Some l) m = inr o /\
    heap m !! l = Some o /\ next o = Head).
  { intros l [(o & E & Hn) _]. exists o. unfold deref. by rewrite E. }
  destruct rl as [|[|n]|n|n k|n p|n|]; simpl in *.
  1,2,8: eexists; split; [reflexivity|]; by split.
  - eexists; split; [reflexivity|]. split; simpl; try done; [|set_solver].
    eapply (reader_ok_frame m _ u); [set_solver|done|exact Hr].
  - eexists; split; [reflexivity|]. split; simpl; try done. split; [done|].
    destruct Hl as (h & o & El & Eo & Hn). rewrite El. right. exists h. split; [done|].
    split; [by exists o|]. left. unfold first. by rewrite El.
  - destruct Hrl as (Hin & [->|(l & -> & Hlp)]); simpl.
    + eexists; split; [reflexivity|]. by split.
    + destruct (Hderef l Hlp) as (o & Hd & E & Hn). rewrite Hd. simpl.
      eexists; split; [reflexivity|]. split; simpl; try done. split; [done|]. by exists l.
  - destruct Hrl as (Hin & l & -> & Hlp). destruct (Hderef l Hlp) as (o & Hd & E & Hn).
    rewrite Hd. simpl. eexists; split; [reflexivity|]. split; simpl; try done. split; [done|].
    by left.
  - eexists; split; [reflexivity|]. split; simpl; try done.
    + unfold owned in *; simpl in *. by rewrite <- list_fmap_compose.
    + eapply (reader_ok_frame m _ u); [set_solver| |exact Hr].
      intros l _ [H|[H|(w & Hw & Hin)]]; [by left|by right; left|]. do 2 right.
      exists (w ∖ {[list_reader]}). split; [|set_solver].
      apply list_elem_of_fmap. by exists (l, w).
    + apply (updater_list_ok_frame m); [done| |exact Hul]. simpl. by intros [w ->].
Qed.

Lemma callback_step i s : inv s -> goes_on (T_callback i) s.
Proof using gp_safe.
  intros Hinv. pose proof Hinv as [Ho Hp Hl Hr Hu Hrl Hul Hi He].
  destruct s as [m r u rl ul ii e]; simpl in *. subst e. unfold step, rcu_reclaimer; simpl.
  destruct (callbacks m !! i) as [[l w]|] eqn:Ei; [|by eexists].
  destruct (gp_over w) eqn:Eg; [|by eexists]. apply gp_safe in Eg as ->.
  assert (callbacks m ≡ₚ (l, ∅) :: delete i (callbacks m)) as Hperm.
  { by apply delete_Permutation. }
  assert (owns m (l :: owned (mk_rcu (set_callbacks (delete i (callbacks m)) m) r u rl ul ii E_idle)))
    as Ho'.
  { unfold owned in *; simpl in *. rewrite Hperm in Ho. simpl in Ho.
    eapply owns_proper; [|exact Ho]. unfold first; simpl. solve_Permutation. }
  destruct (deref_owned _ _ l Ho') as (o & Hd & E); [left|].
  destruct (kfree_owned _ _ _ Ho') as [Hk Hown]. rewrite Hd. simpl. rewrite Hk. simpl.
  eexists; split; [reflexivity|].
  pose proof (owns_head _ _ _ Ho') as Hne.
  split; simpl; try done.
  - destruct Hl as (h & o' & El & Eo & Hn). exists h, o'. split_and!; try done.
    rewrite lookup_delete_ne; [done|]. apply Hne, first_owned. simpl. unfold first. simpl.
    by rewrite El.
  - eapply (reader_ok_frame m _ u); [done| |exact Hr].
    intros l' _ [H|[H|(w & Hw & Hin)]]; [by left|by right; left|]. do 2 right.
    exists w. split; [|done]. rewrite Hperm in Hw.
    apply elem_of_cons in Hw as [[= -> ->]|Hw]; [set_solver|done].
  - eapply (reader_list_ok_frame m _ ul); [done| |exact Hrl].
    intros l' _ Hlp. eapply (lprot_frame m); [|done..|exact Hlp].
    intros o' Ho2. simpl. rewrite lookup_delete_ne; [done|]. apply Hne.
    by apply (lprot_owned (mk_rcu (set_callbacks (delete i (callbacks m)) m) r u rl ul ii E_idle)).
Qed.

(** Writing to an object that is not shared yet. *)
Lemma private_write l f m L o :
  owns m (l :: L) -> heap m !! l = Some o ->
  assign (Some l) f m = inr (set_heap (<[l := f o]> (heap m)) m) /\
  owns (set_heap (<[l := f o]> (heap m)) m) (l :: L) /\
  forall l' o', l' ∈ L -> heap m !! l' = Some o' ->
    heap (set_heap (<[l := f o]> (heap m)) m) !! l' = Some o'.
Proof using gp_safe.
  intros Ho E. destruct (assign_owned _ _ _ f _ Ho E) as [H1 H2]. split; [done|]. split; [done|].
  intros l' o' Hl' E'. simpl. rewrite lookup_insert_ne; [done|]. by eapply owns_head.
Qed.

(** A step of the updater of the pointer leaves the list alone. *)
Lemma updater_frame s m' u' :
  inv s ->
  let s' := mk_rcu m' (reader s) u' (reader_l s) (updater_l s) (ini s) (ex s) in
  owns m' (owned s') ->
  g_rcu_list m' = g_rcu_list (mem s) -> sync m' = sync (mem s) -> inside m' = inside (mem s) ->
  (forall l o, l ∈ olist (first (mem s)) ++ updl_owns (updater_l s) ->
     heap (mem s) !! l = Some o -> heap m' !! l = Some o) ->
  (forall l, ptr_reader ∈ inside (mem s) -> prot (mem s) (updater s) l -> prot m' u' l) ->
  is_Some (g_pfoo m') -> updater_ok m' u' -> inv s'.
Proof using gp_safe.
  intros [Ho Hp (h & o & El & Eo & Hn) Hr Hu Hrl Hul Hi He] s' Ho' Eg Es Ein Hh Hprot Hg Hu'.
  assert (Hf : first (mem s) = Some h) by (unfold first; by rewrite El).
  split; simpl; try done.
  - exists h, o. split_and!; [by rewrite Eg|apply Hh; [|done]|done].
    rewrite Hf. left.
  - eapply (reader_ok_frame (mem s)); [by rewrite Ein|done|exact Hr].
  - eapply (reader_list_ok_frame (mem s)); [by rewrite Ein| |exact Hrl].
    intros l _ [(o' & Ho2 & Hn') H]. apply (lprot_frame (mem s)); try done; [|by split; [eauto|]].
    intros o2 Ho3. apply Hh; [|done]. apply elem_of_app. destruct H as [H|H].
    + left. rewrite H. left.
    + right. destruct (updater_l s); try done; destruct_and?; subst; left.
  - apply (updater_list_ok_frame (mem s)); [done|by rewrite Es|done].
Qed.

Lemma updater_alloc m r n v rl ul ii e :
  inv (mk_rcu m r (U_loop (S n) v) rl ul ii e) -> goes_on T_updater (mk_rcu m r (U_loop (S n) v) rl ul ii e).
Proof using gp_safe.
  intros Hinv. pose proof Hinv as [Ho Hp Hl Hr Hu Hrl Hul Hi He].
  simpl in *. unfold step; simpl.
  destruct (alloc_ok (nxt m)) eqn:Ea.
  2: { destruct (kzalloc_failed alloc_ok m _ Ea Ho)
         as (m' & Hk & Ho' & Eh & Eg & El & Ec & Es & Ein & Elog).
       rewrite Hk. eexists; split; [reflexivity|].
       apply (updater_frame _ _ _ Hinv); simpl; try done; [| | |by rewrite Eg].
       - eapply owns_proper; [|exact Ho']. unfold owned, first; simpl. by rewrite Eg, El, Ec.
       - intros l o _. by rewrite Eh.
       - intros l _. by apply prot_frame. }
  destruct (kzalloc_owned alloc_ok m _ Ea Ho)
    as (m' & Hk & Ho' & Eh & Ef & Eg & El & Ec & Es & Ein & Elog).
  rewrite Hk. eexists; split; [reflexivity|].
  apply (updater_frame _ _ _ Hinv); simpl; try done.
  + eapply owns_proper; [|exact Ho']. unfold owned, first; simpl. rewrite Eg, El, Ec.
    solve_Permutation.
  + intros l o _ Hlo. rewrite Eh, lookup_insert_ne; [done|]. intros <-. congruence.
  + intros l _. by apply prot_frame.
  + by rewrite Eg.
Qed.

Lemma updater_copy m r n v new old rl ul ii e :
  inv (mk_rcu m r (U_old n v new old) rl ul ii e) -> goes_on_or_misses T_updater (mk_rcu m r (U_old n v new old) rl ul ii e).
Proof using gp_safe.
  intros Hinv. pose proof Hinv as [Ho Hp Hl Hr Hu Hrl Hul Hi He].
  simpl in *. unfold step; simpl.
  destruct Hp as [g Hg]. subst old. destruct new as [l|].
  2: { right. split; [by left|]. destruct (deref_owned _ _ g Ho) as (o & Hd & Eo).
       { unfold owned; simpl. rewrite Hg. left. }
       rewrite Hg, Hd. done. }
  left. assert (owns m (l :: (owned (mk_rcu m r (U_loop 0 0) rl ul ii e)))) as Ho'.
  { eapply owns_proper; [|exact Ho]. unfold owned; simpl. solve_Permutation. }
  destruct (deref_owned _ _ g Ho) as (o & Hd & Eo).
  { unfold owned; simpl. rewrite Hg. left. }
  destruct (deref_owned _ _ l Ho') as (ol & _ & El); [left|].
  destruct (private_write l (fun _ => o) _ _ _ Ho' El) as (Ha & Hown & Hother).
  rewrite Hg, Hd. simpl. rewrite Ha. simpl. eexists; split; [reflexivity|].
  apply (updater_frame _ _ _ Hinv); simpl; try done.
  + eapply owns_proper; [|exact Hown]. unfold owned; simpl. solve_Permutation.
  + intros l' o' Hl' E'. apply (Hother l' o'); [|done]. by apply list_part_owned.
Qed.

Lemma updater_fill m r n v new old rl ul ii e :
  inv (mk_rcu m r (U_copied n v new old) rl ul ii e) -> goes_on T_updater (mk_rcu m r (U_copied n v new old) rl ul ii e).
Proof using gp_safe.
  intros Hinv. pose proof Hinv as [Ho Hp Hl Hr Hu Hrl Hul Hi He].
  simpl in *. unfold step; simpl.
  destruct Hu as [[l ->] ->].
  assert (owns m (l :: (owned (mk_rcu m r (U_loop 0 0) rl ul ii e)))) as Ho'.
  { eapply owns_proper; [|exact Ho]. unfold owned; simpl. solve_Permutation. }
  destruct (deref_owned _ _ l Ho') as (ol & _ & El); [left|].
  destruct (private_write l (set_a v) _ _ _ Ho' El) as (Ha & Hown & Hother).
  rewrite Ha. simpl. eexists; split; [reflexivity|].
  apply (updater_frame _ _ _ Hinv); simpl; try done.
  + eapply owns_proper; [|exact Hown]. unfold owned; simpl. solve_Permutation.
  + intros l' o' Hl' E'. apply (Hother l' o'); [|done]. by apply list_part_owned.
Qed.

Lemma updater_call m r n v old rl ul ii e :
  inv (mk_rcu m r (U_call n v old) rl ul ii e) -> goes_on T_updater (mk_rcu m r (U_call n v old) rl ul ii e).
Proof using gp_safe.
  intros Hinv. pose proof Hinv as [Ho Hp Hl Hr Hu Hrl Hul Hi He].
  simpl in *. unfold step; simpl.
  destruct Hu as [l ->].
  destruct (deref_owned _ _ l Ho) as (o & Hd & Eo).
  { unfold owned; simpl. rewrite !elem_of_app. do 2 right. left. }
  unfold call_rcu. rewrite Eo. simpl. eexists; split; [reflexivity|].
  apply (updater_frame _ _ _ Hinv); simpl; try done.
  + eapply owns_same; [..|eapply owns_proper; [|exact Ho]]; [done|done|].
    unfold owned, first; simpl. rewrite fmap_app; simpl. solve_Permutation.
  + intros l' Hin [H|[H|(w & Hw & Hw')]]; [by left| |].
    * injection H as ->. do 2 right. exists (inside m). simpl.
      split; [|done]. apply elem_of_app. right. by left.
    * do 2 right. exists w. simpl. split; [|done]. apply elem_of_app. by left.
Qed.

Lemma updater_step s : inv s -> goes_on_or_misses T_updater s.
Proof using gp_safe.
  intros Hinv. pose proof Hinv as [Ho Hp Hl Hr Hu Hrl Hul Hi He].
  destruct s as [m r u rl ul ii e]; simpl in *. unfold step; simpl.
  destruct u as [|[|n] v|n v new|n v new old|n v new old|n v new old|n v new old|n v old|]; simpl in *.
  5: by apply updater_copy.
  all: left.
  1,2,9: eexists; split; [reflexivity|]; by split.
  - by apply updater_alloc.
  - (* old = g_pfoo *)
    eexists; split; [reflexivity|]. apply (updater_frame _ _ _ Hinv); simpl; done.
  - by apply updater_fill.
  - (* rcu_assign_pointer *)
    destruct Hu as [[l ->] ->]. eexists; split; [reflexivity|].
    apply (updater_frame _ _ _ Hinv); simpl; try done.
    + eapply owns_same; [..|eapply owns_proper; [|exact Ho]]; [done|done|].
      unfold owned, first; simpl. solve_Permutation.
    + intros l' _ [H|[H|H]]; [right; left; exact H|done|by do 2 right].
  - (* pr_info *)
    destruct Hu as [-> Hold]. destruct Hp as [g Hg].
    destruct (deref_owned _ _ g Ho) as (o & Hd & Eo).
    { unfold owned; simpl. rewrite Hg. left. }
    rewrite Hg, Hd. simpl. eexists; split; [reflexivity|].
    apply (updater_frame _ _ _ Hinv); simpl; done.
  - by apply updater_call.
Qed.
(** A step of the updater of the list leaves the pointer alone. *)
Lemma updater_list_frame s m' v' :
  inv s ->
  let s' := mk_rcu m' (reader s) (updater s) (reader_l s) v' (ini s) (ex s) in
  owns m' (owned s') ->
  g_pfoo m' = g_pfoo (mem s) -> callbacks m' = callbacks (mem s) -> inside m' = inside (mem s) ->
  (exists h o, g_rcu_list m' = Node h /\ heap m' !! h = Some o /\ next o = Head) ->
  (forall l, list_reader ∈ inside (mem s) -> lprot (mem s) (updater_l s) l -> lprot m' v' l) ->
  updater_list_ok m' v' -> inv s'.
Proof using gp_safe.
  intros [Ho Hp Hl Hr Hu Hrl Hul Hi He] s' Ho' Eg Ec Ein Hlist Hprot Hul'.
  split; simpl; try done.
  - by rewrite Eg.
  - eapply (reader_ok_frame (mem s)); [by rewrite Ein| |exact Hr].
    intros l _. by apply prot_frame.
  - by apply (updater_ok_frame (mem s)).
  - eapply (reader_list_ok_frame (mem s)); [by rewrite Ein|done|exact Hrl].
Qed.

(** The object being prepared for the list, apart from the others. *)
Lemma prepared m r u rl ul ii e q :
  owns m (owned (mk_rcu m r u rl ul ii e)) -> updl_owns ul = [q] ->
  owns m (q :: owned (mk_rcu m r u rl (V_loop 0 0) ii e)).
Proof using gp_safe.
  intros Ho E. eapply owns_proper; [|exact Ho]. unfold owned; simpl. rewrite E. solve_Permutation.
Qed.

(** Filling in the object that is prepared. *)
Lemma prepare_step m r u rl ul ul' ii e q f h o :
  inv (mk_rcu m r u rl ul ii e) -> updl_owns ul = [q] -> updl_owns ul' = [q] ->
  g_rcu_list m = Node h -> heap m !! h = Some o -> next o = Head ->
  (forall m' l, lprot m' ul l <-> first m' = Some l /\ lprot m' (V_loop 0 0) l) ->
  exists m', assign (Some q) f m = inr m' /\ first m' = first m /\
    (updater_list_ok m' ul' -> inv (mk_rcu m' r u rl ul' ii e)).
Proof using gp_safe.
  intros Hinv Eq Eq' El Eo Hn Hlp. pose proof (inv_owns _ Hinv) as Ho. simpl in Ho.
  pose proof (prepared _ _ _ _ _ _ _ q Ho Eq) as Ho'.
  destruct (owns_lookup _ _ q Ho') as [oq Eoq]; [left|].
  destruct (private_write q f _ _ _ Ho' Eoq) as (Ha & Hown & Hother).
  assert (h ∈ owned (mk_rcu m r u rl (V_loop 0 0) ii e)) as Hh.
  { apply first_owned. simpl. unfold first. by rewrite El. }
  eexists. split; [exact Ha|]. split; [done|]. intros Hok.
  apply (updater_list_frame _ _ _ Hinv); simpl; try done.
  - eapply owns_proper; [|exact Hown]. unfold owned; simpl. rewrite Eq'. solve_Permutation.
  - exists h, o. split_and!; try done. by apply (Hother h o).
  - intros l _ [Hc Hf]%Hlp. destruct Hf as [(o' & Eo' & Hn') _]. split; [|by left].
    exists o'. split; [|done]. apply (Hother l o'); [|done]. by apply first_owned.
Qed.

Lemma updater_list_alloc m r u rl n v p ii e :
  inv (mk_rcu m r u rl (V_first n v p) ii e) -> goes_on T_updater_list (mk_rcu m r u rl (V_first n v p) ii e).
Proof using gp_safe.
  intros Hinv. pose proof Hinv as [Ho Hp (h & o & El & Eo & Hn) Hr Hu Hrl Hul Hi He].
  simpl in *. unfold step; simpl. assert (Hf : first m = Some h) by (unfold first; by rewrite El).
  subst p.
  destruct (alloc_ok (nxt m)) eqn:Ea.
  2: { destruct (kzalloc_failed alloc_ok m _ Ea Ho)
         as (m' & Hk & Ho' & Eh & Eg & El' & Ec & Es & Ein & Elog).
       rewrite Hk. eexists; split; [reflexivity|].
       apply (updater_list_frame _ _ _ Hinv); simpl; try done.
       - eapply owns_proper; [|exact Ho']. unfold owned, first; simpl. by rewrite Eg, El', Ec.
       - exists h, o. by rewrite El', Eh.
       - intros l _ [(o' & E & Hn') H]. split; [rewrite Eh; eauto|]. unfold first.
         rewrite El'. by left; destruct H.
       - unfold first. by rewrite El'. }
  destruct (kzalloc_owned alloc_ok m _ Ea Ho)
    as (m' & Hk & Ho' & Eh & Ef & Eg & El' & Ec & Es & Ein & Elog).
  rewrite Hk. eexists; split; [reflexivity|].
  assert (Hsame : forall l o, heap m !! l = Some o -> heap m' !! l = Some o).
  { intros l o' E. rewrite Eh, lookup_insert_ne; [done|]. intros <-. congruence. }
  apply (updater_list_frame _ _ _ Hinv); simpl; try done.
  + eapply owns_proper; [|exact Ho']. unfold owned, first; simpl. rewrite Eg, El', Ec.
    solve_Permutation.
  + exists h, o. rewrite El'. auto.
  + intros l _ [(o' & E & Hn') H]. split; [eauto|]. unfold first. rewrite El'. by left; destruct H.
  + unfold first. by rewrite El'.
Qed.

Lemma updater_list_copy m r u rl n v p q ii e :
  inv (mk_rcu m r u rl (V_copy n v p q) ii e) -> goes_on_or_misses T_updater_list (mk_rcu m r u rl (V_copy n v p q) ii e).
Proof using gp_safe.
  intros Hinv. pose proof Hinv as [Ho Hp (h & o & El & Eo & Hn) Hr Hu Hrl Hul Hi He].
  simpl in *. unfold step; simpl. assert (Hf : first m = Some h) by (unfold first; by rewrite El).
  rewrite Hul, Hf.
  destruct (deref_owned _ _ h Ho) as (o' & Hd & Eo'); [by apply first_owned|]. rewrite Hd. simpl.
  destruct q as [q'|]; [left|right; by split; [right|]].
  destruct (prepare_step m r u rl _ (V_set n v (Some h) (Some q')) ii e q' (fun _ => o') h o Hinv)
    as (m' & Ha & Hf' & Hinv'); try done.
  { intros m' l. unfold lprot. tauto. }
  rewrite Ha. simpl. eexists; split; [reflexivity|]. apply Hinv'. simpl.
  rewrite Hf'. eauto.
Qed.

Lemma updater_list_replace m r u rl n v p q ii e :
  inv (mk_rcu m r u rl (V_replace n v p q) ii e) -> goes_on T_updater_list (mk_rcu m r u rl (V_replace n v p q) ii e).
Proof using gp_safe.
  intros Hinv. pose proof Hinv as [Ho Hp (h & o & El & Eo & Hn) Hr Hu Hrl Hul Hi He].
  simpl in *. unfold step; simpl. assert (Hf : first m = Some h) by (unfold first; by rewrite El).
  destruct Hul as [-> [q' ->]]. unfold list_replace_rcu. rewrite Hf.
  destruct (deref_owned _ _ h Ho) as (o' & Hd & Eo'); [by apply first_owned|].
  assert (o' = o) as -> by congruence. rewrite Hd. simpl.
  pose proof (prepared m r u rl _ ii e q' Ho eq_refl) as Ho'.
  destruct (owns_lookup _ _ q' Ho') as [oq Eoq]; [left|].
  destruct (private_write q' (set_next (next o)) _ _ _ Ho' Eoq) as (Ha & Hown & Hother).
  rewrite Ha. simpl. eexists; split; [reflexivity|].
  apply (updater_list_frame _ _ _ Hinv); simpl; try done.
  + eapply owns_same; [..|eapply owns_proper; [|exact Hown]]; [done|done|].
    unfold owned, first; simpl. rewrite El. simpl. solve_Permutation.
  + exists q', (set_next (next o) oq). by rewrite lookup_insert_eq.
  + intros l _ [(o' & E' & Hn') [H|[]]]. split; [|right; simpl; congruence].
    exists o'. split; [|done]. apply (Hother l o'); [|done]. by apply first_owned.
Qed.

Lemma updater_list_free m r u rl n v p ii e :
  inv (mk_rcu m r u rl (V_free n v p) ii e) -> goes_on T_updater_list (mk_rcu m r u rl (V_free n v p) ii e).
Proof using gp_safe.
  intros Hinv. pose proof Hinv as [Ho Hp (h & o & El & Eo & Hn) Hr Hu Hrl Hul Hi He].
  simpl in *. unfold step; simpl. assert (Hf : first m = Some h) by (unfold first; by rewrite El).
  destruct Hul as [l ->].
  pose proof (prepared m r u rl _ ii e l Ho eq_refl) as Ho'.
  destruct (kfree_owned _ _ _ Ho') as [Hk Hown]. rewrite Hk. simpl.
  eexists; split; [reflexivity|].
  assert (Hkeep : forall l' o', l' ∈ owned (mk_rcu m r u rl (V_loop 0 0) ii e) ->
    heap m !! l' = Some o' -> delete l (heap m) !! l' = Some o').
  { intros l' o' Hl' E'. rewrite lookup_delete_ne; [done|]. by eapply owns_head. }
  apply (updater_list_frame _ _ _ Hinv); simpl; try done.
  + exists h, o. split_and!; try done. apply Hkeep; [by apply first_owned|done].
  + intros l' _ [(o' & E' & Hn') [H|[]]]. split; [|by left].
    exists o'. split; [|done]. apply Hkeep; [by apply first_owned|done].
Qed.

Lemma updater_list_step s : inv s -> goes_on_or_misses T_updater_list s.
Proof using gp_safe.
  intros Hinv. pose proof Hinv as [Ho Hp Hl Hr Hu Hrl Hul Hi He].
  destruct s as [m r u rl ul ii e]; simpl in *. unfold step; simpl.
  destruct Hl as (h & o & El & Eo & Hn).
  assert (Hf : first m = Some h) by (unfold first; by rewrite El).
  destruct ul as [|[|n] v|n v p|n v p q|n v p q|n v p q|n v p q|n v p|n v p|n v p|]; simpl in *.
  5: by apply updater_list_copy.
  all: left.
  1,2,11: eexists; split; [reflexivity|]; by split; eauto.
  - (* list_first_or_null_rcu *)
    eexists; split; [reflexivity|]. apply (updater_list_frame _ _ _ Hinv); simpl; eauto.
  - by apply updater_list_alloc.
  - (* q->a = value *)
    destruct Hul as [-> [q' ->]].
    destruct (prepare_step m r u rl _ (V_replace n v (first m) (Some q')) ii e q' (set_a v) h o Hinv)
      as (m' & Ha & Hf' & Hinv'); try done.
    { intros m' l. unfold lprot. tauto. }
    rewrite Ha. simpl. eexists; split; [reflexivity|]. apply Hinv'. simpl.
    rewrite Hf'. eauto.
  - by apply updater_list_replace.
  - (* pr_info *)
    destruct Hul as [-> Hp']. rewrite Hf.
    destruct (deref_owned _ _ h Ho) as (o' & Hd & _); [by apply first_owned|].
    rewrite Hd. simpl. eexists; split; [reflexivity|].
    apply (updater_list_frame _ _ _ Hinv); simpl; eauto.
  - (* synchronize_rcu *)
    eexists; split; [reflexivity|].
    apply (updater_list_frame _ _ _ Hinv); simpl; eauto.
    intros l Hin [Hc H]. split; [done|]. destruct H as [H|H]; [by left|right]. eauto.
  - destruct Hul as [Hp' [w Ew]]. rewrite Ew.
    destruct (gp_over w) eqn:Eg; simpl; [apply gp_safe in Eg as ->|by eexists].
    eexists; split; [reflexivity|].
    apply (updater_list_frame _ _ _ Hinv); simpl; eauto.
    intros l _ [Hc H]. split; [done|]. destruct H as [H|(_ & w' & Hw' & Hin)]; [by left|].
    rewrite Ew in Hw'. injection Hw' as <-. set_solver.
  - by apply updater_list_free.
Qed.

(** Every step but those of unloading. *)
Lemma step_inv t s : t <> T_exit -> inv s -> goes_on_or_misses t s.
Proof using gp_safe.
  intros Ht Hinv. destruct t; try done.
  - left. exists s. split; [|done]. simpl. unfold rcu_test_init. by rewrite (inv_ini _ Hinv).
  - left. by apply reader_step.
  - by apply updater_step.
  - left. by apply reader_list_step.
  - by apply updater_list_step.
  - left. by apply callback_step.
Qed.

(** Only a failed allocation makes an object missing. *)
Lemma step_blamed t s s' :
  t <> T_exit -> ini s = I_done -> blamed alloc_ok s -> step gp_over alloc_ok t s = inr s' ->
  blamed alloc_ok s'.
Proof using.
  intros Ht Hini Hb Hs.
  pose proof (kzalloc_None alloc_ok) as Hk.
  unfold blamed, missing in *. destruct s as [m r u rl ul ii e]; simpl in *. subst ii.
  destruct t; try done; unfold step in Hs; simpl in Hs.
  - by injection Hs as <-.
  - apply fault_bind_inr in Hs as ([m' pc] & _ & [= <-]). exact Hb.
  - apply fault_bind_inr in Hs as ([m' pc] & Hu & [= <-]). simpl. intros [Hm|Hm]; [|by auto].
    destruct u as [|[|n] v|n v new|n v new old|n v new old|n v new old|n v new old|n v old|];
      simpl in Hu; try (repeat (apply fault_bind_inr in Hu as (? & _ & Hu))); simplify_eq/=; auto.
    destruct (kzalloc alloc_ok m) as [[q|] m1] eqn:E; simplify_eq/=; eauto.
  - apply fault_bind_inr in Hs as ([m' pc] & _ & [= <-]). exact Hb.
  - apply fault_bind_inr in Hs as ([m' pc] & Hu & [= <-]). simpl. intros [Hm|Hm]; [by auto|].
    destruct ul as [|[|n] v|n v p|n v p q|n v p q|n v p q|n v p q|n v p|n v p|n v p|];
      simpl in Hu; try (repeat (apply fault_bind_inr in Hu as (? & _ & Hu))); simplify_eq/=; auto.
    + destruct (kzalloc alloc_ok m) as [[x|] m1] eqn:E; simplify_eq/=; eauto.
    + repeat case_match; by simplify_eq/=.
  - destruct e.
    1-3: apply fault_bind_inr in Hs as (m' & _ & [= <-]); exact Hb.
    destruct (callbacks m !! i) as [[l w]|].
    + destruct (gp_over w); [done|]. injection Hs as <-. exact Hb.
    + apply fault_bind_inr in Hs as (m' & _ & [= <-]). exact Hb.
Qed.

(** What holds while the module is loaded, and how a schedule can end: with the
    invariant, or at the NULL of an allocation that failed. *)
Definition ginv (s : rcu) : Prop := inv s /\ blamed alloc_ok s.

Lemma step_ginv t s :
  t <> T_exit -> ginv s ->
  (exists s', step gp_over alloc_ok t s = inr s' /\ ginv s') \/
  step gp_over alloc_ok t s = inl NullDeref /\ exists n, alloc_ok n = false.
Proof using gp_safe.
  intros Ht [Hinv Hb]. destruct (step_inv t s Ht Hinv) as [(s' & Hs & Hinv')|[Hm Hs]].
  - left. exists s'. split; [done|]. split; [done|]. by eapply step_blamed; [|apply Hinv|..].
  - right. auto.
Qed.

Lemma run_ginv sched s :
  T_exit ∉ sched -> ginv s ->
  (exists s', run gp_over alloc_ok sched s = inr s' /\ ginv s') \/
  run gp_over alloc_ok sched s = inl NullDeref /\ exists n, alloc_ok n = false.
Proof using gp_safe.
  revert s. induction sched as [|t sched IH]; intros s Hx Hi; [left; by exists s|].
  apply not_elem_of_cons in Hx as [Ht Hx]. simpl.
  destruct (step_ginv t s (not_eq_sym Ht) Hi) as [(s1 & -> & Hi1)|[-> Hn]]; [by apply IH|].
  by right.
Qed.

(** When nothing is missing for want of memory the steps go on. *)
Lemma step_goes_on t s :
  (forall n, alloc_ok n = true) -> t <> T_exit -> ginv s ->
  exists s', step gp_over alloc_ok t s = inr s' /\ ginv s'.
Proof using gp_safe.
  intros Ha Ht Hi. destruct (step_ginv t s Ht Hi) as [H|[_ [n Hn]]]; [done|]. by rewrite Ha in Hn.
Qed.
End steps.
