(* ===== verification/RcuProgress.v ===== *)
(** * Read-copy update: progress

    The grace periods wait only for readers that are inside a critical section
    now, and every step does some of the work that is left; so the threads and
    the callbacks can always run to their end. *)

From S2P Require Export RcuInv.

Definition reader_critical (pc : reader_pc) : Prop :=
  match pc with R_locked _ | R_have _ _ | R_unlock _ => True | _ => False end.
Definition reader_list_critical (pc : reader_list_pc) : Prop :=
  match pc with L_locked _ | L_at _ _ | L_next _ _ | L_unlock _ => True | _ => False end.

Record waits (s : rcu) : Prop := {
  w_started : reader s <> R_idle /\ updater s <> U_idle /\
    reader_l s <> L_idle /\ updater_l s <> V_idle;
  w_ptr : ptr_reader ∈ inside (mem s) -> reader_critical (reader s);
  w_list : list_reader ∈ inside (mem s) -> reader_list_critical (reader_l s);
  w_callbacks : forall l w, (l, w) ∈ callbacks (mem s) -> w ⊆ inside (mem s);
  w_sync : forall w, sync (mem s) = Some w -> w ⊆ inside (mem s);
}.

(** ** The work that is left *)

Definition reader_work (pc : reader_pc) : nat :=
  match pc with
  | R_idle | R_done => 0
  | R_loop n => 4 * n + 1
  | R_locked n => 4 * n + 4
  | R_have n _ => 4 * n + 3
  | R_unlock n => 4 * n + 2
  end.
Definition updater_work (pc : updater_pc) : nat :=
  match pc with
  | U_idle | U_done => 0
  | U_loop n _ => 9 * n + 1
  | U_new n _ _ => 9 * n + 9
  | U_old n _ _ _ => 9 * n + 8
  | U_copied n _ _ _ => 9 * n + 7
  | U_filled n _ _ _ => 9 * n + 6
  | U_published n _ _ _ => 9 * n + 5
  | U_call n _ _ => 9 * n + 4
  end.
Definition reader_list_work (pc : reader_list_pc) : nat :=
  match pc with
  | L_idle | L_done => 0
  | L_loop n => 6 * n + 1
  | L_locked n => 6 * n + 6
  | L_at n Head => 6 * n + 3
  | L_at n _ => 6 * n + 5
  | L_next n _ => 6 * n + 4
  | L_unlock n => 6 * n + 2
  end.
Definition updater_list_work (pc : updater_list_pc) : nat :=
  match pc with
  | V_idle | V_done => 0
  | V_loop n _ => 9 * n + 1
  | V_first n _ _ => 9 * n + 9
  | V_copy n _ _ _ => 9 * n + 8
  | V_set n _ _ _ => 9 * n + 7
  | V_replace n _ _ _ => 9 * n + 6
  | V_print n _ _ _ => 9 * n + 5
  | V_sync n _ _ => 9 * n + 4
  | V_wait n _ _ => 9 * n + 3
  | V_free n _ _ => 9 * n + 2
  end.
Definition work (s : rcu) : nat :=
  reader_work (reader s) + updater_work (updater s) + reader_list_work (reader_l s) +
  updater_list_work (updater_l s) + length (callbacks (mem s)).

(** Every thread has returned and nothing waits for a grace period. *)
Definition quiescent (s : rcu) : Prop :=
  reader s = R_done /\ updater s = U_done /\ reader_l s = L_done /\ updater_l s = V_done /\
  callbacks (mem s) = [].

Section progress.
Context (gp_over : gset reader_id -> bool) (alloc_ok : nat -> bool).
Hypothesis gp_safe : forall w, gp_over w = true -> w = ∅.
Hypothesis gp_live : gp_over ∅ = true.

(** Reduce a successful step to the cases of its code. *)
Ltac step_cases H :=
  unfold step, rcu_reader, rcu_updater, rcu_reader_list, rcu_updater_list, rcu_reclaimer,
    rcu_test_init, rcu_test_exit, list_replace_rcu, call_rcu, deref, assign, kfree, kzalloc,
    mbind, fault_bind in H;
  repeat (case_match; simplify_eq/=; try done).

(** The set facts of the critical sections. *)
Ltac waits_tac :=
  try match goal with
  | |- _ ∈ {[ _ ]} ∪ _ -> _ => intros [?%elem_of_singleton|?]%elem_of_union; [done|by eauto]
  | |- _ ∈ _ ∖ {[ _ ]} -> _ => intros [? ?%not_elem_of_singleton]%elem_of_difference; by eauto
  | |- forall l w, _ ∈ _ <$> _ -> _ =>
      intros ? ? ([? ?] & [= -> ->] & ?)%list_elem_of_fmap; simpl; apply difference_mono_r; by eauto
  | |- forall w, _ <$> _ = Some w -> _ =>
      intros ? (? & ? & ->)%fmap_Some; apply difference_mono_r; by eauto
  | |- forall l w, _ ∈ _ ++ _ -> _ =>
      intros ? ? [?|[= -> ->]%list_elem_of_singleton]%elem_of_app; by eauto
  | |- forall l w, _ ∈ delete _ _ -> _ => intros ? ? ?%list_elem_of_delete_inv; by eauto
  | |- forall l w, _ -> _ ⊆ _ ∪ _ => intros ? ? ?; apply union_subseteq_r'; by eauto
  | |- forall w, _ -> _ ⊆ _ ∪ _ => intros ? ?; apply union_subseteq_r'; by eauto
  | |- forall w, Some _ = Some w -> _ => by intros ? [= <-]
  end.

Lemma step_waits t s s' :
  inv s -> t <> T_exit -> waits s -> step gp_over alloc_ok t s = inr s' -> waits s'.
Proof using gp_safe.
  intros Hinv Ht [[H1 [H2 [H3 H4]]] Hp Hl Hc Hs] Hstep.
  pose proof (inv_ini _ Hinv) as Hi. pose proof (inv_ex _ Hinv) as He.
  destruct s as [m r u rl ul i e]; simpl in *. subst i e.
  destruct t; try done; step_cases Hstep; split; simpl in *; try done; waits_tac; eauto.
  all: by match goal with H : sync _ = _ |- _ => rewrite H end.
Qed.
(** When a task has nothing to do. *)
Definition stays (t : task) (s : rcu) : Prop :=
  match t with
  | T_init | T_exit => True
  | T_reader => reader s = R_done \/ reader s = R_idle
  | T_updater => updater s = U_done \/ updater s = U_idle
  | T_reader_list => reader_l s = L_done \/ reader_l s = L_idle
  | T_updater_list => updater_l s = V_done \/ updater_l s = V_idle \/
      exists n v p, updater_l s = V_wait n v p /\
        forall w, sync (mem s) = Some w -> gp_over w = false
  | T_callback i => forall l w, callbacks (mem s) !! i = Some (l, w) -> gp_over w = false
  end.

Ltac work_tac :=
  first [ by right; split; [|by auto]
        | by right; split; [|simpl; do 2 right; eexists _, _, _; split; [done|]; intros; congruence]
        | by right; split; [|simpl; intros; congruence]
        | left; unfold work; simpl; rewrite ?length_app, ?length_fmap; simpl; lia ].

(** Every step does some of the work, or has nothing to do. *)
Lemma step_work t s s' :
  inv s -> t <> T_exit -> step gp_over alloc_ok t s = inr s' ->
  (work s' < work s)%nat \/ s' = s /\ stays t s.
Proof using.
  intros Hinv Ht Hstep.
  pose proof (inv_ini _ Hinv) as Hi. pose proof (inv_ex _ Hinv) as He.
  pose proof (inv_reader_l _ Hinv) as Hrl.
  destruct s as [m r u rl ul i e]; simpl in *. subst i e.
  destruct t; try done.
  - step_cases Hstep. by right.
  - step_cases Hstep; work_tac.
  - step_cases Hstep; work_tac.
  - destruct rl as [|[|n]|n|n [| |l]|n p|n|]; simpl in Hrl.
    5: by destruct Hrl as [_ [?|(l & ? & _)]].
    7: { destruct Hrl as (_ & l & -> & (o & Eo & Hn) & _).
         unfold step, rcu_reader_list, deref in Hstep. simpl in Hstep. rewrite Eo in Hstep.
         simplify_eq/=. rewrite Hn. work_tac. }
    all: step_cases Hstep; try work_tac. left. unfold work. simpl. destruct (g_rcu_list m); lia.
  - step_cases Hstep; work_tac.
  - unfold step in Hstep. simpl in Hstep. step_cases Hstep; try work_tac.
    left. unfold work. simpl.
    match goal with H : callbacks m !! i = _ |- _ =>
      pose proof (lookup_lt_Some _ _ _ H); rewrite length_delete by (by rewrite H) end. lia.
Qed.

(** Until everything is finished some task has something to do. *)
Lemma not_stuck s :
  inv s -> waits s -> quiescent s \/ exists t, t <> T_exit /\ ~ stays t s.
Proof using gp_live.
  intros Hinv [(H1 & H2 & H3 & H4) Hp Hl Hc Hs].
  assert (Hr : reader s = R_done \/ reader s <> R_done) by (destruct (reader s); auto).
  destruct Hr as [Hr|Hr]; [|right; exists T_reader; split; [done|]; by intros [?|?]].
  assert (Hrl : reader_l s = L_done \/ reader_l s <> L_done) by (destruct (reader_l s); auto).
  destruct Hrl as [Hrl|Hrl]; [|right; exists T_reader_list; split; [done|]; by intros [?|?]].
  rewrite Hr in Hp. rewrite Hrl in Hl. simpl in Hp, Hl.
  assert (Hempty : forall w, w ⊆ inside (mem s) -> w = ∅).
  { intros w Hw. apply leibniz_equiv, elem_of_equiv_empty. intros [] ?; eauto. }
  assert (Hu : updater s = U_done \/ updater s <> U_done) by (destruct (updater s); auto).
  destruct Hu as [Hu|Hu]; [|right; exists T_updater; split; [done|]; by intros [?|?]].
  assert (Hul : updater_l s = V_done \/ updater_l s <> V_done) by (destruct (updater_l s); auto).
  destruct Hul as [Hul|Hul].
  - destruct (callbacks (mem s)) as [|[l w] c] eqn:Ec; [by left; split_and!|right].
    exists (T_callback 0). split; [done|]. simpl. rewrite Ec. intros H.
    specialize (H l w eq_refl). rewrite (Hempty w), gp_live in H; [done|]. apply (Hc l). left.
  - right. exists T_updater_list. split; [done|]. intros [?|[?|(n & v & p & E & H)]]; [done|done|].
    pose proof (inv_updater_l _ Hinv) as Hw. rewrite E in Hw. destruct Hw as [_ [w Ew]].
    specialize (H w Ew). by rewrite (Hempty w (Hs w Ew)), gp_live in H.
Qed.

Lemma missing_work s : missing s -> (1 <= work s)%nat.
Proof using.
  unfold missing, work. intros [H|H]; [destruct (updater s)|destruct (updater_l s)]; simpl; try done; lia.
Qed.

(** From every reachable state the threads and the callbacks can run to their
    end, or to the NULL of an allocation that failed, in at most as many steps
    as there is work left. *)
Lemma finishes s :
  ginv alloc_ok s -> waits s ->
  exists sched, T_exit ∉ sched /\ (length sched <= work s)%nat /\
    ((exists s', run gp_over alloc_ok sched s = inr s' /\ quiescent s') \/
     run gp_over alloc_ok sched s = inl NullDeref /\ exists n, alloc_ok n = false).
Proof using gp_safe gp_live.
  remember (work s) as n eqn:En. revert s En.
  induction n as [n IH] using lt_wf_ind. intros s -> Hg Hw. pose proof Hg as [Hinv _].
  destruct (not_stuck s Hinv Hw) as [Hq|(t & Ht & Hst)].
  { exists []. split; [apply not_elem_of_nil|]. split; [simpl; lia|]. left. by exists s. }
  destruct (step_ginv gp_over alloc_ok gp_safe t s Ht Hg) as [(s1 & Hs & Hg1)|[Hs Hn]].
  2: { exists [t]. split; [apply not_elem_of_cons; split; [by apply not_eq_sym|apply not_elem_of_nil]|].
       split; [|right; simpl; by rewrite Hs].
       destruct (step_inv gp_over alloc_ok gp_safe t s Ht Hinv) as [(s' & Hs' & _)|[Hm _]];
         [congruence|]. by apply missing_work. }
  pose proof (step_waits t s s1 Hinv Ht Hw Hs) as Hw1.
  destruct (step_work t s s1 Hinv Ht Hs) as [Hlt|[_ ?]]; [|done].
  destruct (IH (work s1) Hlt s1 eq_refl Hg1 Hw1) as (sched & Hx & Hlen & Hend).
  exists (t :: sched). split; [apply not_elem_of_cons; split; [by apply not_eq_sym|done]|].
  split; [simpl; lia|]. simpl. by rewrite Hs.
Qed.

Lemma run_waits sched s s' :
  T_exit ∉ sched -> ginv alloc_ok s -> waits s -> run gp_over alloc_ok sched s = inr s' ->
  ginv alloc_ok s' /\ waits s' /\ (work s' <= work s)%nat.
Proof using gp_safe.
  revert s. induction sched as [|t sched IH]; intros s Hx Hg Hw Hr; [by simplify_eq/=|].
  apply not_elem_of_cons in Hx as [Ht Hx]. apply not_eq_sym in Ht. pose proof Hg as [Hinv _].
  simpl in Hr. apply fault_bind_inr in Hr as (s1 & Hs & Hr).
  destruct (step_ginv gp_over alloc_ok gp_safe t s Ht Hg) as [(s1' & Hs' & Hg1)|[Hs' _]];
    [|congruence]. assert (s1' = s1) as -> by congruence.
  destruct (IH s1 Hx Hg1 (step_waits _ _ _ Hinv Ht Hw Hs) Hr) as (Hg' & Hw' & Hle).
  split; [done|]. split; [done|].
  destruct (step_work t s s1 Hinv Ht Hs) as [?|[-> _]]; lia.
Qed.
End progress.
