(* ===== verification/RcuTheorems.v ===== *)
(** * Read-copy update: the theorems *)

From S2P Require Export RcuProgress.

(** The module loaded before any of its threads wakes up: [g_pfoo] is object 0,
    the list holds object 1. *)
Definition loaded : rcu :=
  mk_rcu (mk_shared {[ 0%nat := mk_foo 0 Null; 1%nat := mk_foo 0 Head ]} 2 (Some 0%nat)
            (Node 1) [] None ∅ [])
    (R_loop 2) (U_loop 2 1) (L_loop 2) (V_loop 2 1000) I_done E_idle.

Lemma load_run gp_over alloc_ok :
  alloc_ok 0%nat = true -> alloc_ok 1%nat = true ->
  run gp_over alloc_ok init_schedule unloaded = inr loaded.
Proof. intros H0 H1. vm_compute. rewrite H0. vm_compute. rewrite H1. reflexivity. Qed.

Lemma loaded_inv : inv loaded.
Proof.
  split; simpl; try done.
  - split_and!.
    + repeat constructor; set_solver.
    + intros l. unfold owned, first. simpl. rewrite <- elem_of_dom.
      rewrite dom_insert, dom_singleton. set_solver.
    + intros l. unfold owned, first. simpl.
      intros [->|[->|Hl]%elem_of_cons]%elem_of_cons; [lia|lia|by apply not_elem_of_nil in Hl].
  - by exists 1%nat, (mk_foo 0 Head).
Qed.

Lemma loaded_ginv alloc_ok : ginv alloc_ok loaded.
Proof. split; [apply loaded_inv|]. by intros [[]|[]]. Qed.

Lemma loaded_waits : waits loaded.
Proof. split; simpl; try done; set_solver. Qed.

(** At the end only the current object and the element of the list are left. *)
Lemma quiescent_heap s :
  inv s -> quiescent s ->
  exists p q, p <> q /\ g_pfoo (mem s) = Some p /\ g_rcu_list (mem s) = Node q /\
    dom (heap (mem s)) = {[ p; q ]}.
Proof.
  intros [(Hn & Hd & _) [p Hp] (q & o & El & _) _ _ _ _ _ _] (Hr & Hu & Hrl & Hul & Hc).
  unfold owned, first in *. rewrite Hp, El, Hu, Hul, Hc in *. simpl in *.
  exists p, q. split_and!; try done.
  - intros ->. apply NoDup_cons in Hn as [Hn _]. apply Hn. left.
  - apply leibniz_equiv. intros l. rewrite elem_of_dom, Hd. set_solver.
Qed.

(** C4: With the two objects of [rcu_test_init] allocated and the module loaded before
    its threads wake up, no schedule of the four threads and of the callbacks
    (unloading apart) ever reaches freed memory: an object is freed only when no
    reader can still hold it.  The only way to stop is the NULL that an updater
    gets, and does not check, when one of its later allocations fails.  And once
    all of them are finished nothing has leaked: what is left is the current
    object and the element of the list. *)
Theorem rcu_safe gp_over alloc_ok sched :
  (forall w, gp_over w = true -> w = ∅) -> alloc_ok 0%nat = true -> alloc_ok 1%nat = true ->
  T_exit ∉ sched ->
  (exists s, run gp_over alloc_ok (init_schedule ++ sched) unloaded = inr s /\
     (quiescent s -> exists p q, p <> q /\ g_pfoo (mem s) = Some p /\
        g_rcu_list (mem s) = Node q /\ dom (heap (mem s)) = {[ p; q ]})) \/
  run gp_over alloc_ok (init_schedule ++ sched) unloaded = inl NullDeref /\
    exists n, alloc_ok n = false.
Proof.
  intros Hgp H0 H1 Hx. rewrite steps_app, load_run by done. simpl.
  destruct (run_ginv gp_over alloc_ok Hgp sched loaded Hx (loaded_ginv _))
    as [(s & Hr & Hinv & _)|H]; [left|by right].
  exists s. split; [done|]. by apply quiescent_heap.
Qed.

(** C21: Loaded as in C4, and whatever has been scheduled since, at most 60 more steps
    bring every thread and every callback to its end, or an updater to the NULL
    of an allocation that failed; so to the end when none fails. *)
Theorem rcu_terminates gp_over alloc_ok sched s :
  (forall w, gp_over w = true -> w = ∅) -> gp_over ∅ = true ->
  alloc_ok 0%nat = true -> alloc_ok 1%nat = true ->
  T_exit ∉ sched -> run gp_over alloc_ok (init_schedule ++ sched) unloaded = inr s ->
  exists more, T_exit ∉ more /\ (length more <= 60)%nat /\
    ((exists s', run gp_over alloc_ok more s = inr s' /\ quiescent s') \/
     run gp_over alloc_ok more s = inl NullDeref /\ exists n, alloc_ok n = false).
Proof.
  intros Hgp Hlive H0 H1 Hx. rewrite steps_app, load_run by done. simpl. intros Hr.
  destruct (run_waits gp_over alloc_ok Hgp sched loaded s Hx (loaded_ginv _) loaded_waits Hr)
    as (Hg & Hw & Hle).
  destruct (finishes gp_over alloc_ok Hgp Hlive s Hg Hw) as (more & Hxm & Hlen & Hend).
  exists more. split; [done|]. split; [|done]. etrans; [exact Hlen|]. etrans; [exact Hle|].
  vm_compute. lia.
Qed.

(** An updater that gets no memory follows NULL in the step that copies the old
    object. *)
Theorem rcu_without_memory gp_over alloc_ok :
  alloc_ok 0%nat = true -> alloc_ok 1%nat = true -> alloc_ok 2%nat = false ->
  run gp_over alloc_ok (init_schedule ++ replicate 3 T_updater) unloaded = inl NullDeref /\
  run gp_over alloc_ok (init_schedule ++ replicate 3 T_updater_list) unloaded = inl NullDeref.
Proof.
  intros H0 H1 H2. rewrite !steps_app, load_run by done. cbn [mbind fault_bind]. split.
  - cbn. unfold kzalloc. cbn. by rewrite H2.
  - cbn. unfold kzalloc. cbn. by rewrite H2.
Qed.

(** The threads are started before the data they work on is set up: a thread
    that runs before [rcu_test_init] has gone on follows NULL, through [g_pfoo]
    or as the first element of the empty list. *)
Theorem rcu_load_race gp_over alloc_ok :
  run gp_over alloc_ok ([T_init] ++ replicate 3 T_reader) unloaded = inl NullDeref /\
  run gp_over alloc_ok (replicate 2 T_init ++ replicate 3 T_updater) unloaded = inl NullDeref /\
  run gp_over alloc_ok (replicate 4 T_init ++ replicate 3 T_updater_list) unloaded = inl NullDeref.
Proof. split_and!; reflexivity. Qed.

(** A grace period that ends as soon as it may. *)
Definition prompt (w : gset reader_id) : bool := bool_decide (w = ∅).

(** [rcu_test_exit] frees the objects before it stops the threads, and does not
    wait for the callbacks: a reader that holds [g_pfoo] reads freed memory,
    so does the reader of the list, and a callback that runs after the module
    is gone calls unmapped code. *)
Theorem rcu_unload_races gp_over alloc_ok :
  (forall n, alloc_ok n = true) ->
  run gp_over alloc_ok (init_schedule ++ [T_reader; T_reader; T_exit; T_reader]) unloaded =
    inl UseAfterFree /\
  run gp_over alloc_ok (init_schedule ++ [T_reader_list; T_reader_list; T_exit; T_exit;
    T_reader_list]) unloaded = inl UseAfterFree /\
  run prompt (fun _ => true) (init_schedule ++ replicate 9 T_reader ++
    replicate 13 T_reader_list ++ replicate 19 T_updater ++ replicate 19 T_updater_list ++
    replicate 6 T_exit ++ [T_callback 0]) unloaded = inl UnloadedCode.
Proof.
  intros Ha. pose proof (Ha 0%nat). pose proof (Ha 1%nat).
  split_and!; [by rewrite steps_app, load_run by done..|vm_compute; reflexivity].
Qed.

(** ** Witnesses *)

Lemma prompt_safe w : prompt w = true -> w = ∅.
Proof. by intros ?%bool_decide_eq_true. Qed.

(** The second allocation after loading would fail. *)
Definition one_less (n : nat) : bool := negb (n =? 3)%nat.

Lemma rcu_safe_witness :
  exists s, run prompt one_less (init_schedule ++ [T_reader; T_updater; T_reader]) unloaded = inr s.
Proof.
  destruct (rcu_safe prompt one_less [T_reader; T_updater; T_reader]) as [(s & Hr & _)|[Hr _]].
  - exact prompt_safe.
  - reflexivity.
  - reflexivity.
  - intros H. repeat (apply elem_of_cons in H as [H|H]; [discriminate H|]). by apply not_elem_of_nil in H.
  - exists s. exact Hr.
  - vm_compute in Hr. discriminate Hr.
Defined.

Lemma rcu_terminates_witness :
  exists s more, run prompt (fun _ => true) (init_schedule ++ [T_updater; T_reader]) unloaded = inr s /\
    (length more <= 60)%nat /\ exists s', run prompt (fun _ => true) more s = inr s' /\ quiescent s'.
Proof.
  destruct (run prompt (fun _ => true) (init_schedule ++ [T_updater; T_reader]) unloaded) as [f|s] eqn:E;
    [vm_compute in E; discriminate E|].
  destruct (rcu_terminates prompt (fun _ => true) [T_updater; T_reader] s)
    as (more & _ & Hl & [H|[_ [n Hn]]]).
  - exact prompt_safe.
  - reflexivity.
  - reflexivity.
  - reflexivity.
  - intros H. repeat (apply elem_of_cons in H as [H|H]; [discriminate H|]). by apply not_elem_of_nil in H.
  - exact E.
  - exists s, more. split; [reflexivity|]. split; [exact Hl|exact H].
  - discriminate Hn.
Defined.

Lemma rcu_unload_races_witness :
  run prompt (fun _ => true) (init_schedule ++ [T_reader; T_reader; T_exit; T_reader]) unloaded =
    inl UseAfterFree.
Proof. exact (proj1 (rcu_unload_races prompt (fun _ => true) (fun _ => eq_refl))). Defined.
