(* ===== verification/RcuOrder.v ===== *)
(** * Read-copy update: the order of what readers see

    The updaters publish larger and larger values.  A reader may hold an old
    object while new ones are published, but what it prints never goes back:
    the values it prints are in the order in which they were published. *)

From Stdlib Require Export Sorted.
From S2P Require Export RcuTheorems.

#[local] Open Scope Z_scope.

(** ** Chains

    [cur] is the published value, [held] the value of the object a reader holds,
    [vals] what it has printed, newest first. *)
Record chain (cur held : option Z) (vals : list Z) : Prop := {
  ch_sorted : StronglySorted Z.ge vals;
  ch_cur : forall c, cur = Some c -> Forall (fun x => x <= c) vals;
  ch_held : forall h, held = Some h ->
    Forall (fun x => x <= h) vals /\ forall c, cur = Some c -> h <= c;
}.

(** Losing sight of a value. *)
Lemma chain_weaken cur cur' held held' vals :
  (forall c, cur' = Some c -> cur = Some c) -> (forall h, held' = Some h -> held = Some h) ->
  chain cur held vals -> chain cur' held' vals.
Proof.
  intros Hc Hh [H1 H2 H3]. split; [done|eauto|].
  intros h Eh. destruct (H3 h (Hh h Eh)) as [H4 H5]. eauto.
Qed.

(** The reader loads the pointer. *)
Lemma chain_take cur held vals : chain cur held vals -> chain cur cur vals.
Proof. intros [H1 H2 H3]. split; [done..|]. intros h Eh. split; [eauto|]. intros c Ec. simplify_eq. lia. Qed.

(** It prints what it holds. *)
Lemma chain_print cur h vals : chain cur (Some h) vals -> chain cur (Some h) (h :: vals).
Proof.
  intros [H1 H2 H3]. destruct (H3 h eq_refl) as [H4 H5]. split.
  - constructor; [done|]. eapply Forall_impl; [exact H4|]. simpl. lia.
  - intros c Ec. constructor; eauto.
  - intros h' [= <-]. split; [|done]. constructor; [lia|done].
Qed.

(** A larger value is published. *)
Lemma chain_publish c v held vals : c <= v -> chain (Some c) held vals -> chain (Some v) held vals.
Proof.
  intros Hv [H1 H2 H3]. split; [done| |].
  - intros ? [= <-]. eapply Forall_impl; [by apply (H2 c)|]. simpl. lia.
  - intros h Eh. destruct (H3 h Eh) as [H4 H5]. split; [done|]. intros ? [= <-].
    specialize (H5 c eq_refl). lia.
Qed.

(** ** The state *)

Definition printed (r : reader_id) (m : shared) : list Z :=
  snd <$> filter (fun x => x.1 = r) (log m).

Definition value_at (m : shared) (p : option nat) : option Z :=
  p ≫= (fun l => a <$> heap m !! l).

Definition held_p (pc : reader_pc) : option nat := match pc with R_have _ p => p | _ => None end.
Definition held_l (pc : reader_list_pc) : option nat :=
  match pc with L_at _ k => list_first_or_null_rcu k | L_next _ p => p | _ => None end.

(** The object an updater has not published yet. *)
Definition upd_new (pc : updater_pc) : option nat :=
  match pc with
  | U_new _ _ n | U_old _ _ n _ | U_copied _ _ n _ | U_filled _ _ n _ => n
  | _ => None
  end.
Definition updl_new (pc : updater_list_pc) : option nat :=
  match pc with V_copy _ _ _ q | V_set _ _ _ q | V_replace _ _ _ q => q | _ => None end.

(** The published value is below the next one, or is the one just published. *)
Definition upd_le (pc : updater_pc) (x : Z) : Prop :=
  match pc with
  | U_loop _ v | U_new _ v _ | U_old _ v _ _ | U_copied _ v _ _ | U_filled _ v _ _ => x < v
  | U_published _ v _ _ | U_call _ v _ => x <= v
  | _ => True
  end.
Definition updl_le (pc : updater_list_pc) (x : Z) : Prop :=
  match pc with
  | V_loop _ v | V_first _ v _ | V_copy _ v _ _ | V_set _ v _ _ | V_replace _ v _ _ => x < v
  | V_print _ v _ _ | V_sync _ v _ | V_wait _ v _ | V_free _ v _ => x <= v
  | _ => True
  end.

Record ord_p (s : rcu) : Prop := {
  op_chain : chain (value_at (mem s) (g_pfoo (mem s))) (value_at (mem s) (held_p (reader s)))
    (printed ptr_reader (mem s));
  op_cur : forall x, value_at (mem s) (g_pfoo (mem s)) = Some x -> upd_le (updater s) x;
  op_new : forall n v p o x, updater s = U_filled n v p o -> value_at (mem s) p = Some x -> x = v;
}.
Record ord_l (s : rcu) : Prop := {
  ol_chain : chain (value_at (mem s) (first (mem s))) (value_at (mem s) (held_l (reader_l s)))
    (printed list_reader (mem s));
  ol_cur : forall x, value_at (mem s) (first (mem s)) = Some x -> updl_le (updater_l s) x;
  ol_new : forall n v p q x, updater_l s = V_replace n v p q -> value_at (mem s) q = Some x -> x = v;
}.

Lemma printed_print r r' v m :
  printed r (print r' v m) = if decide (r' = r) then v :: printed r m else printed r m.
Proof.
  unfold printed. simpl. case_decide; [by rewrite filter_cons_True|by rewrite filter_cons_False].
Qed.

(** ** What a step does to the heap *)

Lemma deref_inv p m o : deref p m = inr o -> exists l, p = Some l /\ heap m !! l = Some o.
Proof. unfold deref. intros. repeat case_match; simplify_eq. eauto. Qed.

Lemma assign_inv p f m m' :
  assign p f m = inr m' ->
  exists l o, p = Some l /\ heap m !! l = Some o /\ m' = set_heap (<[l := f o]> (heap m)) m.
Proof. unfold assign. intros. repeat case_match; simplify_eq. eauto. Qed.

Lemma kfree_inv p m m' :
  kfree p m = inr m' -> m' = m \/ exists l, m' = set_heap (delete l (heap m)) m.
Proof. unfold kfree. intros. repeat case_match; simplify_eq; eauto. Qed.

(** Invert the accesses of a step that did not fault. *)
Ltac invert_access :=
  repeat match goal with
  | H : _ ≫= _ = inr _ |- _ =>
      let E := fresh "E" in
      destruct (fault_bind_inr _ _ _ H) as (? & E & ?); clear H; simpl in *
  | H : deref _ _ = inr _ |- _ => apply deref_inv in H as (? & ? & ?)
  | H : assign _ _ _ = inr _ |- _ => apply assign_inv in H as (? & ? & ? & ? & ->)
  end; simplify_eq/=.


Ltac heap_same :=
  repeat match goal with
  | H : kfree _ _ = inr _ |- _ => apply kfree_inv in H as [-> | [? ->]]; simpl in *
  | H : <[_ := _]> _ !! _ = Some _ |- _ => rewrite lookup_insert_ne in H by (congruence || lia)
  | H : delete _ _ !! _ = Some _ |- _ => apply lookup_delete_Some in H as [_ H]
  end; eauto.

Lemma step_heap gp_over alloc_ok t s s' l o' :
  t <> T_exit -> ini s = I_done -> step gp_over alloc_ok t s = inr s' ->
  heap (mem s') !! l = Some o' -> (l < nxt (mem s))%nat ->
  (t = T_updater -> upd_new (updater s) <> Some l) ->
  (t = T_updater_list -> updl_new (updater_l s) <> Some l) ->
  exists o, heap (mem s) !! l = Some o /\ a o = a o'.
Proof.
  intros Ht Hi Hstep Hl Hx Hu Hul. destruct s as [m r u rl ul i e]; simpl in *. subst i.
  destruct t; try (specialize (Hu eq_refl)); try (specialize (Hul eq_refl));
    [|destruct r as [|[|]| | | |]|destruct u as [|[|]| | | | | | |]|
    destruct rl as [|[|]| |? []| | |]|destruct ul as [|[|]| | | | | | | | |]| |done];
    simpl in Hstep;
    unfold rcu_test_init, list_replace_rcu, call_rcu, kzalloc, rcu_reclaimer in Hstep;
    repeat (invert_access; case_match); invert_access; heap_same.
Qed.

(** ** Published objects keep their value *)

Definition updl_old (pc : updater_list_pc) : option nat :=
  match pc with V_print _ _ p _ | V_sync _ _ p | V_wait _ _ p | V_free _ _ p => p | _ => None end.

(** The objects that are or have been published. *)
Definition public (s : rcu) : list nat :=
  olist (g_pfoo (mem s)) ++ olist (first (mem s)) ++ olist (upd_old (updater s)) ++
  olist (updl_old (updater_l s)) ++ (callbacks (mem s)).*1.

Lemma owned_public s :
  owned s ≡ₚ olist (upd_new (updater s)) ++ olist (updl_new (updater_l s)) ++ public s.
Proof.
  unfold owned, public. destruct s as [m r u rl ul i e]; simpl.
  assert (upd_owns u ≡ₚ olist (upd_new u) ++ olist (upd_old u)) as ->
    by (destruct u; simpl; by rewrite ?app_nil_r).
  assert (updl_owns ul ≡ₚ olist (updl_new ul) ++ olist (updl_old ul)) as ->
    by (destruct ul; simpl; by rewrite ?app_nil_r).
  solve_Permutation.
Qed.

Lemma elem_olist l p : l ∈ olist p <-> p = Some l.
Proof. destruct p; simpl; set_solver. Qed.

Section order.
Context (gp_over : gset reader_id -> bool) (alloc_ok : nat -> bool).
Hypothesis gp_safe : forall w, gp_over w = true -> w = ∅.
Hypothesis alloc_succeeds : forall n, alloc_ok n = true.

Lemma public_private s l :
  inv s -> l ∈ public s ->
  (l < nxt (mem s))%nat /\ upd_new (updater s) <> Some l /\ updl_new (updater_l s) <> Some l.
Proof using.
  intros [Ho _ _ _ _ _ _ _ _] Hl. rewrite owned_public in Ho. destruct Ho as (Hn & _ & Hx).
  split; [apply Hx; rewrite !elem_of_app; tauto|].
  rewrite !NoDup_app in Hn. destruct Hn as (_ & H1 & _ & H2 & _).
  split; intros E; [apply (H1 l)|apply (H2 l)]; rewrite ?elem_of_app, ?elem_olist; tauto.
Qed.

(** The objects an updater prepares are not the other's. *)
Lemma private_apart s l :
  inv s -> upd_new (updater s) = Some l \/ updl_new (updater_l s) = Some l ->
  (l < nxt (mem s))%nat /\
  ~ (upd_new (updater s) = Some l /\ updl_new (updater_l s) = Some l).
Proof using.
  intros [Ho _ _ _ _ _ _ _ _] Hl. rewrite owned_public in Ho. destruct Ho as (Hn & _ & Hx).
  split; [apply Hx; rewrite !elem_of_app, !elem_olist; tauto|].
  rewrite !NoDup_app in Hn. destruct Hn as (_ & H1 & _).
  intros [E1 E2]. apply (H1 l); rewrite ?elem_of_app, ?elem_olist; tauto.
Qed.

Lemma value_frame t s s' p x :
  inv s -> t <> T_exit -> step gp_over alloc_ok t s = inr s' ->
  (forall l, p = Some l -> (l < nxt (mem s))%nat /\
     (t = T_updater -> upd_new (updater s) <> Some l) /\
     (t = T_updater_list -> updl_new (updater_l s) <> Some l)) ->
  value_at (mem s') p = Some x -> value_at (mem s) p = Some x.
Proof using.
  intros Hinv Ht Hs Hp. destruct p as [l|]; [|done]. simpl.
  intros (o' & E' & ->)%fmap_Some. destruct (Hp l eq_refl) as (Hx & Hu & Hul).
  destruct (step_heap _ _ _ _ _ _ _ Ht (inv_ini _ Hinv) Hs E' Hx Hu Hul) as (o & E1 & E).
  simpl. by rewrite E1, <- E.
Qed.

(** What the readers hold has been published. *)
Lemma held_p_public s l : inv s -> held_p (reader s) = Some l -> l ∈ public s.
Proof using.
  intros Hinv. pose proof (inv_reader _ Hinv) as Hr. destruct (reader s); try done. simpl.
  intros ->. destruct Hr as (_ & l' & [= <-] & Hprot). unfold public.
  rewrite !elem_of_app, !elem_olist. destruct Hprot as [H | [H | (w & H & _)]]; [tauto..|].
  do 4 right. apply list_elem_of_fmap. by exists (l, w).
Qed.

Lemma held_l_public s l : inv s -> held_l (reader_l s) = Some l -> l ∈ public s.
Proof using.
  intros Hinv Hl. pose proof (inv_reader_l _ Hinv) as Hr.
  assert (lprot (mem s) (updater_l s) l) as [_ H].
  { destruct (reader_l s); try done; simpl in *; destruct Hr as (_ & Hr).
    - destruct Hr as [->|(l' & -> & H)]; [done|]. by injection Hl as <-.
    - destruct Hr as (l' & -> & H). by injection Hl as <-. }
  unfold public. rewrite !elem_of_app, !elem_olist. destruct H as [H|H]; [tauto|].
  destruct (updater_l s); try done; destruct_and?; subst; simpl; tauto.
Qed.

(** So its value, and that of what is published, stays through a step. *)
Lemma public_frame t s s' p x :
  inv s -> t <> T_exit -> step gp_over alloc_ok t s = inr s' ->
  (forall l, p = Some l -> l ∈ public s) ->
  value_at (mem s') p = Some x -> value_at (mem s) p = Some x.
Proof using.
  intros Hinv Ht Hs Hp. apply (value_frame t); try done. intros l E.
  destruct (public_private s l Hinv (Hp l E)) as (? & ? & ?). auto.
Qed.

Lemma g_public s l : g_pfoo (mem s) = Some l -> l ∈ public s.
Proof using. intros E. unfold public. rewrite !elem_of_app, !elem_olist. tauto. Qed.
Lemma first_public s l : first (mem s) = Some l -> l ∈ public s.
Proof using. intros E. unfold public. rewrite !elem_of_app, !elem_olist. tauto. Qed.

(** A step that does not publish, load, print or complete an object. *)
Lemma ord_p_frame t s s' :
  inv s -> ord_p s -> t <> T_exit -> step gp_over alloc_ok t s = inr s' ->
  g_pfoo (mem s') = g_pfoo (mem s) -> printed ptr_reader (mem s') = printed ptr_reader (mem s) ->
  (held_p (reader s') = None \/ held_p (reader s') = held_p (reader s)) ->
  (forall x, upd_le (updater s) x -> upd_le (updater s') x) ->
  ((t <> T_updater /\ updater s' = updater s) \/
   forall n v p o x, updater s' = U_filled n v p o -> value_at (mem s') p = Some x -> x = v) ->
  ord_p s'.
Proof using.
  intros Hinv [H1 H2 H3] Ht Hs Eg El Eh Hle Hnew.
  assert (Hg : forall x, value_at (mem s') (g_pfoo (mem s)) = Some x ->
    value_at (mem s) (g_pfoo (mem s)) = Some x).
  { intros x. apply (public_frame t); try done. by apply g_public. }
  split.
  - rewrite Eg, El. eapply chain_weaken; [exact Hg| |exact H1]. intros h.
    destruct Eh as [-> | ->]; [done|]. apply (public_frame t); try done.
    intros l. by apply held_p_public.
  - rewrite Eg. eauto.
  - destruct Hnew as [[Hu Eu]|Hnew]; [|exact Hnew]. rewrite Eu. intros n v p o x En Hx.
    apply (H3 n v p o x En). apply (value_frame t _ s'); try done. intros l ->.
    destruct (private_apart s l Hinv) as [Hl Ha]; [left; by rewrite En|].
    split_and!; [done|done|]. intros _ E. apply Ha. by rewrite En.
Qed.

Lemma ord_l_frame t s s' :
  inv s -> ord_l s -> t <> T_exit -> step gp_over alloc_ok t s = inr s' ->
  first (mem s') = first (mem s) -> printed list_reader (mem s') = printed list_reader (mem s) ->
  (held_l (reader_l s') = None \/ held_l (reader_l s') = held_l (reader_l s)) ->
  (forall x, updl_le (updater_l s) x -> updl_le (updater_l s') x) ->
  ((t <> T_updater_list /\ updater_l s' = updater_l s) \/
   forall n v p q x, updater_l s' = V_replace n v p q -> value_at (mem s') q = Some x -> x = v) ->
  ord_l s'.
Proof using.
  intros Hinv [H1 H2 H3] Ht Hs Eg El Eh Hle Hnew.
  assert (Hg : forall x, value_at (mem s') (first (mem s)) = Some x ->
    value_at (mem s) (first (mem s)) = Some x).
  { intros x. apply (public_frame t); try done. by apply first_public. }
  split.
  - rewrite Eg, El. eapply chain_weaken; [exact Hg| |exact H1]. intros h.
    destruct Eh as [-> | ->]; [done|]. apply (public_frame t); try done.
    intros l. by apply held_l_public.
  - rewrite Eg. eauto.
  - destruct Hnew as [[Hu Eu]|Hnew]; [|exact Hnew]. rewrite Eu. intros n v p q x En Hx.
    apply (H3 n v p q x En). apply (value_frame t _ s'); try done. intros l ->.
    destruct (private_apart s l Hinv) as [Hl Ha]; [right; by rewrite En|].
    split_and!; [done| |done]. intros _ E. apply Ha. by rewrite En.
Qed.

(** ** Each task keeps the order *)

Ltac framed F :=
  apply F; clear F; simpl; unfold first; simpl; solve [done | auto | left; by split | right; by intros | intros; lia].

(** What the accesses leave alone. *)
Ltac same_fields :=
  simpl; unfold first; simpl;
  repeat match goal with
  | H : kzalloc _ _ = _ |- _ => unfold kzalloc in H; simplify_eq/=
  | H : kfree _ _ = inr _ |- _ => apply kfree_inv in H as [-> | [? ->]]; simpl
  | H : call_rcu _ _ = inr _ |- _ => unfold call_rcu in H
  end; repeat case_match; simplify_eq/=.

Lemma reader_ord s s' :
  inv s -> ord_p s /\ ord_l s -> step gp_over alloc_ok T_reader s = inr s' -> ord_p s' /\ ord_l s'.
Proof using.
  intros Hinv [Hp Hl] Hs.
  pose proof (ord_p_frame T_reader s s' Hinv Hp ltac:(done) Hs) as Fp.
  pose proof (ord_l_frame T_reader s s' Hinv Hl ltac:(done) Hs) as Fl. destruct Hp as [H1 H2 H3].
  destruct s as [m r u rl ul i e]; destruct r as [|[|]| |n p| |]; simpl in Hs; invert_access;
    (split; [|framed Fl]); try (framed Fp).
  - split; simpl; [|done|done]. eapply chain_take, H1.
  - match goal with H : heap m !! _ = Some _ |- _ => simpl in H1; rewrite H in H1 end.
    simpl in H1. split; simpl; [|done|done].
    rewrite printed_print. simpl. eapply chain_weaken; [..|apply chain_print, H1]; done.
Qed.
Lemma reader_list_ord s s' :
  inv s -> ord_p s /\ ord_l s -> step gp_over alloc_ok T_reader_list s = inr s' ->
  ord_p s' /\ ord_l s'.
Proof using.
  intros Hinv [Hp Hl] Hs.
  pose proof (ord_p_frame T_reader_list s s' Hinv Hp ltac:(done) Hs) as Fp.
  pose proof (ord_l_frame T_reader_list s s' Hinv Hl ltac:(done) Hs) as Fl.
  destruct Hl as [H1 H2 H3]. pose proof (inv_reader_l _ Hinv) as Hrl.
  destruct s as [m r u rl ul i e]; destruct rl as [|[|]| |n [| |l]|n p| |]; simpl in Hs;
    invert_access; (split; [framed Fp|]); try (framed Fl).
  - split; simpl; [|done|done].
    eapply chain_take. exact H1.
  - match goal with H : heap m !! _ = Some _ |- _ =>
      simpl in H1; rewrite H in H1; split; simpl; [rewrite H|done|done] end.
    simpl in *. rewrite printed_print. simpl. by apply chain_print.
  - destruct Hrl as (_ & l & [= <-] & (o & Ho & Hn) & _).
    match goal with H : heap m !! _ = Some _ |- _ => rewrite H in Ho end. simplify_eq.
    rewrite Hn in Fl |- *. framed Fl.
Qed.

Lemma cur_value s : inv s -> exists g x, g_pfoo (mem s) = Some g /\ value_at (mem s) (Some g) = Some x.
Proof using.
  intros [Ho [g Eg] _ _ _ _ _ _ _]. destruct (owns_lookup _ _ g Ho) as [o E].
  { unfold owned. rewrite Eg. left. }
  exists g, (a o). split; [done|]. simpl. by rewrite E.
Qed.

Lemma updater_ord s s' :
  inv s -> ord_p s /\ ord_l s -> step gp_over alloc_ok T_updater s = inr s' -> ord_p s' /\ ord_l s'.
Proof using.
  intros Hinv [Hp Hl] Hs.
  pose proof (ord_p_frame T_updater s s' Hinv Hp ltac:(done) Hs) as Fp.
  pose proof (ord_l_frame T_updater s s' Hinv Hl ltac:(done) Hs) as Fl.
  destruct (cur_value s Hinv) as (g & c & Eg & Ec). destruct Hp as [H1 H2 H3].
  destruct s as [m r u rl ul i e]; destruct u as [|[|]| | | | | | |]; simpl in Hs; invert_access;
    repeat (same_fields; invert_access);
    (split; [|framed Fl]); try (framed Fp).
  - (* new->a = value *)
    apply Fp; simpl; try done; [auto|]. right. intros n v p o x [= <- <- <- <-].
    simpl. rewrite lookup_insert_eq. simpl. congruence.
  - (* rcu_assign_pointer *)
    simpl in *. rewrite Eg in H1, H2. simpl in H1, H2. rewrite Ec in H1, H2.
    specialize (H2 c eq_refl).
    assert (forall x, value_at m new = Some x -> x = value) as Hnew by (intros x; by eapply H3).
    split; simpl; [|intros x Hx; specialize (Hnew x Hx); lia|done].
    change (chain (value_at m new) (value_at m (held_p r)) (printed ptr_reader m)).
    destruct (value_at m new) as [x|]; [|by eapply chain_weaken; [..|exact H1]].
    rewrite (Hnew x eq_refl). apply (chain_publish c); [lia|done].
Qed.

Lemma first_value s : inv s -> exists f x, first (mem s) = Some f /\ value_at (mem s) (Some f) = Some x.
Proof using.
  intros [_ _ (f & o & Ef & Eo & _) _ _ _ _ _ _]. exists f, (a o).
  unfold first. rewrite Ef. simpl. by rewrite Eo.
Qed.

Lemma value_set_next m l o k p :
  heap m !! l = Some o -> value_at (set_heap (<[l := set_next k o]> (heap m)) m) p = value_at m p.
Proof using.
  intros E. destruct p as [l'|]; [|done]. simpl. destruct (decide (l = l')) as [<-|Hne].
  - by rewrite lookup_insert_eq, E.
  - by rewrite lookup_insert_ne.
Qed.

Lemma updater_list_ord s s' :
  inv s -> ord_p s /\ ord_l s -> step gp_over alloc_ok T_updater_list s = inr s' ->
  ord_p s' /\ ord_l s'.
Proof using.
  intros Hinv [Hp Hl] Hs.
  pose proof (ord_p_frame T_updater_list s s' Hinv Hp ltac:(done) Hs) as Fp.
  pose proof (ord_l_frame T_updater_list s s' Hinv Hl ltac:(done) Hs) as Fl.
  destruct (first_value s Hinv) as (f & c & Ef & Ec). destruct Hl as [H1 H2 H3].
  destruct s as [m r u rl ul i e]; destruct ul as [|[|]| | | | | | | | |]; simpl in Hs;
    unfold list_replace_rcu in Hs; invert_access;
    repeat (same_fields; invert_access);
    (split; [framed Fp|]); try (framed Fl).
  - (* q->a = value *)
    apply Fl; simpl; try done; [auto|]. right. intros n v p' q x [= <- <- <- <-].
    simpl. rewrite lookup_insert_eq. simpl. congruence.
  - (* list_replace_rcu *)
    match goal with |- ord_l (mk_rcu (set_list (Node ?l) (set_heap (<[_ := set_next ?k ?o]> _) _)) _ _ _
      (V_print _ ?v _ _) _ _) =>
      assert (E : forall p, value_at (set_list (Node l) (set_heap (<[l := set_next k o]> (heap m)) m)) p
        = value_at m p) by (intros p'; by apply value_set_next);
      assert (Hnew : forall x, value_at m (Some l) = Some x -> x = v) by (intros x'; by eapply H3)
    end.
    simpl in H1, H2. rewrite Ef in H1, H2. simpl in H1, H2. rewrite Ec in H1, H2.
    specialize (H2 c eq_refl). split; [| |done].
    + cbn [mem reader_l first g_rcu_list set_list list_first_or_null_rcu]. unfold first. rewrite !E.
      cbn [g_rcu_list set_list list_first_or_null_rcu].
      destruct (value_at m (Some _)) as [x|]; [|by eapply chain_weaken; [..|exact H1]].
      rewrite (Hnew x eq_refl). apply (chain_publish c); [lia|done].
    + cbn [mem updater_l updl_le]. unfold first. rewrite E. intros x Hx.
      specialize (Hnew x Hx). lia.
Qed.

Lemma callback_ord i s s' :
  inv s -> ord_p s /\ ord_l s -> step gp_over alloc_ok (T_callback i) s = inr s' ->
  ord_p s' /\ ord_l s'.
Proof using.
  intros Hinv [Hp Hl] Hs.
  pose proof (ord_p_frame (T_callback i) s s' Hinv Hp ltac:(done) Hs) as Fp.
  pose proof (ord_l_frame (T_callback i) s s' Hinv Hl ltac:(done) Hs) as Fl.
  destruct s as [m r u rl ul ii e]; simpl in Hs. unfold rcu_reclaimer in Hs.
  repeat (same_fields; invert_access); (split; [framed Fp|framed Fl]).
Qed.

Lemma step_ord t s s' :
  t <> T_exit -> inv s -> ord_p s /\ ord_l s -> step gp_over alloc_ok t s = inr s' ->
  ord_p s' /\ ord_l s'.
Proof using.
  intros Ht Hinv Ho Hs. destruct t; [|by eapply reader_ord|by eapply updater_ord|
    by eapply reader_list_ord|by eapply updater_list_ord|by eapply callback_ord|done].
  simpl in Hs. unfold rcu_test_init in Hs. rewrite (inv_ini _ Hinv) in Hs. by injection Hs as <-.
Qed.

Lemma run_ord sched s :
  T_exit ∉ sched -> ginv alloc_ok s -> ord_p s /\ ord_l s ->
  exists s', run gp_over alloc_ok sched s = inr s' /\ ginv alloc_ok s' /\ ord_p s' /\ ord_l s'.
Proof using gp_safe alloc_succeeds.
  intros Hx Hinv Ho.
  apply (steps_inv _ (fun t => t <> T_exit) (fun s => ginv alloc_ok s /\ ord_p s /\ ord_l s)); [| |done].
  - intros t s1 Ht [Hi Ho1].
    destruct (step_goes_on gp_over alloc_ok gp_safe t s1 alloc_succeeds Ht Hi) as (s2 & Hs & Hi2).
    exists s2. split; [done|]. split; [done|]. apply (step_ord t s1); try done. apply Hi.
  - apply Forall_forall. by intros t Ht ->.
Qed.
End order.

Lemma loaded_ord : ord_p loaded /\ ord_l loaded.
Proof.
  assert (value_at (mem loaded) (Some 0%nat) = Some 0) as E0 by reflexivity.
  assert (value_at (mem loaded) (Some 1%nat) = Some 0) as E1 by reflexivity.
  split; split; try done.
  - split; [constructor|by intros; constructor|done].
  - intros x Hx. simpl. change (g_pfoo (mem loaded)) with (Some 0%nat) in Hx. simplify_eq. lia.
  - split; [constructor|by intros; constructor|done].
  - intros x Hx. simpl. change (first (mem loaded)) with (Some 1%nat) in Hx. simplify_eq. lia.
Qed.

(** C17: A reader never goes back in time: when no allocation fails and the module is
    loaded before its threads wake up, whatever the interleaving of the four
    threads and the callbacks, the values each reader prints are in the order in
    which the updaters published them, and none is newer than what is published
    now. *)
Theorem rcu_reads_in_order gp_over alloc_ok sched :
  (forall w, gp_over w = true -> w = ∅) -> (forall n, alloc_ok n = true) -> T_exit ∉ sched ->
  exists s, run gp_over alloc_ok (init_schedule ++ sched) unloaded = inr s /\
    StronglySorted Z.ge (printed ptr_reader (mem s)) /\
    StronglySorted Z.ge (printed list_reader (mem s)) /\
    (forall c, value_at (mem s) (g_pfoo (mem s)) = Some c ->
       Forall (fun x => x <= c) (printed ptr_reader (mem s))) /\
    (forall c, value_at (mem s) (first (mem s)) = Some c ->
       Forall (fun x => x <= c) (printed list_reader (mem s))).
Proof.
  intros Hgp Ha Hx. rewrite steps_app, load_run by done. simpl.
  destruct (run_ord gp_over alloc_ok Hgp Ha sched loaded Hx (loaded_ginv _) loaded_ord)
    as (s & Hr & _ & [[H1 H2 _] _ _] & [[H3 H4 _] _ _]).
  by exists s.
Qed.

(** A reader that holds the old object while a new one is published prints the
    old value, and the new one in its next round. *)
Lemma rcu_reads_in_order_witness :
  exists s, run prompt (fun _ => true) (init_schedule ++ [T_reader; T_reader] ++
      replicate 6 T_updater ++ replicate 5 T_reader) unloaded = inr s /\
    printed ptr_reader (mem s) = [1; 0] /\ StronglySorted Z.ge (printed ptr_reader (mem s)).
Proof.
  destruct (rcu_reads_in_order prompt (fun _ => true) ([T_reader; T_reader] ++
    replicate 6 T_updater ++ replicate 5 T_reader)) as (s & Hr & Hs & _).
  - exact prompt_safe.
  - reflexivity.
  - intros H. cbn [app replicate] in H.
    repeat (apply elem_of_cons in H as [H|H]; [discriminate H|]). by apply not_elem_of_nil in H.
  - exists s. split; [exact Hr|]. split; [|exact Hs].
    assert ((fun x => printed ptr_reader (mem x)) <$> match run prompt (fun _ => true) (init_schedule ++
      [T_reader; T_reader] ++ replicate 6 T_updater ++ replicate 5 T_reader) unloaded with
      | inl _ => None | inr x => Some x end = Some [1; 0]) as E by (vm_compute; reflexivity).
    rewrite Hr in E. simpl in E. injection E as E. exact E.
Defined.
