(* ===== verification/CodecPci.v ===== *)
(** * A PCI driver with a character device ([pci/unknown/simple.c])

    Probing is [device_init], removal [device_deinit]; loading the module
    ([mod_init]) registers the device number, three devices and the driver.
    The statics [bars], [msi_0], [msi_1] are the state, together with the
    pointers [mod_init] keeps. *)

From S2P Require Export Resources Bytes.

Definition PCIE_BARS : nat := 4.
Definition MAX_DEVICES : Z := 2.

Inductive irqreturn := IRQ_NONE | IRQ_HANDLED.

Record codec := mk_codec {
  bars : list Z;               (* 0 is NULL *)
  msi_vec_num : Z;
  msi_0 : Z;
  msi_1 : Z;
  pci_dev_number : Z;
  driver_object : bool;
  pci_class : kptr;
  devices : list kptr;         (* [pci_prc], [pci_irq_0], [pci_irq_1] *)
}.

(** The statics when the module is loaded. *)
Definition codec_zero : codec :=
  mk_codec (replicate PCIE_BARS 0) 2 (-1) (-1) 0 false PNull [PNull; PNull; PNull].

Definition set_bar (i : nat) (p : Z) (s : codec) : codec :=
  mk_codec (<[i := p]> (bars s)) (msi_vec_num s) (msi_0 s) (msi_1 s) (pci_dev_number s)
    (driver_object s) (pci_class s) (devices s).
Definition set_msi (n m0 m1 : Z) (s : codec) : codec :=
  mk_codec (bars s) n m0 m1 (pci_dev_number s) (driver_object s) (pci_class s) (devices s).
Definition set_number (d : Z) (s : codec) : codec :=
  mk_codec (bars s) (msi_vec_num s) (msi_0 s) (msi_1 s) d (driver_object s) (pci_class s) (devices s).
Definition set_object (b : bool) (s : codec) : codec :=
  mk_codec (bars s) (msi_vec_num s) (msi_0 s) (msi_1 s) (pci_dev_number s) b (pci_class s) (devices s).
Definition set_class (c : kptr) (s : codec) : codec :=
  mk_codec (bars s) (msi_vec_num s) (msi_0 s) (msi_1 s) (pci_dev_number s) (driver_object s) c (devices s).
Definition set_devices (d : list kptr) (s : codec) : codec :=
  mk_codec (bars s) (msi_vec_num s) (msi_0 s) (msi_1 s) (pci_dev_number s) (driver_object s)
    (pci_class s) d.

Inductive xcall :=
  | printk
  | wake_up_interruptible (queue : nat)
  | pci_enable_device
  | pci_disable_device
  | pci_request_region (bar : nat)
  | pci_release_region (bar : nat)
  | pci_resource_flags (bar : nat)
  | pci_resource_len (bar : nat)
  | pci_alloc_irq_vectors (min max : Z)
  | pci_free_irq_vectors
  | pci_irq_vector (n : Z)
  | request_irq (irq : Z) (handler : nat)
  | free_irq (irq : Z)
  | pci_iomap (bar : nat) (len : Z)
  | pci_iounmap (bar : nat) (p : Z)
  | alloc_chrdev_region (minor count : Z) (name : bytes)
  | unregister_chrdev_region (dev count : Z)
  | cdev_alloc
  | cdev_add (dev count : Z)
  | kobject_put
  | cdev_del
  | class_create (name : bytes)
  | class_destroy (class : kptr)
  | device_create (class : kptr) (dev : Z) (name : bytes)
  | device_destroy (dev : Z)
  | device_unregister (dev : Z)
  | pci_register_driver
  | pci_unregister_driver.

(** [pci_resource_flags]: I/O space, memory space; [device_destroy]: whether
    there was a device with the number. *)
#[export] Instance codec_api : KApi xcall := fun c =>
  match c with
  | pci_enable_device | pci_request_region _ | pci_resource_len _ | pci_alloc_irq_vectors _ _
  | pci_irq_vector _ | request_irq _ _ | pci_iomap _ _ | cdev_add _ _ | pci_register_driver => Z
  | pci_resource_flags _ => (bool * bool)%type
  | alloc_chrdev_region _ _ _ => (Z * Z)%type
  | cdev_alloc | device_destroy _ => bool
  | class_create _ | device_create _ _ _ => kptr
  | _ => unit
  end.

(** ** Resources *)

Inductive codec_rsrc :=
  | r_enabled | r_region (bar : nat) | r_vectors | r_irq (irq : Z) | r_map (bar : nat)
  | r_number | r_object | r_added | r_class | r_device (dev : Z) | r_driver.
#[export] Instance codec_rsrc_eq_dec : EqDecision codec_rsrc.
Proof. solve_decision. Defined.

(** [cdev_del] takes the device out and drops the object. *)
#[export] Instance codec_resources : Resources xcall := {|
  rsrc := codec_rsrc;
  acquires := fun c => match c as c0 return resp c0 -> list codec_rsrc with
    | pci_enable_device => fun r : Z => if r =? 0 then [r_enabled] else []
    | pci_request_region i => fun r : Z => if r =? 0 then [r_region i] else []
    | pci_alloc_irq_vectors _ _ => fun r : Z => if 0 <=? r then [r_vectors] else []
    | request_irq n _ => fun r : Z => if r =? 0 then [r_irq n] else []
    | pci_iomap i _ => fun r : Z => if r =? 0 then [] else [r_map i]
    | alloc_chrdev_region _ _ _ => fun r : Z * Z => if 0 <=? r.1 then [r_number] else []
    | cdev_alloc => fun r : bool => if r then [r_object] else []
    | cdev_add _ _ => fun r : Z => if r =? 0 then [r_added] else []
    | class_create _ => fun r : kptr => match r with POk => [r_class] | _ => [] end
    | device_create _ d _ => fun r : kptr => match r with POk => [r_device d] | _ => [] end
    | pci_register_driver => fun r : Z => if 0 <=? r then [r_driver] else []
    | _ => fun _ => []
    end;
  releases := fun c => match c as c0 return resp c0 -> list codec_rsrc with
    | pci_disable_device => fun _ => [r_enabled]
    | pci_release_region i => fun _ => [r_region i]
    | pci_free_irq_vectors => fun _ => [r_vectors]
    | free_irq n => fun _ => [r_irq n]
    | pci_iounmap i _ => fun _ => [r_map i]
    | unregister_chrdev_region _ _ => fun _ => [r_number]
    | kobject_put => fun _ => [r_object]
    | cdev_del => fun _ => [r_added; r_object]
    | class_destroy c => fun _ => match c with POk => [r_class] | _ => [] end
    | device_destroy d => fun r : bool => if r then [r_device d] else []
    | device_unregister d => fun _ => [r_device d]
    | pci_unregister_driver => fun _ => [r_driver]
    | _ => fun _ => []
    end;
|}.

Abbreviation X := (M xcall codec).

(** ** Interrupts *)

Definition pci_isr_0 (irq : Z) : X irqreturn :=
  call printk ;; call (wake_up_interruptible 0) ;; mret IRQ_HANDLED.
Definition pci_isr_1 (irq : Z) : X irqreturn :=
  call printk ;; call (wake_up_interruptible 1) ;; mret IRQ_HANDLED.

(** ** Probing *)

(** The three loops of [device_init], from bar [i] with [n] bars left.  The
    first two tell whether they got to the end. *)
Fixpoint request_regions (n i : nat) : X bool :=
  match n with
  | O => mret true
  | S n' =>
      r ← call (pci_request_region i);
      if negb (r =? 0) then call printk ;; mret false else request_regions n' (S i)
  end.

Fixpoint map_bars (n i : nat) : X bool :=
  match n with
  | O => mret true
  | S n' =>
      len ← call (pci_resource_len i);
      p ← call (pci_iomap i len);
      modify (set_bar i p) ;;
      if p =? 0 then call printk ;; mret false else call printk ;; map_bars n' (S i)
  end.

(** [pci_iounmap(pdev, bars[i])]; the pointer is not reset. *)
Definition unmap_bar (i : nat) : X unit :=
  s ← get;
  p ← or_fault OutOfBounds (bars s !! i);
  if negb (p =? 0) then call (pci_iounmap i p) else mret tt.

Fixpoint cleanup_loop (n i : nat) : X unit :=
  match n with
  | O => mret tt
  | S n' => unmap_bar i ;; call (pci_release_region i) ;; cleanup_loop n' (S i)
  end.
Definition cleanup : X Z := cleanup_loop PCIE_BARS 0 ;; mret (- EIO).

(** Report the space bar 0 is in. *)
Definition report_space : X unit :=
  '(io, _) ← call (pci_resource_flags 0);
  if (io : bool) then call printk else
  '(_, mem) ← call (pci_resource_flags 0);
  if (mem : bool) then call printk else mret tt.

Definition device_init : X Z :=
  r ← call pci_enable_device;
  if negb (r =? 0) then mret (- EIO) else
  ok ← request_regions PCIE_BARS 0;
  if negb ok then mret (- EIO) else
  report_space ;;
  s ← get;
  nvec ← call (pci_alloc_irq_vectors 1 (msi_vec_num s));
  m0 ← call (pci_irq_vector 0);
  m1 ← call (pci_irq_vector 1);
  modify (set_msi nvec m0 m1) ;;
  call printk ;; call printk ;; call printk ;;
  r ← call (request_irq m0 0);
  if negb (r =? 0) then call printk ;; cleanup else
  r ← call (request_irq m1 1);
  if negb (r =? 0) then call printk ;; cleanup else
  ok ← map_bars PCIE_BARS 0;
  if negb ok then cleanup else
  call printk ;; mret 0.

Fixpoint release_regions (n i : nat) : X unit :=
  match n with
  | O => mret tt
  | S n' => call (pci_release_region i) ;; release_regions n' (S i)
  end.
Fixpoint unmap_bars (n i : nat) : X unit :=
  match n with
  | O => mret tt
  | S n' => unmap_bar i ;; unmap_bars n' (S i)
  end.

Definition device_deinit : X unit :=
  s ← get;
  (if 0 <=? msi_0 s then call (free_irq (msi_0 s)) else mret tt) ;;
  (if 0 <=? msi_1 s then call (free_irq (msi_1 s)) else mret tt) ;;
  call pci_free_irq_vectors ;;
  release_regions PCIE_BARS 0 ;;
  unmap_bars PCIE_BARS 0 ;;
  call pci_disable_device.

Definition my_read (count : Z) : Z := s64 count.

(** ** Loading *)

(** Device numbers are 32 bits wide, 20 of them the minor number. *)
Definition MAJOR (dev : Z) : Z := Z.shiftr dev 20.
Definition MINOR (dev : Z) : Z := Z.land dev (2 ^ 20 - 1).
Definition MKDEV (ma mi : Z) : Z := Z.lor (u32 (Z.shiftl ma 20)) mi.

(** The numbers given to the three devices. *)
Definition device_number (dev : Z) (k : Z) : Z := MKDEV (MAJOR dev) (MINOR dev + k).

(** [device_destroy(pci_class, MKDEV(pci_dev_number, i))] for [i] from 0 to
    [MAX_DEVICES - 1]: the first argument should be a major number. *)
Definition destroy_devices (dev : Z) : X unit :=
  call (device_destroy (MKDEV dev 0)) ;; call (device_destroy (MKDEV dev 1)) ;; mret tt.

Definition err : X Z := call printk ;; mret (- EIO).
Definition free_dev_number : X Z :=
  s ← get; call (unregister_chrdev_region (pci_dev_number s) MAX_DEVICES) ;; err.
Definition free_cdev : X Z := call kobject_put ;; free_dev_number.

Definition mod_init : X Z :=
  '(r, dev) ← call (alloc_chrdev_region 0 MAX_DEVICES (str "codec_pci"));
  if r <? 0 then err else
  modify (set_number dev) ;;
  p ← call cdev_alloc;
  modify (set_object p) ;;
  if negb p then free_dev_number else
  r ← call (cdev_add dev MAX_DEVICES);
  if negb (r =? 0) then free_cdev else
  class ← call (class_create (str "codec_pci"));
  modify (set_class class) ;;
  if IS_ERR class then call printk ;; free_cdev else
  d0 ← call (device_create class (device_number dev 0) (str "codec_prc"));
  d1 ← call (device_create class (device_number dev 1) (str "codec_irq_0"));
  d2 ← call (device_create class (device_number dev 2) (str "codec_irq_1"));
  modify (set_devices [d0; d1; d2]) ;;
  r ← call pci_register_driver;
  if r <? 0 then destroy_devices dev ;; free_dev_number else
  mret 0.

(** [device_unregister] of one of the three pointers. *)
Definition unregister_device (n : nat) : X unit :=
  s ← get;
  d ← or_fault OutOfBounds (devices s !! n);
  match d with
  | POk => call (device_unregister (device_number (pci_dev_number s) (Z.of_nat n)))
  | PNull => fail NullDeref
  | PErr _ => fail BadPointer
  end.

Definition mod_exit : X unit :=
  call pci_unregister_driver ;;
  unregister_device 0 ;; unregister_device 1 ;; unregister_device 2 ;;
  s ← get;
  destroy_devices (pci_dev_number s) ;;
  call (class_destroy (pci_class s)) ;;
  call cdev_del ;;
  call (unregister_chrdev_region (pci_dev_number s) MAX_DEVICES).
