(* ===== verification/CodecTheorems.v ===== *)
(** * The PCI driver with a character device: the theorems *)

From S2P Require Export CodecPci.

(** ** The loops of probing and removal *)

Definition regions (i n : nat) : list codec_rsrc := r_region <$> seq i n.
Definition maps (i n : nat) : list codec_rsrc := r_map <$> seq i n.

(** Walk through a call that acquires, or only answers. *)
Ltac acq :=
  lazymatch goal with
  | H : holds ?tr ?L |- wp (call ?c) ?e ?Q ?s ?tr =>
      refine (wp_acquire c e Q s tr L (fun _ => eq_refl) H _); clear H; intros ? ? H;
      cbn [acquires codec_resources] in H; try rewrite app_nil_l in H
  | |- _ => wp_step
  end.
Ltac acq_ans :=
  apply wp_bind;
  lazymatch goal with
  | H : holds ?tr ?L |- wp (call ?c) ?e ?Q ?s ?tr =>
      refine (wp_acquire_ans c e Q s tr L (fun _ => eq_refl) H _); clear H; intros ? ? Ea H;
      cbn [acquires codec_resources] in H; try rewrite app_nil_l in H
  end.
Ltac rel x L :=
  lazymatch goal with
  | H : holds ?tr ?L0 |- wp (call ?c) ?e ?Q ?s ?tr =>
      refine (wp_release c e Q s tr x L (fun _ => eq_refl) (fun _ => eq_refl) _ _);
      [eapply holds_proper; [|exact H]|clear H; intros ? ? H]
  end.

Lemma request_regions_holds n i e s tr L :
  holds tr L ->
  wp (request_regions n i) e (fun ok s' tr' => s' = s /\
    exists k, (if ok : bool then k = n else (k < n)%nat) /\ holds tr' (regions i k ++ L)) s tr.
Proof.
  revert i tr L. induction n as [|n IH]; intros i tr L H; simpl.
  { wp_go. split; [done|]. exists 0%nat. by split. }
  repeat acq. destruct (a =? 0); cbn [negb].
  - eapply wp_mono; [by apply IH|]. intros ok s' tr2 (-> & k & Hk & H2). split; [done|].
    exists (S k). split; [by destruct ok; lia|]. eapply holds_proper; [|exact H2].
    unfold regions. simpl. solve_Permutation.
  - repeat acq. split; [done|]. exists 0%nat. by split; [lia|].
Qed.

Lemma set_bar_frame i p s :
  msi_0 (set_bar i p s) = msi_0 s /\ msi_1 (set_bar i p s) = msi_1 s /\
  length (bars (set_bar i p s)) = length (bars s).
Proof. simpl. by rewrite length_insert. Qed.

(** After the mapping loop the bars from [i] on are mapped up to where it
    stopped; where it stopped on a failure the pointer is NULL. *)
Definition mapped (s : codec) (i k : nat) : Prop :=
  forall j, (i <= j < i + k)%nat -> exists p, bars s !! j = Some p /\ p <> 0.
Definition unmapped (s : codec) (i n : nat) : Prop :=
  forall j, (i <= j < i + n)%nat -> bars s !! j = Some 0.

Lemma map_bars_holds n i e s tr L :
  holds tr L -> (i + n <= length (bars s))%nat ->
  wp (map_bars n i) e (fun ok s' tr' =>
    msi_0 s' = msi_0 s /\ msi_1 s' = msi_1 s /\ length (bars s') = length (bars s) /\
    (forall j, (j < i)%nat -> bars s' !! j = bars s !! j) /\
    exists k, (if ok : bool then k = n else (k < n)%nat) /\ mapped s' i k /\
      (unmapped s i n -> unmapped s' (i + k) (n - k)) /\ holds tr' (maps i k ++ L)) s tr.
Proof.
  revert i s tr L. induction n as [|n IH]; intros i s tr L H Hl; simpl.
  { wp_go. split_and!; try done. exists 0%nat. split_and!; try done; intros j Hj; lia. }
  repeat acq. destruct (Z.eqb_spec a0 0) as [->|Hp]; repeat acq.
  - split_and!; try done; [simpl; by rewrite length_insert| |].
    { intros j Hj. simpl. by rewrite list_lookup_insert_ne by lia. }
    exists 0%nat. split_and!; [lia|intros j Hj; lia| |exact H].
    intros Hu j Hj. simpl. destruct (decide (i = j)) as [<-|Hne].
    + rewrite list_lookup_insert_eq; [done|]. lia.
    + rewrite list_lookup_insert_ne by done. apply Hu. lia.
  - eapply wp_mono; [apply (IH (S i)); [exact H|simpl; rewrite length_insert; lia]|].
    intros ok s' tr2 (E0 & E1 & El & Hlow & k & Hk & Hm & Hn & H2).
    split_and!; try done; [by rewrite El; simpl; rewrite length_insert| |].
    { intros j Hj. rewrite Hlow by lia. simpl. by rewrite list_lookup_insert_ne by lia. }
    exists (S k). split_and!.
    + destruct ok; lia.
    + intros j Hj. destruct (decide (i = j)) as [<-|Hne]; [|apply Hm; lia].
      exists a0. split; [|done]. rewrite Hlow by lia. simpl. apply list_lookup_insert_eq. lia.
    + intros Hu j Hj. apply Hn; [|lia]. intros j' Hj'. simpl.
      rewrite list_lookup_insert_ne by lia. apply Hu. lia.
    + eapply holds_proper; [|exact H2]. unfold maps. simpl. solve_Permutation.
Qed.

(** [unmap_bar] takes a mapping out exactly when the pointer is not NULL. *)
Lemma unmap_bar_holds i e s tr (b : bool) L :
  (exists p, bars s !! i = Some p /\ if b then p <> 0 else p = 0) ->
  holds tr ((if b then [r_map i] else []) ++ L) ->
  wp (unmap_bar i) e (fun _ s' tr' => s' = s /\ holds tr' L) s tr.
Proof.
  intros (p & Ep & Hp) H. unfold unmap_bar. wp_go. apply wp_or_fault. exists p. split; [done|].
  destruct b.
  - rewrite (proj2 (Z.eqb_neq p 0)) by done. cbn [negb]. rel [r_map i] L; [done|by split].
  - subst p. cbn [negb]. wp_go. by split.
Qed.

(** The state of the bars from [i] on: [k] mapped, the rest of [n] not. *)
Definition bars_at (s : codec) (i n k : nat) : Prop :=
  (k <= n)%nat /\ mapped s i k /\ unmapped s (i + k) (n - k).

Lemma bars_at_step s i n k :
  bars_at s i (S n) k ->
  (exists p, bars s !! i = Some p /\ if decide (k = 0%nat) then p = 0 else p <> 0) /\
  bars_at s (S i) n (pred k).
Proof.
  intros (Hle & Hm & Hu). destruct k as [|k]; simpl.
  - split; [exists 0; split; [apply Hu; lia|done]|].
    split_and!; [lia|intros j Hj; lia|]. intros j Hj. apply Hu. lia.
  - destruct (Hm i) as (p & Ep & Hp); [lia|]. split; [by exists p|].
    split_and!; [lia| |].
    + intros j Hj. apply Hm. lia.
    + intros j Hj. apply Hu. lia.
Qed.

Lemma maps_cons i k : maps i (S k) = r_map i :: maps (S i) k.
Proof. done. Qed.

(** One iteration of a loop that unmaps bar [i], whatever the rest does. *)
Lemma unmap_step i n k e s tr L (m : X unit) Q :
  bars_at s i (S n) k -> holds tr (maps i k ++ L) ->
  (forall tr', holds tr' (maps (S i) (pred k) ++ L) -> wp m e Q s tr') ->
  wp (unmap_bar i ;; m) e Q s tr.
Proof.
  intros Hb H HQ. destruct (bars_at_step _ _ _ _ Hb) as [(p & Ep & Hp) _].
  apply wp_bind. eapply wp_mono.
  - apply (unmap_bar_holds i e s tr (bool_decide (k <> 0%nat)) (maps (S i) (pred k) ++ L)).
    + exists p. split; [done|]. by destruct k.
    + by destruct k.
  - intros _ s' tr' [-> H']. by apply HQ.
Qed.

Lemma cleanup_loop_holds n i k e s tr L :
  bars_at s i n k -> holds tr (maps i k ++ regions i n ++ L) ->
  wp (cleanup_loop n i) e (fun _ s' tr' => s' = s /\ holds tr' L) s tr.
Proof.
  revert i k tr. induction n as [|n IH]; intros i k tr Hb H; simpl.
  { wp_go. split; [done|]. destruct Hb as (Hk & _). assert (k = 0%nat) as -> by lia. done. }
  eapply unmap_step; [exact Hb|exact H|]. intros tr' H'.
  apply wp_bind. rel [r_region i] (maps (S i) (pred k) ++ regions (S i) n ++ L).
  { unfold regions. simpl. solve_Permutation. }
  apply (IH (S i) (pred k)); [by apply bars_at_step|done].
Qed.

Lemma unmap_bars_holds n i k e s tr L :
  bars_at s i n k -> holds tr (maps i k ++ L) ->
  wp (unmap_bars n i) e (fun _ s' tr' => s' = s /\ holds tr' L) s tr.
Proof.
  revert i k tr. induction n as [|n IH]; intros i k tr Hb H; simpl.
  { wp_go. split; [done|]. destruct Hb as (Hk & _). assert (k = 0%nat) as -> by lia. done. }
  eapply unmap_step; [exact Hb|exact H|]. intros tr' H'.
  apply (IH (S i) (pred k)); [by apply bars_at_step|done].
Qed.

Lemma release_regions_holds n i e s tr L :
  holds tr (regions i n ++ L) ->
  wp (release_regions n i) e (fun _ s' tr' => s' = s /\ holds tr' L) s tr.
Proof.
  revert i tr. induction n as [|n IH]; intros i tr H; simpl; [by wp_go|].
  apply wp_bind. rel [r_region i] (regions (S i) n ++ L); [done|]. by apply IH.
Qed.

Lemma cleanup_holds k e s tr L :
  bars_at s 0 PCIE_BARS k -> holds tr (maps 0 k ++ regions 0 PCIE_BARS ++ L) ->
  wp cleanup e (fun r s' tr' => r = - EIO /\ s' = s /\ holds tr' L) s tr.
Proof.
  intros Hb H. unfold cleanup. wp_go. eapply wp_mono; [by eapply cleanup_loop_holds|].
  intros _ s' tr' [-> H']. by wp_go.
Qed.

(** ** Pointers left by an earlier probe *)

(** The balance, unless something was released that was not held. *)
Definition holds_or_double (tr : trace xcall) (L : list codec_rsrc) : Prop :=
  holds tr L \/ held tr = None.

Lemma release_or_double (c : xcall) (a : resp c) tr x L :
  acquires c a = [] -> releases c a = [x] -> holds_or_double tr (x :: L) ->
  holds_or_double (existT c a :: tr) L.
Proof.
  intros Ha Hr [H|H]; [left|right; simpl; by rewrite H].
  apply holds_release; [done|]. by rewrite Hr.
Qed.

Lemma release_twice (c : xcall) (a : resp c) tr x L L' :
  releases c a = [x] -> x ∉ L -> holds_or_double tr L -> holds_or_double (existT c a :: tr) L'.
Proof.
  intros Hr Hx [(L0 & H & HP)|H]; right; [|simpl; by rewrite H].
  rewrite (held_cons _ _ _ _ H), Hr. cbn [remove_all]. assert (x ∉ L0) as Hx0 by (by rewrite HP).
  enough (remove_one x L0 = None) as -> by done. clear -Hx0.
  induction L0 as [|y L0 IH]; [done|]. apply not_elem_of_cons in Hx0 as [Hne Hx0]. simpl.
  rewrite decide_False by done. by rewrite IH.
Qed.

(** The clean-up, whatever the bars from [i] on point to, of which [k] were mapped
    by this probe. *)
Lemma cleanup_loop_any n i k e s tr L :
  (i + n <= length (bars s))%nat -> (k <= n)%nat -> mapped s i k -> (forall j, r_map j ∉ L) ->
  holds_or_double tr (maps i k ++ regions i n ++ L) ->
  wp (cleanup_loop n i) e (fun _ s' tr' => s' = s /\ holds_or_double tr' L) s tr.
Proof.
  revert i k tr. induction n as [|n IH]; intros i k tr Hl Hk Hm HL H; simpl.
  { wp_go. split; [done|]. assert (k = 0%nat) as -> by lia. done. }
  assert (forall tr', holds_or_double tr' (maps (S i) (pred k) ++ regions i (S n) ++ L) ->
    wp (call (pci_release_region i) ;; cleanup_loop n (S i)) e
      (fun _ s' tr'' => s' = s /\ holds_or_double tr'' L) s tr') as Hrest.
  { intros tr' H'. apply wp_bind, wp_call. apply (IH (S i) (pred k)); [lia|lia| |done|].
    - intros j Hj. apply Hm. lia.
    - eapply (release_or_double _ _ _ (r_region i)); [done|done|].
      destruct H' as [H'|H']; [left|by right]. eapply holds_proper; [|exact H'].
      unfold regions. simpl. solve_Permutation. }
  destruct (lookup_lt_is_Some_2 (bars s) i) as [p Ep]; [lia|].
  unfold unmap_bar. wp_go. apply wp_or_fault. exists p. split; [done|].
  destruct (Z.eqb_spec p 0) as [->|Hp]; cbn [negb].
  - assert (k = 0%nat) as ->.
    { destruct k as [|k]; [done|]. destruct (Hm i) as (p & Ep' & Hp); [lia|]. congruence. }
    wp_go. by apply Hrest.
  - refine (Hrest _ _). destruct k as [|k].
    + eapply (release_twice _ _ _ (r_map i)); [done| |exact H].
      intros [Hin|Hin]%elem_of_app; [by apply not_elem_of_nil in Hin|].
      apply elem_of_app in Hin as [Hin|Hin]; [|by apply HL in Hin].
      apply list_elem_of_fmap in Hin as (? & ? & _). done.
    + eapply (release_or_double _ _ _ (r_map i)); [done|done|exact H].
Qed.

(** ** Probing *)

Lemma report_space_holds e s tr L :
  holds tr L -> wp report_space e (fun _ s' tr' => s' = s /\ holds tr' L) s tr.
Proof.
  intros H. unfold report_space. acq. acq. destruct a as [[] ?]; [by repeat acq|].
  acq. acq. destruct a as [? []]; by repeat acq.
Qed.

(** What [device_init] has when it succeeds, and what it can leave behind when
    it fails. *)
Definition probed (m0 m1 : Z) (vec : list codec_rsrc) : list codec_rsrc :=
  maps 0 PCIE_BARS ++ [r_irq m1; r_irq m0] ++ vec ++ regions 0 PCIE_BARS ++ [r_enabled].
Definition leaked (m0 m1 : Z) (vec L : list codec_rsrc) : Prop :=
  L = [] \/ (exists k, (k < PCIE_BARS)%nat /\ L = regions 0 k ++ [r_enabled]) \/
  L = vec ++ [r_enabled] \/ L = r_irq m0 :: vec ++ [r_enabled] \/
  L = r_irq m1 :: r_irq m0 :: vec ++ [r_enabled].

(** [fresh]: no pointer was left by an earlier probe. *)
Definition probe_post (fresh : Prop) (r : Z) (s : codec) (tr : trace xcall) : Prop :=
  exists vec, (vec = [] \/ vec = [r_vectors]) /\
    (r = 0 /\ holds tr (probed (msi_0 s) (msi_1 s) vec) /\ mapped s 0 PCIE_BARS \/
     r = - EIO /\ ((exists L, leaked (msi_0 s) (msi_1 s) vec L /\ holds tr L) \/
                   ~ fresh /\ held tr = None)).

Lemma leaked_no_map m0 m1 vec L j :
  vec = [] \/ vec = [r_vectors] -> leaked m0 m1 vec L -> r_map j ∉ L.
Proof.
  intros Hv [-> | [(k & _ & ->) | [-> | [-> | ->]]]]; [apply not_elem_of_nil|..];
    destruct Hv as [-> | ->]; set_solver.
Qed.

Lemma cleanup_post (fresh : Prop) k vec L e s tr :
  fresh \/ ~ fresh -> length (bars s) = PCIE_BARS -> (k <= PCIE_BARS)%nat -> mapped s 0 k ->
  (fresh -> unmapped s k (PCIE_BARS - k)) -> vec = [] \/ vec = [r_vectors] ->
  leaked (msi_0 s) (msi_1 s) vec L -> holds tr (maps 0 k ++ regions 0 PCIE_BARS ++ L) ->
  wp cleanup e (probe_post fresh) s tr.
Proof.
  intros [Hf|Hf] Hl Hk Hm Hu Hv HL H.
  - eapply wp_mono; [eapply cleanup_holds; [|exact H]; split_and!; [done|done|by apply Hu]|].
    intros r s' tr' (-> & -> & H'). exists vec. split; [done|]. right. eauto.
  - unfold cleanup. wp_go. eapply wp_mono.
    { apply (cleanup_loop_any PCIE_BARS 0 k); [by rewrite Hl|done|done| |by left].
      intros j. by eapply leaked_no_map. }
    intros _ s' tr' [-> H']. wp_go. exists vec. split; [done|]. right. split; [done|].
    destruct H' as [H'|H']; [left|right]; eauto.
Qed.

(** The rest of [device_init] once the interrupt handlers are installed. *)
Lemma map_post (fresh : Prop) vec e s tr :
  fresh \/ ~ fresh -> length (bars s) = PCIE_BARS -> (fresh -> unmapped s 0 PCIE_BARS) ->
  vec = [] \/ vec = [r_vectors] ->
  holds tr ([r_irq (msi_1 s); r_irq (msi_0 s)] ++ vec ++ regions 0 PCIE_BARS ++ [r_enabled]) ->
  wp (ok ← map_bars PCIE_BARS 0;
      if negb ok then cleanup else call printk ;; mret 0) e (probe_post fresh) s tr.
Proof.
  intros Hd Hl Hu Hv H. wp_step. eapply wp_mono; [apply map_bars_holds; [exact H|by rewrite Hl]|].
  intros ok s' tr' (E0 & E1 & El & _ & k & Hk & Hm & Hn & H'). rewrite <- E0, <- E1 in H'.
  destruct ok; cbn [negb].
  - subst k. repeat acq. exists vec. split; [done|]. left. split; [done|]. split; [|done].
    eapply holds_proper; [|exact H']. unfold probed. done.
  - apply (cleanup_post fresh k vec (r_irq (msi_1 s') :: r_irq (msi_0 s') :: vec ++ [r_enabled]));
      try done; [by rewrite El|lia|by intros Hf; apply Hn, Hu|do 4 right; done|].
    eapply holds_proper; [|exact H']. solve_Permutation.
Qed.

(** C28: Probing: with all resources and the pointers of the four bars set, or with
    [-EIO] and one of five leftovers.  Nothing but the failure of
    [pci_enable_device] itself leaves nothing: the device stays enabled, the
    regions requested before one is refused stay requested, the vectors stay
    allocated, and interrupt handlers stay installed.  That is so when the four
    pointers are NULL, as on the first probe; pointers left by an earlier probe
    (neither removal nor the clean-up resets them) may be unmapped once more. *)
Theorem codec_probe_paths (e : env xcall) s tr :
  length (bars s) = PCIE_BARS -> holds tr [] ->
  exists r s' tr' vec, device_init e s tr = Ok r s' tr' /\
    (vec = [] \/ vec = [r_vectors]) /\
    (r = 0 /\ holds tr' (probed (msi_0 s') (msi_1 s') vec) /\ mapped s' 0 PCIE_BARS \/
     r = - EIO /\ ((exists L, leaked (msi_0 s') (msi_1 s') vec L /\ holds tr' L) \/
                   bars s <> replicate PCIE_BARS 0 /\ held tr' = None)).
Proof.
  intros Hlen H. set (fresh := bars s = replicate PCIE_BARS 0).
  assert (fresh \/ ~ fresh) as Hd by (destruct (decide (bars s = replicate PCIE_BARS 0)); auto).
  assert (fresh -> unmapped s 0 PCIE_BARS) as Hu.
  { intros Hf j Hj. rewrite Hf. apply lookup_replicate_2. lia. }
  enough (wp device_init e (probe_post fresh) s tr) as Hwp.
  { apply wp_run in Hwp as (r & s' & tr' & Hr & vec & Hv & HL). by exists r, s', tr', vec. }
  unfold device_init. repeat acq. destruct (a =? 0); cbn [negb].
  2: { repeat acq. exists []. split; [by left|]. right. split; [done|]. left. exists []. by split; [left|]. }
  wp_step. eapply wp_mono; [by apply request_regions_holds|].
  intros ok s1 tr1 (-> & k & Hk & H1). destruct ok; cbn [negb].
  2: { repeat acq. exists []. split; [by left|]. right. split; [done|]. left. eexists.
       split; [|exact H1]. right. left. by exists k. }
  subst k. wp_step. eapply wp_mono; [by apply report_space_holds|]. intros _ s2 tr2 (-> & H2).
  do 5 acq. set (vec := if 0 <=? a0 then [r_vectors] else []) in *.
  assert (Hvec : vec = [] \/ vec = [r_vectors]) by (unfold vec; case_match; auto).
  repeat acq. destruct (a6 =? 0); cbn [negb].
  2: { repeat acq. apply (cleanup_post fresh 0 vec (vec ++ [r_enabled])); try done.
       - lia.
       - intros j Hj. lia.
       - do 2 right. by left.
       - eapply holds_proper; [|exact H2]. simpl. solve_Permutation. }
  repeat acq. destruct (a7 =? 0); cbn [negb].
  2: { repeat acq. apply (cleanup_post fresh 0 vec (r_irq a1 :: vec ++ [r_enabled])); try done.
       - lia.
       - intros j Hj. lia.
       - do 3 right. by left.
       - eapply holds_proper; [|exact H2]. simpl. solve_Permutation. }
  apply (map_post fresh vec); done.
Qed.

(** Removal gives back everything a successful probe acquired, when the two
    vectors were allocated (their numbers are not negative). *)
Theorem codec_remove_balanced (e : env xcall) s tr :
  mapped s 0 PCIE_BARS -> length (bars s) = PCIE_BARS -> 0 <= msi_0 s -> 0 <= msi_1 s ->
  holds tr (probed (msi_0 s) (msi_1 s) [r_vectors]) ->
  exists tr', device_deinit e s tr = Ok tt s tr' /\ held tr' = Some [].
Proof.
  intros Hm Hl H0 H1 H. unfold probed in H.
  enough (wp device_deinit e (fun _ s' tr' => s' = s /\ holds tr' []) s tr) as Hwp.
  { apply wp_run in Hwp as ([] & s' & tr' & Hr & -> & Hh). exists tr'. by auto using holds_nil. }
  unfold device_deinit. apply wp_bind, wp_get. cbn beta.
  rewrite (proj2 (Z.leb_le 0 (msi_0 s))), (proj2 (Z.leb_le 0 (msi_1 s))) by done.
  apply wp_bind. rel [r_irq (msi_0 s)]
    (maps 0 PCIE_BARS ++ [r_irq (msi_1 s); r_vectors] ++ regions 0 PCIE_BARS ++ [r_enabled]).
  { simpl. solve_Permutation. }
  apply wp_bind. rel [r_irq (msi_1 s)]
    (maps 0 PCIE_BARS ++ [r_vectors] ++ regions 0 PCIE_BARS ++ [r_enabled]).
  { simpl. solve_Permutation. }
  apply wp_bind. rel [r_vectors] (regions 0 PCIE_BARS ++ maps 0 PCIE_BARS ++ [r_enabled]).
  { simpl. solve_Permutation. }
  apply wp_bind. eapply wp_mono; [by apply release_regions_holds|]. intros _ s1 tr1 (-> & H').
  apply wp_bind. eapply wp_mono; [apply (unmap_bars_holds PCIE_BARS 0 PCIE_BARS); [|exact H']|].
  { split_and!; [lia|done|intros j Hj; lia]. }
  intros _ s2 tr2 (-> & H2). rel [r_enabled] (@nil codec_rsrc); done.
Qed.

(** ** Loading *)

(** The name and number of [device_destroy] in [mod_init] and [mod_exit] never
    are those of a device that was created: the device number is shifted out. *)
Lemma destroy_wrong_numbers ma i k :
  0 < ma < 2 ^ 12 -> 0 <= i < MAX_DEVICES -> 0 <= k < 3 ->
  MKDEV (Z.shiftl ma 20) i <> device_number (Z.shiftl ma 20) k.
Proof.
  intros Hma Hi Hk. unfold MKDEV, device_number, MKDEV, MAJOR, MINOR, MAX_DEVICES in *.
  rewrite Z.shiftr_shiftl_l by lia. change (20 - 20) with 0. rewrite Z.shiftl_0_r.
  assert (Z.land (Z.shiftl ma 20) (2 ^ 20 - 1) = 0) as ->.
  { change (2 ^ 20 - 1) with (Z.ones 20). rewrite Z.land_ones by lia.
    rewrite Z.shiftl_mul_pow2 by lia. by apply Z.mod_mul. }
  rewrite !Z.shiftl_mul_pow2 by lia. unfold uwrap.
  rewrite (Z.mod_small (ma * 2 ^ 20)) by (change (2 ^ 20) with 1048576; change (2 ^ 32) with 4294967296; change (2 ^ 12) with 4096 in Hma; lia).
  replace (ma * 2 ^ 20 * 2 ^ 20) with (ma * 2 ^ 8 * 2 ^ 32) by (rewrite <- !Z.mul_assoc; f_equal).
  rewrite Z.mod_mul by done. rewrite Z.lor_0_l, Z.add_0_l. intros E.
  apply (f_equal (fun z => Z.shiftr z 20)) in E. rewrite Z.shiftr_lor, !Z.shiftr_div_pow2 in E by lia.
  rewrite Z.div_mul, !Z.div_small, Z.lor_0_r in E by (try done; change (2 ^ 20) with 1048576; lia).
  lia.
Qed.

Section loading.
Context (e : env xcall) (ma : Z).
Hypothesis major_ok : 0 < ma < 2 ^ 12.
(** [alloc_chrdev_region] gives a number with the first minor asked for, 0. *)
Hypothesis number_ok : forall tr n b, (e tr (alloc_chrdev_region 0 n b) : Z * Z).2 = Z.shiftl ma 20.
(** [class_create] answers no NULL; the class is new, so [device_destroy] finds
    nothing under a number that none of the module's devices has. *)
Hypothesis class_ok : forall tr n, e tr (class_create n) <> PNull.
Hypothesis devices_ok : forall tr c d n, e tr (device_create c d n) = POk.
Hypothesis destroy_ok : forall tr d,
  (forall k, 0 <= k < 3 -> d <> device_number (Z.shiftl ma 20) k) -> e tr (device_destroy d) = false.

Definition dev : Z := Z.shiftl ma 20.
Definition three_devices : list codec_rsrc :=
  [r_device (device_number dev 2); r_device (device_number dev 1); r_device (device_number dev 0)].

Lemma destroy_devices_nothing s tr L :
  holds tr L -> wp (destroy_devices dev) e (fun _ s' tr' => s' = s /\ holds tr' L) s tr.
Proof using destroy_ok major_ok.
  intros H. unfold destroy_devices.
  assert (Hd : forall i tr, 0 <= i < MAX_DEVICES -> holds tr L ->
    holds (existT (device_destroy (MKDEV dev i)) (e tr (device_destroy (MKDEV dev i))) :: tr) L).
  { intros i tr0 Hi H0. rewrite destroy_ok by (intros k Hk; by apply destroy_wrong_numbers).
    by apply holds_release. }
  wp_go. split; [done|]. apply Hd; [unfold MAX_DEVICES; lia|]. apply Hd; [unfold MAX_DEVICES; lia|done].
Qed.

Lemma free_dev_number_holds s tr L :
  holds tr (r_number :: L) ->
  wp free_dev_number e (fun r s' tr' => r = - EIO /\ holds tr' L) s tr.
Proof using.
  intros H. unfold free_dev_number, err. apply wp_bind, wp_get. cbn beta. apply wp_bind.
  rel [r_number] L; [done|]. by repeat acq.
Qed.

Lemma mod_exit_gives_back s tr :
  devices s = [POk; POk; POk] -> pci_class s = POk -> pci_dev_number s = dev ->
  holds tr (r_driver :: three_devices ++ [r_class; r_added; r_object; r_number]) ->
  exists tr2, mod_exit e s tr = Ok tt s tr2 /\ held tr2 = Some [].
Proof using destroy_ok major_ok.
  intros Hd Hc Hn H.
  enough (wp mod_exit e (fun _ s' tr' => s' = s /\ holds tr' []) s tr) as Hwp.
  { apply wp_run in Hwp as ([] & s' & tr' & Hr & -> & Hh). exists tr'. by auto using holds_nil. }
  unfold mod_exit, unregister_device. apply wp_bind.
  rel [r_driver] (three_devices ++ [r_class; r_added; r_object; r_number]); [done|].
  do 2 apply wp_bind. apply wp_get. apply wp_bind, wp_or_fault. rewrite Hd, Hn. exists POk. split; [done|].
  rel [r_device (device_number dev 0)]
    ([r_device (device_number dev 2); r_device (device_number dev 1); r_class; r_added; r_object; r_number]);
    [simpl; solve_Permutation|].
  do 2 apply wp_bind. apply wp_get. apply wp_bind, wp_or_fault. rewrite Hd, Hn. exists POk. split; [done|].
  rel [r_device (device_number dev 1)]
    ([r_device (device_number dev 2); r_class; r_added; r_object; r_number]); [simpl; solve_Permutation|].
  do 2 apply wp_bind. apply wp_get. apply wp_bind, wp_or_fault. rewrite Hd, Hn. exists POk. split; [done|].
  rel [r_device (device_number dev 2)] ([r_class; r_added; r_object; r_number]); [done|].
  apply wp_bind, wp_get. rewrite Hn, Hc. apply wp_bind.
  eapply wp_mono; [apply (destroy_devices_nothing _ _ _ H)|]. intros _ s1 tr1 (-> & H1).
  apply wp_bind. rel [r_class] [r_added; r_object; r_number]; [done|].
  apply wp_bind. rel [r_added; r_object] [r_number]; [done|].
  rel [r_number] (@nil codec_rsrc); done.
Qed.

(** Loading the module: on success everything is registered, and [mod_exit]
    gives it all back; a failure of [class_create] leaves the character device
    registered without its number, and a failure to register the driver leaves
    it, the class and the three devices, because the loop that should destroy
    them names other device numbers. *)
Theorem codec_load_paths s tr :
  holds tr [] ->
  exists r s' tr', mod_init e s tr = Ok r s' tr' /\
    (r = 0 /\ holds tr' (r_driver :: three_devices ++ [r_class; r_added; r_object; r_number]) /\
       (exists tr2, mod_exit e s' tr' = Ok tt s' tr2 /\ held tr2 = Some []) \/
     r = - EIO /\ (holds tr' [] \/ holds tr' [r_added] \/
       holds tr' (three_devices ++ [r_class; r_added; r_object]))).
Proof using class_ok destroy_ok devices_ok major_ok number_ok.
  intros H. apply wp_run. unfold mod_init.
  acq_ans. destruct a as [r d].
  pose proof (number_ok tr MAX_DEVICES (str "codec_pci")) as Hd. rewrite <- Ea in Hd.
  change (d = dev) in Hd. subst d. clear Ea.
  cbn [fst] in H. destruct (Z.ltb_spec r 0) as [Hr|Hr].
  { rewrite (proj2 (Z.leb_gt 0 r)) in H by done. unfold err. repeat acq. right. by auto. }
  rewrite (proj2 (Z.leb_le 0 r)) in H by done.
  repeat acq. destruct a; cbn [negb].
  2: { eapply wp_mono; [by apply free_dev_number_holds|]. intros r0 s0 tr0 [-> H0]. right. by auto. }
  repeat acq. destruct (a =? 0); cbn [negb].
  2: { unfold free_cdev. apply wp_bind. rel [r_object] [r_number]; [done|].
       eapply wp_mono; [by apply free_dev_number_holds|]. intros r0 s0 tr0 [-> H0]. right. by auto. }
  acq_ans. destruct a0 as [|err|]; cbn [IS_ERR]; [by apply eq_sym, class_ok in Ea| |].
  { repeat acq. unfold free_cdev. apply wp_bind. rel [r_object] [r_number; r_added]; [simpl; solve_Permutation|].
       eapply wp_mono; [by apply free_dev_number_holds|]. intros r0 s0 tr0 [-> H0]. right. by auto. }
  clear Ea. acq. acq_ans. rewrite devices_ok in Ea. subst a0.
  acq_ans. rewrite devices_ok in Ea. subst a0. acq_ans. rewrite devices_ok in Ea. subst a0.
  repeat acq. destruct (Z.ltb_spec a0 0) as [Ha|Ha].
  { rewrite (proj2 (Z.leb_gt 0 a0)) in H by done. apply wp_bind.
    eapply wp_mono; [apply (destroy_devices_nothing _ _ _ H)|]. intros _ s1 tr1 (-> & H1).
    eapply wp_mono; [apply (free_dev_number_holds _ _ (three_devices ++ [r_class; r_added; r_object]))|].
    { eapply holds_proper; [|exact H1]. simpl. solve_Permutation. }
    intros r0 s0 tr0 [-> H0]. right. by auto. }
  rewrite (proj2 (Z.leb_le 0 a0)) in H by done. wp_go. left. split; [done|].
  assert (H' : holds tr'6 (r_driver :: three_devices ++ [r_class; r_added; r_object; r_number])).
  { eapply holds_proper; [|exact H]. simpl. solve_Permutation. }
  split; [done|]. by apply mod_exit_gives_back.
Qed.
End loading.

(** ** Witnesses *)

(** A machine on which everything succeeds, but for the second interrupt when
    [busy] and the driver when [refuse]. *)
Definition codec_env (busy refuse : bool) : env xcall := fun _ c =>
  match c as c0 return resp c0 with
  | pci_enable_device | pci_request_region _ | cdev_add _ _ => 0
  | pci_resource_len _ => 4096
  | pci_alloc_irq_vectors _ n => n
  | pci_irq_vector n => 30 + n
  | request_irq n _ => if busy && (n =? 31) then -16 else 0
  | pci_iomap i _ => 0xc0000000 + Z.of_nat i
  | pci_register_driver => if refuse then -12 else 0
  | pci_resource_flags _ => (false, true)
  | alloc_chrdev_region _ _ _ => (0, Z.shiftl 240 20)
  | cdev_alloc => true
  | device_destroy _ => false
  | class_create _ | device_create _ _ _ => POk
  | _ => tt
  end.

Lemma holds_nothing : holds (C := xcall) [] [].
Proof. by apply held_holds. Qed.

Lemma codec_probe_paths_witness :
  exists r s' tr', device_init (codec_env true false) codec_zero [] = Ok r s' tr' /\
    (r = 0 \/ r = - EIO).
Proof.
  destruct (codec_probe_paths (codec_env true false) codec_zero [] eq_refl holds_nothing)
    as (r & s' & tr' & vec & Hr & _ & H).
  exists r, s', tr'. split; [exact Hr|]. destruct H as [[H _]|[H _]]; [left|right]; exact H.
Defined.

(** The state and the trace of a successful probe. *)
Definition probed_state : codec :=
  mk_codec [0xc0000000; 0xc0000001; 0xc0000002; 0xc0000003] 2 30 31 0 false PNull [].

Lemma codec_remove_balanced_witness :
  exists tr tr', device_deinit (codec_env false false) probed_state tr = Ok tt probed_state tr' /\
    held tr' = Some [].
Proof.
  destruct (device_init (codec_env false false) codec_zero []) as [r s tr|f s tr] eqn:E;
    [|vm_compute in E; discriminate E].
  exists tr.
  apply (codec_remove_balanced (codec_env false false) probed_state tr).
  - intros j Hj. do 4 (destruct j as [|j]; [eexists; split; [reflexivity|discriminate]|]).
    unfold PCIE_BARS in Hj. lia.
  - reflexivity.
  - discriminate.
  - discriminate.
  - apply (f_equal (fun o => match o with Ok _ _ t => t | Fault _ _ t => t end)) in E.
    exists (match held tr with Some L => L | None => [] end). rewrite <- E.
    split; [vm_compute; reflexivity|]. vm_compute. solve_Permutation.
Defined.

Lemma codec_load_paths_witness :
  exists r s' tr', mod_init (codec_env false true) codec_zero [] = Ok r s' tr' /\
    (r = 0 \/ r = - EIO).
Proof.
  destruct (codec_load_paths (codec_env false true) 240 ltac:(split; reflexivity)
    ltac:(intros; reflexivity) ltac:(intros; discriminate) ltac:(intros; reflexivity)
    ltac:(intros; reflexivity) codec_zero [] holds_nothing)
    as (r & s' & tr' & Hr & H).
  exists r, s', tr'. split; [exact Hr|]. destruct H as [[H _]|[H _]]; [left|right]; exact H.
Defined.

(** A second probe, after a removal, in which an interrupt is busy: the pointers
    of the first one are unmapped again. *)
Theorem codec_reprobe_unmaps_twice :
  exists s tr, device_init (codec_env true false) probed_state [] = Ok (- EIO) s tr /\
    held tr = None.
Proof. eexists _, _. split; vm_compute; reflexivity. Qed.
