(* ===== verification/Deferred.v ===== *)
(** * Deferred work and unloading

    The modules that have the kernel run a function of theirs later: the two
    timers ([timer/lower_resolution], [timer/higer_resolution]; when they fire is
    in [LrTimer] and [HrTimer]), [tasklet], [soft_irq] and [workqueue].  The code of
    each is straight-line, so a module is three lists of operations: what it does
    when it is loaded, what the deferred function does, what unloading does.  The
    operations have the effect the kernel documents on one bit, whether the
    function is queued; the function runs interleaved with the rest, and
    running any of it once the module is gone is a fault.

    [worker], which has a thread and a queue of its own, is in [Worker]. *)

From S2P Require Export Steps.

(** ** Operations *)

Inductive dop :=
  | printk
  | setup                       (* initialises the timer, work, queue, ... *)
  | queue                       (* the function will be run (again) *)
  | del_timer                   (* takes it out of the queue, does not wait *)
  | hrtimer_cancel              (* waits while it runs and takes it out *)
  | drain                       (* waits until it is neither queued nor running *)
  | alloc_workqueue             (* NULL when there is no memory *)
  | queue_work                  (* [queue], through that pointer *)
  | destroy_workqueue.          (* [drain], through that pointer *)

#[export] Instance dop_eq_dec : EqDecision dop.
Proof. solve_decision. Defined.

Record deferred := mk_deferred {
  d_init : list dop;
  d_handler : list dop;
  d_exit : list dop;
}.

(** timer/lower_resolution/simple.c: [mod_timer] queues, in the callback too. *)
Definition lower_timer : deferred :=
  mk_deferred [printk; setup; queue] [printk; queue] [printk; del_timer].

(** timer/higer_resolution/simple.c: the callback reads the clock, prints,
    forwards the timer and has it restarted ([HRTIMER_RESTART]). *)
Definition higher_timer : deferred :=
  mk_deferred [setup; queue; setup] [setup; printk; setup; queue] [hrtimer_cancel].

(** tasklet/simple.c: [tasklet_kill] waits for a scheduled tasklet to run. *)
Definition tasklet : deferred := mk_deferred [setup; queue] [printk] [drain].

(** soft_irq/simple.c: unloading raises the soft interrupt once more. *)
Definition soft_irq : deferred := mk_deferred [setup; queue] [printk] [queue].

(** workqueue/simple.c: the result of [alloc_workqueue] is not looked at. *)
Definition workqueue : deferred :=
  mk_deferred [alloc_workqueue; setup; queue_work] [printk] [destroy_workqueue].

(** ** Running *)

(** [ready]: the work queue is not NULL; [running]: the rest of the function,
    when it runs; [init_left], [exit_left]: the rest of loading and unloading;
    [gone]: unloading has returned. *)
Record dstate := mk_dstate {
  queued : bool;
  ready : bool;
  running : option (list dop);
  init_left : list dop;
  exit_left : list dop;
  gone : bool;
}.

Definition set_queued (b : bool) (s : dstate) : dstate :=
  mk_dstate b (ready s) (running s) (init_left s) (exit_left s) (gone s).
Definition set_ready (b : bool) (s : dstate) : dstate :=
  mk_dstate (queued s) b (running s) (init_left s) (exit_left s) (gone s).
Definition set_running (r : option (list dop)) (s : dstate) : dstate :=
  mk_dstate (queued s) (ready s) r (init_left s) (exit_left s) (gone s).
Definition set_init_left (l : list dop) (s : dstate) : dstate :=
  mk_dstate (queued s) (ready s) (running s) l (exit_left s) (gone s).
Definition set_exit_left (l : list dop) (s : dstate) : dstate :=
  mk_dstate (queued s) (ready s) (running s) (init_left s) l (gone s).
Definition set_gone (s : dstate) : dstate :=
  mk_dstate (queued s) (ready s) (running s) (init_left s) (exit_left s) true.

Definition is_running (s : dstate) : bool := match running s with Some _ => true | None => false end.

(** [alloc_ok]: is there memory for the work queue? *)
Section running.
Context (alloc_ok : bool).

(** One operation; [None]: it has to wait. *)
Definition exec (o : dop) (s : dstate) : fault + option dstate :=
  match o with
  | printk | setup => inr (Some s)
  | queue => inr (Some (set_queued true s))
  | del_timer => inr (Some (set_queued false s))
  | hrtimer_cancel => inr (if is_running s then None else Some (set_queued false s))
  | drain => inr (if is_running s || queued s then None else Some s)
  | alloc_workqueue => inr (Some (set_ready alloc_ok s))
  | queue_work => if ready s then inr (Some (set_queued true s)) else inl NullDeref
  | destroy_workqueue =>
      if ready s then inr (if is_running s || queued s then None else Some s) else inl NullDeref
  end.

Inductive dtask := T_load | T_expire | T_handler | T_unload.

(** A step of a task; one that cannot go on stays where it is. *)
Definition dstep (m : deferred) (t : dtask) (s : dstate) : fault + dstate :=
  match t with
  | T_load =>
      match init_left s with
      | o :: l =>
          r ← exec o s;
          inr (match r with Some s' => set_init_left l s' | None => s end)
      | [] => inr s
      end
  | T_expire =>
      if queued s && negb (is_running s) then
        if gone s then inl UnloadedCode
        else inr (set_running (Some (d_handler m)) (set_queued false s))
      else inr s
  | T_handler =>
      match running s with
      | None => inr s
      | Some l =>
          if gone s then inl UnloadedCode else
          match l with
          | [] => inr (set_running None s)
          | o :: l' =>
              r ← exec o s;
              inr (match r with Some s' => set_running (Some l') s' | None => s end)
          end
      end
  | T_unload =>
      match init_left s, exit_left s with
      | [], o :: l =>
          r ← exec o s;
          inr (match r with
               | Some s' => match l with [] => set_gone (set_exit_left [] s') | _ => set_exit_left l s' end
               | None => s
               end)
      | _, _ => inr s
      end
  end.
End running.

Abbreviation drun ok m := (steps (dstep ok m)).

Definition dinitial (m : deferred) : dstate :=
  mk_dstate false false None (d_init m) (d_exit m) false.

(** ** Which modules wait *)

(** Unloading ends with an operation that waits, and what it waits for cannot
    be queued again: for [drain] the function itself does not queue. *)
Definition queues (o : dop) : bool :=
  match o with queue | queue_work => true | _ => false end.
Definition derefs (o : dop) : bool :=
  match o with queue_work | destroy_workqueue => true | _ => false end.
Definition allocs (o : dop) : bool := match o with alloc_workqueue => true | _ => false end.
Definition waits_for_handler (m : deferred) : bool :=
  match last (d_exit m) with
  | Some hrtimer_cancel => true
  | Some (drain | destroy_workqueue) => negb (existsb queues (d_handler m))
  | _ => false
  end.

(** Does the module have a work queue?  If so it is allocated first, and used
    before loading ends; the function does not touch it. *)
Definition has_queue (m : deferred) : bool := existsb derefs (d_init m ++ d_exit m).
Definition allocates_first (m : deferred) : bool :=
  negb (existsb derefs (d_handler m)) && negb (existsb allocs (d_handler m ++ d_exit m)) &&
  (negb (has_queue m) ||
   match d_init m, last (d_init m) with
   | alloc_workqueue :: _, Some o => derefs o
   | _, _ => false
   end).

Section safety.
Context (ok : bool) (m : deferred).
Hypothesis Hwaits : waits_for_handler m = true.
Hypothesis Halloc : allocates_first m = true.

(** Once the module is gone nothing is queued or runs; until then, what is
    left of unloading ends with the same operation, and what runs is a part of
    the function.  The work queue is there unless loading is not done. *)
Record dinv (s : dstate) : Prop := {
  di_gone : gone s = true -> queued s = false /\ running s = None /\ exit_left s = [];
  di_loaded : gone s = true -> init_left s = [];
  di_init : exists l, d_init m = l ++ init_left s;
  di_ready : has_queue m = true ->
    ready s = true \/ init_left s <> [] /\ (ok = false \/ init_left s = d_init m);
  di_exit : gone s = false -> exists l, d_exit m = l ++ exit_left s /\ exit_left s <> [];
  di_running : forall l, running s = Some l -> exists l0, d_handler m = l0 ++ l;
}.

Lemma dinitial_inv : dinv (dinitial m).
Proof using Hwaits Halloc.
  split; simpl; try done.
  - by exists [].
  - intros Hq. right. split; [|by right]. unfold allocates_first in Halloc.
    rewrite Hq in Halloc. intros E. rewrite E, andb_false_r in Halloc. done.
  - intros _. exists []. split; [done|].
    intros E. unfold waits_for_handler in Hwaits. by rewrite E in Hwaits.
Qed.

Lemma exec_fields o s s' :
  exec ok o s = inr (Some s') ->
  running s' = running s /\ init_left s' = init_left s /\ exit_left s' = exit_left s /\
  gone s' = gone s /\ (o <> alloc_workqueue -> ready s' = ready s).
Proof using. intros H. destruct o; simpl in H; repeat case_match; by simplify_eq. Qed.

(** Only a NULL work queue stops an operation. *)
Lemma exec_fault o s x : exec ok o s = inl x -> x = NullDeref /\ derefs o = true /\ ready s = false.
Proof using. intros H. destruct o; simpl in H; repeat case_match; by simplify_eq. Qed.

Lemma derefs_has_queue o l1 l2 :
  derefs o = true -> d_init m = l1 ++ o :: l2 \/ d_exit m = l1 ++ o :: l2 -> has_queue m = true.
Proof using.
  intros Ho H. unfold has_queue. rewrite existsb_app.
  destruct H as [-> | ->]; rewrite existsb_app; simpl; rewrite Ho; by rewrite ?orb_true_r.
Qed.

Lemma existsb_mid {A} (f : A -> bool) l1 x l2 : existsb f (l1 ++ x :: l2) = false -> f x = false.
Proof using. rewrite existsb_app. simpl. intros H. by destruct (f x), (existsb f l1). Qed.

Lemma handler_untouched o l1 l2 :
  d_handler m = l1 ++ o :: l2 -> derefs o = false /\ o <> alloc_workqueue.
Proof using Halloc.
  intros E. unfold allocates_first in Halloc. bool_hyps. split.
  - eapply existsb_mid. by rewrite <- E.
  - intros ->. assert (allocs alloc_workqueue = false) as Hf; [|done].
    eapply (existsb_mid _ l1 _ (l2 ++ d_exit m)).
    by replace (l1 ++ alloc_workqueue :: l2 ++ d_exit m) with (d_handler m ++ d_exit m)
      by (rewrite E; by rewrite <- app_assoc).
Qed.

Lemma exit_no_alloc o l1 l2 : d_exit m = l1 ++ o :: l2 -> o <> alloc_workqueue.
Proof using Halloc.
  intros E ->. unfold allocates_first in Halloc. bool_hyps.
  assert (allocs alloc_workqueue = false) as Hf; [|done].
  eapply (existsb_mid _ (d_handler m ++ l1) _ l2). by rewrite <- app_assoc, <- E.
Qed.

(** The last operation of unloading leaves nothing behind. *)
Lemma exec_last l o s s' :
  d_exit m = l ++ [o] -> exec ok o s = inr (Some s') -> queued s' = false /\ running s' = None.
Proof using Hwaits.
  intros El Hs. unfold waits_for_handler in Hwaits. rewrite El, last_snoc in Hwaits.
  destruct o; try done; simpl in Hs; unfold is_running in Hs;
    destruct s as [q rd [r|] i x n]; simpl in Hs; try done; destruct q; try done;
    destruct rd; try done; by injection Hs as <-.
Qed.

(** The work queue after an operation of loading. *)
Lemma ready_after o l s s' :
  dinv s -> init_left s = o :: l -> exec ok o s = inr (Some s') -> has_queue m = true ->
  ready s' = true \/ l <> [] /\ (ok = false \/ l = d_init m).
Proof using Halloc.
  intros Hi El Ex Hq. pose proof (di_ready _ Hi Hq) as Hr.
  destruct (di_init _ Hi) as [l0 Ei]. rewrite El in Hr, Ei.
  destruct (exec_fields _ _ _ Ex) as (_ & _ & _ & _ & Hsame).
  unfold allocates_first in Halloc. rewrite Hq in Halloc.
  apply andb_true_iff in Halloc as [_ Hf]. simpl in Hf.
  destruct (d_init m) as [|o1 rest] eqn:Ed; [done|].
  destruct o1; try done. destruct (last _) as [o2|] eqn:Elast; [|done].
  destruct (decide (o = alloc_workqueue)) as [->|Hne].
  - injection Ex as <-. simpl. destruct ok; [by left|right]. split; [|by left].
    intros ->. rewrite Ei, last_snoc in Elast. by injection Elast as <-.
  - rewrite Hsame by done. destruct (ready s) eqn:Er; [by left|right].
    destruct Hr as [Hr|[_ [Hok|E]]]; [done| |congruence].
    split; [|by left]. intros ->. rewrite Ei, last_snoc in Elast. injection Elast as <-.
    destruct o; try done; simpl in Ex; by rewrite Er in Ex.
Qed.

(** Every step goes on, or uses a work queue that could not be allocated. *)
Lemma dstep_inv t s :
  dinv s ->
  (exists s', dstep ok m t s = inr s' /\ dinv s') \/
  (dstep ok m t s = inl NullDeref /\ ok = false /\ has_queue m = true).
Proof using Hwaits Halloc.
  intros Hs. pose proof Hs as [Hg Hld Hin Hrd He Hr]. destruct t; simpl.
  - destruct (init_left s) as [|o l] eqn:El; [left; by exists s|].
    destruct (gone s) eqn:Eg; [by specialize (Hld eq_refl)|].
    destruct Hin as [l0 Ei]. destruct (exec ok o s) as [x|[s'|]] eqn:Ex; cbn [mbind fault_bind].
    + right. destruct (exec_fault _ _ _ Ex) as (-> & Hd & Hn).
      assert (has_queue m = true) as Hq by (eapply derefs_has_queue; [done|by left]).
      split; [done|]. split; [|done]. destruct (Hrd Hq) as [?|[_ [?|E]]]; [congruence|done|].
      exfalso. unfold allocates_first in Halloc. rewrite Hq, <- E in Halloc.
      destruct o; try done; simpl in Halloc; by rewrite andb_false_r in Halloc.
    + left. destruct (exec_fields _ _ _ Ex) as (E1 & E2 & E3 & E4 & _).
      pose proof (ready_after _ _ _ _ Hs El Ex) as Hra.
      eexists; split; [reflexivity|]. split; simpl; rewrite ?E1, ?E3, ?E4, ?Eg; try done.
      exists (l0 ++ [o]). by rewrite <- app_assoc.
    + left. by exists s.
  - left. destruct (queued s && negb (is_running s)) eqn:Eq; [|by exists s].
    destruct (gone s) eqn:Eg.
    { destruct (Hg eq_refl) as (Hq & _ & _). by rewrite Hq in Eq. }
    eexists; split; [reflexivity|]. split; simpl; rewrite ?Eg; try done.
    intros l [= <-]. by exists [].
  - left. destruct (running s) as [l|] eqn:Er; [|by exists s].
    destruct (gone s) eqn:Eg; [by destruct (Hg eq_refl) as (_ & ? & _)|].
    destruct l as [|o l].
    { eexists; split; [reflexivity|]. split; simpl; rewrite ?Eg; done. }
    destruct (Hr _ eq_refl) as [l0 Eh].
    destruct (exec ok o s) as [x|[s'|]] eqn:Ex; cbn [mbind fault_bind]; [| |by exists s].
    { destruct (exec_fault _ _ _ Ex) as (_ & Hd & _).
      by rewrite (proj1 (handler_untouched _ _ _ Eh)) in Hd. }
    destruct (exec_fields _ _ _ Ex) as (E1 & E2 & E3 & E4 & E5).
    eexists; split; [reflexivity|]. split; simpl; rewrite ?E2, ?E3, ?E4, ?Eg; try done.
    + rewrite E5 by exact (proj2 (handler_untouched _ _ _ Eh)). done.
    + intros l' [= <-]. exists (l0 ++ [o]). by rewrite <- app_assoc.
  - destruct (init_left s) as [|] eqn:El; [|left; by exists s].
    destruct (exit_left s) as [|o l] eqn:Ee; [by left; exists s; split; rewrite ?El, ?Ee|].
    destruct (gone s) eqn:Eg; [by destruct (Hg eq_refl) as (_ & _ & ?)|].
    destruct (He eq_refl) as (l0 & Hl0 & _).
    destruct (exec ok o s) as [x|[s'|]] eqn:Ex; cbn [mbind fault_bind]; [| |left; by exists s].
    { destruct (exec_fault _ _ _ Ex) as (_ & Hd & Hn).
      destruct Hrd as [?|[? _]]; [|congruence|done]. eapply derefs_has_queue; [done|by right]. }
    left. destruct (exec_fields _ _ _ Ex) as (E1 & E2 & E3 & E4 & E5).
    eexists; split; [reflexivity|]. destruct l as [|o' l].
    + destruct (exec_last _ _ _ _ Hl0 Ex) as [Hq Hrn].
      rewrite <- (E5 (exit_no_alloc _ _ _ Hl0)) in Hrd.
      split; simpl; rewrite ?E2, ?El; try done. by intros l; rewrite E1; apply Hr.
    + rewrite <- (E5 (exit_no_alloc _ _ _ Hl0)) in Hrd.
      split; simpl; rewrite ?E1, ?E2, ?E4, ?El, ?Eg; try done.
      intros _. exists (l0 ++ [o]). by rewrite <- app_assoc.
Qed.

Lemma drun_inv sched s :
  dinv s ->
  match drun ok m sched s with
  | inr s' => dinv s'
  | inl f => f = NullDeref /\ ok = false /\ has_queue m = true
  end.
Proof using Hwaits Halloc.
  revert s. induction sched as [|t sched IH]; intros s Hi; [done|]. simpl.
  destruct (dstep_inv t s Hi) as [(s' & -> & Hi')|(-> & ? & ?)]; [by apply IH|done].
Qed.
End safety.

(** ** The theorems *)

Definition waiting_modules : list deferred := [higher_timer; tasklet; workqueue].

Lemma waiting_modules_wait m :
  m ∈ waiting_modules -> waits_for_handler m = true /\ allocates_first m = true /\
    (has_queue m = true -> m = workqueue).
Proof.
  intros Hm. repeat (apply elem_of_cons in Hm as [->|Hm]; [done|]). by apply not_elem_of_nil in Hm.
Qed.

(** C29: The modules whose unloading waits never run their function after they are
    gone, whatever the interleaving; and when they are gone it is neither
    queued nor running.  The only fault is that of the module with a work
    queue when there is no memory for it, which it does not check. *)
Theorem waiting_unload_safe ok m sched :
  m ∈ waiting_modules ->
  match drun ok m sched (dinitial m) with
  | inr s => gone s = true -> queued s = false /\ running s = None
  | inl f => f = NullDeref /\ m = workqueue /\ ok = false
  end.
Proof.
  intros Hm. destruct (waiting_modules_wait m Hm) as (Hw & Ha & Hq).
  pose proof (drun_inv ok m Hw Ha sched _ (dinitial_inv ok m Hw Ha)) as H.
  destruct (drun ok m sched (dinitial m)) as [f|s].
  - destruct H as (-> & -> & H). auto.
  - intros Hg. by destruct (di_gone _ _ _ H Hg) as (? & ? & _).
Qed.

(** Without memory every run that loads the module with a work queue stops. *)
Theorem workqueue_without_memory :
  drun false workqueue [T_load; T_load; T_load] (dinitial workqueue) = inl NullDeref.
Proof. reflexivity. Qed.

(** The other two do not wait, and each has an interleaving in which the kernel
    calls its function when the module is gone: [del_timer] while the callback
    is about to rearm the timer; the soft interrupt raised by unloading itself. *)
Theorem unload_races ok :
  (exists sched, drun ok lower_timer sched (dinitial lower_timer) = inl UnloadedCode) /\
  (exists sched, drun ok soft_irq sched (dinitial soft_irq) = inl UnloadedCode).
Proof.
  split.
  - exists [T_load; T_load; T_load; T_expire; T_handler; T_unload; T_unload; T_handler].
    reflexivity.
  - exists [T_load; T_load; T_unload; T_expire]. reflexivity.
Qed.




Lemma waiting_unload_safe_witness :
  match drun true tasklet [T_load; T_load; T_unload; T_expire; T_handler; T_handler; T_unload]
    (dinitial tasklet) with
  | inr s => gone s = true -> queued s = false /\ running s = None
  | inl f => f = NullDeref /\ tasklet = workqueue /\ true = false
  end.
Proof.
  apply (waiting_unload_safe true tasklet).
  apply elem_of_cons. right. apply elem_of_cons. left. reflexivity.
Defined.
