(* ===== verification/Worker.v ===== *)
(** * A kernel thread that works on a queue ([worker/simple.c])

    Loading sets up a [kthread_worker], starts a thread that runs the kernel's
    [kthread_worker_fn] on it, and queues one work; unloading calls
    [kthread_destroy_worker].  The thread, loading and unloading interleave.

    What the module relies on, as the kernel documents it: the thread notes
    itself in [worker->task] when it first runs, and then takes works from the
    queue until it is told to stop; [kthread_destroy_worker] only warns when there
    is no such task yet, and otherwise flushes the queue, stops the thread and
    frees the worker with [kfree], as it is meant for workers that
    [kthread_create_worker] has allocated.  Here the worker is a static object. *)

From S2P Require Export Steps.

(** The works in the queue: the module's, and the one with which a flush waits. *)
Inductive work := my_work | flush_work.

Inductive worker_pc :=
  | W_none       (* there is no thread *)
  | W_created    (* it has not run yet *)
  | W_loop       (* in the loop of [kthread_worker_fn] *)
  | W_func       (* in [my_func] *)
  | W_returned.
Inductive load_pc := I_worker | I_work | I_run | I_queue | I_done.
Inductive destroy_pc := E_start | E_flush | E_flushing | E_stop | E_join | E_free | E_done.

(** [my_worker] is [task], [items] and [flushed]; [hellos]: the lines printed;
    unloading has returned when [unload] is [E_done]. *)
Record worker_state := mk_worker {
  task : bool;
  items : list work;
  flushed : bool;
  should_stop : bool;
  thread : worker_pc;
  hellos : nat;
  load : load_pc;
  unload : destroy_pc;
}.

Definition set_thread (p : worker_pc) (s : worker_state) : worker_state :=
  mk_worker (task s) (items s) (flushed s) (should_stop s) p (hellos s) (load s) (unload s).
Definition set_task (b : bool) (s : worker_state) : worker_state :=
  mk_worker b (items s) (flushed s) (should_stop s) (thread s) (hellos s) (load s) (unload s).
Definition set_items (l : list work) (s : worker_state) : worker_state :=
  mk_worker (task s) l (flushed s) (should_stop s) (thread s) (hellos s) (load s) (unload s).
Definition set_flushed (s : worker_state) : worker_state :=
  mk_worker (task s) (items s) true (should_stop s) (thread s) (hellos s) (load s) (unload s).
Definition set_should_stop (s : worker_state) : worker_state :=
  mk_worker (task s) (items s) (flushed s) true (thread s) (hellos s) (load s) (unload s).
Definition print_hello (s : worker_state) : worker_state :=
  mk_worker (task s) (items s) (flushed s) (should_stop s) (thread s) (S (hellos s)) (load s) (unload s).
Definition set_load (p : load_pc) (s : worker_state) : worker_state :=
  mk_worker (task s) (items s) (flushed s) (should_stop s) (thread s) (hellos s) p (unload s).
Definition set_unload (p : destroy_pc) (s : worker_state) : worker_state :=
  mk_worker (task s) (items s) (flushed s) (should_stop s) (thread s) (hellos s) (load s) p.

Definition gone (s : worker_state) : bool := match unload s with E_done => true | _ => false end.

Definition kthread_queue_work (w : work) (s : worker_state) : worker_state :=
  set_items (items s ++ [w]) s.

(** [my_func]: the two calls after [printk] are commented out. *)
Definition my_func (s : worker_state) : worker_state := print_hello s.

Section worker.
Context (thread_ok : bool).       (* does [kthread_run] get its thread? *)

(** What [kthread_run] answers is not looked at. *)
Definition my_init (s : worker_state) : worker_state :=
  match load s with
  | I_worker => set_load I_work (set_items [] (set_task false s))
  | I_work => set_load I_run s
  | I_run => set_load I_queue (if thread_ok then set_thread W_created s else s)
  | I_queue => set_load I_done (kthread_queue_work my_work s)
  | I_done => s
  end.

(** A step of the thread; the worker goes away with the module. *)
Definition kthread_worker_fn (s : worker_state) : fault + worker_state :=
  match thread s with
  | W_none | W_returned => inr s
  | W_created => if gone s then inl UseAfterFree else inr (set_thread W_loop (set_task true s))
  | W_loop =>
      if gone s then inl UseAfterFree
      else if should_stop s then inr (set_thread W_returned (set_task false s))
      else
        match items s with
        | [] => inr s
        | my_work :: l => inr (set_thread W_func (set_items l s))
        | flush_work :: l => inr (set_flushed (set_items l s))
        end
  | W_func => if gone s then inl UnloadedCode else inr (set_thread W_loop (my_func s))
  end.

(** [my_exit] is [kthread_destroy_worker(&my_worker)]. *)
Definition my_exit (s : worker_state) : fault + worker_state :=
  match unload s with
  | E_start => inr (set_unload (if task s then E_flush else E_done) s)
  | E_flush => inr (set_unload E_flushing (kthread_queue_work flush_work s))
  | E_flushing => inr (if flushed s then set_unload E_stop s else s)
  | E_stop => inr (set_unload E_join (set_should_stop s))
  | E_join => inr (match thread s with W_returned => set_unload E_free s | _ => s end)
  | E_free => inl BadFree
  | E_done => inr s
  end.

Inductive wtask := T_load | T_thread | T_unload.

Definition wstep (t : wtask) (s : worker_state) : fault + worker_state :=
  match t with
  | T_load => inr (my_init s)
  | T_thread => kthread_worker_fn s
  | T_unload => match load s with I_done => my_exit s | _ => inr s end
  end.
End worker.

Abbreviation wrun ok := (steps (wstep ok)).

Definition wstart : worker_state :=
  mk_worker false [] false false W_none 0 I_worker E_start.

(** ** The invariant

    The states that can be reached are finitely many, so that an invariant that
    is a test is checked to be one by running it. *)

#[export] Instance work_eq_dec : EqDecision work.
Proof. solve_decision. Defined.
#[export] Instance worker_pc_eq_dec : EqDecision worker_pc.
Proof. solve_decision. Defined.
#[export] Instance load_pc_eq_dec : EqDecision load_pc.
Proof. solve_decision. Defined.
#[export] Instance destroy_pc_eq_dec : EqDecision destroy_pc.
Proof. solve_decision. Defined.
#[export] Instance worker_state_eq_dec : EqDecision worker_state.
Proof. solve_decision. Defined.


Section all_states.
Context (P : worker_state -> bool).


End all_states.











(** ** The theorems *)





(** Without a thread, which it does not notice, the module loads, its work stays in
    the queue, and unloading returns. *)
Theorem worker_without_thread sched :
  exists s, wrun false sched wstart = inr s /\ thread s = W_none /\ hellos s = 0%nat.
Proof.
  destruct (steps_inv (wstep false) (fun _ => True)
    (fun s => thread s = W_none /\ hellos s = 0%nat /\ task s = false /\ unload s ∈ [E_start; E_done]))
    with sched wstart as (s & Hr & Ht & Hh & _); [|by apply Forall_forall| |by exists s].
  - intros t s _ (Ht & Hh & Hk & Hu). destruct s as [tk it fl st th he ld ul]; simpl in *. subst.
    apply elem_of_cons in Hu as [->|Hu]; [|apply list_elem_of_singleton in Hu as ->];
      destruct t; simpl; try (eexists; split; [reflexivity|]; simpl; set_solver);
      destruct ld; simpl; (eexists; split; [reflexivity|]; simpl; set_solver).
  - simpl. set_solver.
Qed.
