(* ===== verification/HrTimer.v ===== *)
(** * The high-resolution timer ([timer/higer_resolution/simple.c])

    The clock, the interrupt that calls the function, the function, loading and
    unloading interleave.  Times are nanoseconds of CLOCK_MONOTONIC.  The
    kernel does not call the function before its expiry; how late it may do so
    is the [latency] of the machine, if there is a bound.

    [hrtimer_forward_now] belongs to the kernel: [HrtimerForward] states what its
    documentation promises, and the theorems hold for every instance. *)

From Stdlib Require Export Sorted.
From S2P Require Export Steps.

Definition NSEC_PER_SEC : Z := 1000000000.
Definition ms_to_ktime (ms : Z) : Z := ms * 1000000.

Record timespec64 := mk_timespec { tv_sec : Z; tv_nsec : Z }.
Definition ns_to_timespec64 (ns : Z) : timespec64 :=
  mk_timespec (ns / NSEC_PER_SEC) (ns mod NSEC_PER_SEC).
Definition timespec64_to_ns (t : timespec64) : Z := tv_sec t * NSEC_PER_SEC + tv_nsec t.

Lemma timespec64_roundtrip ns : timespec64_to_ns (ns_to_timespec64 ns) = ns.
Proof.
  unfold timespec64_to_ns, ns_to_timespec64; simpl.
  pose proof (Z.div_mod ns NSEC_PER_SEC ltac:(done)). lia.
Qed.

(** "Forward the timer expiry so it will expire after the current time": by
    whole intervals, and by no more of them than it takes. *)
Class HrtimerForward := {
  hrtimer_forward : forall (now expires interval : Z), Z;
  forward_grid : forall now e i, 0 < i -> exists n, 0 <= n /\ hrtimer_forward now e i = e + n * i;
  forward_after : forall now e i, 0 < i -> now < hrtimer_forward now e i;
  forward_least : forall now e i, 0 < i -> e <= now -> hrtimer_forward now e i <= now + i;
}.

#[export, program] Instance forward_by_division : HrtimerForward := {|
  hrtimer_forward now e i := if now <? e then e else e + ((now - e) / i + 1) * i
|}.
Next Obligation.
  intros now e i Hi. simpl. destruct (Z.ltb_spec now e); [by exists 0; lia|].
  exists ((now - e) / i + 1). split; [|done].
  pose proof (Z.div_pos (now - e) i ltac:(lia) Hi). lia.
Qed.
Next Obligation.
  intros now e i Hi. simpl. destruct (Z.ltb_spec now e); [done|].
  pose proof (Z.mul_succ_div_gt (now - e) i Hi). lia.
Qed.
Next Obligation.
  intros now e i Hi He. simpl. destruct (Z.ltb_spec now e); [lia|].
  pose proof (Z.mul_div_le (now - e) i Hi). lia.
Qed.

(** [static unsigned long interval= 1000; /* unit: ms */] *)
Definition interval : Z := 1000.
Abbreviation period := (ms_to_ktime interval).

(** ** The module *)

Inductive callback_pc := C_idle | C_get | C_print | C_last | C_forward | C_return.
Inductive init_pc := I_init | I_start | I_uptime | I_last | I_done.

(** [enqueued], [expires]: the timer; [lines]: what was printed, newest first;
    [started]: when the timer was. *)
Record hrstate := mk_hr {
  now : Z;
  started : Z;
  enqueued : bool;
  expires : Z;
  callback : callback_pc;
  ini : init_pc;
  gone : bool;
  uptime : timespec64;
  uptimeLast : timespec64;
  lines : list timespec64;
}.

Definition set_now (t : Z) (s : hrstate) : hrstate :=
  mk_hr t (started s) (enqueued s) (expires s) (callback s) (ini s) (gone s) (uptime s)
    (uptimeLast s) (lines s).
Definition set_timer (q : bool) (e : Z) (s : hrstate) : hrstate :=
  mk_hr (now s) (started s) q e (callback s) (ini s) (gone s) (uptime s) (uptimeLast s) (lines s).
Definition set_callback (c : callback_pc) (s : hrstate) : hrstate :=
  mk_hr (now s) (started s) (enqueued s) (expires s) c (ini s) (gone s) (uptime s)
    (uptimeLast s) (lines s).
Definition set_ini (i : init_pc) (s : hrstate) : hrstate :=
  mk_hr (now s) (started s) (enqueued s) (expires s) (callback s) i (gone s) (uptime s)
    (uptimeLast s) (lines s).
Definition set_uptime (t : timespec64) (s : hrstate) : hrstate :=
  mk_hr (now s) (started s) (enqueued s) (expires s) (callback s) (ini s) (gone s) t
    (uptimeLast s) (lines s).
Definition set_uptimeLast (t : timespec64) (s : hrstate) : hrstate :=
  mk_hr (now s) (started s) (enqueued s) (expires s) (callback s) (ini s) (gone s) (uptime s)
    t (lines s).
Definition print (t : timespec64) (s : hrstate) : hrstate :=
  mk_hr (now s) (started s) (enqueued s) (expires s) (callback s) (ini s) (gone s) (uptime s)
    (uptimeLast s) (t :: lines s).

Definition ktime_get_ts64 (s : hrstate) : timespec64 := ns_to_timespec64 (now s).

(** [hrtimer_start(timer, ktime, HRTIMER_MODE_REL)] *)
Definition hrtimer_start (ktime : Z) (s : hrstate) : hrstate :=
  mk_hr (now s) (now s) true (now s + ktime) (callback s) (ini s) (gone s) (uptime s)
    (uptimeLast s) (lines s).

Section module.
Context {fwd : HrtimerForward} (latency : option Z).

Definition my_hrtimer_callback (s : hrstate) : hrstate :=
  match callback s with
  | C_idle => s
  | C_get => set_callback C_print (set_uptime (ktime_get_ts64 s) s)
  | C_print => set_callback C_last (print (uptime s) s)
  | C_last => set_callback C_forward (set_uptimeLast (uptime s) s)
  | C_forward =>
      set_callback C_return
        (set_timer (enqueued s) (hrtimer_forward (now s) (expires s) (ms_to_ktime interval)) s)
  | C_return => set_callback C_idle (set_timer true (expires s) s)   (* HRTIMER_RESTART *)
  end.

Definition module_hrtimer_init (s : hrstate) : hrstate :=
  match ini s with
  | I_init => set_ini I_start s
  | I_start => set_ini I_uptime (hrtimer_start (ms_to_ktime interval) s)
  | I_uptime => set_ini I_last (set_uptime (ktime_get_ts64 s) s)
  | I_last => set_ini I_done (set_uptimeLast (uptime s) s)
  | I_done => s
  end.

(** [hrtimer_cancel] waits while the function runs. *)
Definition module_hrtimer_exit (s : hrstate) : hrstate :=
  match ini s, callback s with
  | I_done, C_idle =>
      mk_hr (now s) (started s) false (expires s) C_idle I_done true (uptime s) (uptimeLast s)
        (lines s)
  | _, _ => s
  end.

(** ** The machine *)

Inductive htask := T_clock (d : N) | T_irq | T_callback | T_init | T_exit.

(** The timer has been started and not cancelled. *)
Definition active (s : hrstate) : bool :=
  match ini s with I_init | I_start => false | _ => negb (gone s) end.

(** With a bounded latency the clock does not pass it before the timer has been
    served. *)
Definition may_pass (t : Z) (s : hrstate) : bool :=
  match latency with Some l => negb (active s) || (t <=? expires s + l) | None => true end.

Definition hstep (t : htask) (s : hrstate) : fault + hrstate :=
  match t with
  | T_clock d =>
      let t := now s + Z.of_N d in inr (if may_pass t s then set_now t s else s)
  | T_irq =>
      match callback s with
      | C_idle =>
          if enqueued s && (expires s <=? now s) then
            if gone s then inl UnloadedCode
            else inr (set_callback C_get (set_timer false (expires s) s))
          else inr s
      | _ => inr s
      end
  | T_callback =>
      match callback s with
      | C_idle => inr s
      | _ => if gone s then inl UnloadedCode else inr (my_hrtimer_callback s)
      end
  | T_init => inr (module_hrtimer_init s)
  | T_exit => inr (module_hrtimer_exit s)
  end.

End module.

Abbreviation hrun latency := (steps (hstep latency)).

Definition hstart (t : Z) : hrstate :=
  mk_hr t 0 false 0 C_idle I_init false (mk_timespec 0 0) (mk_timespec 0 0) [].

(** ** What holds in every state *)

Abbreviation ns := timespec64_to_ns.

(** In which interval since the start a line was printed. *)
Definition slot (t0 : Z) (t : timespec64) : Z := (ns t - t0) / period.

Definition loading (s : hrstate) : bool :=
  match ini s with I_init | I_start => true | _ => false end.

Definition below (e : Z) (l : list timespec64) : Prop := Forall (fun t => ns t < e) l.

(** The expiry is whole intervals after the start; the lines are from different
    intervals; between the expiry and the next one there is one. *)
Definition phase (s : hrstate) : Prop :=
  match callback s with
  | C_idle | C_return => below (expires s) (lines s)
  | C_get => below (expires s) (lines s) /\ expires s <= now s
  | C_print => below (expires s) (lines s) /\ expires s <= ns (uptime s) <= now s
  | C_last | C_forward => expires s <= now s
  end.

Record hinv (s : hrstate) : Prop := {
  hi_loading : loading s = true ->
    callback s = C_idle /\ enqueued s = false /\ lines s = [] /\ gone s = false;
  hi_gone : gone s = true -> callback s = C_idle /\ enqueued s = false;
  hi_grid : loading s = false ->
    started s <= now s /\ exists k, 1 <= k /\ expires s = started s + k * period;
  hi_phase : loading s = false -> phase s;
  hi_past : Forall (fun t => ns t <= now s /\ 1 <= slot (started s) t) (lines s);
  hi_lines : StronglySorted (fun t u => slot (started s) u < slot (started s) t) (lines s);
}.

Lemma slot_ge t0 k t : t0 + k * period <= ns t -> k <= slot t0 t.
Proof. intros. apply Z.div_le_lower_bound; [done|lia]. Qed.
Lemma slot_lt t0 k t : ns t < t0 + k * period -> slot t0 t < k.
Proof. intros. apply Z.div_lt_upper_bound; [done|lia]. Qed.

Lemma below_le e e' l : e <= e' -> below e l -> below e' l.
Proof. intros He H. eapply Forall_impl; [exact H|]. simpl. lia. Qed.

Lemma hstart_inv t : hinv (hstart t).
Proof. split; simpl; try done; constructor. Qed.

Section invariant.
Context {fwd : HrtimerForward} (latency : option Z).

Lemma clock_inv d s : hinv s -> hinv (set_now (now s + Z.of_N d) s).
Proof.
  intros [H1 H2 H3 H4 H5 H6]. split; simpl; try done.
  - intros Hl. specialize (H3 Hl). destruct H3. split; [lia|done].
  - intros Hl. specialize (H4 Hl). unfold phase in *. simpl.
    destruct (callback s); try done; try lia; (split; [tauto|lia]).
  - eapply Forall_impl; [exact H5|]. simpl. lia.
Qed.

(** A line that is printed is in a later interval than those before. *)
Lemma print_inv s :
  hinv s -> callback s = C_print -> hinv (set_callback C_last (print (uptime s) s)).
Proof.
  intros [H1 H2 H3 H4 H5 H6] Ec.
  assert (loading s = false) as Hl.
  { destruct (loading s) eqn:E; [|done]. by destruct (H1 eq_refl) as (? & _); congruence. }
  specialize (H4 Hl). unfold phase in H4. rewrite Ec in H4. destruct H4 as (Hb & Hu).
  destruct (H3 Hl) as (Hn & k & Hk & He).
  assert (k <= slot (started s) (uptime s)) as Hs by (apply slot_ge; lia).
  split; simpl; try done.
  - intros Hl'. change (loading s = true) in Hl'. congruence.
  - intros Hg. destruct (H2 Hg). congruence.
  - intros _. unfold phase. simpl. lia.
  - constructor; [lia|done].
  - constructor; [done|]. eapply Forall_impl; [exact Hb|]. simpl. intros t Ht.
    assert (slot (started s) t < k) by (apply slot_lt; lia). lia.
Qed.

Lemma forward_inv s :
  hinv s -> callback s = C_forward ->
  hinv (set_callback C_return
    (set_timer (enqueued s) (hrtimer_forward (now s) (expires s) period) s)).
Proof using.
  intros [H1 H2 H3 H4 H5 H6] Ec.
  split; simpl; try done.
  - intros Hl'. destruct (H1 Hl') as (? & _). congruence.
  - intros Hg. destruct (H2 Hg). congruence.
  - intros Hl'. destruct (H3 Hl') as (Hn & k & Hk & He). split; [done|].
    destruct (forward_grid (now s) (expires s) period eq_refl) as (n & Hn0 & ->).
    exists (k + n). split; [lia|]. rewrite He. lia.
  - intros _. unfold phase. simpl. eapply Forall_impl; [exact H5|]. simpl. intros t [Ht _].
    pose proof (forward_after (now s) (expires s) period eq_refl). lia.
Qed.

Lemma hstep_inv t s : hinv s -> exists s', hstep latency t s = inr s' /\ hinv s'.
Proof using.
  intros Hs. destruct t as [d| | | |]; simpl.
  - destruct (may_pass _ _ _); eexists; split; try reflexivity; [by apply clock_inv|done].
  - destruct (callback s) eqn:Ec; try (by exists s).
    destruct (enqueued s && (expires s <=? now s)) eqn:Eq; [|by exists s]. bool_hyps.
    destruct Hs as [H1 H2 H3 H4 H5 H6].
    destruct (gone s) eqn:Eg; [destruct (H2 eq_refl); congruence|].
    assert (loading s = false) as Hl.
    { destruct (loading s) eqn:E; [|done]. destruct (H1 eq_refl) as (_ & ? & _). congruence. }
    eexists; split; [reflexivity|]. split; simpl; try done.
    + intros Hl'. change (loading s = true) in Hl'. congruence.
    + rewrite Eg. done.
    + intros _. unfold phase. simpl. specialize (H4 Hl). unfold phase in H4. rewrite Ec in H4. done.
  - destruct (callback s) eqn:Ec; [by exists s| | | | |];
      (destruct (gone s) eqn:Eg; [by destruct (hi_gone s Hs Eg); congruence|];
       eexists; split; [reflexivity|]; unfold my_hrtimer_callback; rewrite Ec);
      [| by apply print_inv | | by apply forward_inv |];
      destruct Hs as [H1 H2 H3 H4 H5 H6]; split; simpl; try done;
      try (intros Hl'; destruct (H1 Hl') as (? & _); congruence);
      try (rewrite Eg; done);
      intros Hl'; specialize (H4 Hl'); unfold phase in *; rewrite Ec in H4; simpl;
      unfold ktime_get_ts64; rewrite ?timespec64_roundtrip; (done || lia || (split; [tauto|lia])).
  - destruct Hs as [H1 H2 H3 H4 H5 H6]. unfold module_hrtimer_init, loading in *.
    destruct (ini s) eqn:Ei; eexists; (split; [reflexivity|]).
    + by split.
    + destruct (H1 eq_refl) as (Ec & Eq & El & Eg). split; simpl; rewrite ?El, ?Eg; try done.
      * intros _. split; [lia|]. by exists 1.
      * intros _. unfold phase. simpl. rewrite Ec. unfold below. by rewrite El.
      * constructor.
    + split; simpl; try done. intros _. specialize (H4 eq_refl). unfold phase in *. simpl.
      unfold ktime_get_ts64. rewrite timespec64_roundtrip.
      destruct (callback s); try done. split; [tauto|lia].
    + by split.
    + by split; unfold loading; rewrite ?Ei.
  - destruct Hs as [H1 H2 H3 H4 H5 H6]. unfold module_hrtimer_exit, loading in *.
    destruct (ini s) eqn:Ei; try (by exists s; split; [done|split; unfold loading; rewrite ?Ei]);
      destruct (callback s) eqn:Ec; try (by exists s; split; [done|split; unfold loading; rewrite ?Ei, ?Ec]).
    eexists; split; [reflexivity|]. split; simpl; try done.
    intros _. specialize (H4 eq_refl). unfold phase in *. simpl. by rewrite Ec in H4.
Qed.

Lemma hrun_inv sched s : hinv s -> exists s', hrun latency sched s = inr s' /\ hinv s'.
Proof using.
  intros Hs. apply (steps_inv _ (fun _ => True) hinv); [by intros; apply hstep_inv| |done].
  by apply Forall_forall.
Qed.
End invariant.

(** ** With a bounded latency *)

(** Each line was printed within [l] of the start of its interval, the [k]-th
    one of the [k]-th interval. *)
Fixpoint served (t0 l : Z) (ts : list timespec64) : Prop :=
  match ts with
  | [] => True
  | t :: ts' =>
      let due := t0 + (Z.of_nat (length ts') + 1) * period in
      due <= ns t <= due + l /\ served t0 l ts'
  end.

(** The interval the timer waits for or serves is the next one, or the one just
    printed. *)
Definition ahead (c : callback_pc) : Z := match c with C_last | C_forward => 0 | _ => 1 end.

Record pinv (l : Z) (s : hrstate) : Prop := {
  pi_served : served (started s) l (lines s);
  pi_now : active s = true -> now s <= expires s + l;
  pi_expires : loading s = false ->
    expires s = started s + (Z.of_nat (length (lines s)) + ahead (callback s)) * period;
}.

Section punctual.
Context {fwd : HrtimerForward} (l : Z).
Hypothesis Hl : 0 <= l < period.

Lemma active_spec s : active s = negb (loading s) && negb (gone s).
Proof using. unfold active, loading. by destruct (ini s). Qed.

(** The function runs while the timer is active. *)
Lemma running_active s : hinv s -> callback s <> C_idle -> loading s = false /\ active s = true.
Proof using.
  intros [H1 H2 _ _ _ _] Hc. rewrite active_spec.
  destruct (loading s); [by destruct (H1 eq_refl)|].
  destruct (gone s); [by destruct (H2 eq_refl)|]. done.
Qed.

(** Forwarding goes on by one interval. *)
Lemma forward_one e t : e <= t <= e + l -> hrtimer_forward t e period = e + period.
Proof using Hl.
  intros Ht. destruct (forward_grid t e period eq_refl) as (n & Hn & E).
  pose proof (forward_after t e period eq_refl).
  pose proof (forward_least t e period eq_refl (proj1 Ht)).
  assert (n = 1); [|lia].
  assert (0 < n * period < 2 * period) by lia.
  change period with 1000000000 in *. lia.
Qed.

Lemma callback_pinv s :
  hinv s -> pinv l s -> callback s <> C_idle -> pinv l (my_hrtimer_callback s).
Proof using Hl.
  intros Hh [H1 H2 H3] Hc. destruct (running_active s Hh Hc) as (Hld & Ha).
  pose proof (hi_phase s Hh Hld) as Hp. specialize (H3 Hld). specialize (H2 Ha).
  unfold my_hrtimer_callback, phase in *.
  destruct (callback s) eqn:Ec; [done| | | | |]; simpl in H3;
    split; simpl; try done; try (intros _; lia).
  - split; [lia|done].
  - intros _. change (ms_to_ktime interval) with period. rewrite forward_one by lia. lia.
  - intros _. change (ms_to_ktime interval) with period. rewrite forward_one by lia. lia.
Qed.

Lemma hstep_pinv t s s' :
  hinv s -> pinv l s -> hstep (Some l) t s = inr s' -> pinv l s'.
Proof using Hl.
  intros Hh Hs. pose proof Hs as [H1 H2 H3]. destruct t as [d| | | |]; simpl.
  - intros [= <-]. unfold may_pass. destruct (negb (active s) || _) eqn:E; [|done].
    split; simpl; try done. intros Ha. change (active s = true) in Ha. rewrite Ha in E.
    simpl in E. bool_hyps. lia.
  - destruct (callback s) eqn:Ec; try (by intros [= <-]).
    destruct (enqueued s && _); [|by intros [= <-]]. destruct (gone s); [done|].
    intros [= <-]. by split.
  - destruct (callback s) eqn:Ec; [by intros [= <-]| | | | |];
      (destruct (gone s); [done|]); intros [= <-]; apply callback_pinv; try done; by rewrite Ec.
  - intros [= <-]. unfold module_hrtimer_init. unfold active, loading in *.
    destruct (ini s) eqn:Ei; [| | | |done]; try (split; simpl; rewrite ?Ei in *; done).
    destruct (hi_loading s Hh) as (Ec & _ & El & _); [by unfold loading; rewrite Ei|].
    split; simpl; rewrite ?El, ?Ec; [done|lia|]. intros _. simpl. lia.
  - intros [= <-]. unfold module_hrtimer_exit. unfold active, loading in *.
    destruct (ini s) eqn:Ei; try done; destruct (callback s) eqn:Ec; try done.
Qed.

Lemma hrun_pinv sched s s' :
  hinv s -> pinv l s -> hrun (Some l) sched s = inr s' -> hinv s' /\ pinv l s'.
Proof using Hl.
  revert s. induction sched as [|t sched IH]; simpl; intros s Hh Hp H; [by injection H as <-|].
  destruct (hstep_inv (Some l) t s Hh) as (s1 & E & Hh1). rewrite E in H.
  apply (IH s1); try done. by apply (hstep_pinv t s).
Qed.
End punctual.

(** The [k]-th line, oldest first. *)
Lemma served_lookup t0 l ts k t :
  served t0 l ts -> reverse ts !! k = Some t ->
  t0 + (Z.of_nat k + 1) * period <= ns t <= t0 + (Z.of_nat k + 1) * period + l.
Proof.
  induction ts as [|u ts IH]; simpl; [done|]. intros [Hu Hts].
  rewrite reverse_cons. intros [Hk | [Hk E]]%lookup_app_Some; [by apply IH|].
  rewrite length_reverse in *. apply list_lookup_singleton_Some in E as [E ->].
  by replace k with (length ts) by lia.
Qed.

(** Strictly decreasing integers from 1 to [m] are at most [m]. *)
Lemma decreasing_length {A} (f : A -> Z) m l :
  0 <= m -> StronglySorted (fun a b => f b < f a) l -> Forall (fun a => 1 <= f a <= m) l ->
  Z.of_nat (length l) <= m.
Proof.
  intros Hm Hs. revert m Hm. induction Hs as [|x l Hs IH Hx]; intros m Hm Hb; [done|].
  apply Forall_cons in Hb as [Hxb Hb]. simpl.
  assert (Z.of_nat (length l) <= f x - 1); [|lia].
  apply IH; [lia|]. rewrite Forall_forall in *. intros a Ha.
  specialize (Hx a Ha). specialize (Hb a Ha). lia.
Qed.

(** ** The theorems *)

(** Whatever the interleaving and however late the machine is, the module never
    runs code that is unloaded, no two lines are from the same second after the
    start, and there are no more lines than whole seconds since. *)
Theorem hr_at_most_one_line_per_second {fwd : HrtimerForward} latency sched t0 :
  exists s, hrun latency sched (hstart t0) = inr s /\
    StronglySorted (fun t u => slot (started s) u < slot (started s) t) (lines s) /\
    (loading s = false -> Z.of_nat (length (lines s)) * period <= now s - started s).
Proof.
  destruct (hrun_inv latency sched _ (hstart_inv t0)) as (s & Hr & Hs).
  exists s. split_and!; [done|apply Hs|]. intros Hl.
  destruct (hi_grid s Hs Hl) as (Hn & _).
  assert (Z.of_nat (length (lines s)) <= (now s - started s) / period).
  { apply (decreasing_length (slot (started s))); [by apply Z.div_pos; [lia|]|apply Hs|].
    eapply Forall_impl; [apply (hi_past s Hs)|]. intros t [Ht H1]. split; [done|].
    unfold slot. apply Z.div_le_mono; [done|lia]. }
  pose proof (Z.mul_div_le (now s - started s) period eq_refl).
  change period with 1000000000 in *. lia.
Qed.

(** C19: On a machine that serves the timer within [l], less than a second, no line
    is lost and lateness does not add up: the [k]-th line is printed between
    [k] seconds and [k] seconds and [l] after the start, for every [k] whose
    second (and [l]) have passed. *)
Theorem hr_no_drift {fwd : HrtimerForward} l sched t0 :
  0 <= l < period ->
  exists s, hrun (Some l) sched (hstart t0) = inr s /\
    (forall k t, reverse (lines s) !! k = Some t ->
       started s + (Z.of_nat k + 1) * period <= ns t <= started s + (Z.of_nat k + 1) * period + l) /\
    (active s = true ->
       now s <= started s + (Z.of_nat (length (lines s)) + 1) * period + l).
Proof.
  intros Hl. destruct (hrun_inv (Some l) sched _ (hstart_inv t0)) as (s & Hr & Hs).
  destruct (hrun_pinv l Hl sched _ s (hstart_inv t0)) as (_ & [H1 H2 H3]); [by split|done|].
  exists s. split_and!; [done| |].
  - intros k t. by apply served_lookup.
  - intros Ha. specialize (H2 Ha). rewrite active_spec in Ha. apply andb_true_iff in Ha as [Hld _].
    apply negb_true_iff in Hld. specialize (H3 Hld).
    assert (ahead (callback s) <= 1) by (by destruct (callback s)).
    change period with 1000000000 in *. lia.
Qed.

(** Loading at time 0, a line, and unloading while the function waits to be run
    again. *)
Definition hr_schedule : list htask :=
  replicate 4 T_init ++ [T_clock 1000000007; T_irq] ++ replicate 5 T_callback ++
  [T_clock 5; T_exit; T_clock 2000000000; T_irq].

Example hr_schedule_result :
  hrun (Some 10) hr_schedule (hstart 0) = inr
    (mk_hr 3000000012 0 false 2000000000 C_idle I_done true (mk_timespec 1 7) (mk_timespec 1 7)
      [mk_timespec 1 7]).
Proof. vm_compute. reflexivity. Qed.

Lemma hr_no_drift_witness :
  exists s, hrun (Some 10) hr_schedule (hstart 0) = inr s /\
    (forall k t, reverse (lines s) !! k = Some t ->
       started s + (Z.of_nat k + 1) * period <= ns t <= started s + (Z.of_nat k + 1) * period + 10) /\
    (active s = true ->
       now s <= started s + (Z.of_nat (length (lines s)) + 1) * period + 10).
Proof. apply (hr_no_drift 10 hr_schedule 0). split; [discriminate|reflexivity]. Defined.

Lemma hr_at_most_one_line_per_second_witness :
  exists s, hrun None hr_schedule (hstart 0) = inr s /\
    Z.of_nat (length (lines s)) * period <= now s - started s.
Proof.
  destruct (hr_at_most_one_line_per_second None hr_schedule 0) as (s & Hr & _ & H).
  exists s. split; [exact Hr|]. apply H.
  assert (hrun None hr_schedule (hstart 0) = inr
    (mk_hr 3000000012 0 false 2000000000 C_idle I_done true (mk_timespec 1 7) (mk_timespec 1 7)
      [mk_timespec 1 7])) as E by (vm_compute; reflexivity).
  rewrite E in Hr. injection Hr as <-. reflexivity.
Defined.
