(* ===== verification/LrTimer.v ===== *)
(** * The low-resolution timer ([timer/lower_resolution/simple.c])

    Time is counted in ticks; [jiffies] is their number modulo [2^64], and the
    timer's expiry is an [unsigned long] that the kernel compares with it as
    [time_after_eq] does.  The tick counter, the soft interrupt that calls the
    function, the function and loading interleave; what unloading does to them
    is in [Deferred].

    [HZ] and [msecs_to_jiffies] belong to the kernel: [JiffiesConv] states that the
    conversion rounds up and stays far below the range of the comparison. *)

From S2P Require Export Steps.

Class JiffiesConv := {
  HZ : Z;
  msecs_to_jiffies : Z -> Z;
  HZ_pos : 0 < HZ;
  jiffies_round_up : forall m, 0 <= m < 2 ^ 31 -> m * HZ <= 1000 * msecs_to_jiffies m;
  jiffies_max : forall m, 0 <= m < 2 ^ 31 -> msecs_to_jiffies m < 2 ^ 62;
}.

(** A machine with 250 ticks a second. *)
#[export, program] Instance hz_250 : JiffiesConv := {|
  HZ := 250;
  msecs_to_jiffies m := (m + 3) / 4
|}.
Next Obligation. done. Qed.
Next Obligation. intros m Hm. cbn beta. pose proof (Z.mul_succ_div_gt (m + 3) 4). lia. Qed.
Next Obligation. intros m Hm. cbn beta. pose proof (Z.mul_div_le (m + 3) 4). int_lia. Qed.

(** [time_after_eq(a, b)]: [(long)((a) - (b)) >= 0]. *)
Definition time_after_eq (a b : Z) : bool := 0 <=? s64 (a - b).

(** On values less than half the range apart it compares what was wrapped. *)
Lemma time_after_eq_spec a b :
  - 2 ^ 63 <= a - b < 2 ^ 63 -> time_after_eq (u64 a) (u64 b) = (b <=? a).
Proof.
  intros H. unfold time_after_eq.
  assert (s64 (u64 a - u64 b) = a - b) as ->.
  { trans (s64 (a - b)); [|by apply swrap_id].
    rewrite <- swrap_uwrap, <- (swrap_uwrap 64 (a - b)) by done. f_equal.
    unfold uwrap. by rewrite <- Zminus_mod. }
  destruct (Z.leb_spec b a); [apply Z.leb_le|apply Z.leb_gt]; lia.
Qed.

(** ** The module *)

Inductive callback_pc := C_idle | C_print | C_mod.
Inductive init_pc := I_print | I_setup | I_mod | I_done.

(** [ticks]: ticks so far, not wrapped; [pending], [expires]: the timer; [lines]:
    when each line was printed, newest first; [started]: when the timer was. *)
Record lrstate := mk_lr {
  ticks : Z;
  started : Z;
  pending : bool;
  expires : Z;
  callback : callback_pc;
  ini : init_pc;
  lines : list Z;
}.

Definition jiffies (s : lrstate) : Z := u64 (ticks s).

Definition set_ticks (t : Z) (s : lrstate) : lrstate :=
  mk_lr t (started s) (pending s) (expires s) (callback s) (ini s) (lines s).
Definition set_callback (c : callback_pc) (s : lrstate) : lrstate :=
  mk_lr (ticks s) (started s) (pending s) (expires s) c (ini s) (lines s).
Definition set_ini (i : init_pc) (s : lrstate) : lrstate :=
  mk_lr (ticks s) (started s) (pending s) (expires s) (callback s) i (lines s).
Definition set_started (s : lrstate) : lrstate :=
  mk_lr (ticks s) (ticks s) (pending s) (expires s) (callback s) (ini s) (lines s).
Definition set_pending (b : bool) (s : lrstate) : lrstate :=
  mk_lr (ticks s) (started s) b (expires s) (callback s) (ini s) (lines s).
Definition mod_timer (e : Z) (s : lrstate) : lrstate :=
  mk_lr (ticks s) (started s) true e (callback s) (ini s) (lines s).
Definition printk (s : lrstate) : lrstate :=
  mk_lr (ticks s) (started s) (pending s) (expires s) (callback s) (ini s) (ticks s :: lines s).

Section module.
Context {conv : JiffiesConv}.

(** [jiffies + msecs_to_jiffies(1000)] *)
Definition next_expiry (s : lrstate) : Z := u64 (jiffies s + msecs_to_jiffies 1000).

Definition timer_cb (s : lrstate) : lrstate :=
  match callback s with
  | C_idle => s
  | C_print => set_callback C_mod (printk s)
  | C_mod => set_callback C_idle (mod_timer (next_expiry s) s)
  end.

Definition module_lrtimer_init (s : lrstate) : lrstate :=
  match ini s with
  | I_print => set_ini I_setup s
  | I_setup => set_ini I_mod (set_pending false s)
  | I_mod => set_ini I_done (set_started (mod_timer (next_expiry s) s))
  | I_done => s
  end.

Inductive ltask := T_ticks (d : N) | T_softirq | T_callback | T_init.

Definition lstep (t : ltask) (s : lrstate) : fault + lrstate :=
  inr match t with
  | T_ticks d => set_ticks (ticks s + Z.of_N d) s
  | T_softirq =>
      match callback s with
      | C_idle =>
          if pending s && time_after_eq (jiffies s) (expires s)
          then set_callback C_print (set_pending false s) else s
      | _ => s
      end
  | T_callback => timer_cb s
  | T_init => module_lrtimer_init s
  end.
End module.

Abbreviation lrun := (steps lstep).

Definition lstart (t : Z) : lrstate := mk_lr t 0 false 0 C_idle I_print [].

(** ** What holds in every state *)

(** The line before, or the start. *)
Definition latest (t0 : Z) (l : list Z) : Z := default t0 (head l).

(** Consecutive lines, the first and the start, are at least [d] apart. *)
Fixpoint spaced (t0 d : Z) (l : list Z) : Prop :=
  match l with
  | [] => True
  | t :: l' => latest t0 l' + d <= t /\ spaced t0 d l'
  end.

Lemma spaced_latest t0 d l : spaced t0 d l -> t0 + Z.of_nat (length l) * d <= latest t0 l.
Proof.
  induction l as [|t l IH]; simpl; unfold latest; simpl; [lia|].
  intros [Ht Hl]. specialize (IH Hl). unfold latest in *. lia.
Qed.

Section invariant.
Context {conv : JiffiesConv}.
Abbreviation D := (msecs_to_jiffies 1000).

Lemma D_bounds : HZ <= D /\ 0 < D < 2 ^ 62.
Proof using.
  pose proof HZ_pos. pose proof (jiffies_round_up 1000 ltac:(done)).
  pose proof (jiffies_max 1000 ltac:(done)). lia.
Qed.

(** The timer is set at most [D] ticks ahead, and at least [D] after the last
    line; the function starts when that has passed. *)
Definition phase (s : lrstate) : Prop :=
  match callback s with
  | C_idle =>
      pending s = true /\
      exists e, expires s = u64 e /\ latest (started s) (lines s) + D <= e <= ticks s + D
  | C_print => pending s = false /\ latest (started s) (lines s) + D <= ticks s
  | C_mod => pending s = false
  end.

Definition loading (s : lrstate) : bool := match ini s with I_done => false | _ => true end.

Record linv (s : lrstate) : Prop := {
  li_loading : loading s = true -> callback s = C_idle /\ pending s = false /\ lines s = [];
  li_phase : loading s = false -> latest (started s) (lines s) <= ticks s /\ phase s;
  li_spaced : spaced (started s) D (lines s);
}.

Lemma mod_timer_phase s :
  latest (started s) (lines s) <= ticks s ->
  phase (set_callback C_idle (mod_timer (next_expiry s) s)).
Proof using.
  intros H. split; [done|]. simpl. exists (ticks s + D). split; [|lia].
  unfold next_expiry, jiffies. apply uwrap_add_l.
Qed.

Lemma lstep_inv t s : linv s -> exists s', lstep t s = inr s' /\ linv s'.
Proof using.
  intros Hs. pose proof Hs as [H1 H2 H3]. eexists; split; [reflexivity|]. pose proof D_bounds as HD.
  destruct t as [d| | |].
  - split; try done. intros Hl. destruct (H2 Hl) as [Hn Hp]. simpl. split; [lia|].
    unfold phase in *. simpl. destruct (callback s); [|split; [tauto|lia]|done].
    destruct Hp as (Hq & e & He & Hb). split; [done|]. exists e. split; [done|lia].
  - destruct (callback s) eqn:Ec; try done.
    destruct (pending s) eqn:Eq; [|done]. destruct (time_after_eq _ _) eqn:Et; [|done]. simpl.
    assert (loading s = false) as Hl
      by (destruct (loading s) eqn:El; [by destruct (H1 eq_refl) as (_ & ? & _)|done]).
    split; simpl; try done.
    + intros Hl'. change (loading s = true) in Hl'. congruence.
    + intros _. destruct (H2 Hl) as [Hn Hp]. unfold phase in *. simpl. rewrite Ec in Hp.
      destruct Hp as (_ & e & He & Hb). split_and!; try done.
      rewrite He in Et. unfold jiffies in Et.
      destruct (decide (e <= ticks s)); [lia|].
      rewrite time_after_eq_spec in Et by int_lia. apply Z.leb_le in Et. lia.
  - unfold timer_cb. destruct (callback s) eqn:Ec; [done| |];
      (assert (loading s = false) as Hl
        by (destruct (loading s) eqn:El; [by destruct (H1 eq_refl) as (? & _); congruence|done]));
      destruct (H2 Hl) as [Hn Hp]; unfold phase in Hp; rewrite Ec in Hp.
    + split; simpl; try done.
      * intros Hl'. change (loading s = true) in Hl'. congruence.
      * intros _. unfold phase, latest. simpl. split; [lia|tauto].
      * split; [lia|done].
    + split; try done.
      * intros Hl'. change (loading s = true) in Hl'. congruence.
      * intros _. split; [done|]. by apply mod_timer_phase.
  - unfold module_lrtimer_init, loading in *.
    destruct (ini s) eqn:Ei; [| | |done];
      destruct (H1 eq_refl) as (Ec & Eq & El); split; simpl; rewrite ?Ec, ?El, ?Eq; try done.
    intros _. unfold latest. simpl. split; [lia|]. unfold phase. simpl. rewrite Ec.
    split; [done|]. exists (ticks s + D). unfold latest. rewrite El. simpl. split; [|lia].
    unfold next_expiry, jiffies. apply uwrap_add_l.
Qed.

Lemma lstart_inv t : linv (lstart t).
Proof using. by split. Qed.

Lemma lrun_inv sched s : linv s -> exists s', lrun sched s = inr s' /\ linv s'.
Proof using.
  intros Hs. apply (steps_inv _ (fun _ => True) linv); [by intros; apply lstep_inv| |done].
  by apply Forall_forall.
Qed.

(** ** The theorems *)

(** C35: Whatever the interleaving, and across the wrap-around of [jiffies], lines are
    at least [msecs_to_jiffies(1000)] ticks apart, and there is at most one for
    every [HZ] ticks since the start. *)
Theorem lr_at_most_one_line_per_second sched t0 :
  exists s, lrun sched (lstart t0) = inr s /\
    spaced (started s) D (lines s) /\
    (loading s = false -> Z.of_nat (length (lines s)) * HZ <= ticks s - started s).
Proof using.
  destruct (lrun_inv sched _ (lstart_inv t0)) as (s & Hr & [H1 H2 H3]).
  exists s. split_and!; [done..|]. intros Hl. destruct (H2 Hl) as [Hn _].
  pose proof (spaced_latest _ _ _ H3). pose proof D_bounds. nia.
Qed.

(** ** Drift *)

(** One round of a machine that is [l] ticks late. *)
Definition late_round (l : N) : list ltask :=
  [T_ticks (Z.to_N D + l); T_softirq; T_callback; T_callback].

(** After [n] rounds. *)
Definition after_rounds (t0 l : Z) (n : nat) : lrstate :=
  let t := t0 + Z.of_nat n * (D + l) in
  mk_lr t t0 true (u64 (t + D)) C_idle I_done
    (reverse ((fun k => t0 + (Z.of_nat k + 1) * (D + l)) <$> seq 0 n)).

(** The function called when the timer has expired. *)
Lemma expired_call t t0 e l :
  time_after_eq (u64 t) e = true ->
  lrun [T_softirq; T_callback; T_callback] (mk_lr t t0 true e C_idle I_done l) =
    inr (mk_lr t t0 true (u64 (t + D)) C_idle I_done (t :: l)).
Proof using.
  intros H. cbn. unfold jiffies. cbn. rewrite H. cbn. unfold next_expiry, jiffies. cbn -[uwrap].
  by rewrite uwrap_add_l.
Qed.

Lemma late_round_step t0 l n :
  Z.of_N l < 2 ^ 62 ->
  lrun (late_round l) (after_rounds t0 (Z.of_N l) n) = inr (after_rounds t0 (Z.of_N l) (S n)).
Proof using.
  intros Hl. pose proof D_bounds as HD. unfold late_round, after_rounds.
  replace (t0 + Z.of_nat (S n) * (D + Z.of_N l))
    with (t0 + Z.of_nat n * (D + Z.of_N l) + (D + Z.of_N l)) by lia.
  rewrite seq_S, fmap_app, list_fmap_singleton, reverse_snoc.
  replace (t0 + (Z.of_nat (0 + n) + 1) * (D + Z.of_N l))
    with (t0 + Z.of_nat n * (D + Z.of_N l) + (D + Z.of_N l)) by lia.
  set (t := t0 + Z.of_nat n * (D + Z.of_N l)). set (ls := reverse _).
  rewrite <- (expired_call _ t0 (u64 (t + D))).
  - cbn [steps lstep mbind fault_bind]. unfold set_ticks. cbn [ticks started pending expires callback ini lines].
    by replace (t + Z.of_N (Z.to_N D + l)) with (t + (D + Z.of_N l)) by lia.
  - rewrite time_after_eq_spec by int_lia. apply Z.leb_le. lia.
Qed.

Lemma late_rounds_step t0 l n :
  Z.of_N l < 2 ^ 62 ->
  lrun (concat (replicate n (late_round l))) (after_rounds t0 (Z.of_N l) 0) =
    inr (after_rounds t0 (Z.of_N l) n).
Proof using.
  intros Hl. induction n as [|n IH]; [done|].
  rewrite replicate_S_end, concat_app, steps_app, IH. cbn [mbind fault_bind concat].
  rewrite app_nil_r. by apply late_round_step.
Qed.

(** Lateness adds up: on a machine that is always [l] ticks late the [k]-th line
    is printed [k * l] ticks after it is due. *)
Theorem lr_drifts l n t0 :
  Z.of_N l < 2 ^ 62 ->
  exists s, lrun (replicate 4 T_init ++ concat (replicate n (late_round l))) (lstart t0) = inr s /\
    length (lines s) = n /\
    forall k, (k < n)%nat ->
      reverse (lines s) !! k = Some (t0 + (Z.of_nat k + 1) * D + (Z.of_nat k + 1) * Z.of_N l).
Proof using.
  intros Hl. exists (after_rounds t0 (Z.of_N l) n). split_and!.
  - rewrite steps_app.
    assert (lrun (replicate 4 T_init) (lstart t0) = inr (after_rounds t0 (Z.of_N l) 0)) as ->.
    { unfold after_rounds. replace (t0 + Z.of_nat 0 * _) with t0 by lia.
      cbn -[uwrap Z.add]. unfold next_expiry, jiffies. cbn -[uwrap Z.add]. by rewrite uwrap_add_l. }
    by apply late_rounds_step.
  - simpl. by rewrite length_reverse, length_fmap, length_seq.
  - intros k Hk. simpl. rewrite reverse_involutive, list_lookup_fmap, lookup_seq_lt by done.
    simpl. f_equal. lia.
Qed.
End invariant.

Lemma lr_drifts_witness :
  exists s, lrun (replicate 4 T_init ++ concat (replicate 3 (late_round 2))) (lstart 100) = inr s /\
    reverse (lines s) !! 2%nat = Some (100 + 3 * 250 + 3 * 2).
Proof.
  destruct (lr_drifts 2 3 100 eq_refl) as (s & Hr & _ & H).
  exists s. split; [exact Hr|]. apply (H 2%nat). repeat constructor.
Defined.

Lemma lr_at_most_one_line_per_second_witness :
  exists s, lrun [T_init; T_init; T_init; T_ticks 300; T_softirq; T_callback] (lstart (2 ^ 64 - 9))
      = inr s /\
    Z.of_nat (length (lines s)) * 250 <= ticks s - started s.
Proof.
  destruct (lr_at_most_one_line_per_second
    [T_init; T_init; T_init; T_ticks 300; T_softirq; T_callback] (2 ^ 64 - 9)) as (s & Hr & _ & H).
  exists s. split; [exact Hr|]. apply H.
  assert (lrun [T_init; T_init; T_init; T_ticks 300; T_softirq; T_callback] (lstart (2 ^ 64 - 9))
    = inr (mk_lr (2 ^ 64 + 291) (2 ^ 64 - 9) false 241 C_mod I_done [2 ^ 64 + 291])) as E
    by (vm_compute; reflexivity).
  rewrite E in Hr. injection Hr as <-. reflexivity.
Defined.
