(* ===== verification/Umh.v ===== *)
(** * Running a user program from the kernel ([umh/simple.c])

    Loading starts a thread that runs a program again and again until it has a
    signal; unloading sends one.  The thread, the clock, loading, unloading and
    an administrator who signals the thread interleave.

    A kernel thread ignores every signal until [allow_signal]; its [task_struct]
    goes away when its function has returned, since nobody holds a reference to
    it. *)

From stdpp Require Export strings.
From S2P Require Export Steps.

Inductive umh_wait := UMH_NO_WAIT | UMH_WAIT_EXEC | UMH_WAIT_PROC.

(** The arguments of [call_usermodehelper]. *)
Record umh_call := mk_umh_call {
  path : string;
  argv : list string;
  envp : list string;
  wait : umh_wait;
}.

(** [slam_thread]: NULL, an error pointer, or the thread. *)
Inductive task_ptr := T_NULL | T_ERR | T_task.

Inductive slam_pc :=
  | S_none | S_allow | S_delay | S_test | S_helper | S_state | S_schedule | S_asleep | S_returned.

(** [allowed]: SIGKILL is not ignored; [pending]: the thread has it; [helpers]: the
    programs run, newest first. *)
Record umh_state := mk_umh {
  slam_thread : task_ptr;
  thread : slam_pc;
  allowed : bool;
  pending : bool;
  helpers : list umh_call;
  loaded : bool;
  gone : bool;
}.

Definition set_thread (p : slam_pc) (s : umh_state) : umh_state :=
  mk_umh (slam_thread s) p (allowed s) (pending s) (helpers s) (loaded s) (gone s).
Definition set_allowed (s : umh_state) : umh_state :=
  mk_umh (slam_thread s) (thread s) true (pending s) (helpers s) (loaded s) (gone s).
Definition set_pending (s : umh_state) : umh_state :=
  mk_umh (slam_thread s) (thread s) (allowed s) true (helpers s) (loaded s) (gone s).
Definition call_usermodehelper (c : umh_call) (s : umh_state) : umh_state :=
  mk_umh (slam_thread s) (thread s) (allowed s) (pending s) (c :: helpers s) (loaded s) (gone s).
Definition set_gone (s : umh_state) : umh_state :=
  mk_umh (slam_thread s) (thread s) (allowed s) (pending s) (helpers s) (loaded s) true.

(** [argv] and [envp] end at their NULL. *)
Definition run_umh_app (s : umh_state) : umh_state :=
  let argv := ["/bin/touch"; "/home/kruztw/slam.txt"]%string in
  let envp := ["HOME=/"; "TERM=linux"; "PATH=/sbin:/bin:/usr/bin:/usr/sbin"]%string in
  call_usermodehelper (mk_umh_call (nth 0 argv EmptyString) argv envp UMH_WAIT_PROC) s.

(** [schedule_timeout] in TASK_INTERRUPTIBLE does not sleep when there is a
    signal. *)
Definition slam_func (s : umh_state) : umh_state :=
  match thread s with
  | S_none | S_returned => s
  | S_allow => set_thread S_delay (set_allowed s)
  | S_delay => set_thread S_test s
  | S_test => if negb (pending s) then set_thread S_helper s else set_thread S_returned s
  | S_helper => set_thread S_state (run_umh_app s)
  | S_state => set_thread S_schedule s
  | S_schedule => if pending s then set_thread S_test s else set_thread S_asleep s
  | S_asleep => if pending s then set_thread S_test s else s
  end.

(** Does the thread exist? *)
Definition alive (s : umh_state) : bool :=
  match thread s with S_none | S_returned => false | _ => true end.

(** [send_sig(SIGKILL, ...)] is dropped while the thread ignores it. *)
Definition send_sig (s : umh_state) : umh_state := if allowed s then set_pending s else s.

Section umh.
Context (thread_ok : bool).       (* does [kthread_run] get its thread? *)

Definition kthread_signal_example_init (s : umh_state) : umh_state :=
  if loaded s then s
  else if thread_ok
  then mk_umh T_task S_allow (allowed s) (pending s) (helpers s) true (gone s)
  else mk_umh T_ERR S_none (allowed s) (pending s) (helpers s) true (gone s).

Definition kthread_signal_example_exit (s : umh_state) : fault + umh_state :=
  match slam_thread s with
  | T_ERR => inr (set_gone s)                       (* IS_ERR *)
  | T_NULL => inl NullDeref
  | T_task => if alive s then inr (set_gone (send_sig s)) else inl UseAfterFree
  end.

Inductive utask := U_init | U_thread | U_timeout | U_kill | U_exit.

Definition ustep (t : utask) (s : umh_state) : fault + umh_state :=
  match t with
  | U_init => inr (kthread_signal_example_init s)
  | U_thread => if alive s && gone s then inl UnloadedCode else inr (slam_func s)
  | U_timeout => inr (match thread s with S_asleep => set_thread S_test s | _ => s end)
  | U_kill => inr (if alive s then send_sig s else s)
  | U_exit => if loaded s && negb (gone s) then kthread_signal_example_exit s else inr s
  end.
End umh.

Abbreviation urun ok := (steps (ustep ok)).

Definition ustart : umh_state := mk_umh T_NULL S_none false false [] false false.

Definition touch_slam : umh_call :=
  mk_umh_call "/bin/touch" ["/bin/touch"; "/home/kruztw/slam.txt"]
    ["HOME=/"; "TERM=linux"; "PATH=/sbin:/bin:/usr/bin:/usr/sbin"] UMH_WAIT_PROC.

(** ** What holds while the module is loaded *)

Record uinv (s : umh_state) : Prop := {
  ui_gone : gone s = false;
  ui_helpers : Forall (eq touch_slam) (helpers s);
  ui_allowed : allowed s = match thread s with S_none | S_allow => false | _ => true end;
  ui_pending : pending s = true -> allowed s = true;
  ui_loaded : loaded s = false -> thread s = S_none;
}.

Definition not_exit (t : utask) : Prop := t <> U_exit.

Lemma ustart_inv : uinv ustart.
Proof. by split. Qed.

Lemma ustep_inv ok t s : not_exit t -> uinv s -> exists s', ustep ok t s = inr s' /\ uinv s'.
Proof.
  intros Ht [Hg Hh Ha Hp Hl]. destruct s as [p c a n h l g]; simpl in *. subst g.
  destruct t; [| | | |by destruct Ht]; simpl; rewrite ?andb_false_r;
    (eexists; split; [reflexivity|]).
  - unfold kthread_signal_example_init; simpl. destruct l; [by split|].
    rewrite Hl in * by done. destruct ok; split; simpl; done.
  - unfold slam_func; simpl. destruct c, n; split; simpl; try done;
      first [by constructor|by intros H; specialize (Hl H)].
  - destruct c; split; simpl; try done; by intros H; specialize (Hl H).
  - unfold alive, send_sig; simpl. destruct c; simpl; try (by split); destruct a; by split.
Qed.

(** ** The theorems *)

(** The steps the thread still makes once it has a signal, and the programs it
    still runs. *)
Definition left (p : slam_pc) : nat :=
  match p with
  | S_helper => 4
  | S_state => 3
  | S_delay | S_schedule | S_asleep => 2
  | S_test => 1
  | _ => 0
  end.
Definition helpers_left (p : slam_pc) : nat := match p with S_helper => 1 | _ => 0 end.

(** How often a task is scheduled. *)
Fixpoint turns (sched : list utask) : nat :=
  match sched with
  | [] => 0
  | U_thread :: sched' => S (turns sched')
  | _ :: sched' => turns sched'
  end.

(** Whatever is scheduled, a thread with a signal gets closer to its end with
    each of its steps, and nothing takes the signal away. *)
Lemma signalled_runs ok sched s :
  Forall not_exit sched -> uinv s -> loaded s = true -> pending s = true ->
  exists s' l, urun ok sched s = inr s' /\ (left (thread s') <= left (thread s) - turns sched)%nat /\
    (thread s <> S_none -> thread s' <> S_none) /\
    uinv s' /\ pending s' = true /\ helpers s' = l ++ helpers s /\
    (length l + helpers_left (thread s') <= helpers_left (thread s))%nat.
Proof.
  revert s. induction sched as [|t sched IH]; intros s Hs Hi Hl Hp.
  { exists s, []. split_and!; try done; simpl; lia. }
  apply Forall_cons in Hs as [Ht Hs].
  assert (exists s1 l1, ustep ok t s = inr s1 /\
    (left (thread s1) <= left (thread s) - turns [t])%nat /\
    (thread s <> S_none -> thread s1 <> S_none) /\ loaded s1 = true /\
    pending s1 = true /\ helpers s1 = l1 ++ helpers s /\
    (length l1 + helpers_left (thread s1) <= helpers_left (thread s))%nat)
    as (s1 & l1 & E & Hle & Hn & Hl1 & Hp1 & Eh & Hh).
  { destruct Hi as [Hg _ Ha Hpa _]. specialize (Hpa Hp).
    destruct s as [p c a n h lo g]; simpl in *. subst g n lo a.
    destruct t; [| | | |by destruct Ht]; simpl; rewrite ?andb_false_r;
      unfold kthread_signal_example_init; simpl; destruct c; try done;
      first [eexists _, []; split_and!; [reflexivity|..]; try done; simpl; lia
            |eexists _, [touch_slam]; split_and!; [reflexivity|..]; try done; simpl; lia]. }
  destruct (ustep_inv ok t s Ht Hi) as (s1' & E' & Hi1). assert (s1' = s1) as -> by congruence.
  destruct (IH s1 Hs Hi1 Hl1 Hp1) as (s' & l & Hr & Hle' & Hn' & Hi' & Hp' & Eh' & Hh').
  exists s', (l ++ l1). simpl. rewrite E. split_and!; try done.
  - simpl in Hle. destruct t; simpl in *; lia.
  - auto.
  - by rewrite Eh', Eh, app_assoc.
  - rewrite length_app. lia.
Qed.

(** C31: A SIGKILL sent to the thread once it has called [allow_signal] ends it:
    whatever else is scheduled, as long as the module is not unloaded, it has
    returned after four of its own steps, it runs the program at most once more,
    and that program is touch with its argument and environment, waited for. *)
Theorem umh_signal_stops ok sched more s :
  Forall not_exit sched -> urun ok sched ustart = inr s ->
  alive s = true -> thread s <> S_allow ->
  Forall not_exit more -> (4 <= turns more)%nat ->
  exists s' l, urun ok (U_kill :: more) s = inr s' /\ thread s' = S_returned /\
    helpers s' = l ++ helpers s /\ (length l <= 1)%nat /\ Forall (eq touch_slam) l.
Proof.
  intros Hs Hr Ha Hna Hmore Hturns.
  destruct (steps_inv (ustep ok) not_exit uinv (ustep_inv ok) sched ustart Hs ustart_inv)
    as (s0 & E & Hi). rewrite Hr in E. injection E as <-. pose proof Hi as [Hg _ Hal _ Hld].
  assert (loaded s = true) as Hl.
  { destruct (loaded s); [done|]. unfold alive in Ha. by rewrite Hld in Ha. }
  assert (allowed s = true) as Hok.
  { rewrite Hal. unfold alive in Ha. by destruct (thread s). }
  cbn [steps ustep]. rewrite Ha. unfold send_sig. rewrite Hok. cbn [mbind fault_bind].
  assert (uinv (set_pending s)) as Hi1.
  { destruct (ustep_inv ok U_kill s ltac:(done) Hi) as (s1 & E & Hi1).
    cbn [ustep] in E. unfold send_sig in E. rewrite Ha, Hok in E. by injection E as <-. }
  destruct (signalled_runs ok more (set_pending s) Hmore Hi1 Hl eq_refl)
    as (s' & l & Hrun & Hle & Hn & Hi' & Hp' & Eh & Hh).
  exists s', l. change (thread (set_pending s)) with (thread s) in *.
  assert (left (thread s) <= 4)%nat by (destruct (thread s); simpl; lia).
  assert (thread s <> S_none) as Hne by (intros E; unfold alive in Ha; by rewrite E in Ha).
  specialize (Hn Hne). pose proof (ui_allowed _ Hi') as Hal'. rewrite (ui_pending _ Hi' Hp') in Hal'.
  split; [done|]. split.
  { destruct (thread s'); simpl in Hle; try done; lia. }
  split; [done|]. split; [destruct (thread s); simpl in Hh; lia|].
  pose proof (ui_helpers _ Hi') as Hf. rewrite Eh in Hf. by apply Forall_app in Hf as [? _].
Qed.

(** As long as the module is not unloaded nothing faults. *)
Theorem umh_safe ok sched :
  Forall not_exit sched -> exists s, urun ok sched ustart = inr s /\ Forall (eq touch_slam) (helpers s).
Proof.
  intros Hs. destruct (steps_inv (ustep ok) not_exit uinv (ustep_inv ok) sched ustart Hs ustart_inv)
    as (s & E & Hi). exists s. split; [done|apply Hi].
Qed.

(** A failed [kthread_run] is noticed: loading and unloading do nothing else. *)
Theorem umh_thread_failure sched :
  exists s, urun false sched ustart = inr s /\ helpers s = [].
Proof.
  destruct (steps_inv (ustep false) (fun _ => True)
    (fun s => helpers s = [] /\ thread s = S_none /\ (loaded s = true -> slam_thread s = T_ERR)))
    with sched ustart as (s & Hr & Hi & _); [|by apply Forall_forall|done|].
  - intros t s _ (Hh & Ht & Hl). destruct s as [p c a n h l g]; simpl in *. subst h c.
    destruct t; simpl; unfold kthread_signal_example_init, kthread_signal_example_exit; simpl;
      try (eexists; split; [reflexivity|]; done).
    + destruct l; (eexists; split; [reflexivity|]); done.
    + destruct l; simpl; [|eexists; split; [reflexivity|]; done].
      rewrite Hl by done. destruct g; (eexists; split; [reflexivity|]; done).
  - by exists s.
Qed.

(** Unloading does not wait for the thread: it is still there when its code is
    gone; a signal sent before [allow_signal] is even lost, so that it would
    not stop.  And once the thread has been killed, or stopped, unloading uses
    its freed [task_struct]. *)
Theorem umh_unload_races :
  urun true [U_init; U_thread; U_thread; U_thread; U_exit; U_thread] ustart = inl UnloadedCode /\
  (exists s, urun true [U_init; U_exit] ustart = inr s /\ gone s = true /\ pending s = false /\
     ustep true U_thread s = inl UnloadedCode) /\
  urun true [U_init; U_thread; U_kill; U_thread; U_thread; U_exit] ustart = inl UseAfterFree.
Proof. split_and!; try reflexivity. by eexists. Qed.

(** Killed while it waits between two runs; the administrator tries twice. *)
Lemma umh_signal_stops_witness :
  exists s' l, urun true [U_kill; U_thread; U_kill; U_thread; U_thread; U_thread]
      (mk_umh T_task S_asleep true false [touch_slam] true false) = inr s' /\
    thread s' = S_returned /\ helpers s' = l ++ [touch_slam] /\ (length l <= 1)%nat.
Proof.
  destruct (umh_signal_stops true (U_init :: replicate 6 U_thread)
    [U_thread; U_kill; U_thread; U_thread; U_thread]
    (mk_umh T_task S_asleep true false [touch_slam] true false)) as (s' & l & Hr & Ht & Hh & Hl & _).
  - repeat (constructor; [discriminate|]). constructor.
  - reflexivity.
  - reflexivity.
  - discriminate.
  - repeat (constructor; [discriminate|]). constructor.
  - cbn. lia.
  - exists s', l. split; [exact Hr|]. split; [exact Ht|]. split; [exact Hh|exact Hl].
Defined.
