(* ===== verification/Sysfs.v ===== *)
(** * Attributes in sysfs ([sysfs/simple.c])

    Three integers shown and stored as text.  The callbacks are functions on the
    static variables; [sysfs_show] and [sysfs_store] find the callback of a file
    in [attr_group].  sysfs gives a store a terminated buffer, [buf], of [count]
    characters.  The group behaves as a map from names to integers
    ([values]). *)

From S2P Require Export Text Resources.

Record sysfs_state := mk_sysfs { attr1 : Z; attr2 : Z; attr3 : Z }.
Definition sysfs_zero : sysfs_state := mk_sysfs 0 0 0.
Definition set_attr1 (v : Z) (s : sysfs_state) : sysfs_state := mk_sysfs v (attr2 s) (attr3 s).
Definition set_attr2 (v : Z) (s : sysfs_state) : sysfs_state := mk_sysfs (attr1 s) v (attr3 s).
Definition set_attr3 (v : Z) (s : sysfs_state) : sysfs_state := mk_sysfs (attr1 s) (attr2 s) v.

(** [sscanf(buf, "%d", &x)] leaves [x] alone when there is no number. *)
Definition sscanf_d (buf : bytes) (set : Z -> sysfs_state -> sysfs_state) (s : sysfs_state)
    : sysfs_state :=
  match scan_d buf with Some v => set v s | None => s end.

(** A show callback writes text, a store callback answers how many characters it
    took; both get the name of their attribute. *)
Definition attr1_show (name : bytes) (s : sysfs_state) : bytes :=
  str "attr1: " ++ print_d (attr1 s) ++ [10].
Definition attr1_store (name buf : bytes) (s : sysfs_state) : Z * sysfs_state :=
  (Z.of_nat (length buf), sscanf_d buf set_attr1 s).

Definition attr23_show (name : bytes) (s : sysfs_state) : bytes :=
  if decide (name = str "attr2") then str "attr2: " ++ print_d (attr2 s) ++ [10]
  else str "attr3: " ++ print_d (attr3 s) ++ [10].
Definition attr23_store (name buf : bytes) (s : sysfs_state) : Z * sysfs_state :=
  (Z.of_nat (length buf),
   if decide (name = str "attr2") then sscanf_d buf set_attr2 s else sscanf_d buf set_attr3 s).

Record kobj_attribute := mk_attr {
  attr_name : bytes;
  show : bytes -> sysfs_state -> bytes;
  store : bytes -> bytes -> sysfs_state -> Z * sysfs_state;
}.
Definition attr_group : list kobj_attribute :=
  [mk_attr (str "attr1") attr1_show attr1_store;
   mk_attr (str "attr2") attr23_show attr23_store;
   mk_attr (str "attr3") attr23_show attr23_store].

Definition find_attribute (name : bytes) : option kobj_attribute :=
  snd <$> list_find (fun a => attr_name a = name) attr_group.

(** Reading and writing a file of the group; [None]: there is no such file. *)
Definition sysfs_show (name : bytes) (s : sysfs_state) : option bytes :=
  a ← find_attribute name; Some (show a (attr_name a) s).
Definition sysfs_store (name buf : bytes) (s : sysfs_state) : option (Z * sysfs_state) :=
  a ← find_attribute name; Some (store a (attr_name a) buf s).

(** ** Loading *)

Inductive scall :=
  | kobject_create_and_add (name : bytes)
  | sysfs_create_group
  | kobject_put.
#[export] Instance sysfs_api : KApi scall := fun c =>
  match c with
  | kobject_create_and_add _ => bool
  | sysfs_create_group => Z
  | kobject_put => unit
  end.

(** Dropping the object takes its directory out of sysfs with the group in it. *)
#[export] Instance sysfs_resources : Resources scall := {|
  rsrc := unit;
  acquires := fun c => match c as c0 return resp c0 -> list unit with
    | kobject_create_and_add _ => fun r : bool => if r then [tt] else []
    | _ => fun _ => []
    end;
  releases := fun c => match c as c0 return resp c0 -> list unit with
    | kobject_put => fun _ => [tt]
    | _ => fun _ => []
    end;
|}.

Abbreviation SY := (M scall bool).

(** The state is whether [kobj] is not NULL; [kobject_put] accepts NULL. *)
Definition simple_init : SY Z :=
  kobj ← call (kobject_create_and_add (str "simple_module"));
  modify (fun _ => kobj : bool) ;;
  if negb kobj then mret (- ENOMEM) else
  ret ← call sysfs_create_group;
  (if negb (ret =? 0) then call kobject_put else mret tt) ;;
  mret ret.
Definition simple_exit : SY unit :=
  kobj ← get; if (kobj : bool) then call kobject_put else mret tt.

(** ** The group as a map *)

Definition values (s : sysfs_state) : gmap bytes Z :=
  {[ str "attr1" := attr1 s; str "attr2" := attr2 s; str "attr3" := attr3 s ]}.

Lemma names_distinct : str "attr1" <> str "attr2" /\ str "attr1" <> str "attr3" /\
  str "attr2" <> str "attr3".
Proof. by repeat split. Qed.

(** Case analysis on the name of a file. *)
Lemma name_cases name :
  name = str "attr1" \/ name = str "attr2" \/ name = str "attr3" \/
  (name <> str "attr1" /\ name <> str "attr2" /\ name <> str "attr3").
Proof.
  destruct (decide (name = str "attr1")); [by left|].
  destruct (decide (name = str "attr2")); [by right; left|].
  destruct (decide (name = str "attr3")); [by right; right; left|]. by right; right; right.
Qed.

Lemma find_attribute_none name :
  name <> str "attr1" -> name <> str "attr2" -> name <> str "attr3" -> find_attribute name = None.
Proof.
  intros H1 H2 H3. unfold find_attribute. simpl.
  rewrite !decide_False by congruence. done.
Qed.

Lemma values_none s name :
  name <> str "attr1" -> name <> str "attr2" -> name <> str "attr3" -> values s !! name = None.
Proof. intros. unfold values. by simplify_map_eq. Qed.

(** Reading and writing the files is looking up and changing the map: a file shows its
    name and its value, a store takes all of its text and changes no other file
    and, without a number in the text, nothing at all; other names are not
    there. *)
Lemma files_as_map (s : sysfs_state) name buf :
  sysfs_show name s =
    (v ← values s !! name; Some (name ++ str ": " ++ print_d v ++ [10])) /\
  match sysfs_store name buf s with
  | None => values s !! name = None
  | Some (r, s') => r = Z.of_nat (length buf) /\ is_Some (values s !! name) /\
      values s' = match scan_d buf with
                  | Some v => <[name := v]> (values s)
                  | None => values s
                  end
  end.
Proof.
  destruct s as [x y z].
  destruct (name_cases name) as [->|[->|[->|(H1 & H2 & H3)]]].
  4: { unfold sysfs_show, sysfs_store. by rewrite find_attribute_none, values_none by done. }
  all: split; [reflexivity|]; cbn -[values scan_d str]; (split; [reflexivity|]);
    (split; [by eexists|]); unfold sscanf_d; destruct (scan_d buf); reflexivity.
Qed.

(** *** A specification

    What processes that read and write the files see. *)
Inductive file_op := Read (name : bytes) | Write (name buf : bytes).
Inductive file_result := Text (text : bytes) | Count (n : Z) | No_such_file.

Definition file_step (o : file_op) (s : sysfs_state) : file_result * sysfs_state :=
  match o with
  | Read name => (match sysfs_show name s with Some t => Text t | None => No_such_file end, s)
  | Write name buf =>
      match sysfs_store name buf s with Some (r, s') => (Count r, s') | None => (No_such_file, s) end
  end.

Definition spec_step (o : file_op) (m : gmap bytes Z) : file_result * gmap bytes Z :=
  match o with
  | Read name =>
      (match m !! name with
       | Some v => Text (name ++ str ": " ++ print_d v ++ [10])
       | None => No_such_file
       end, m)
  | Write name buf =>
      match m !! name with
      | Some _ => (Count (Z.of_nat (length buf)),
                   match scan_d buf with Some v => <[name := v]> m | None => m end)
      | None => (No_such_file, m)
      end
  end.

Fixpoint results {S} (step : file_op -> S -> file_result * S) (ops : list file_op) (s : S)
    : list file_result :=
  match ops with
  | [] => []
  | o :: ops' => let '(r, s') := step o s in r :: results step ops' s'
  end.

Lemma file_step_simulates o s :
  spec_step o (values s) = ((file_step o s).1, values (file_step o s).2).
Proof.
  destruct o as [name|name buf]; simpl.
  - rewrite (proj1 (files_as_map s name [])). by destruct (values s !! name).
  - pose proof (proj2 (files_as_map s name buf)) as H.
    destruct (sysfs_store name buf s) as [[r s']|]; [|by rewrite H].
    destruct H as (-> & [v ->] & Hv). simpl. by rewrite Hv.
Qed.

(** C18: After the module is loaded the files behave as a map with three keys:
    whatever processes read and write, in whatever order, the answers are those
    of the specification that starts with three zeros. *)
Theorem sysfs_refines ops :
  results file_step ops sysfs_zero =
    results spec_step ops {[ str "attr1" := 0; str "attr2" := 0; str "attr3" := 0 ]}.
Proof.
  change {[ str "attr1" := 0; str "attr2" := 0; str "attr3" := 0 ]} with (values sysfs_zero).
  generalize sysfs_zero. induction ops as [|o ops IH]; intros s; [done|]. simpl.
  rewrite file_step_simulates. destruct (file_step o s) as [r s']. simpl. by rewrite IH.
Qed.

(** [echo v > name] and then [cat]: the file shows [v], whichever [int] it is,
    and the other files show what they did. *)
Theorem store_then_show (s : sysfs_state) name v :
  is_Some (values s !! name) -> - 2 ^ 31 <= v < 2 ^ 31 ->
  exists s', sysfs_store name (print_d v ++ [10]) s = Some (Z.of_nat (S (length (print_d v))), s') /\
    sysfs_show name s' = Some (name ++ str ": " ++ print_d v ++ [10]) /\
    forall other, other <> name -> sysfs_show other s' = sysfs_show other s.
Proof.
  intros [x Hx] Hv.
  pose proof (proj2 (files_as_map s name (print_d v ++ [10]))) as Hst.
  destruct (sysfs_store name (print_d v ++ [10]) s) as [[r s']|]; [|congruence].
  destruct Hst as (-> & _ & Hvals). rewrite scan_print_d in Hvals by done.
  exists s'. split; [by rewrite length_app, Nat.add_comm|].
  split; [|intros other Hne]; rewrite !(proj1 (files_as_map _ _ [])), Hvals.
  - by rewrite lookup_insert_eq.
  - by rewrite lookup_insert_ne by done.
Qed.

(** What a file shows is not a number: written back, it changes nothing. *)
Theorem show_then_store (s : sysfs_state) name text :
  sysfs_show name s = Some text -> sysfs_store name text s = Some (Z.of_nat (length text), s).
Proof.
  destruct (name_cases name) as [->|[->|[->|(H1 & H2 & H3)]]];
    [..|unfold sysfs_show; by rewrite find_attribute_none by done];
    intros H; injection H as <-; reflexivity.
Qed.

(** [sprintf] has a page: no show callback overruns it. *)
Theorem show_fits_page (s : sysfs_state) name text :
  sysfs_show name s = Some text -> (length text <= 19)%nat.
Proof.
  rewrite (proj1 (files_as_map s name [])). intros E.
  destruct (values s !! name) as [v|] eqn:Ev; [|done].
  assert (text = name ++ str ": " ++ print_d v ++ [10]) as -> by (by injection E).
  pose proof (length_print_d v) as Hl. rewrite !length_app.
  assert (length name = 5%nat) as ->.
  { destruct (name_cases name) as [->|[->|[->|(H1 & H2 & H3)]]];
      [reflexivity..|by rewrite values_none in Ev]. }
  change (length (str ": ")) with 2%nat. change (length [10]) with 1%nat. lia.
Qed.

(** Loading holds the object exactly when it succeeds, and unloading drops it. *)
Theorem sysfs_load_unload (e : env scall) s :
  exists r s' tr s'' tr', simple_init e s [] = Ok r s' tr /\
    held tr = Some (if r =? 0 then [tt] else []) /\
    (r = 0 -> simple_exit e s' tr = Ok tt s'' tr' /\ held tr' = Some []).
Proof.
  unfold simple_init, simple_exit, mbind, M_bind, call, modify, get. simpl.
  destruct (e [] (kobject_create_and_add (str "simple_module"))) eqn:E; simpl.
  - set (ret := e _ sysfs_create_group). destruct (ret =? 0) eqn:Er; simpl.
    + eexists _, _, _, _, _. split; [reflexivity|]. rewrite Er. simpl.
      split; [done|]. intros _. split; [f_equal; apply unit_eta|]. done.
    + eexists _, _, _, true, []. split; [reflexivity|]. rewrite Er. simpl.
      split; [done|]. intros ->. done.
  - eexists _, _, _, true, []. split; [reflexivity|]. split; [done|]. intros [=].
Qed.

Lemma store_then_show_witness :
  exists s', sysfs_store (str "attr2") (str "-42" ++ [10]) sysfs_zero = Some (4, s') /\
    sysfs_show (str "attr2") s' = Some (str "attr2: -42" ++ [10]).
Proof.
  destruct (store_then_show sysfs_zero (str "attr2") (-42)) as (s' & H1 & H2 & _).
  - eexists. reflexivity.
  - lia.
  - exists s'. split; [exact H1|exact H2].
Defined.
