(* ===== verification/Notifier.v ===== *)
(** * A notifier chain of one's own ([notifier/])

    [publisher.c] exports a chain and publishes to it what is written to its
    /proc file; each copy of [subscriber.c] registers a block.  The chain itself
    is the kernel's: [NotifierChain] is what its documentation promises, and
    what is proved about the modules is proved for every implementation of it;
    [priority_chain] is one.  A block is named by the module that owns it. *)

From S2P Require Export Steps Bytes.

(** ** The interface *)

Class NotifierChain (B : Type) := {
  chain : Type;
  empty_chain : chain;
  blocking_notifier_chain_register : B -> chain -> Z * chain;
  blocking_notifier_chain_unregister : B -> chain -> Z * chain;
  blocks : chain -> list B;             (* in the order they are called *)
  blocks_empty : blocks empty_chain = [];
  blocks_register : forall b c, b ∉ blocks c ->
    (blocking_notifier_chain_register b c).1 = 0 /\
    blocks (blocking_notifier_chain_register b c).2 ≡ₚ b :: blocks c;
  blocks_unregister : forall b c, b ∈ blocks c -> NoDup (blocks c) ->
    (blocking_notifier_chain_unregister b c).1 = 0 /\
    b :: blocks (blocking_notifier_chain_unregister b c).2 ≡ₚ blocks c;
  blocks_unregister_absent : forall b c, b ∉ blocks c ->
    blocking_notifier_chain_unregister b c = (- ENOENT, c);
}.
Arguments chain B {NotifierChain}.

(** ** The modules *)

Inductive my_msg := my_event0 | my_event1 | my_event2 | my_event3.
Definition msg_code (m : my_msg) : Z :=
  match m with my_event0 => 0 | my_event1 => 1 | my_event2 => 2 | my_event3 => 3 end.

Section modules.
Context {B : Type} `{!EqDecision B} `{!Countable B} {NC : NotifierChain B}.

(** What is printed: by the publisher, or by a subscriber with the code. *)
Inductive line := published (msg : bytes) | received (b : B) (code : Z) (msg : bytes).

(** publisher.c *)
Definition register_my_notifier (nb : B) (my_notifier_list : chain B) : Z * chain B :=
  blocking_notifier_chain_register nb my_notifier_list.
Definition unregister_my_notifier (nb : B) (my_notifier_list : chain B) : Z * chain B :=
  blocking_notifier_chain_unregister nb my_notifier_list.

(** What [printk("%s", p)] shows of an object that ends in time: the bytes up to
    the first NUL.  The address of an object of no bytes ([ZERO_SIZE_PTR]) is not
    one that can be read, which [printk] sees. *)
Definition shown (p : bytes) : bytes :=
  match p with [] => str "(efault)" | _ => until_nul p end.
Definition print_s (p : bytes) : fault + bytes :=
  if decide (p = [] \/ 0 ∈ p) then inr (shown p) else inl OutOfBounds.

(** subscriber.c: the callback *)
Definition my_notify_sys (this : B) (val : Z) (data : bytes) : fault + list line :=
  msg ← print_s data; inr [received this val msg].

(** The callbacks one after another; each returns 0, which does not stop the
    chain. *)
Fixpoint call_blocks (bs : list B) (val : Z) (data : bytes) : fault + list line :=
  match bs with
  | [] => inr []
  | b :: bs' =>
      l ← my_notify_sys b val data;
      ls ← call_blocks bs' val data;
      inr (l ++ ls)
  end.

(** [kzalloc], then what [copy_from_user] managed to copy of it. *)
Definition copied_buffer (buf : bytes) (copied : nat) : bytes :=
  take copied buf ++ replicate (length buf - copied) 0.

(** An allocation of no bytes does not fail. *)
Definition kzalloc (alloc_ok : bool) (size : Z) : bool := alloc_ok || (size =? 0).

Definition write_proc (alloc_ok : bool) (copied : nat) (buf : bytes) (my_notifier_list : chain B)
    : fault + (Z * list line) :=
  let count := Z.of_nat (length buf) in
  if negb (kzalloc alloc_ok count) then inl NullDeref else
  let p := copied_buffer buf copied in
  msg ← print_s p;
  ls ← call_blocks (blocks my_notifier_list) (msg_code my_event1) p;
  inr (count, published msg :: ls).

(** subscriber.c: loading and unloading ignore the results. *)
Definition subscriber_init (nb : B) (c : chain B) : Z * chain B :=
  (0, (register_my_notifier nb c).2).
Definition subscriber_exit (nb : B) (c : chain B) : chain B :=
  (unregister_my_notifier nb c).2.

(** ** Subscriptions

    A module is loaded when it is not, and unloaded when it is. *)
Inductive mod_op := Load (b : B) | Unload (b : B).

Definition mod_step (o : mod_op) (s : gset B * chain B) : gset B * chain B :=
  let '(loaded, c) := s in
  match o with
  | Load b => if decide (b ∈ loaded) then s else ({[ b ]} ∪ loaded, (subscriber_init b c).2)
  | Unload b => if decide (b ∈ loaded) then (loaded ∖ {[ b ]}, subscriber_exit b c) else s
  end.

Definition mod_run (ops : list mod_op) : gset B * chain B :=
  foldl (fun s o => mod_step o s) (∅, empty_chain) ops.

(** The blocks of the chain are those of the loaded modules, once each. *)
Definition subscribed (s : gset B * chain B) : Prop :=
  NoDup (blocks s.2) /\ forall b, b ∈ blocks s.2 <-> b ∈ s.1.

Lemma mod_step_subscribed o s : subscribed s -> subscribed (mod_step o s).
Proof using.
  destruct s as [loaded c]. intros [Hn Hb]. unfold subscribed in *. simpl in *.
  destruct o as [b|b]; simpl; destruct (decide (b ∈ loaded)) as [Hin|Hin]; try by split.
  - unfold subscriber_init, register_my_notifier. simpl.
    assert (b ∉ blocks c) as Hnot by (by rewrite Hb).
    destruct (blocks_register b c Hnot) as [_ HP]. split.
    + rewrite HP. by constructor.
    + intros b'. rewrite HP, elem_of_cons, Hb. set_solver.
  - unfold subscriber_exit, unregister_my_notifier.
    assert (b ∈ blocks c) as Hyes by (by rewrite Hb).
    destruct (blocks_unregister b c Hyes Hn) as [_ HP].
    assert (NoDup (b :: blocks (blocking_notifier_chain_unregister b c).2)) as Hn' by (by rewrite HP).
    apply NoDup_cons in Hn' as [Hnot Hn']. split; [done|].
    intros b'. specialize (Hb b'). rewrite <- HP, elem_of_cons in Hb.
    destruct (decide (b' = b)) as [->|Hne]; [set_solver|]. set_solver.
Qed.

Lemma mod_run_subscribed ops : subscribed (mod_run ops).
Proof using.
  unfold mod_run. assert (subscribed (∅, empty_chain)) as H.
  { split; simpl; rewrite blocks_empty; [constructor|]. set_solver. }
  revert H. generalize (∅ : gset B, empty_chain). induction ops as [|o ops IH]; intros s Hs; [done|].
  simpl. apply IH. by apply mod_step_subscribed.
Qed.

(** ** Publishing *)

Lemma call_blocks_ok bs val p msg :
  print_s p = inr msg -> call_blocks bs val p = inr ((fun b => received b val msg) <$> bs).
Proof using.
  intros Hp. induction bs as [|b bs IH]; [done|]. simpl. unfold my_notify_sys.
  rewrite Hp. simpl. by rewrite IH.
Qed.

Lemma write_proc_spec c alloc_ok copied buf :
  let p := copied_buffer buf copied in
  write_proc alloc_ok copied buf c =
    if negb (kzalloc alloc_ok (Z.of_nat (length buf))) then inl NullDeref
    else if decide (p = [] \/ 0 ∈ p) then
      inr (Z.of_nat (length buf),
           published (shown p) :: ((fun b => received b 1 (shown p)) <$> blocks c))
    else inl OutOfBounds.
Proof using.
  simpl. unfold write_proc. destruct (negb _); [done|].
  destruct (decide _) as [Hp|Hp] eqn:E.
  - assert (print_s (copied_buffer buf copied) = inr (shown (copied_buffer buf copied))) as Ep
      by (unfold print_s; by rewrite E).
    rewrite Ep. simpl. by rewrite (call_blocks_ok _ _ _ _ Ep).
  - unfold print_s. by rewrite E.
Qed.

(** C33: Whichever modules have been loaded and unloaded before: a message that ends
    in the buffer is printed by the publisher and then by every loaded
    subscriber exactly once, with code 1; a message without a NUL, as [echo]
    writes it, makes the publisher read past the allocation of exactly its
    size, unless the copy was cut short; a message of no bytes is printed as
    [(efault)]; the failure of the allocation of a longer one is not checked. *)
Theorem publish_spec ops alloc_ok copied buf :
  let '(loaded, c) := mod_run ops in
  let p := copied_buffer buf copied in
  write_proc alloc_ok copied buf c =
    (if negb (alloc_ok || (Z.of_nat (length buf) =? 0)) then inl NullDeref
     else if decide (p = [] \/ 0 ∈ p) then
       inr (Z.of_nat (length buf),
            published (shown p) :: ((fun b => received b 1 (shown p)) <$> blocks c))
     else inl OutOfBounds)
  /\ blocks c ≡ₚ elements loaded.
Proof using.
  pose proof (mod_run_subscribed ops) as [Hn Hb]. destruct (mod_run ops) as [loaded c].
  simpl in *. split.
  - apply write_proc_spec.
  - apply NoDup_Permutation; [done|apply NoDup_elements|]. intros b. by rewrite elem_of_elements.
Qed.

(** A full copy of text without NULs, whatever its length, is never printed. *)
Theorem echo_overreads ops buf :
  buf <> [] -> c_string buf ->
  write_proc true (length buf) buf (mod_run ops).2 = inl OutOfBounds.
Proof using.
  intros Hne Hc. rewrite write_proc_spec. cbn [kzalloc orb negb]. cbn zeta.
  assert (copied_buffer buf (length buf) = buf) as ->.
  { unfold copied_buffer. by rewrite firstn_all, Nat.sub_diag, app_nil_r. }
  rewrite decide_False; [done|]. intros [?|Hin]; [done|].
  eapply Forall_forall in Hc; [|exact Hin]. simpl in Hc. lia.
Qed.
End modules.

(** ** An implementation

    A block goes behind those of the same or a higher priority. *)
Section priority_chain.
Context {B : Type} `{!EqDecision B} (priority : B -> Z).

Fixpoint insert_block (b : B) (l : list B) : list B :=
  match l with
  | [] => [b]
  | x :: l' => if priority x <? priority b then b :: l else x :: insert_block b l'
  end.
Fixpoint remove_block (b : B) (l : list B) : list B :=
  match l with
  | [] => []
  | x :: l' => if decide (x = b) then l' else x :: remove_block b l'
  end.

Lemma insert_block_perm b l : insert_block b l ≡ₚ b :: l.
Proof using.
  induction l as [|x l IH]; [done|]. simpl. case_match; [done|]. rewrite IH. constructor.
Qed.
Lemma remove_block_perm b l : b ∈ l -> b :: remove_block b l ≡ₚ l.
Proof using.
  induction l as [|x l IH]; [by intros ?%not_elem_of_nil|]. intros Hb. simpl.
  destruct (decide (x = b)) as [->|Hne]; [done|].
  apply elem_of_cons in Hb as [->|Hb]; [done|]. rewrite <- (IH Hb) at 2. constructor.
Qed.

Definition priority_chain : NotifierChain B.
Proof using EqDecision0 priority.
  refine {|
    chain := list B;
    empty_chain := [];
    blocking_notifier_chain_register := fun b c => (0, insert_block b c);
    blocking_notifier_chain_unregister := fun b c =>
      if decide (b ∈ c) then (0, remove_block b c) else (- ENOENT, c);
    blocks := fun c => c;
  |}.
  - done.
  - intros b c _. split; [done|]. apply insert_block_perm.
  - intros b c Hb _. rewrite decide_True by done. split; [done|]. by apply remove_block_perm.
  - intros b c Hb. by rewrite decide_False.
Defined.
End priority_chain.

(** Two subscribers, one of them gone again. *)
Example two_subscribers :
  let _ := priority_chain (fun _ : nat => 0) in
  write_proc true 3 (str "hi" ++ [0]) (mod_run [Load 1%nat; Load 2%nat; Unload 1%nat]).2 =
    inr (3, [published (str "hi"); received 2%nat 1 (str "hi")]).
Proof. vm_compute. reflexivity. Qed.

Lemma echo_overreads_witness :
  let _ := priority_chain (fun _ : nat => 0) in
  write_proc true 3 (str "hi" ++ [10]) (mod_run [Load 1%nat]).2 = inl OutOfBounds.
Proof.
  intros NC. apply (echo_overreads (NC := NC) [Load 1%nat] (str "hi" ++ [10])).
  - discriminate.
  - repeat (constructor; [split; reflexivity|]). constructor.
Defined.

Lemma publish_spec_witness :
  let _ := priority_chain (fun _ : nat => 0) in
  blocks (mod_run [Load 1%nat; Load 2%nat; Unload 1%nat]).2 ≡ₚ [2%nat].
Proof.
  intros NC.
  pose proof (publish_spec (NC := NC) [Load 1%nat; Load 2%nat; Unload 1%nat] true 3 (str "hi" ++ [0])) as H.
  exact (proj2 H).
Defined.
