(* ===== verification/Netlink.v ===== *)
(** * A netlink conversation ([netlink/simple.c], [netlink/user.c])

    [Kernel] is the module, which answers each message it receives; [User] the
    program that sends one.  Messages are bytes: a [struct nlmsghdr] and the
    payload, padded to a multiple of four. *)

From S2P Require Export Resources Bytes.

Definition NETLINK_TEST : Z := 30.
Definition USER_PORT : Z := 100.

(** ** Messages *)

Definition NLMSG_HDRLEN : Z := 16.
Definition NLMSG_ALIGN (n : Z) : Z := (n + 3) / 4 * 4.
Definition nlmsg_total_size (payload : Z) : Z := NLMSG_ALIGN (NLMSG_HDRLEN + payload).

(** [struct nlmsghdr] *)
Record nlmsghdr := mk_hdr {
  nlmsg_len : Z; nlmsg_type : Z; nlmsg_flags : Z; nlmsg_seq : Z; nlmsg_pid : Z;
}.
Definition encode_hdr (h : nlmsghdr) : bytes :=
  le_enc 4 (nlmsg_len h) ++ le_enc 2 (nlmsg_type h) ++ le_enc 2 (nlmsg_flags h) ++
  le_enc 4 (nlmsg_seq h) ++ le_enc 4 (nlmsg_pid h).

(** A header and its payload, the padding zero. *)
Definition message (h : nlmsghdr) (payload : bytes) : bytes :=
  let l := encode_hdr h ++ payload in
  l ++ replicate (Z.to_nat (NLMSG_ALIGN (Z.of_nat (length l))) - length l) 0.

(** [NLMSG_DATA], [nlmsg_data] *)
Definition nlmsg_data (msg : bytes) : bytes := drop (Z.to_nat NLMSG_HDRLEN) msg.

(** A string that starts somewhere in an object, as [%s] reads it. *)
Definition c_str (l : bytes) : option bytes :=
  if decide (0 ∈ l) then Some (until_nul l) else None.

(** ** The module *)

Module Kernel.

Inductive ncall :=
  | printk (text : bytes)
  | nlmsg_new (payload : Z)
  | nlmsg_put (portid seq type payload flags : Z)
  | nlmsg_free
  | netlink_unicast (msg : bytes) (portid : Z)
  | netlink_kernel_create (unit : Z)
  | netlink_kernel_release.

(** [nlmsg_put]: whether the message has room. *)
#[global] Instance netlink_api : KApi ncall := fun c =>
  match c with
  | nlmsg_new _ | nlmsg_put _ _ _ _ _ | netlink_kernel_create _ => bool
  | netlink_unicast _ _ => Z
  | _ => unit
  end.

Inductive nl_rsrc := r_skb | r_sock.
#[global] Instance nl_rsrc_eq_dec : EqDecision nl_rsrc.
Proof. solve_decision. Defined.

(** [netlink_unicast] takes the buffer, whatever it answers. *)
#[global] Instance netlink_resources : Resources ncall := {|
  rsrc := nl_rsrc;
  acquires := fun c => match c as c0 return resp c0 -> list nl_rsrc with
    | nlmsg_new _ => fun r : bool => if r then [r_skb] else []
    | netlink_kernel_create _ => fun r : bool => if r then [r_sock] else []
    | _ => fun _ => []
    end;
  releases := fun c => match c as c0 return resp c0 -> list nl_rsrc with
    | nlmsg_free => fun _ => [r_skb]
    | netlink_unicast _ _ => fun _ => [r_skb]
    | netlink_kernel_release => fun _ => [r_sock]
    | _ => fun _ => []
    end;
|}.

(** The state is whether [nlsk] is not NULL. *)
Abbreviation N := (M ncall bool).

Definition send_msg (pbuf : bytes) (len : Z) : N Z :=
  let len := u16 len in
  ok ← call (nlmsg_new len);
  if negb ok then call (printk (str "netlink alloc failure" ++ [10])) ;; mret (-1) else
  ok ← call (nlmsg_put 0 0 NETLINK_TEST len 0);
  if negb ok then
    call (printk (str "nlmsg_put failaure " ++ [10])) ;; call nlmsg_free ;; mret (-1)
  else
  d ← or_fault OutOfBounds (load 0 len pbuf);
  call (netlink_unicast (message (mk_hdr (NLMSG_HDRLEN + len) NETLINK_TEST 0 0 0) d) USER_PORT).

Definition kmsg : bytes := str "hello users!!!".

(** [umsg] points into the message and is never NULL; printing it reads up to a
    NUL. *)
Definition rcv_msg (skb : bytes) : N unit :=
  if nlmsg_total_size 0 <=? Z.of_nat (length skb) then
    umsg ← or_fault OutOfBounds (c_str (nlmsg_data skb));
    call (printk (str "kernel recv from user: " ++ umsg ++ [10])) ;;
    send_msg (kmsg ++ [0]) (Z.of_nat (length kmsg)) ;;
    mret tt
  else mret tt.

Definition test_netlink_init : N Z :=
  nlsk ← call (netlink_kernel_create NETLINK_TEST);
  modify (fun _ => nlsk : bool) ;;
  if negb nlsk then call (printk (str "netlink_kernel_create failed !" ++ [10])) ;; mret (-1) else
  mret 0.

Definition test_netlink_exit : N unit :=
  nlsk ← get;
  (if (nlsk : bool) then call netlink_kernel_release ;; modify (fun _ => false) else mret tt) ;;
  call (printk (str "test_netlink_exit!" ++ [10])).
End Kernel.

(** ** The program *)

Module User.

Definition MSG_LEN : nat := 125.
Definition MAX_PLOAD : Z := 125.

(** [user_msg_info]: the header, [msg], and three bytes that align it. *)
Definition sizeof_user_msg_info : nat := 144.

Inductive pcall :=
  | socket (protocol : Z)
  | bind (fd nl_pid : Z)
  | close (fd : Z)
  | calloc (size : Z)
  | free
  | sendto (fd : Z) (msg : bytes) (nl_pid : Z)
  | recvfrom (fd : Z) (size : nat)
  | printf (text : bytes)
  | perror (text : bytes).

(** [recvfrom]: the result and the message, cut to the size of the buffer. *)
#[global] Instance user_api : KApi pcall := fun c =>
  match c with
  | socket _ | bind _ _ | sendto _ _ _ => Z
  | calloc _ => bool
  | recvfrom _ _ => (Z * bytes)%type
  | _ => unit
  end.

#[global] Instance user_resources : Resources pcall := {|
  rsrc := Z;
  acquires := fun c => match c as c0 return resp c0 -> list Z with
    | socket _ => fun r : Z => if r =? -1 then [] else [r]
    | _ => fun _ => []
    end;
  releases := fun c => match c as c0 return resp c0 -> list Z with
    | close fd => fun _ => [fd]
    | _ => fun _ => []
    end;
|}.

Abbreviation P := (M pcall unit).

Definition umsg : bytes := str "hello netlink!!".

(** The buffer of [NLMSG_SPACE(MAX_PLOAD)] bytes that is sent. *)
Definition user_message : bytes :=
  let len := NLMSG_ALIGN (NLMSG_HDRLEN + MAX_PLOAD) in
  pwrite NLMSG_HDRLEN umsg
    (encode_hdr (mk_hdr len 0 0 0 USER_PORT) ++ replicate (Z.to_nat (len - NLMSG_HDRLEN)) 0).

(** [u_info] after a message has been received into it: it was zeroed. *)
Definition u_info (msg : bytes) : bytes := char_array sizeof_user_msg_info msg.

(** [exit(-1)] is [mret (-1)]. *)
Definition main : P Z :=
  skfd ← call (socket NETLINK_TEST);
  if skfd =? -1 then call (perror (str "create socket error" ++ [10])) ;; mret (-1) else
  r ← call (bind skfd USER_PORT);
  if negb (r =? 0) then call (perror (str "bind() error" ++ [10])) ;; call (close skfd) ;; mret (-1) else
  ok ← call (calloc (NLMSG_ALIGN (NLMSG_HDRLEN + MAX_PLOAD)));
  if negb ok then fail NullDeref else
  ret ← call (sendto skfd user_message 0);
  if ret =? 0 then call (perror (str "sendto error" ++ [10])) ;; call (close skfd) ;; mret (-1) else
  call (printf (str "send kernel:" ++ umsg ++ [10])) ;;
  '(ret, msg) ← call (recvfrom skfd sizeof_user_msg_info);
  if ret =? 0 then
    call (perror (str "recv form kernel error" ++ [10])) ;; call (close skfd) ;; mret (-1)
  else
  text ← or_fault OutOfBounds (c_str (nlmsg_data (u_info msg)));
  call (printf (str "from kernel:" ++ text ++ [10])) ;;
  call (close skfd) ;; call free ;; mret 0.
End User.
