(* ===== verification/NetlinkTheorems.v ===== *)
(** * A netlink conversation: the theorems *)

From S2P Require Export Netlink.

Section kernel.
Import Kernel.

(** Whatever happens, sending keeps no buffer; [c] is a call made before. *)
Lemma send_msg_keeps (e : env ncall) pbuf len s tr L c :
  0 <= len < 2 ^ 16 -> len <= Z.of_nat (length pbuf) -> held tr = Some L ->
  c ∈ projT1 <$> tr ->
  wp (send_msg pbuf len) e (fun _ s' tr' => s' = s /\ held tr' = Some L /\ c ∈ projT1 <$> tr') s tr.
Proof.
  intros Hl Hp H Hc. unfold send_msg. rewrite uwrap_id by done.
  unfold load. rewrite (proj2 (in_object_spec 0 len pbuf)) by lia. cbn [or_fault].
  wp_go. destruct (e tr (nlmsg_new len)) eqn:E1; cbn [negb]; wp_go.
  - destruct (e _ (nlmsg_put 0 0 NETLINK_TEST len 0)) eqn:E2; cbn [negb]; wp_go;
      (split; [done|split; [simpl; by rewrite H|]]); by repeat constructor 2.
  - split; [done|split; [simpl; by rewrite H|]]. by repeat constructor 2.
Qed.

(** The module and any message it gets: a message without a whole header is
    ignored; one whose payload has no NUL is read past its end; any other is
    printed and answered, and no buffer is kept. *)
Theorem rcv_msg_spec (e : env ncall) skb s :
  if Z.of_nat (length skb) <? 16 then rcv_msg skb e s [] = Ok tt s []
  else if decide (0 ∈ drop 16 skb) then
    exists tr, rcv_msg skb e s [] = Ok tt s tr /\ held tr = Some [] /\
      printk (str "kernel recv from user: " ++ until_nul (drop 16 skb) ++ [10]) ∈ projT1 <$> tr
  else rcv_msg skb e s [] = Fault OutOfBounds s [].
Proof.
  unfold rcv_msg. change (nlmsg_total_size 0) with 16.
  destruct (Z.ltb_spec (Z.of_nat (length skb)) 16) as [Hlt|Hge].
  { by rewrite (proj2 (Z.leb_gt 16 _)) by lia. }
  rewrite (proj2 (Z.leb_le 16 _)) by lia. unfold c_str, nlmsg_data.
  change (Z.to_nat NLMSG_HDRLEN) with 16%nat. destruct (decide (0 ∈ drop 16 skb)) as [Hz|Hz]; [|done].
  enough (wp (or_fault OutOfBounds (Some (until_nul (drop 16 skb))) ≫= λ umsg : bytes,
      call (printk (str "kernel recv from user: " ++ umsg ++ [10])) ;;
      send_msg (kmsg ++ [0]) (Z.of_nat (length kmsg)) ;; mret tt) e
    (fun _ s' tr => s' = s /\ held tr = Some [] /\
      printk (str "kernel recv from user: " ++ until_nul (drop 16 skb) ++ [10]) ∈ projT1 <$> tr)
    s []) as Hwp.
  { apply wp_run in Hwp as ([] & s' & tr & Hr & -> & H). by exists tr. }
  cbn [or_fault]. wp_go.
  eapply wp_mono; [apply send_msg_keeps with (L := [])|intros r s' tr H; wp_go; exact H];
    [split; by vm_compute|by vm_compute|done|left].
Qed.

Lemma load_nlsk (e : env ncall) s :
  wp test_netlink_init e (fun r s1 tr => r = (if s1 then 0 else -1) /\
    held tr = Some (if s1 then [r_sock] else []) /\
    wp test_netlink_exit e (fun _ s2 tr' => s2 = false /\ held tr' = Some []) s1 tr) s [].
Proof.
  unfold test_netlink_init, test_netlink_exit. wp_go.
  destruct (e [] (netlink_kernel_create NETLINK_TEST)) eqn:E; cbn [negb]; wp_go;
    (split; [done|]); (split; [done|]); wp_go; done.
Qed.
End kernel.

(** ** The conversation *)

Definition reply : bytes :=
  message (mk_hdr (NLMSG_HDRLEN + 14) NETLINK_TEST 0 0 0) Kernel.kmsg.

Section conversation.
Context (ek : env Kernel.ncall) (eu : env User.pcall) (fd ret : Z).
Hypothesis has_buffer : forall tr n, ek tr (Kernel.nlmsg_new n) = true.
Hypothesis has_room : forall tr n, ek tr (Kernel.nlmsg_put 0 0 NETLINK_TEST n 0) = true.
Hypothesis has_socket : forall tr p, eu tr (User.socket p) = fd.
Hypothesis fd_valid : fd <> -1.
Hypothesis has_port : forall tr, eu tr (User.bind fd USER_PORT) = 0.
Hypothesis has_memory : forall tr n, eu tr (User.calloc n) = true.
Hypothesis sent : forall tr m, eu tr (User.sendto fd m 0) <> 0.
Hypothesis received : forall tr n, eu tr (User.recvfrom fd n) = (ret, reply).
Hypothesis some_bytes : ret <> 0.

(** C34: What the program sends, the module prints, and answers with one message to
    the program's port; given that message the program prints the module's
    text, closes its socket and succeeds. *)
Theorem conversation s :
  (exists tr, Kernel.rcv_msg User.user_message ek s [] = Ok tt s tr /\
     calls tr = [Kernel.printk (str "kernel recv from user: hello netlink!!" ++ [10]);
                 Kernel.nlmsg_new 14; Kernel.nlmsg_put 0 0 NETLINK_TEST 14 0;
                 Kernel.netlink_unicast reply USER_PORT]) /\
  (exists tr, User.main eu tt [] = Ok 0 tt tr /\
     calls tr = [User.socket NETLINK_TEST; User.bind fd USER_PORT; User.calloc 144;
                 User.sendto fd User.user_message 0;
                 User.printf (str "send kernel:hello netlink!!" ++ [10]);
                 User.recvfrom fd 144;
                 User.printf (str "from kernel:hello users!!!" ++ [10]);
                 User.close fd; User.free]).
Proof using has_buffer has_room has_socket fd_valid has_port has_memory sent received some_bytes.
  split.
  - enough (wp (Kernel.rcv_msg User.user_message) ek (fun _ s' tr => s' = s /\
      projT1 <$> tr = [Kernel.netlink_unicast reply USER_PORT;
        Kernel.nlmsg_put 0 0 NETLINK_TEST 14 0; Kernel.nlmsg_new 14;
        Kernel.printk (str "kernel recv from user: hello netlink!!" ++ [10])]) s []) as Hwp.
    { apply wp_run in Hwp as ([] & s' & tr & Hr & -> & Hc). exists tr. split; [done|].
      unfold calls. by rewrite Hc. }
    unfold Kernel.rcv_msg, Kernel.send_msg.
    change (nlmsg_total_size 0 <=? Z.of_nat (length User.user_message)) with true. cbn iota.
    change (c_str (nlmsg_data User.user_message)) with (Some User.umsg). cbn [or_fault].
    wp_go. rewrite has_buffer. cbn [negb]. wp_go.
    change (u16 (Z.of_nat (length Kernel.kmsg))) with 14. rewrite has_room. cbn [negb]. wp_go.
    split; reflexivity.
  - enough (wp User.main eu (fun r _ tr => r = 0 /\ projT1 <$> tr =
      [User.free; User.close fd; User.printf (str "from kernel:hello users!!!" ++ [10]);
       User.recvfrom fd 144; User.printf (str "send kernel:hello netlink!!" ++ [10]);
       User.sendto fd User.user_message 0; User.calloc 144; User.bind fd USER_PORT;
       User.socket NETLINK_TEST]) tt []) as Hwp.
    { apply wp_run in Hwp as (r & [] & tr & Hr & -> & Hc). exists tr. split; [done|].
      unfold calls. by rewrite Hc. }
    unfold User.main. wp_go. rewrite has_socket. rewrite (proj2 (Z.eqb_neq fd (-1))) by done.
    wp_go. rewrite has_port. cbn [negb Z.eqb]. wp_go. rewrite has_memory. cbn [negb]. wp_go.
    rewrite (proj2 (Z.eqb_neq _ 0)) by apply sent. wp_go. rewrite received.
    rewrite (proj2 (Z.eqb_neq ret 0)) by done.
    change (c_str (nlmsg_data (User.u_info reply))) with (Some Kernel.kmsg). cbn [or_fault].
    wp_go. split; reflexivity.
Qed.
End conversation.

(** A [sendto] that fails answers -1, which the program takes for success: it
    says it has sent the message and waits for an answer. *)
Theorem sendto_error_unnoticed (e : env User.pcall) fd :
  (forall tr p, e tr (User.socket p) = fd) -> fd <> -1 ->
  (forall tr, e tr (User.bind fd USER_PORT) = 0) -> (forall tr n, e tr (User.calloc n) = true) ->
  (forall tr m, e tr (User.sendto fd m 0) = -1) ->
  wlp User.main e (fun _ _ tr => User.recvfrom fd 144 ∈ projT1 <$> tr) tt [].
Proof.
  intros Hs Hfd Hb Hc Hm. unfold User.main. wp_go. rewrite Hs.
  rewrite (proj2 (Z.eqb_neq fd (-1))) by done. wp_go. rewrite Hb. cbn [negb Z.eqb]. wp_go.
  rewrite Hc. cbn [negb]. wp_go. rewrite Hm. cbn [Z.eqb]. wp_go.
  destruct (e _ (User.recvfrom fd User.sizeof_user_msg_info)) as [r m]. case_match; wp_go;
    by repeat constructor.
Qed.

(** ** Witnesses *)

Definition kernel_ok : env Kernel.ncall := fun _ c =>
  match c as c0 return resp c0 with
  | Kernel.nlmsg_new _ | Kernel.nlmsg_put _ _ _ _ _ | Kernel.netlink_kernel_create _ => true
  | Kernel.netlink_unicast _ _ => 30
  | Kernel.printk _ | Kernel.nlmsg_free | Kernel.netlink_kernel_release => tt
  end.
Definition user_ok : env User.pcall := fun _ c =>
  match c as c0 return resp c0 with
  | User.socket _ => 3
  | User.bind _ _ => 0
  | User.sendto _ _ _ => 144
  | User.calloc _ => true
  | User.recvfrom _ _ => (32, reply)
  | User.close _ | User.free | User.printf _ | User.perror _ => tt
  end.

Lemma conversation_witness :
  exists tr, Kernel.rcv_msg User.user_message kernel_ok true [] = Ok tt true tr.
Proof.
  destruct (conversation kernel_ok user_ok 3 32 (fun _ _ => eq_refl) (fun _ _ => eq_refl)
    (fun _ _ => eq_refl) ltac:(discriminate) (fun _ => eq_refl) (fun _ _ => eq_refl)
    ltac:(discriminate) (fun _ _ => eq_refl) ltac:(discriminate) true) as [(tr & H & _) _].
  exists tr. exact H.
Defined.
