(* ===== verification/Registration.v ===== *)
(** * Modules that register something

    [debugfs], [proc_fs], [netfilter], [LSM], [netdev/netdevice_notifier],
    [netdev/netdev_rx_handler], [pernet], [notifier/publisher.c] and
    [EXPORT_SYMBOL]: what each registers with the kernel when it is loaded and
    gives back when it is unloaded, and the callbacks it registers. *)

From S2P Require Export Resources Bytes.

Inductive gcall :=
  | printk (text : bytes)
  | debugfs_create_dir (name : bytes)
  | debugfs_create_file (name : bytes) (mode : Z)
  | debugfs_create_u32 (name : bytes) (mode : Z)
  | debugfs_remove_recursive
  | proc_create (name : bytes)
  | remove_proc_entry (name : bytes)
  | kcalloc
  | kfree
  | nf_register_net_hook
  | nf_unregister_net_hook
  | security_add_hooks (count : Z) (lsm : bytes)
  | register_netdevice_notifier
  | unregister_netdevice_notifier
  | register_inetaddr_notifier
  | unregister_inetaddr_notifier
  | sock_create_kern
  | release_sock
  | dev_get_by_name (name : bytes)
  | netdev_rx_handler_register
  | netdev_rx_handler_unregister
  | register_pernet_subsys
  | unregister_pernet_subsys.

#[export] Instance reg_api : KApi gcall := fun c =>
  match c with
  | debugfs_create_dir _ | debugfs_create_file _ _ | proc_create _ | kcalloc | dev_get_by_name _ =>
      bool
  | nf_register_net_hook | register_netdevice_notifier | register_inetaddr_notifier
  | sock_create_kern | netdev_rx_handler_register | register_pernet_subsys => Z
  | _ => unit
  end.

Inductive reg_rsrc :=
  | r_dir | r_proc (name : bytes) | r_memory | r_hook | r_lsm | r_netdevice | r_inetaddr
  | r_socket | r_rx_handler | r_pernet.
#[export] Instance reg_rsrc_eq_dec : EqDecision reg_rsrc.
Proof. solve_decision. Defined.

(** The files of a debugfs directory go with it; [remove_proc_entry] and
    [debugfs_remove_recursive] accept what is not there only as an error. *)
#[export] Instance reg_resources : Resources gcall := {|
  rsrc := reg_rsrc;
  acquires := fun c => match c as c0 return resp c0 -> list reg_rsrc with
    | debugfs_create_dir _ => fun r : bool => if r then [r_dir] else []
    | proc_create n => fun r : bool => if r then [r_proc n] else []
    | kcalloc => fun r : bool => if r then [r_memory] else []
    | nf_register_net_hook => fun r : Z => if r =? 0 then [r_hook] else []
    | security_add_hooks _ _ => fun _ => [r_lsm]
    | register_netdevice_notifier => fun r : Z => if r =? 0 then [r_netdevice] else []
    | register_inetaddr_notifier => fun r : Z => if r =? 0 then [r_inetaddr] else []
    | sock_create_kern => fun r : Z => if r <? 0 then [] else [r_socket]
    | netdev_rx_handler_register => fun r : Z => if r =? 0 then [r_rx_handler] else []
    | register_pernet_subsys => fun r : Z => if r =? 0 then [r_pernet] else []
    | _ => fun _ => []
    end;
  releases := fun c => match c as c0 return resp c0 -> list reg_rsrc with
    | debugfs_remove_recursive => fun _ => [r_dir]
    | remove_proc_entry n => fun _ => [r_proc n]
    | kfree => fun _ => [r_memory]
    | nf_unregister_net_hook => fun _ => [r_hook]
    | unregister_netdevice_notifier => fun _ => [r_netdevice]
    | unregister_inetaddr_notifier => fun _ => [r_inetaddr]
    | netdev_rx_handler_unregister => fun _ => [r_rx_handler]
    | unregister_pernet_subsys => fun _ => [r_pernet]
    | _ => fun _ => []
    end;
|}.

(** A pointer the module keeps, if it keeps one: whether it is not NULL. *)
Abbreviation G := (M gcall bool).
Definition keep (p : bool) : G unit := modify (fun _ => p).
Definition line (s : string) : bytes := str s ++ [10].

(** ** debugfs/simple.c *)

Module Debugfs.

Definition my_write_op (value sum : Z) : Z * Z := (0, u32 (sum + value)).
(** The value is not set. *)
Definition my_read_op (sum : Z) : Z * option Z := (0, None).

(** 0222 and 0444 *)
Definition S_IWUGO : Z := 0x92.
Definition S_IRUGO : Z := 0x124.

Definition init_module : G Z :=
  dir ← call (debugfs_create_dir (str "calc"));
  keep dir ;;
  if negb dir then
    call (printk (line "debugfs_example2: failed to create /sys/kernel/debug/example2")) ;; mret (-1)
  else
  junk ← call (debugfs_create_file (str "add") S_IWUGO);
  if negb junk then
    call (printk (line "debugfs_example2: failed to create /sys/kernel/debug/example2/add")) ;;
    mret (-1)
  else
  call (debugfs_create_u32 (str "sum") S_IRUGO) ;; mret 0.

Definition cleanup_module : G unit := call debugfs_remove_recursive.
End Debugfs.

(** ** proc_fs/simple.c and notifier/publisher.c *)

Module ProcFs.

Definition my_show : bytes := line "Hello World!".
Definition my_init : G Z := call (proc_create (str "my_proc")) ;; mret 0.
Definition my_exit : G unit := call (remove_proc_entry (str "my_proc")).
End ProcFs.

Module Publisher.

Definition init_modules : G Z := call (proc_create (str "my_notifier")) ;; mret 0.
Definition exit_modules : G unit := call (remove_proc_entry (str "my_notifier")).
End Publisher.

(** ** netfilter/simple.c *)

Module Netfilter.

Inductive verdict := NF_DROP | NF_ACCEPT.
Definition hook_func (skb : bytes) : G verdict := call (printk (line "hook")) ;; mret NF_DROP.

Definition my_init : G Z :=
  nfho ← call kcalloc;
  keep nfho ;;
  if negb nfho then fail NullDeref else
  call nf_register_net_hook ;; mret 0.

Definition my_exit : G unit := call nf_unregister_net_hook ;; call kfree.
End Netfilter.

(** ** LSM/simple.c *)

Module Lsm.

Definition my_rename : G Z := call (printk (line "you are rename some file")) ;; mret 0.
Definition lsm_init : G Z :=
  call (security_add_hooks 1 (str "simple")) ;; call (printk (str "start")) ;; mret 0.
Definition lsm_exit : G unit := call (printk (line "remove")).
End Lsm.

(** ** netdev/netdevice_notifier/simple.c *)

Module NetdevNotifier.

Definition NETDEV_UP : Z := 1.
Definition NETDEV_DOWN : Z := 2.
Definition NOTIFY_DONE : Z := 0.
Definition NOTIFY_OK : Z := 1.

(** The device, if there is one, by its name. *)
Definition print_device (before : string) (dev : option bytes) (after : string) : G unit :=
  match dev with
  | Some name => call (printk (str before ++ name ++ line after))
  | None => mret tt
  end.

Definition my_netdev_event (event : Z) (dev : option bytes) : G Z :=
  (if event =? NETDEV_UP then print_device "dev[" dev "] is up"
   else if event =? NETDEV_DOWN then print_device "dev[" dev "] is down"
   else mret tt) ;;
  mret NOTIFY_DONE.

(** [ifa]: the address, if there is one, and its device. *)
Definition my_inetaddr_event (event : Z) (ifa : option (option bytes)) : G Z :=
  let dev := ifa ≫= id in
  (if event =? NETDEV_UP then print_device "inet[" dev "] is up"
   else if event =? NETDEV_DOWN then print_device "inet[" dev "] is down"
   else mret tt) ;;
  mret NOTIFY_OK.

Definition my_init : G Z :=
  call register_netdevice_notifier ;; call register_inetaddr_notifier ;; mret 0.
Definition my_exit : G unit :=
  call unregister_netdevice_notifier ;; call unregister_inetaddr_notifier.
End NetdevNotifier.

(** ** netdev/netdev_rx_handler/simple.c *)

Module RxHandler.

Inductive rx_handler_result := RX_HANDLER_PASS | RX_HANDLER_CONSUMED.
Definition netdev_frame_hook (skb : bytes) : G rx_handler_result :=
  call (printk (line "hello")) ;; mret RX_HANDLER_PASS.

(** [sock] is not set when the socket cannot be created, and used; the result of
    the registration is ignored, and so is a NULL [dev]. *)
Definition my_init : G Z :=
  err ← call sock_create_kern;
  if err <? 0 then
    call (printk (str "UDP create sock err, err=")) ;; fail BadPointer
  else
  dev ← call (dev_get_by_name (str "lo"));
  keep dev ;;
  if negb dev then fail NullDeref else
  call netdev_rx_handler_register ;;
  call release_sock ;;
  mret 0.

Definition my_exit : G unit := call netdev_rx_handler_unregister.
End RxHandler.

(** ** pernet/simple.c *)

Module Pernet.

Definition my_init : G Z := call register_pernet_subsys ;; mret 0.
Definition my_exit : G unit := call unregister_pernet_subsys.
End Pernet.

(** ** EXPORT_SYMBOL: [modulea] exports two functions that [moduleb] calls *)

Module ExportSymbol.

Definition module_a_init_func : G Z := call (printk (line "this is module a init func")) ;; mret 0.
Definition module_a_exit_func : G unit := call (printk (line "this is module a exit func")).
Definition module_a_init : G Z :=
  call (printk (line "this is module a init")) ;; module_a_init_func.
Definition module_a_exit : G unit :=
  call (printk (line "this is module a exit")) ;; module_a_exit_func.
Definition module_b_init : G Z := module_a_init_func.
Definition module_b_exit : G unit := module_a_exit_func.
End ExportSymbol.

(** ** Every step succeeds *)

Record succeeds (ans : forall c : gcall, resp c) : Prop := {
  ok_dir : forall n, ans (debugfs_create_dir n) = true;
  ok_file : forall n m, ans (debugfs_create_file n m) = true;
  ok_proc : forall n, ans (proc_create n) = true;
  ok_memory : ans kcalloc = true;
  ok_hook : ans nf_register_net_hook = 0;
  ok_netdevice : ans register_netdevice_notifier = 0;
  ok_inetaddr : ans register_inetaddr_notifier = 0;
  ok_socket : ans sock_create_kern = 0;
  ok_device : forall n, ans (dev_get_by_name n) = true;
  ok_rx_handler : ans netdev_rx_handler_register = 0;
  ok_pernet : ans register_pernet_subsys = 0;
}.

Ltac reg_step H :=
  lazymatch goal with
  | |- wp (call ?c) (oblivious ?ans) ?Q ?s ?tr =>
      first [ apply (wp_call_eq _ c _ _ _ _ (ok_dir _ H _))
            | apply (wp_call_eq _ c _ _ _ _ (ok_file _ H _ _))
            | apply (wp_call_eq _ c _ _ _ _ (ok_proc _ H _))
            | apply (wp_call_eq _ c _ _ _ _ (ok_memory _ H))
            | apply (wp_call_eq _ c _ _ _ _ (ok_hook _ H))
            | apply (wp_call_eq _ c _ _ _ _ (ok_netdevice _ H))
            | apply (wp_call_eq _ c _ _ _ _ (ok_inetaddr _ H))
            | apply (wp_call_eq _ c _ _ _ _ (ok_socket _ H))
            | apply (wp_call_eq _ c _ _ _ _ (ok_device _ H _))
            | apply (wp_call_eq _ c _ _ _ _ (ok_rx_handler _ H))
            | apply (wp_call_eq _ c _ _ _ _ (ok_pernet _ H))
            | refine (wp_call_eq (C := gcall) ans c tt Q s tr (unit_eta _) _) ]
  | |- _ => wp_step
  end; cbn -[str held wp call].

Ltac load_unload_tac H :=
  apply load_unload_wp; intros s; unfold RxHandler.my_init, RxHandler.my_exit,
    Debugfs.init_module, Debugfs.cleanup_module, Netfilter.my_init, Netfilter.my_exit,
    Lsm.lsm_init, Lsm.lsm_exit, ProcFs.my_init, ProcFs.my_exit, Publisher.init_modules,
    Publisher.exit_modules, NetdevNotifier.my_init, NetdevNotifier.my_exit,
    Pernet.my_init, Pernet.my_exit, keep;
  repeat reg_step H; (split; [reflexivity|split; [reflexivity|]]); repeat reg_step H; reflexivity.

(** When every step succeeds: what the modules hold when they are loaded, and
    what is left when they have been unloaded; that is nothing, except the
    hooks of the security module and the socket of the receive handler. *)
Theorem registrations (ans : forall c : gcall, resp c) :
  succeeds ans ->
  let e := oblivious ans in
  load_unload e Debugfs.init_module Debugfs.cleanup_module [r_dir] [] /\
  load_unload e ProcFs.my_init ProcFs.my_exit [r_proc (str "my_proc")] [] /\
  load_unload e Publisher.init_modules Publisher.exit_modules [r_proc (str "my_notifier")] [] /\
  load_unload e Netfilter.my_init Netfilter.my_exit [r_hook; r_memory] [] /\
  load_unload e NetdevNotifier.my_init NetdevNotifier.my_exit [r_inetaddr; r_netdevice] [] /\
  load_unload e Pernet.my_init Pernet.my_exit [r_pernet] [] /\
  load_unload e Lsm.lsm_init Lsm.lsm_exit [r_lsm] [r_lsm] /\
  load_unload e RxHandler.my_init RxHandler.my_exit [r_rx_handler; r_socket] [r_socket].
Proof. intros H e. subst e. split_and!; load_unload_tac H. Qed.

(** Steps whose failure is not handled: the directory stays when its file cannot
    be created; memory that could not be allocated, a socket that could not be
    created and a device that was not found are used all the same; and an
    entry that could not be registered is taken out again. *)
Theorem registrations_unchecked (ans : forall c : gcall, resp c) s :
  let e := oblivious ans in
  (ans (debugfs_create_dir (str "calc")) = true ->
   ans (debugfs_create_file (str "add") Debugfs.S_IWUGO) = false ->
   exists s' tr, Debugfs.init_module e s [] = Ok (-1) s' tr /\ held tr = Some [r_dir]) /\
  (ans kcalloc = false -> exists s' tr, Netfilter.my_init e s [] = Fault NullDeref s' tr) /\
  (ans sock_create_kern < 0 -> exists s' tr, RxHandler.my_init e s [] = Fault BadPointer s' tr) /\
  (0 <= ans sock_create_kern -> ans (dev_get_by_name (str "lo")) = false ->
   exists s' tr, RxHandler.my_init e s [] = Fault NullDeref s' tr) /\
  (ans (proc_create (str "my_proc")) = false ->
   exists s1 tr1 s2 tr2, ProcFs.my_init e s [] = Ok 0 s1 tr1 /\
     ProcFs.my_exit e s1 tr1 = Ok tt s2 tr2 /\ held tr2 = None).
Proof.
  intros e. subst e. unfold Debugfs.init_module, Netfilter.my_init, RxHandler.my_init,
    ProcFs.my_init, ProcFs.my_exit, keep, mbind, M_bind, call, modify, fail, oblivious.
  split_and!.
  - intros H1 H2. rewrite H1. cbn [negb]. rewrite H2. cbn [negb].
    eexists _, _. split; [reflexivity|]. simpl. by rewrite ?H1.
  - intros ->. by eexists _, _.
  - intros ->%Z.ltb_lt. by eexists _, _.
  - intros H1 H2. rewrite (proj2 (Z.ltb_ge _ _) H1), H2. by eexists _, _.
  - intros H. eexists _, _, _, _. split; [reflexivity|]. split; [f_equal; apply unit_eta|].
    simpl. by rewrite H.
Qed.

(** ** The callbacks *)

(** The sum is kept modulo 2^32, whatever 64-bit values are written. *)
Theorem debugfs_sum values sum :
  0 <= sum < 2 ^ 32 ->
  foldl (fun sum v => (Debugfs.my_write_op v sum).2) sum values = u32 (foldl Z.add sum values).
Proof.
  intros Hs. rewrite <- (uwrap_id 32 sum Hs) at 1. clear Hs. revert sum.
  induction values as [|v values IH]; intros sum; [done|]. simpl. rewrite uwrap_add_l. apply IH.
Qed.

(** Only going up and going down is reported, with the name of the device, if
    there is one; the chain is never stopped. *)
Theorem netdev_event_spec (e : env gcall) event dev s tr :
  exists tr', NetdevNotifier.my_netdev_event event dev e s tr = Ok 0 s (tr' ++ tr) /\
    projT1 <$> tr' =
      match dev with
      | Some name =>
          if event =? 1 then [printk (str "dev[" ++ name ++ line "] is up")]
          else if event =? 2 then [printk (str "dev[" ++ name ++ line "] is down")] else []
      | None => []
      end.
Proof.
  unfold NetdevNotifier.my_netdev_event, NetdevNotifier.print_device, mbind, M_bind, call.
  change NetdevNotifier.NETDEV_UP with 1. change NetdevNotifier.NETDEV_DOWN with 2.
  destruct dev as [name|]; destruct (event =? 1), (event =? 2);
    first [by exists [] | by eexists [_]].
Qed.

Definition all_ok (c : gcall) : resp c :=
  match c as c0 return resp c0 with
  | debugfs_create_dir _ | debugfs_create_file _ _ | proc_create _ | kcalloc | dev_get_by_name _ =>
      true
  | nf_register_net_hook | register_netdevice_notifier | register_inetaddr_notifier
  | sock_create_kern | netdev_rx_handler_register | register_pernet_subsys => 0
  | printk _ | debugfs_create_u32 _ _ | debugfs_remove_recursive | remove_proc_entry _ | kfree
  | nf_unregister_net_hook | security_add_hooks _ _ | unregister_netdevice_notifier
  | unregister_inetaddr_notifier | release_sock | netdev_rx_handler_unregister
  | unregister_pernet_subsys => tt
  end.

Lemma registrations_witness :
  load_unload (oblivious all_ok) Netfilter.my_init Netfilter.my_exit [r_hook; r_memory] [].
Proof.
  refine (proj1 (proj2 (proj2 (proj2 (registrations all_ok _))))). by split.
Defined.
