(* ===== verification/Idr.v ===== *)
(** * An ID map ([idr/simple.c])

    The map is the kernel's: [IdrMap] is what its documentation promises, and what
    is proved about the module is proved for every implementation of it; finite
    maps are one ([gmap_idr]). *)

From stdpp Require Export sorting.
From S2P Require Export Bytes.

Class IdrMap (V : Type) := {
  idr : Type;
  idr_init : idr;
  idr_alloc : V -> idr -> Z * idr;      (* [idr_alloc(m, v, 0, 0, ...)] with memory *)
  idr_find : Z -> idr -> option V;
  idr_remove : Z -> idr -> idr;
  idr_entries : idr -> list (Z * V);    (* what [idr_for_each] visits, in order *)
  idr_find_init : forall i, idr_find i idr_init = None;
  idr_alloc_lowest : forall v m i,
    0 <= (idr_alloc v m).1 /\ idr_find (idr_alloc v m).1 m = None /\
    (0 <= i < (idr_alloc v m).1 -> is_Some (idr_find i m));
  idr_find_alloc : forall v m i,
    idr_find i (idr_alloc v m).2 = if decide (i = (idr_alloc v m).1) then Some v else idr_find i m;
  idr_find_remove : forall i m j,
    idr_find j (idr_remove i m) = if decide (j = i) then None else idr_find j m;
  idr_entries_find : forall m i v, (i, v) ∈ idr_entries m <-> idr_find i m = Some v;
  idr_entries_sorted : forall m, StronglySorted (fun x y => x.1 < y.1) (idr_entries m);
}.
Arguments idr V {IdrMap}.

Section module.
Context {I : IdrMap bytes}.

Definition ptr1 : bytes := str "apple".
Definition ptr2 : bytes := str "banana".

(** The lines printed. *)
Inductive line :=
  | Reserved (id0 id1 : Z)
  | Find (id : Z) (value : bytes)
  | Data (data : bytes)
  | Key_value (id : Z) (value : bytes).

Definition deleter (id : Z) (ptr : bytes) (m : idr bytes) : idr bytes := idr_remove id m.
Definition showKeyValuePair (data : bytes) (id : Z) (ptr : bytes) : list line :=
  [Data data; Key_value id ptr].

(** [idr_alloc], when there is memory for it. *)
Definition alloc (mem : bool) (ptr : bytes) (m : idr bytes) : Z * idr bytes :=
  if mem then idr_alloc ptr m else (- ENOMEM, m).

(** What is printed, and the map. *)
Definition mod_init (mem0 mem1 : bool) : list line * idr bytes :=
  let map := idr_init in
  let '(id0, map) := alloc mem0 ptr1 map in
  let '(id1, map) := alloc mem1 ptr2 map in
  let ptr := idr_find id0 map in
  ([Reserved id0 id1; Find id0 (default (str "not found") ptr)] ++
   mjoin ((fun '(id, ptr) => showKeyValuePair (str "hello") id ptr) <$> idr_entries map),
   map).

(** The visit of the entries, each removed when it is visited. *)
Definition mod_exit (map : idr bytes) : idr bytes :=
  foldl (fun m '(id, ptr) => deleter id ptr m) map (idr_entries map).

(** *** Lemmas *)

Lemma alloc_next v m (n : Z) :
  0 <= n -> (forall i, is_Some (idr_find i m) <-> 0 <= i < n) -> (idr_alloc v m).1 = n.
Proof using.
  intros Hn Hm. destruct (idr_alloc_lowest v m n) as (H0 & H1 & H2).
  destruct (decide ((idr_alloc v m).1 < n)) as [Hlt|Hge].
  - assert (is_Some (idr_find (idr_alloc v m).1 m)) as [x Hx] by (by apply Hm). congruence.
  - destruct (decide (n < (idr_alloc v m).1)) as [Hlt'|]; [|lia].
    assert (is_Some (idr_find n m)) as Hs by (apply H2; lia). apply Hm in Hs. lia.
Qed.

Lemma entries_unique m l :
  StronglySorted (fun x y => x.1 < y.1) l ->
  (forall i v, (i, v) ∈ l <-> idr_find i m = Some v) -> idr_entries m = l.
Proof using.
  intros Hs Hl. apply (StronglySorted_unique_strong (fun x y => x.1 < y.1)).
  - intros x y _ _ H1 H2. lia.
  - apply idr_entries_sorted.
  - done.
  - assert (forall k : list (Z * bytes), StronglySorted (fun x y => x.1 < y.1) k -> NoDup k) as Hnd.
    { induction 1 as [|x k _ IH Hf]; constructor; [|done].
      intros Hin. eapply Forall_forall in Hf; [|exact Hin]. lia. }
    apply NoDup_Permutation; [apply Hnd, idr_entries_sorted|exact (Hnd _ Hs)|].
    intros [i v]. by rewrite idr_entries_find, Hl.
Qed.

Lemma remove_all_find l m i :
  idr_find i (foldl (fun m '(id, ptr) => deleter id ptr m) m l) =
    if decide (i ∈ l.*1) then None else idr_find i m.
Proof using.
  revert m. induction l as [|[j p] l IH]; intros m; [done|]. simpl.
  rewrite IH. unfold deleter. rewrite idr_find_remove.
  assert (i ∈ j :: l.*1 <-> i = j \/ i ∈ l.*1) as Hiff by apply elem_of_cons.
  repeat case_decide; try done; exfalso; tauto.
Qed.

(** With memory for both, the two fruits get the IDs 0 and 1, the first is found
    again, and both are shown in order; without any, the lookup of an error
    number finds nothing.  Unloading leaves an empty map, whatever was in it. *)
Theorem idr_module_spec :
  (mod_init true true).1 =
    [Reserved 0 1; Find 0 (str "apple"); Data (str "hello"); Key_value 0 (str "apple");
     Data (str "hello"); Key_value 1 (str "banana")] /\
  (mod_init false false).1 = [Reserved (-12) (-12); Find (-12) (str "not found")] /\
  forall map, idr_entries (mod_exit map) = [].
Proof using.
  split_and!.
  - unfold mod_init, alloc.
    destruct (idr_alloc ptr1 idr_init) as [id0 m1] eqn:E0.
    destruct (idr_alloc ptr2 m1) as [id1 m2] eqn:E1.
    pose proof (alloc_next ptr1 idr_init 0 ltac:(lia)) as A0. rewrite E0 in A0.
    assert (id0 = 0) as ->.
    { apply A0. intros i. rewrite idr_find_init. split; [by intros []|lia]. }
    assert (forall i, idr_find i m1 = if decide (i = 0) then Some ptr1 else None) as F1.
    { intros i. pose proof (idr_find_alloc ptr1 idr_init i) as F. rewrite E0 in F. simpl in F.
      by rewrite F, idr_find_init. }
    pose proof (alloc_next ptr2 m1 1 ltac:(lia)) as A1. rewrite E1 in A1.
    assert (id1 = 1) as ->.
    { apply A1. intros i. rewrite F1. case_decide; split; try done; try lia. }
    assert (forall i, idr_find i m2 =
      if decide (i = 1) then Some ptr2 else if decide (i = 0) then Some ptr1 else None) as F2.
    { intros i. pose proof (idr_find_alloc ptr2 m1 i) as F. rewrite E1 in F. simpl in F.
      by rewrite F, F1. }
    rewrite (entries_unique m2 [(0, ptr1); (1, ptr2)]).
    + simpl. by rewrite F2.
    + repeat constructor.
    + intros i v. rewrite F2. repeat case_decide; set_solver.
  - unfold mod_init, alloc. rewrite (entries_unique idr_init []); [simpl|constructor|].
    + by rewrite idr_find_init.
    + intros i v. rewrite idr_find_init. split; [by intros ?%not_elem_of_nil|done].
  - intros map. apply entries_unique; [constructor|]. intros i v. unfold mod_exit.
    rewrite remove_all_find. split; [by intros ?%not_elem_of_nil|].
    case_decide as Hi; [done|]. intros Hf%idr_entries_find. destruct Hi.
    apply list_elem_of_fmap. by exists (i, v).
Qed.
End module.

(** ** An implementation

    Entries in the order of their IDs. *)
Section sorted_idr.
Context {V : Type}.

Fixpoint assoc (i : Z) (l : list (Z * V)) : option V :=
  match l with
  | [] => None
  | (j, v) :: l' => if decide (i = j) then Some v else assoc i l'
  end.

(** [v] at the lowest free ID that is at least [i]; the ID and the entries. *)
Fixpoint insert_lowest (i : Z) (v : V) (l : list (Z * V)) : Z * list (Z * V) :=
  match l with
  | [] => (i, [(i, v)])
  | (j, x) :: l' =>
      if decide (i = j) then
        let '(k, r) := insert_lowest (i + 1) v l' in (k, (j, x) :: r)
      else (i, (i, v) :: l)
  end.

Fixpoint remove_id (i : Z) (l : list (Z * V)) : list (Z * V) :=
  match l with
  | [] => []
  | (j, x) :: l' => if decide (i = j) then remove_id i l' else (j, x) :: remove_id i l'
  end.

(** Sorted, from [b] on. *)
Fixpoint sorted_from (b : Z) (l : list (Z * V)) : Prop :=
  match l with
  | [] => True
  | (j, _) :: l' => b <= j /\ sorted_from (j + 1) l'
  end.

Lemma sorted_from_le b b' l : b' <= b -> sorted_from b l -> sorted_from b' l.
Proof. destruct l as [|[j x] l]; simpl; [done|]. intros ? [??]. split; [lia|done]. Qed.

Lemma assoc_below b l i : sorted_from b l -> i < b -> assoc i l = None.
Proof.
  revert b. induction l as [|[j x] l IH]; intros b; simpl; [done|]. intros [Hj Hl] Hi.
  rewrite decide_False by lia. apply (IH (j + 1)); [done|lia].
Qed.

Lemma assoc_elem b l i v : sorted_from b l -> (i, v) ∈ l <-> assoc i l = Some v.
Proof.
  revert b. induction l as [|[j x] l IH]; intros b; simpl.
  { intros _. split; [by intros ?%not_elem_of_nil|done]. }
  intros [_ Hl]. rewrite elem_of_cons, (IH _ Hl). case_decide as E.
  - subst. rewrite (assoc_below _ _ _ Hl) by lia. split; [by intros [[=]|]; subst|].
    intros [= ->]. by left.
  - split; [by intros [[=]|]|by right].
Qed.

Lemma sorted_from_strongly b l :
  sorted_from b l -> StronglySorted (fun x y => x.1 < y.1) l.
Proof.
  assert (forall b l, sorted_from b l -> Forall (fun y : Z * V => b <= y.1) l) as Hf.
  { clear. intros b l. revert b. induction l as [|[j x] l IH]; intros b; simpl; [constructor|].
    intros [Hj Hl]. constructor; [done|]. eapply Forall_impl; [by apply IH|].
    intros y Hy. simpl in Hy. lia. }
  revert b. induction l as [|[j x] l IH]; intros b; simpl; [constructor|]. intros [_ Hl].
  constructor; [by eapply IH|]. eapply Forall_impl; [by apply Hf|]. intros y Hy. simpl in *. lia.
Qed.

Lemma insert_lowest_spec v l i :
  sorted_from i l ->
  i <= (insert_lowest i v l).1 /\ assoc (insert_lowest i v l).1 l = None /\
  sorted_from i (insert_lowest i v l).2 /\
  (forall j, i <= j < (insert_lowest i v l).1 -> is_Some (assoc j l)) /\
  (forall j, assoc j (insert_lowest i v l).2 =
     if decide (j = (insert_lowest i v l).1) then Some v else assoc j l).
Proof.
  revert i. induction l as [|[k x] l IH]; intros i; simpl.
  { intros _. split_and!; try done; lia. }
  intros [Hk Hl]. destruct (decide (i = k)) as [->|Hne].
  - destruct (IH _ Hl) as (H1 & H2 & H3 & H4 & H5).
    destruct (insert_lowest (k + 1) v l) as [n r]. simpl in *.
    split_and!; [lia|by rewrite decide_False by lia|lia|done| |].
    + intros j Hj. case_decide; [by eexists|]. apply H4. lia.
    + intros j. rewrite H5. repeat case_decide; try done; lia.
  - simpl. rewrite decide_False by done.
    split_and!; [lia|by apply (assoc_below (k + 1)); [|lia]|lia|lia|done|lia|done].
Qed.

Lemma remove_id_spec b i l :
  sorted_from b l -> sorted_from b (remove_id i l) /\
  forall j, assoc j (remove_id i l) = if decide (j = i) then None else assoc j l.
Proof.
  revert b. induction l as [|[k x] l IH]; intros b; simpl.
  { intros _. split; [done|]. intros j. by case_decide. }
  intros [Hk Hl]. destruct (IH _ Hl) as [H1 H2]. case_decide as E.
  - subst. split; [by apply (sorted_from_le (k + 1)); [lia|]|].
    intros j. rewrite H2. by repeat case_decide.
  - split; [done|]. intros j. simpl. rewrite H2. repeat case_decide; congruence.
Qed.

Definition sorted_idr : IdrMap V.
Proof using V.
  refine {|
    idr := { l : list (Z * V) | sorted_from 0 l };
    idr_init := exist _ [] I;
    idr_alloc := fun v m => ((insert_lowest 0 v (`m)).1,
      exist _ (insert_lowest 0 v (`m)).2
        (proj1 (proj2 (proj2 (insert_lowest_spec v (`m) 0 (proj2_sig m))))));
    idr_find := fun i m => assoc i (`m);
    idr_remove := fun i m => exist _ (remove_id i (`m)) (proj1 (remove_id_spec 0 i (`m) (proj2_sig m)));
    idr_entries := fun m => `m;
  |}.
  - done.
  - intros v [l Hl] i. destruct (insert_lowest_spec v l 0 Hl) as (? & ? & _ & H & _).
    split_and!; try done. apply H.
  - intros v [l Hl]. apply (insert_lowest_spec v l 0 Hl).
  - intros i [l Hl]. apply (remove_id_spec 0 i l Hl).
  - intros [l Hl] i v. by apply (assoc_elem 0).
  - intros [l Hl]. by apply (sorted_from_strongly 0).
Defined.
End sorted_idr.

Lemma idr_module_spec_witness :
  exists I : IdrMap bytes, (mod_init (I := I) true true).1 =
    [Reserved 0 1; Find 0 (str "apple"); Data (str "hello"); Key_value 0 (str "apple");
     Data (str "hello"); Key_value 1 (str "banana")].
Proof. exists sorted_idr. exact (proj1 (idr_module_spec (I := sorted_idr))). Defined.
