(* ===== verification/WakeUp.v ===== *)
(** * Waking a task up ([wake_up/simple.c])

    Loading puts an entry on its stack into the wait queue and sleeps; a thread
    wakes the queue.  The two, the clock and unloading interleave. *)

From S2P Require Export Steps.

Inductive init_pc :=
  | I_create | I_print | I_add | I_old | I_wake | I_sleep | I_asleep | I_timeout | I_returned.
Inductive waker_pc := K_new | K_pid | K_state | K_wake | K_after | K_done.

Record wstate := mk_wstate {
  ini : init_pc;
  waker : waker_pc;
  entry : bool;             (* [data] is in the queue *)
  frame : bool;             (* the stack frame of [my_init] is there *)
  asleep : bool;
  gone : bool;
}.

Definition set_ini (p : init_pc) (s : wstate) : wstate :=
  mk_wstate p (waker s) (entry s) (frame s) (asleep s) (gone s).
Definition set_waker (p : waker_pc) (s : wstate) : wstate :=
  mk_wstate (ini s) p (entry s) (frame s) (asleep s) (gone s).
Definition set_asleep (b : bool) (s : wstate) : wstate :=
  mk_wstate (ini s) (waker s) (entry s) (frame s) b (gone s).

Section wake_up.
Context (create_ok : bool).

(** [result->pid] is printed whether there is a thread or not; nothing takes the
    entry out of the queue. *)
Definition my_init (s : wstate) : fault + wstate :=
  match ini s with
  | I_create => inr (set_ini I_print s)
  | I_print => if create_ok then inr (set_ini I_add s) else inl BadPointer
  | I_add => inr (mk_wstate I_old (waker s) true (frame s) (asleep s) (gone s))
  | I_old => inr (set_ini I_wake s)
  | I_wake => inr (set_waker K_pid (set_ini I_sleep s))
  | I_sleep => inr (set_asleep true (set_ini I_asleep s))
  | I_asleep => inr (if asleep s then s else set_ini I_timeout s)
  | I_timeout => inr (mk_wstate I_returned (waker s) (entry s) false (asleep s) (gone s))
  | I_returned => inr s
  end.

(** [__wake_up] goes through the entries of the queue. *)
Definition wake_up_queue (s : wstate) : fault + wstate :=
  if entry s then if frame s then inr (set_asleep false s) else inl UseAfterFree else inr s.

Definition func_weakup (s : wstate) : fault + wstate :=
  match waker s with
  | K_new | K_done => inr s
  | pc =>
      if gone s then inl UnloadedCode else
      match pc with
      | K_pid => inr (set_waker K_state s)
      | K_state => inr (set_waker K_wake s)
      | K_wake => s' ← wake_up_queue s; inr (set_waker K_after s')
      | _ => inr (set_waker K_done s)
      end
  end.

(** After three thousand ticks the sleep ends by itself. *)
Definition clock (s : wstate) : wstate := set_asleep false s.

(** Unloading does nothing, and waits for nothing. *)
Definition my_exit (s : wstate) : wstate :=
  match ini s with
  | I_returned => mk_wstate I_returned (waker s) (entry s) (frame s) (asleep s) true
  | _ => s
  end.

Inductive wtask := T_init | T_waker | T_clock | T_exit.

Definition wstep (t : wtask) (s : wstate) : fault + wstate :=
  match t with
  | T_init => my_init s
  | T_waker => func_weakup s
  | T_clock => inr (clock s)
  | T_exit => inr (my_exit s)
  end.
End wake_up.

Definition wstart : wstate := mk_wstate I_create K_new false true false false.

(** Until the clock fires or the module is unloaded, [my_init] goes on only after
    the thread has been through the queue. *)
Definition started (p : init_pc) : bool :=
  match p with I_sleep | I_asleep | I_timeout | I_returned => true | _ => false end.
Definition late (p : init_pc) : bool :=
  match p with I_timeout | I_returned => true | _ => false end.
Definition has_woken (p : waker_pc) : bool := match p with K_after | K_done => true | _ => false end.

Definition winv (s : wstate) : bool :=
  negb (gone s) &&
  (match ini s with I_returned => true | _ => frame s end) &&
  (match waker s with K_new => negb (started (ini s)) | _ => started (ini s) end) &&
  (if late (ini s) then has_woken (waker s) else true) &&
  (match ini s with I_asleep => asleep s || has_woken (waker s) | _ => true end).

Definition before_deadline (t : wtask) : Prop := t = T_init \/ t = T_waker.

Lemma wstep_inv t s :
  before_deadline t -> winv s = true -> exists s', wstep true t s = inr s' /\ winv s' = true.
Proof.
  intros Ht. destruct s as [i k e f a g], g; [done|].
  destruct Ht as [-> | ->]; destruct i, k, f; try discriminate; destruct e, a; intros H;
    first [discriminate H | eexists; split; reflexivity].
Qed.

(** While the clock does not fire and the module stays loaded, no interleaving of
    loading with the thread faults, and loading returns only when the thread is
    done with the queue. *)
Theorem wake_up_safe sched :
  Forall before_deadline sched ->
  exists s, steps (wstep true) sched wstart = inr s /\
    (ini s = I_returned -> waker s = K_after \/ waker s = K_done).
Proof.
  intros Hs. destruct (steps_inv (wstep true) before_deadline (fun s => winv s = true) wstep_inv
    sched wstart Hs eq_refl) as (s & Hr & Hinv).
  exists s. split; [done|]. intros Hi. unfold winv in Hinv. rewrite Hi in Hinv.
  destruct (waker s); rewrite ?andb_false_r in Hinv; auto; simpl in Hinv; discriminate.
Qed.

(** Otherwise: the thread may run before the sleep begins, and then only the clock
    ends it; if the clock fires first the thread follows an entry on a stack
    that is gone; the module may be gone before the thread is done; and an
    error pointer for the thread is followed. *)
Theorem wake_up_races :
  (exists sched s, Forall before_deadline sched /\ steps (wstep true) sched wstart = inr s /\
     ini s = I_asleep /\ waker s = K_done /\ asleep s = true) /\
  steps (wstep true) (replicate 6 T_init ++ [T_clock] ++ replicate 2 T_init ++ replicate 3 T_waker)
    wstart = inl UseAfterFree /\
  steps (wstep true) (replicate 6 T_init ++ replicate 3 T_waker ++ replicate 2 T_init ++
    [T_exit; T_waker]) wstart = inl UnloadedCode /\
  steps (wstep false) (replicate 2 T_init) wstart = inl BadPointer.
Proof.
  split_and!; try reflexivity.
  eexists (replicate 5 T_init ++ replicate 4 T_waker ++ [T_init]), _.
  split; [repeat (constructor; [unfold before_deadline; auto|]); constructor|].
  by split; [reflexivity|].
Qed.

Lemma wake_up_safe_witness :
  exists s, steps (wstep true) [T_init; T_waker; T_init] wstart = inr s.
Proof.
  destruct (wake_up_safe [T_init; T_waker; T_init]) as (s & H & _).
  - constructor; [left; reflexivity|]. constructor; [right; reflexivity|].
    constructor; [left; reflexivity|]. constructor.
  - exists s. exact H.
Defined.
