(* ===== verification/Pernet.v ===== *)
(** * A datum per network namespace ([pernet/simple.c])

    The kernel calls [my_ns_init] for every namespace there is when the module is
    loaded and for every one made later, and [my_ns_exit] when a namespace or
    the module goes, each on the namespace's own zeroed [ns_data]; [step] is what
    happens to the module and its data, [run] a history of it. *)

From S2P Require Export Steps Bytes.

(** [struct ns_data] *)
Definition ns_data_size : nat := 0x10.
Definition ns_data_zero : bytes := replicate ns_data_size 0.

(** [strcpy(data->message, "hello")] *)
Definition my_ns_init (data : bytes) : fault + (Z * bytes) :=
  match store 0 (str "hello" ++ [0]) data with
  | Some d => inr (0, d)
  | None => inl OutOfBounds
  end.

(** The text printed. *)
Definition my_ns_exit (data : bytes) : fault + bytes :=
  if decide (0 ∈ data) then inr (str "message: " ++ until_nul data ++ [10]) else inl OutOfBounds.

(** Whether the module is loaded, the namespaces, and their data while it is. *)
Record pernet := mk_pernet { loaded : bool; live : gset nat; chunks : gmap nat bytes;
                             printed : list (nat * bytes) }.

Inductive event := Load | Unload | New_ns (n : nat) | Del_ns (n : nat).

Definition init_ns (n : nat) (s : pernet) : fault + pernet :=
  '(_, d) ← my_ns_init ns_data_zero;
  inr (mk_pernet (loaded s) (live s) (<[n := d]> (chunks s)) (printed s)).
Definition exit_ns (n : nat) (s : pernet) : fault + pernet :=
  match chunks s !! n with
  | None => inl NullDeref
  | Some d =>
      t ← my_ns_exit d;
      inr (mk_pernet (loaded s) (live s) (delete n (chunks s)) ((n, t) :: printed s))
  end.

Fixpoint for_each (f : nat -> pernet -> fault + pernet) (l : list nat) (s : pernet)
    : fault + pernet :=
  match l with
  | [] => inr s
  | n :: l' => s' ← f n s; for_each f l' s'
  end.

Definition set_loaded (b : bool) (s : pernet) : pernet :=
  mk_pernet b (live s) (chunks s) (printed s).
Definition set_live (l : gset nat) (s : pernet) : pernet :=
  mk_pernet (loaded s) l (chunks s) (printed s).

Definition step (ev : event) (s : pernet) : fault + pernet :=
  match ev with
  | Load =>
      if loaded s then inr s else
      for_each init_ns (elements (live s)) (set_loaded true s)
  | Unload =>
      if loaded s then
        s' ← for_each exit_ns (elements (live s)) s; inr (set_loaded false s')
      else inr s
  | New_ns n =>
      if decide (n ∈ live s) then inr s else
      let s := set_live ({[ n ]} ∪ live s) s in
      if loaded s then init_ns n s else inr s
  | Del_ns n =>
      if decide (n ∈ live s) then
        s' ← if loaded s then exit_ns n s else inr s;
        inr (set_live (live s' ∖ {[ n ]}) s')
      else inr s
  end.

Definition start : pernet := mk_pernet false ∅ ∅ [].

(** *** Invariant *)

Definition hello : bytes := char_array ns_data_size (str "hello").
Definition hello_line : bytes := str "message: hello" ++ [10].

(** The data of [D] are set, and only the right line has been printed. *)
Definition data_ok (D : gset nat) (s : pernet) : Prop :=
  dom (chunks s) = D /\ (forall n d, chunks s !! n = Some d -> d = hello) /\
  Forall (fun l => l.2 = hello_line) (printed s).

Definition pinv (s : pernet) : Prop := data_ok (if loaded s then live s else ∅) s.

Lemma init_ns_ok D n s :
  data_ok D s -> exists s', init_ns n s = inr s' /\ data_ok ({[ n ]} ∪ D) s' /\
    loaded s' = loaded s /\ live s' = live s.
Proof.
  intros (H1 & H2 & H3).
  exists (mk_pernet (loaded s) (live s) (<[n := hello]> (chunks s)) (printed s)).
  split; [reflexivity|]. split; [|done]. split; [|split]; try done.
  - cbn [chunks]. rewrite dom_insert_L. by rewrite H1.
  - intros m d. cbn [chunks]. rewrite lookup_insert_Some. intros [[_ <-]|[_ Hm]]; [done|by eapply H2].
Qed.

Lemma exit_ns_ok D n s :
  n ∈ D -> data_ok D s -> exists s', exit_ns n s = inr s' /\ data_ok (D ∖ {[ n ]}) s' /\
    loaded s' = loaded s /\ live s' = live s.
Proof.
  intros Hn (H1 & H2 & H3). unfold exit_ns.
  assert (is_Some (chunks s !! n)) as [d Hd] by (apply elem_of_dom; by rewrite H1).
  rewrite Hd. rewrite (H2 _ _ Hd). eexists. split; [reflexivity|]. split; [|done].
  split; [|split]; cbn [chunks printed]; try done.
  - by rewrite dom_delete_L, H1.
  - intros m d' [_ Hm]%lookup_delete_Some. by eapply H2.
  - by constructor.
Qed.

Lemma for_each_init_ok l D s :
  data_ok D s -> exists s', for_each init_ns l s = inr s' /\ data_ok (list_to_set l ∪ D) s' /\
    loaded s' = loaded s /\ live s' = live s.
Proof.
  revert D s. induction l as [|n l IH]; intros D s H; cbn [for_each].
  { exists s. split_and!; try done. by rewrite list_to_set_nil, (left_id_L ∅ (∪)). }
  destruct (init_ns_ok D n s H) as (s1 & -> & H1 & E1 & E2). cbn [mbind fault_bind].
  destruct (IH _ _ H1) as (s2 & -> & H2 & E3 & E4). exists s2.
  split_and!; [done| |congruence|congruence].
  rewrite list_to_set_cons.
  by replace ({[n]} ∪ list_to_set l ∪ D) with (list_to_set l ∪ ({[n]} ∪ D)) by set_solver.
Qed.

Lemma for_each_exit_ok l D s :
  NoDup l -> (forall n, n ∈ l -> n ∈ D) -> data_ok D s ->
  exists s', for_each exit_ns l s = inr s' /\ data_ok (D ∖ list_to_set l) s' /\
    loaded s' = loaded s /\ live s' = live s.
Proof.
  revert D s. induction l as [|n l IH]; intros D s Hnd Hl H; cbn [for_each].
  { exists s. split_and!; try done. by rewrite list_to_set_nil, difference_empty_L. }
  apply NoDup_cons in Hnd as [Hn Hnd].
  destruct (exit_ns_ok D n s (Hl n ltac:(left)) H) as (s1 & -> & H1 & E1 & E2). cbn [mbind fault_bind].
  destruct (IH (D ∖ {[ n ]}) s1 Hnd) as (s2 & -> & H2 & E3 & E4); [|done|].
  { intros m Hm. apply elem_of_difference. split; [apply Hl; by right|].
    intros ->%elem_of_singleton. done. }
  exists s2. split_and!; [done| |congruence|congruence].
  rewrite list_to_set_cons.
  by replace (D ∖ ({[n]} ∪ list_to_set l)) with (D ∖ {[n]} ∖ list_to_set l) by set_solver.
Qed.

Lemma step_pinv ev s : pinv s -> exists s', step ev s = inr s' /\ pinv s'.
Proof.
  intros H. unfold pinv in *. destruct ev as [| |n|n]; simpl.
  - destruct (loaded s) eqn:El; [exists s; by rewrite El|].
    destruct (for_each_init_ok (elements (live s)) ∅ (set_loaded true s) H)
      as (s' & Hs & H' & E1 & E2). exists s'. split; [done|]. rewrite E1, E2. simpl.
    by rewrite list_to_set_elements_L, (right_id_L ∅ (∪)) in H'.
  - destruct (loaded s) eqn:El; [|exists s; by rewrite El].
    destruct (for_each_exit_ok (elements (live s)) (live s) s) as (s' & -> & H' & E1 & E2);
      [apply NoDup_elements|intros n; by rewrite elem_of_elements|done|].
    eexists. split; [reflexivity|]. simpl.
    by rewrite list_to_set_elements_L, difference_diag_L in H'.
  - case_decide as Hn; [by exists s|]. destruct (loaded s) eqn:El.
    + destruct (init_ns_ok (live s) n (set_live ({[ n ]} ∪ live s) s) H) as (s' & Hs & H' & E1 & E2).
      exists s'. split; [done|]. rewrite E1, E2. simpl. by rewrite El.
    + eexists. split; [reflexivity|]. simpl. by rewrite El.
  - case_decide as Hn; [|by exists s]. destruct (loaded s) eqn:El.
    + destruct (exit_ns_ok (live s) n s Hn H) as (s' & -> & H' & E1 & E2).
      eexists. split; [reflexivity|]. simpl. by rewrite E1, E2, El.
    + eexists. split; [reflexivity|]. simpl. by rewrite El.
Qed.

(** However namespaces come and go and the module is loaded and unloaded: no
    fault, every namespace has its message while the module is loaded and none
    otherwise, and every line printed is the message. *)
Theorem pernet_safe evs :
  exists s, steps step evs start = inr s /\
    (forall n, chunks s !! n = if loaded s then (if decide (n ∈ live s) then Some hello else None)
                               else None) /\
    Forall (fun l => l.2 = hello_line) (printed s).
Proof.
  destruct (steps_inv step (fun _ => True) pinv (fun ev s _ => step_pinv ev s) evs start)
    as (s & Hs & H1 & H2 & H3); [by apply Forall_forall|by split_and!|].
  exists s. split_and!; [done| |done]. intros n.
  destruct (chunks s !! n) as [d|] eqn:E.
  - rewrite (H2 _ _ E). assert (n ∈ dom (chunks s)) as Hn by (by apply elem_of_dom; eexists).
    rewrite H1 in Hn. destruct (loaded s); [by rewrite decide_True|set_solver].
  - apply not_elem_of_dom in E. rewrite H1 in E. destruct (loaded s); [by rewrite decide_False|done].
Qed.

(** Every namespace that goes while the module is loaded, or is there when it
    goes, prints its line once. *)
Example two_namespaces :
  (printed <$> (match steps step [New_ns 1; Load; New_ns 2; Del_ns 1; Unload] start with
                | inr s => Some s | inl _ => None end)) =
    Some [(2%nat, hello_line); (1%nat, hello_line)].
Proof. vm_compute. reflexivity. Qed.
