(* ===== verification/ProcessList.v ===== *)
(** * The processes and their children ([process_list/simple.c])

    Loading prints each process of the task list and below it its children; the
    lists are those the kernel has at that moment. *)

From S2P Require Export Bytes.

Record task_struct := mk_task { pid : Z; comm : bytes; state : Z }.

(** A process with the tasks linked in its [children]. *)
Record process := mk_process { task : task_struct; children : list task_struct }.

Inductive line :=
  | Parent (pid : Z) (comm : bytes) (state : Z)
  | Child_of (parent : bytes) (ppid pid : Z) (comm : bytes) (state : Z).

Definition print_child (t c : task_struct) : line :=
  Child_of (comm t) (pid t) (pid c) (comm c) (state c).

(** [list_for_each(list, &task->children)] *)
Fixpoint iterate_children (t : task_struct) (l : list task_struct) : list line :=
  match l with
  | [] => []
  | c :: l' => print_child t c :: iterate_children t l'
  end.

(** [for_each_process(task)]; the result of loading is 0. *)
Fixpoint iterate_loop (l : list process) : list line :=
  match l with
  | [] => []
  | p :: l' =>
      Parent (pid (task p)) (comm (task p)) (state (task p)) ::
      iterate_children (task p) (children p) ++ iterate_loop l'
  end.
Definition iterate_init (l : list process) : Z * list line := (0, iterate_loop l).

(** What the lines say. *)
Definition parent_line (x : line) : option task_struct :=
  match x with Parent p c s => Some (mk_task p c s) | _ => None end.
Definition child_line (x : line) : option (Z * Z) :=
  match x with Child_of _ pp p _ _ => Some (pp, p) | _ => None end.

Lemma iterate_children_lines t l :
  omap parent_line (iterate_children t l) = [] /\
  omap child_line (iterate_children t l) = (fun c => (pid t, pid c)) <$> l.
Proof. induction l as [|c l [IH1 IH2]]; [done|].
  split; simpl; [exact IH1|f_equal; exact IH2]. Qed.

(** Each process is printed once as a process, in the order of the list, and the
    other lines are the pairs of a process and one of its children, each once,
    in order. *)
Theorem process_lines (l : list process) :
  omap parent_line (iterate_init l).2 = task <$> l /\
  omap child_line (iterate_init l).2 =
    mjoin ((fun p => (fun c => (pid (task p), pid c)) <$> children p) <$> l).
Proof.
  unfold iterate_init. cbn [snd]. induction l as [|[[p c s] cs] l [IH1 IH2]]; [done|].
  destruct (iterate_children_lines (mk_task p c s) cs) as [H1 H2]. split; simpl.
  - f_equal. etrans; [apply omap_app|]. by rewrite H1.
  - etrans; [apply omap_app|]. by rewrite H2, IH2.
Qed.
