(* ===== verification/ProcessWalk.v ===== *)
(** * The walk over the processes, step by step ([process_list/simple.c])

    [iterate_init] holds neither the lock of the task list nor an RCU read-side
    critical section, so tasks may start and end between any two of its
    accesses or change their name and state, and a task that ends may be freed
    at once.  Left alone the walk
    prints what [ProcessList] says; a task that ends under it is read after it
    has been freed. *)

From stdpp Require Export gmap.
From S2P Require Export Steps ProcessList.

#[local] Open Scope Z_scope.

(** The kernel's lists: the tasks after [init_task], in order; the children of
    each; the tasks that exist. *)
Record kernel := mk_kernel {
  tasks : list nat;
  kids : gmap nat (list nat);
  info : gmap nat task_struct;
}.

Definition kids_of (k : kernel) (p : nat) : list nat := default [] (kids k !! p).

(** What comes after [p] in a list; [None] is the head. *)
Fixpoint after (p : nat) (l : list nat) : option nat :=
  match l with
  | [] => None
  | q :: l' => if decide (p = q) then head l' else after p l'
  end.

(** [W_next p]: at [next_task(p)], where [None] is [init_task]; [W_at]: at the
    first [printk]; [W_first]: at [task->children.next]; [W_child]: at the second
    [printk]; [W_next_child]: at [list->next]. *)
Inductive walk_pc :=
  | W_next (p : option nat)
  | W_at (p : nat)
  | W_first (p : nat)
  | W_child (p c : nat)
  | W_next_child (p c : nat)
  | W_done.

(** [printed]: the lines so far, newest first. *)
Record walk_state := mk_walk { kern : kernel; pc : walk_pc; printed : list line }.

(** Reading a task that does not exist any more. *)
Definition read_task (k : kernel) (p : nat) : fault + task_struct :=
  match info k !! p with Some t => inr t | None => inl UseAfterFree end.

Definition next_task (k : kernel) (p : option nat) : fault + option nat :=
  match p with
  | None => inr (head (tasks k))
  | Some p => _ ← read_task k p; inr (after p (tasks k))
  end.

Definition child_cursor (p : nat) (c : option nat) : walk_pc :=
  match c with Some c => W_child p c | None => W_next (Some p) end.

Definition iterate_step (s : walk_state) : fault + walk_state :=
  let k := kern s in
  match pc s with
  | W_next p =>
      q ← next_task k p;
      inr (mk_walk k (match q with Some q => W_at q | None => W_done end) (printed s))
  | W_at p =>
      t ← read_task k p;
      inr (mk_walk k (W_first p) (Parent (pid t) (comm t) (state t) :: printed s))
  | W_first p =>
      _ ← read_task k p;
      inr (mk_walk k (child_cursor p (head (kids_of k p))) (printed s))
  | W_child p c =>
      t ← read_task k p;
      u ← read_task k c;
      inr (mk_walk k (W_next_child p c) (print_child t u :: printed s))
  | W_next_child p c =>
      _ ← read_task k c;
      inr (mk_walk k (child_cursor p (after c (kids_of k p))) (printed s))
  | W_done => inr s
  end.

(** A task ends: it leaves the lists and is freed.  (Its children go to another
    task.) *)
Definition exit_task (p reaper : nat) (k : kernel) : kernel :=
  let del := filter (fun q => q <> p) in
  mk_kernel (del (tasks k))
    (<[reaper := del (kids_of k reaper) ++ kids_of k p]> (delete p (del <$> kids k)))
    (delete p (info k)).

(** A task starts: last of the list and of its parent's children. *)
Definition fork_task (parent p : nat) (t : task_struct) (k : kernel) : kernel :=
  mk_kernel (tasks k ++ [p]) (<[parent := kids_of k parent ++ [p]]> (kids k)) (<[p := t]> (info k)).

(** A task blocks, wakes up or is renamed. *)
Definition change_task (p : nat) (comm : bytes) (state : Z) (k : kernel) : kernel :=
  mk_kernel (tasks k) (kids k) (alter (fun t => mk_task (pid t) comm state) p (info k)).

Inductive walk_task :=
  | T_walk
  | T_exit (p reaper : nat)
  | T_fork (parent p : nat) (t : task_struct)
  | T_change (p : nat) (comm : bytes) (state : Z).

Definition walk_step (t : walk_task) (s : walk_state) : fault + walk_state :=
  match t with
  | T_walk => iterate_step s
  | T_exit p r => inr (mk_walk (exit_task p r (kern s)) (pc s) (printed s))
  | T_fork r p t => inr (mk_walk (fork_task r p t (kern s)) (pc s) (printed s))
  | T_change p c x => inr (mk_walk (change_task p c x (kern s)) (pc s) (printed s))
  end.

Abbreviation wrun := (steps walk_step).

Definition walk_start (k : kernel) : walk_state := mk_walk k (W_next None) [].

(** ** The lists of a moment *)

Definition task_of (k : kernel) (p : nat) : task_struct := default (mk_task 0 [] 0) (info k !! p).
Definition snapshot (k : kernel) : list process :=
  (fun p => mk_process (task_of k p) (task_of k <$> kids_of k p)) <$> tasks k.

(** The lists have no repetitions and hold tasks that exist. *)
Record kernel_wf (k : kernel) : Prop := {
  kw_tasks : NoDup (tasks k) /\ Forall (fun p => is_Some (info k !! p)) (tasks k);
  kw_kids : forall p, NoDup (kids_of k p) /\ Forall (fun c => is_Some (info k !! c)) (kids_of k p);
}.

Lemma after_app p l1 l2 : NoDup (l1 ++ p :: l2) -> after p (l1 ++ p :: l2) = head l2.
Proof.
  induction l1 as [|q l1 IH]; simpl; intros Hn.
  - by rewrite decide_True.
  - apply NoDup_cons in Hn as [Hq Hn]. rewrite decide_False; [by apply IH|].
    intros ->. apply Hq. rewrite elem_of_app. right. left.
Qed.

Lemma read_task_of k p : is_Some (info k !! p) -> read_task k p = inr (task_of k p).
Proof. intros [t E]. unfold read_task, task_of. by rewrite E. Qed.

#[local] Arguments read_task : simpl never.

Section quiet.
Context (k : kernel) (Hk : kernel_wf k).

Abbreviation walks n c l := (wrun (replicate n T_walk) (mk_walk k c l)).

Lemma walks_add n m c l c' l' :
  walks n c l = inr (mk_walk k c' l') -> walks (n + m) c l = walks m c' l'.
Proof using. intros H. by rewrite replicate_add, steps_app, H. Qed.

(** The steps at tasks that exist. *)
Lemma step_at p l : is_Some (info k !! p) ->
  iterate_step (mk_walk k (W_at p) l) = inr (mk_walk k (W_first p)
    (Parent (pid (task_of k p)) (comm (task_of k p)) (state (task_of k p)) :: l)).
Proof using. intros H. unfold iterate_step. simpl. by rewrite read_task_of. Qed.
Lemma step_first p l : is_Some (info k !! p) ->
  iterate_step (mk_walk k (W_first p) l) = inr (mk_walk k (child_cursor p (head (kids_of k p))) l).
Proof using. intros H. unfold iterate_step. simpl. by rewrite read_task_of. Qed.
Lemma step_child p c l : is_Some (info k !! p) -> is_Some (info k !! c) ->
  iterate_step (mk_walk k (W_child p c) l) =
    inr (mk_walk k (W_next_child p c) (print_child (task_of k p) (task_of k c) :: l)).
Proof using.
  intros H Hc. unfold iterate_step. simpl. rewrite read_task_of by done. simpl.
  by rewrite read_task_of.
Qed.
Lemma step_next_child p c l : is_Some (info k !! c) ->
  iterate_step (mk_walk k (W_next_child p c) l) =
    inr (mk_walk k (child_cursor p (after c (kids_of k p))) l).
Proof using. intros H. unfold iterate_step. simpl. by rewrite read_task_of. Qed.
Lemma step_next p l : is_Some (info k !! p) ->
  iterate_step (mk_walk k (W_next (Some p)) l) =
    inr (mk_walk k (match after p (tasks k) with Some q => W_at q | None => W_done end) l).
Proof using. intros H. unfold iterate_step. simpl. by rewrite read_task_of. Qed.

(** From a child on, through the rest of the children. *)
Lemma walk_children p l1 l2 l :
  is_Some (info k !! p) -> kids_of k p = l1 ++ l2 ->
  walks (2 * length l2) (child_cursor p (head l2)) l =
    inr (mk_walk k (W_next (Some p))
      (reverse (iterate_children (task_of k p) (task_of k <$> l2)) ++ l)).
Proof using Hk.
  intros Hp. revert l1 l. induction l2 as [|c l2 IH]; intros l1 l E; [done|].
  destruct (kw_kids k Hk p) as [Hn Hi]. rewrite E in Hn, Hi.
  assert (is_Some (info k !! c)) as Hc.
  { rewrite Forall_forall in Hi. apply Hi, elem_of_app. right. left. }
  replace (2 * length (c :: l2))%nat with (2 + 2 * length l2)%nat by (simpl; lia).
  erewrite walks_add.
  2: { simpl. rewrite step_child by done. simpl. rewrite step_next_child by done. simpl.
       rewrite E, after_app by done. reflexivity. }
  rewrite (IH (l1 ++ [c])) by (by rewrite E, <- app_assoc).
  simpl. by rewrite reverse_cons, <- app_assoc.
Qed.

Lemma walk_from l1 l2 l :
  tasks k = l1 ++ l2 ->
  exists n, walks n (match head l2 with Some q => W_at q | None => W_done end) l =
    inr (mk_walk k W_done
      (reverse (iterate_loop ((fun p => mk_process (task_of k p) (task_of k <$> kids_of k p)) <$> l2))
        ++ l)).
Proof using Hk.
  revert l1 l. induction l2 as [|p l2 IH]; intros l1 l E; [by exists 0%nat|].
  destruct (kw_tasks k Hk) as [Hn Hi]. rewrite E in Hn, Hi.
  assert (is_Some (info k !! p)) as Hp.
  { rewrite Forall_forall in Hi. apply Hi, elem_of_app. right. left. }
  destruct (IH (l1 ++ [p])
    (reverse (iterate_children (task_of k p) (task_of k <$> kids_of k p)) ++
      Parent (pid (task_of k p)) (comm (task_of k p)) (state (task_of k p)) :: l)) as [n Hrun];
    [by rewrite E, <- app_assoc|].
  exists (2 + (2 * length (kids_of k p) + (1 + n)))%nat.
  erewrite walks_add.
  2: { simpl. rewrite step_at by done. simpl. rewrite step_first by done. reflexivity. }
  erewrite walks_add by (by apply (walk_children p [])).
  erewrite walks_add.
  2: { simpl. rewrite step_next by done. simpl. rewrite E, after_app by done. reflexivity. }
  rewrite Hrun. simpl. rewrite reverse_cons, reverse_app, <- !app_assoc. done.
Qed.
End quiet.

(** ** The theorems *)

(** C36: While no task starts, ends or changes its name or state, the walk comes
    to its end and has printed the lines of [iterate_init] for the lists as they
    are. *)
Theorem walk_prints_snapshot k :
  kernel_wf k ->
  exists n, wrun (replicate n T_walk) (walk_start k) =
    inr (mk_walk k W_done (reverse (iterate_init (snapshot k)).2)).
Proof.
  intros Hk. destruct (walk_from k Hk [] (tasks k) [] eq_refl) as [n Hn].
  exists (1 + n)%nat. rewrite app_nil_r in Hn. exact Hn.
Qed.

(** A task that ends while the walk is at it, or at one of its children, is used
    after it has been freed: between its line and its children, at the step to
    the next task, or as a child. *)
Theorem walk_races (t u : task_struct) :
  let k := mk_kernel [1; 2]%nat {[ 1%nat := [2%nat] ]} {[ 1%nat := t; 2%nat := u ]} in
  kernel_wf k /\
  wrun [T_walk; T_walk; T_exit 1 0; T_walk] (walk_start k) = inl UseAfterFree /\
  wrun [T_walk; T_walk; T_walk; T_exit 2 0; T_walk] (walk_start k) = inl UseAfterFree /\
  wrun [T_walk; T_exit 1 0; T_walk] (walk_start k) = inl UseAfterFree.
Proof.
  split_and!; [|reflexivity..]. split.
  - split; [apply (bool_decide_unpack _); reflexivity|]. repeat constructor; by eexists.
  - intros p. destruct (decide (p = 1%nat)) as [->|Hp].
    + split; [apply (bool_decide_unpack _); reflexivity|]. repeat constructor; by eexists.
    + unfold kids_of. simpl. rewrite lookup_singleton_ne by done. split; constructor.
Qed.

(** A task that changes between the lines of a walk is printed as it is then. *)
Example walk_mixes (t : task_struct) c x :
  let k := mk_kernel [1; 2]%nat {[ 1%nat := [2%nat] ]} {[ 1%nat := t; 2%nat := mk_task 2 [] 0 ]} in
  (printed <$> match wrun (replicate 4 T_walk ++ [T_change 2 c x] ++ replicate 3 T_walk)
       (walk_start k) with inr s => Some s | inl _ => None end) =
    Some [Parent 2 c x; Child_of (comm t) (pid t) 2 [] 0; Parent (pid t) (comm t) (state t)].
Proof. reflexivity. Qed.

(** The lists of a moment: process 1 and its child 2. *)
Lemma walk_prints_snapshot_witness :
  exists n, wrun (replicate n T_walk)
    (walk_start (mk_kernel [1%nat] ∅ {[ 1%nat := mk_task 1 [] 0 ]})) =
    inr (mk_walk (mk_kernel [1%nat] ∅ {[ 1%nat := mk_task 1 [] 0 ]}) W_done [Parent 1 [] 0]).
Proof.
  destruct (walk_prints_snapshot (mk_kernel [1%nat] ∅ {[ 1%nat := mk_task 1 [] 0 ]})) as [n Hn];
    [|exists n; exact Hn].
  split.
  - split; [apply NoDup_singleton|]. constructor; [|constructor]. eexists. reflexivity.
  - intros p. unfold kids_of. simpl. rewrite lookup_empty. split; constructor.
Defined.
