(* ===== verification/UdpSend.v ===== *)
(** * Sending UDP packets ([udp_send/version1], [udp_send/version2])

    Version 1 sends from a thread until it is stopped or a packet cannot be
    sent; loading is a run against the kernel, and the thread and unloading are
    steps that interleave.  Version 2 sends ten packets while it is loaded.
    The module parameters do not change while a module is loaded. *)

From S2P Require Export Resources Steps Bytes.

(** ** Addresses

    An integer in network order, on a little-endian machine. *)
Definition be_enc (n : nat) (z : Z) : bytes := rev (le_enc n z).
Definition cpu_to_be16 (x : Z) : Z := le_dec (be_enc 2 (u16 x)).
Definition cpu_to_be32 (x : Z) : Z := le_dec (be_enc 4 (u32 x)).

(** [struct sockaddr_in], its members as stored. *)
Record sockaddr_in := mk_sin { sin_family : Z; sin_port : bytes; sin_addr : bytes }.
Definition AF_INET : Z := 2.

Lemma le_enc_be n z : le_enc n (le_dec (be_enc n z)) = be_enc n z.
Proof.
  rewrite <- (le_enc_dec (be_enc n z)) at 2.
  - unfold be_enc. by rewrite length_rev, length_le_enc.
  - unfold be_enc. apply Forall_rev, le_enc_wf.
Qed.

(** ** Kernel calls *)

Inductive ucall :=
  | printk
  | sock_create_kern
  | sock_release
  | release_sock
  | dev_get_by_name (name : bytes)
  | inet_select_addr
  | sock_bind (sin : sockaddr_in)
  | sock_connect (sin : sockaddr_in)
  | kmalloc (size : Z)
  | kfree
  | kthread_run (name : bytes)
  | in_aton (addr : bytes)
  | kernel_sendmsg (sin : sockaddr_in) (data : bytes).

(** [inet_select_addr]: the address in network order; [kthread_run]: the error,
    or none. *)
#[export] Instance udp_api : KApi ucall := fun c =>
  match c with
  | sock_create_kern | inet_select_addr | sock_bind _ | sock_connect _ | in_aton _
  | kernel_sendmsg _ _ => Z
  | dev_get_by_name _ | kmalloc _ => bool
  | kthread_run _ => option Z
  | _ => unit
  end.

Inductive udp_rsrc := r_socket | r_info | r_thread.
#[export] Instance udp_rsrc_eq_dec : EqDecision udp_rsrc.
Proof. solve_decision. Defined.

(** [release_sock] gives back the lock of a socket, not the socket. *)
#[export] Instance udp_resources : Resources ucall := {|
  rsrc := udp_rsrc;
  acquires := fun c => match c as c0 return resp c0 -> list udp_rsrc with
    | sock_create_kern => fun r : Z => if r <? 0 then [] else [r_socket]
    | kmalloc _ => fun r : bool => if r then [r_info] else []
    | kthread_run _ => fun r : option Z => match r with None => [r_thread] | Some _ => [] end
    | _ => fun _ => []
    end;
  releases := fun c => match c as c0 return resp c0 -> list udp_rsrc with
    | sock_release => fun _ => [r_socket]
    | kfree => fun _ => [r_info]
    | _ => fun _ => []
    end;
|}.

(** How often a trace unlocks a socket.  Nothing in these modules locks one. *)
Definition is_unlock (c : ucall) : bool := match c with release_sock => true | _ => false end.
Definition unlocks (tr : trace ucall) : nat :=
  length (List.filter (fun c => is_unlock (projT1 c)) tr).

(** ** Version 1 *)

Module V1.

(** The module parameters and [kthreadtask]. *)
Record params := mk_params {
  ifname : bytes;
  buffer : bytes;
  dstip : Z;
  dstport : Z;
  timeout : Z;
}.
Definition defaults : params :=
  mk_params (str "wlo1") (str "This is udp lalala!" ++ [10]) 0xc0a80056 8000 1.

(** [struct threadInfo]: the socket is the one made by [my_init]. *)
Record state := mk_state {
  par : params;
  kthreadtask : kptr;
  tinfo : option bytes;
}.
Definition set_kthreadtask (t : kptr) (s : state) : state := mk_state (par s) t (tinfo s).
Definition set_tinfo (b : option bytes) (s : state) : state := mk_state (par s) (kthreadtask s) b.

Abbreviation U := (M ucall state).

Definition bind_to_device (ifname : bytes) : U Z :=
  dev ← call (dev_get_by_name ifname);
  if negb dev then call printk ;; mret (- ENODEV) else
  addr ← call inet_select_addr;
  err ← call (sock_bind (mk_sin AF_INET (le_enc 2 0) (le_enc 4 addr)));
  if err <? 0 then call printk ;; mret err else mret 0.

Definition connect_to_addr : U Z :=
  s ← get;
  err ← call (sock_connect (mk_sin AF_INET (le_enc 2 (cpu_to_be16 (dstport (par s))))
                             (le_enc 4 (cpu_to_be32 (dstip (par s))))));
  if err <? 0 then call printk ;; mret err else mret 0.

Definition create_error : U Z := mret (-1).
Definition connect_error : U Z :=
  call release_sock ;; modify (set_kthreadtask PNull) ;; create_error.
Definition thread_error : U Z := call kfree ;; connect_error.

Definition threadInfo_size : Z := 16.

Definition my_init : U Z :=
  err ← call sock_create_kern;
  if err <? 0 then call printk ;; create_error else
  s ← get;
  err ← bind_to_device (ifname (par s));
  if err <? 0 then call printk ;; connect_error else
  err ← connect_to_addr;
  if err <? 0 then call printk ;; connect_error else
  ok ← call (kmalloc threadInfo_size);
  if negb ok then call printk ;; connect_error else
  modify (set_tinfo (Some (buffer (par s)))) ;;
  t ← call (kthread_run (str "hell world!" ++ [10]));
  let task := match t with Some e => PErr e | None => POk end in
  modify (set_kthreadtask task) ;;
  if IS_ERR task then call printk ;; thread_error else
  mret 0.

(** *** The thread and unloading

    [sendmsg n] is the result of the [n]-th [kernel_sendmsg].  A new thread
    calls its function when it first runs, or ends without calling it when
    [kthread_stop] came first.  When the thread has ended its [task_struct] is
    gone, unless [kthread_stop] has already taken a reference. *)

Record shared := mk_shared {
  task : bool;               (* [kthreadtask] is not NULL *)
  should_stop : bool;
  sent : list bytes;         (* the packets handed to the socket, newest first *)
  unlocked : nat;            (* calls of [release_sock] *)
  info : bool;               (* [tinfo] is allocated *)
}.

Inductive send_pc :=
  | S_created                (* the function has not been called *)
  | S_check | S_send | S_sleep | S_null | S_release | S_free | S_returned
  | S_skipped.               (* ended without a call *)
Inductive exit_pc := X_test | X_call | X_stop | X_wait | X_print | X_gone.

Record sys := mk_sys { mem : shared; sender : send_pc; unloader : exit_pc }.

Section thread.
Context (p : params) (sendmsg : nat -> Z).

(** [len != strlen(buffer)] compares as [size_t]. *)
Definition sent_all (len : Z) : bool := u64 len =? Z.of_nat (length (buffer p)).

Definition send_udp (pc : send_pc) (m : shared) : shared * send_pc :=
  match pc with
  | S_created => (m, if should_stop m then S_skipped else S_check)
  | S_check => (m, if should_stop m then S_null else S_send)
  | S_send =>
      let len := sendmsg (length (sent m)) in
      (mk_shared (task m) (should_stop m) (buffer p :: sent m) (unlocked m) (info m),
       if sent_all len then S_sleep else S_null)
  | S_sleep => (m, S_check)
  | S_null => (mk_shared false (should_stop m) (sent m) (unlocked m) (info m), S_release)
  | S_release =>
      (mk_shared (task m) (should_stop m) (sent m) (S (unlocked m)) (info m), S_free)
  | S_free => (mk_shared (task m) (should_stop m) (sent m) (unlocked m) false, S_returned)
  | S_returned | S_skipped => (m, pc)
  end.

Definition returned (pc : send_pc) : bool :=
  match pc with S_returned | S_skipped => true | _ => false end.

(** [if (kthreadtask) kthread_stop(kthreadtask)] reads the variable twice. *)
Definition my_exit (s : sys) : fault + sys :=
  let m := mem s in
  match unloader s with
  | X_test => inr (mk_sys m (sender s) (if task m then X_call else X_print))
  | X_call => if task m then inr (mk_sys m (sender s) X_stop) else inl NullDeref
  | X_stop =>
      if returned (sender s) then inl UseAfterFree
      else inr (mk_sys (mk_shared (task m) true (sent m) (unlocked m) (info m)) (sender s) X_wait)
  | X_wait => if returned (sender s) then inr (mk_sys m (sender s) X_print) else inr s
  | X_print => inr (mk_sys m (sender s) X_gone)
  | X_gone => inr s
  end.

Inductive task_id := T_sender | T_unload.

Definition step (t : task_id) (s : sys) : fault + sys :=
  match t with
  | T_sender =>
      match sender s, unloader s with
      | (S_returned | S_skipped), _ => inr s
      | _, X_gone => inl UnloadedCode
      | pc, x => let '(m, pc') := send_udp pc (mem s) in inr (mk_sys m pc' x)
      end
  | T_unload => my_exit s
  end.

(** After a successful load. *)
Definition started : sys := mk_sys (mk_shared true false [] 0 true) S_created X_test.
End thread.
End V1.

(** ** Version 2 *)

Module V2.

Record state := mk_state { sock : bool; buffer : bytes }.
Definition initial : state := mk_state false (char_array 10 (str "hello" ++ [10])).
Definition set_sock (b : bool) (s : state) : state := mk_state b (buffer s).

Abbreviation U := (M ucall state).

(** [for (i = 0; i < n; i++)]; a NULL [sock] is followed by [kernel_sendmsg]. *)
Fixpoint send_loop (n : nat) (sin : sockaddr_in) (data : bytes) : U unit :=
  match n with
  | O => mret tt
  | S n' =>
      s ← get;
      if negb (sock s) then fail NullDeref else
      call (kernel_sendmsg sin data) ;; send_loop n' sin data
  end.

Definition ker_send_udp (ip_addr data : bytes) (len : nat) : U Z :=
  remote_ip ← call (in_aton ip_addr);
  let sin := mk_sin AF_INET (le_enc 2 (cpu_to_be16 65530)) (le_enc 4 remote_ip) in
  data ← or_fault OutOfBounds (load 0 (Z.of_nat len) data);
  send_loop 10 sin data ;; mret 0.

(** The pointer is stored only on success. *)
Definition my_init : U Z :=
  r ← call sock_create_kern;
  (if r <? 0 then mret tt else modify (set_sock true)) ;;
  s ← get;
  ker_send_udp (str "192.168.1.253") (buffer s) 10 ;; mret 0.

Definition my_exit : U unit :=
  s ← get;
  if negb (sock s) then fail NullDeref else call sock_release.
End V2.
