(* ===== verification/UdpTheorems.v ===== *)
(** * Sending UDP packets: the theorems *)

From S2P Require Export UdpSend.

(** ** Version 1: loading *)

(** What loading leaves: [L] held, and [n] sockets unlocked. *)
Definition leaves (tr : trace ucall) (L : list udp_rsrc) (n : nat) : Prop :=
  held tr = Some L /\ unlocks tr = n.

Lemma leaves_call c (a : resp c) (tr : trace ucall) L n L' :
  leaves tr L n -> remove_all (releases c a) L = Some L' ->
  leaves (existT c a :: tr) (acquires c a ++ L') ((if is_unlock c then 1 else 0) + n).
Proof.
  intros [Hh Hu] HL. split; [by rewrite (held_cons _ _ _ _ Hh), HL|].
  rewrite <- Hu. by destruct c.
Qed.

Ltac leaves_step :=
  lazymatch goal with
  | H : leaves ?tr _ _ |- wp (call ?c) ?e ?Q ?s ?tr =>
      let a := fresh "a" in
      apply (wp_call c e Q s tr);
      generalize (e tr c); intros a;
      pose proof (leaves_call c a tr _ _ _ H eq_refl) as Hnew; clear H;
      revert Hnew; generalize (existT c a :: tr); intros ? H; cbn in H
  | |- _ => wp_step
  end.
Ltac leaves_if b :=
  first [ match goal with E : b = _ |- _ => rewrite E end
        | match goal with H : leaves _ _ _ |- _ =>
            revert H; let E := fresh "E" in destruct b eqn:E; intros H; cbn in H end ].
Ltac leaves_case :=
  cbn [negb];
  lazymatch goal with
  | |- wp (if negb ?b then _ else _) _ _ _ _ => leaves_if b
  | |- wp (if IS_ERR match ?t with _ => _ end then _ else _) _ _ _ _ =>
      match goal with H : leaves _ _ _ |- _ => revert H; destruct t; intros H; cbn in H end
  | |- wp (if ?b then _ else _) _ _ _ _ => leaves_if b
  end; cbn [negb IS_ERR].

(** Loading version 1 either succeeds, holding the socket, the thread's data
    and the thread; or fails with -1, holding nothing if there was no socket,
    and otherwise keeping the socket forever after unlocking it, which nothing
    had locked. *)
Theorem v1_init_paths (e : env ucall) s :
  exists r s' tr, V1.my_init e s [] = Ok r s' tr /\
    (r = 0 /\ leaves tr [r_thread; r_info; r_socket] 0 /\
       V1.kthreadtask s' = POk /\ V1.tinfo s' = Some (V1.buffer (V1.par s)) \/
     r = -1 /\ leaves tr [] 0 \/
     r = -1 /\ leaves tr [r_socket] 1 /\ V1.kthreadtask s' = PNull).
Proof.
  assert (leaves [] [] 0) as H by done. revert H. generalize (@nil (event ucall)) as tr.
  intros tr H. apply wp_run. unfold V1.my_init, V1.bind_to_device, V1.connect_to_addr,
    V1.thread_error, V1.connect_error, V1.create_error.
  repeat (repeat leaves_step; leaves_case). all: repeat leaves_step;
    first [ left; split; [reflexivity|split; [exact H|split; reflexivity]]
          | right; left; split; [reflexivity|exact H]
          | right; right; split; [reflexivity|split; [exact H|reflexivity]] ].
Qed.

(** Whatever the parameters, the port and the address given to [connect] are
    stored most significant byte first. *)
Theorem connect_network_order (e : env ucall) s tr :
  exists r s' tr', V1.connect_to_addr e s tr = Ok r s' tr' /\
    sock_connect (mk_sin AF_INET (be_enc 2 (u16 (V1.dstport (V1.par s))))
                   (be_enc 4 (u32 (V1.dstip (V1.par s))))) ∈ projT1 <$> tr'.
Proof.
  apply wp_run. unfold V1.connect_to_addr. rewrite <- (le_enc_be 2), <- (le_enc_be 4). wp_go.
  case_match; wp_go; simpl; repeat constructor.
Qed.

Example default_destination :
  be_enc 4 (u32 (V1.dstip V1.defaults)) = [192; 168; 0; 86] /\
  be_enc 2 (u16 (V1.dstport V1.defaults)) = [31; 64].
Proof. split; reflexivity. Qed.

(** ** Version 1: the thread *)

Section thread.
Context (p : V1.params) (sendmsg : nat -> Z).
Hypothesis all_sent : forall n, V1.sent_all p (sendmsg n) = true.

Definition waiting (x : V1.exit_pc) : bool :=
  match x with V1.X_wait | V1.X_print | V1.X_gone => true | _ => false end.
Definition past_wait (x : V1.exit_pc) : bool :=
  match x with V1.X_print | V1.X_gone => true | _ => false end.
Definition in_loop (pc : V1.send_pc) : bool :=
  match pc with V1.S_created | V1.S_check | V1.S_send | V1.S_sleep => true | _ => false end.
Definition has_task (pc : V1.send_pc) : bool :=
  match pc with V1.S_null | V1.S_skipped => true | _ => in_loop pc end.
Definition has_freed (pc : V1.send_pc) : bool :=
  match pc with V1.S_returned => true | _ => false end.
Definition not_called (pc : V1.send_pc) : bool :=
  match pc with V1.S_created | V1.S_skipped => true | _ => false end.
Definition has_unlocked (pc : V1.send_pc) : bool :=
  match pc with V1.S_free | V1.S_returned => true | _ => false end.

(** Without send errors the thread ends only because it was told to, so
    [kthreadtask] is reset only while unloading waits. *)
Record inv (s : V1.sys) : Prop := {
  inv_stop : V1.should_stop (V1.mem s) = waiting (V1.unloader s);
  inv_past : past_wait (V1.unloader s) = true -> V1.returned (V1.sender s) = true;
  inv_ends : in_loop (V1.sender s) = false -> waiting (V1.unloader s) = true;
  inv_task : V1.task (V1.mem s) = has_task (V1.sender s);
  inv_info : V1.info (V1.mem s) = negb (has_freed (V1.sender s));
  inv_unlocked : V1.unlocked (V1.mem s) = if has_unlocked (V1.sender s) then 1%nat else 0%nat;
  inv_sent : Forall (fun d => d = V1.buffer p) (V1.sent (V1.mem s));
  inv_not_called : not_called (V1.sender s) = true -> V1.sent (V1.mem s) = [];
}.

Lemma started_inv : inv V1.started.
Proof using. by split. Qed.

Lemma udp_step_inv t s : inv s -> exists s', V1.step p sendmsg t s = inr s' /\ inv s'.
Proof using all_sent.
  destruct s as [[task stop sent unl info] pc x]. intros [H1 H2 H3 H4 H5 H6 H7 H8]. simpl in *. subst.
  destruct t; simpl.
  - destruct pc, x; simpl in *; try (by specialize (H2 eq_refl)); try (by specialize (H3 eq_refl));
      rewrite ?all_sent; (eexists; split; [reflexivity|]); split; simpl; try done; auto.
  - destruct x, pc; simpl in *; try (by specialize (H2 eq_refl)); try (by specialize (H3 eq_refl));
      (eexists; split; [reflexivity|]); split; simpl; try done; auto.
Qed.

(** C15: While no send fails, no interleaving of the thread with unloading
    faults; every packet sent is the buffer; and when unloading has returned the
    thread has ended: after having been called, with its data freed and the
    socket unlocked once; or, when it was stopped before it first ran, without
    having been called, so that nothing was sent and its data is never freed.
    (The socket is still there in both cases.) *)
Theorem v1_thread_safe sched :
  exists s, steps (V1.step p sendmsg) sched V1.started = inr s /\
    Forall (fun d => d = V1.buffer p) (V1.sent (V1.mem s)) /\
    (V1.unloader s = V1.X_gone ->
       V1.sender s = V1.S_returned /\ V1.info (V1.mem s) = false /\
         V1.unlocked (V1.mem s) = 1%nat \/
       V1.sender s = V1.S_skipped /\ V1.info (V1.mem s) = true /\
         V1.unlocked (V1.mem s) = 0%nat /\ V1.sent (V1.mem s) = []).
Proof using all_sent.
  destruct (steps_inv _ (fun _ => True) inv (fun t s _ => udp_step_inv t s) sched V1.started)
    as (s & Hs & Hinv); [by apply Forall_forall|apply started_inv|].
  exists s. split; [done|]. split; [apply inv_sent, Hinv|]. intros E.
  assert (V1.returned (V1.sender s) = true) as Er by (apply (inv_past _ Hinv); by rewrite E).
  rewrite (inv_info _ Hinv), (inv_unlocked _ Hinv). pose proof (inv_not_called _ Hinv) as Hn.
  destruct (V1.sender s); try done; [by left|right]. by rewrite Hn.
Qed.

(** From wherever the thread and unloading have got to, eleven more steps
    finish both. *)
Theorem v1_unload_completes sched s :
  steps (V1.step p sendmsg) sched V1.started = inr s ->
  exists s', steps (V1.step p sendmsg)
      (replicate 3 V1.T_unload ++ replicate 6 V1.T_sender ++ replicate 2 V1.T_unload) s = inr s' /\
    V1.unloader s' = V1.X_gone /\ V1.returned (V1.sender s') = true.
Proof using all_sent.
  intros Hs. destruct (steps_inv _ (fun _ => True) inv (fun t s _ => udp_step_inv t s) sched V1.started)
    as (s1 & Hs1 & Hinv); [by apply Forall_forall|apply started_inv|].
  assert (s1 = s) as -> by congruence. clear Hs Hs1.
  destruct s as [[task stop sent unl info] pc x]. destruct Hinv as [H1 H2 H3 H4 _ _ _ _].
  simpl in *. subst. destruct pc, x; simpl in *;
    try (by specialize (H2 eq_refl)); try (by specialize (H3 eq_refl));
    repeat (rewrite ?all_sent; simpl); by eexists.
Qed.
End thread.

(** Once a send fails the thread ends on its own, and unloading can stop a NULL
    pointer, stop a task that is gone, or return while the thread still has
    code of the module to run. *)
Theorem v1_unload_races p sendmsg :
  V1.sent_all p (sendmsg 0%nat) = false ->
  steps (V1.step p sendmsg) ([V1.T_unload] ++ replicate 4 V1.T_sender ++ [V1.T_unload]) V1.started =
    inl NullDeref /\
  steps (V1.step p sendmsg) (replicate 2 V1.T_unload ++ replicate 6 V1.T_sender ++ [V1.T_unload])
    V1.started = inl UseAfterFree /\
  steps (V1.step p sendmsg) (replicate 4 V1.T_sender ++ replicate 2 V1.T_unload ++ [V1.T_sender])
    V1.started = inl UnloadedCode.
Proof. intros H. split_and!; simpl; rewrite H; reflexivity. Qed.

(** ** Version 2 *)

Lemma send_loop_spec n sin data (e : env ucall) s tr :
  V2.sock s = true ->
  wp (V2.send_loop n sin data) e (fun _ s' tr' => s' = s /\ held tr' = held tr /\
    projT1 <$> tr' = replicate n (kernel_sendmsg sin data) ++ (projT1 <$> tr)) s tr.
Proof.
  revert tr. induction n as [|n IH]; intros tr Hs; [by split|]. simpl.
  wp_go. rewrite Hs. cbn [negb]. wp_go. eapply wp_mono; [by apply IH|].
  intros _ s' tr' (-> & -> & ->). split; [done|]. split.
  - simpl. by destruct (held tr).
  - rewrite fmap_cons. simpl. generalize (projT1 <$> tr). clear.
    intros l. induction n as [|n IH]; simpl; [done|]. by f_equal.
Qed.

(** Version 2 sends its ten-byte buffer, the four NULs at the end included, ten
    times and holds one socket, which unloading gives back; when the socket
    cannot be created the result is not checked, and sending follows NULL. *)
Theorem v2_sends (e : env ucall) :
  let err := e [] sock_create_kern : Z in
  let remote_ip := e [existT sock_create_kern err] (in_aton (str "192.168.1.253")) : Z in
  let sin := mk_sin AF_INET [255; 250] (le_enc 4 remote_ip) in
  let data := str "hello" ++ [10; 0; 0; 0; 0] in
  if err <? 0 then exists s tr, V2.my_init e V2.initial [] = Fault NullDeref s tr
  else exists s tr tr', V2.my_init e V2.initial [] = Ok 0 s tr /\
    calls tr = [sock_create_kern; in_aton (str "192.168.1.253")] ++
      replicate 10 (kernel_sendmsg sin data) /\
    held tr = Some [r_socket] /\
    V2.my_exit e s tr = Ok tt s tr' /\ held tr' = Some [].
Proof.
  intros err remote_ip sin data. destruct (err <? 0) eqn:E.
  - unfold V2.my_init. eexists _, _. unfold mbind, M_bind at 1. simpl.
    change (e [] sock_create_kern) with err. rewrite E. reflexivity.
  - enough (wp V2.my_init e (fun r s tr => r = 0 /\ V2.sock s = true /\
      projT1 <$> tr = replicate 10 (kernel_sendmsg sin data) ++
        [in_aton (str "192.168.1.253"); sock_create_kern] /\
      held tr = Some [r_socket]) V2.initial []) as Hwp.
    { apply wp_run in Hwp as (r & s & tr & Hr & -> & Hs & Hc & Hh).
      eexists s, tr, _. split; [done|]. split; [unfold calls; by rewrite Hc|]. split; [done|].
      unfold V2.my_exit, mbind, M_bind, get. rewrite Hs. cbn [negb].
      split; [unfold call; f_equal; apply unit_eta|]. simpl. by rewrite Hh. }
    unfold V2.my_init, V2.ker_send_udp. wp_step. wp_step. fold err. rewrite E. wp_go.
    apply wp_bind. eapply wp_mono; [by apply send_loop_spec|].
    intros _ s tr (-> & Hh & Hc). wp_go. split; [done|]. split; [done|]. split; [exact Hc|].
    rewrite Hh. simpl. fold err. by rewrite E.
Qed.

(** ** Witnesses *)

(** Unloaded before the thread first runs: its data is leaked. *)
Example v1_stopped_at_once :
  steps (V1.step V1.defaults (fun _ => 20))
    (replicate 3 V1.T_unload ++ [V1.T_sender] ++ replicate 2 V1.T_unload) V1.started =
  inr (V1.mk_sys (V1.mk_shared true true [] 0 true) V1.S_skipped V1.X_gone).
Proof. reflexivity. Qed.

Lemma v1_thread_safe_witness :
  exists s, steps (V1.step V1.defaults (fun _ => 20))
    [V1.T_sender; V1.T_unload; V1.T_sender; V1.T_unload; V1.T_unload] V1.started = inr s /\
    Forall (fun d => d = V1.buffer V1.defaults) (V1.sent (V1.mem s)).
Proof.
  destruct (v1_thread_safe V1.defaults (fun _ => 20) (fun n => eq_refl)
    [V1.T_sender; V1.T_unload; V1.T_sender; V1.T_unload; V1.T_unload]) as (s & H1 & H2 & _).
  exists s. split; [exact H1|exact H2].
Defined.

Lemma v1_unload_completes_witness :
  exists s', steps (V1.step V1.defaults (fun _ => 20))
      (replicate 3 V1.T_unload ++ replicate 6 V1.T_sender ++ replicate 2 V1.T_unload)
      (V1.mk_sys (V1.mk_shared true false [] 0 true) V1.S_send V1.X_test) = inr s' /\
    V1.unloader s' = V1.X_gone /\ V1.returned (V1.sender s') = true.
Proof.
  apply (v1_unload_completes V1.defaults (fun _ => 20) (fun n => eq_refl) [V1.T_sender; V1.T_sender]).
  reflexivity.
Defined.

(** [ECONNREFUSED] is 111. *)
Lemma v1_unload_races_witness :
  steps (V1.step V1.defaults (fun _ => -111))
    ([V1.T_unload] ++ replicate 4 V1.T_sender ++ [V1.T_unload]) V1.started = inl NullDeref.
Proof.
  destruct (v1_unload_races V1.defaults (fun _ => -111)) as (H & _ & _); [reflexivity|exact H].
Defined.
